(* ===== verification/_CoqProject ===== *)
-Q . S2P
Prelude.v
Util.v
Protocol.v
Buffer.v
Codec.v
MessageStore.v
Serializer.v
MessageService.v
Infra.v
Overload.v
Heartbeat.v
Auth.v
Poller.v
TcpConnection.v
ThreadPool.v
Server.v
Wire.v
WireMany.v
Text.v
Address.v
Clock.v
StoreSpec.v
Sql.v
Tables.v
MySql.v
MySqlStore.v
MySqlSpec.v
MySqlRepos.v
MySqlAtomic.v
MySqlRefines.v
MySqlTheorems.v
MySqlSessions.v
Config.v
Logging.v
Startup.v
ConnEffects.v
OutputRoom.v
TcpServer.v
TcpServerProofs.v
Dispatch.v
Shutdown.v
StopOrder.v
RedisClient.v
RedisSpec.v
RedisServices.v
MetricsText.v
MetricsServer.v
EventLoop.v
LoopThreads.v
BasicServer.v
Wiring.v
