(* ===== verification/Prelude.v ===== *)
(** * Verification of HC-TCP-IM-Server

    An instant-messaging server in C++: clients connect over TCP, log in, send
    messages to each other and broadcasts, acknowledge what they receive and
    pull what they missed.  This library models its components as executable
    Rocq definitions translated from the source and proves what makes them
    correct.

    ** The program and its models

    One event loop thread owns the sockets.  [EpollPoller] reports events to
    [Channel]s, a [TcpConnection] reads bytes into a [Buffer] and gives them to
    the message callback, where the [Codec] cuts them into packets.  The packet
    callback of server_full.cpp checks the rate limits, decodes the request and
    hands a task to the [ThreadPool]; the workers call the services (auth,
    message, heartbeat, routing), which send packets back through the
    connection.  A retry thread resends messages that were not acknowledged and
    a heartbeat thread closes connections that are silent.

    - Prelude.v (this file): machine integers as [Z] with their wrap-around,
      bytes and strings, the type [res] of operations that can fail an assertion
      or throw, tactics, and lemmas the components share.
    - Util.v (src/base/util.cpp): byte order and string helpers.
    - Protocol.v (src/codec/protocol.h, protocol.cpp, protoCodec.cpp): messages,
      constants and the checksum.
    - Buffer.v (src/codec/buffer.h, buffer.cpp): storage and indices as in the
      class; a refinement to a queue of bytes.
    - Codec.v (src/codec/codec.h, codec.cpp): packing and the incremental parser;
      callbacks are the emitted events.
    - MessageStore.v (src/storage/messageStore.h and the in-memory part of
      messageStore.cpp): the interface [IMessageStore] with its laws, and
      [InMemoryMessageStore], which satisfies them.
    - Serializer.v (src/codec/messageSerializer.cpp): every message to and from
      JSON, over a class that lists what the source uses of nlohmann::json.
    - MessageService.v (src/service/messageService.cpp): sending, acknowledging,
      pulling, broadcasting and retrying, over any store with the laws.
    - Infra.v (src/infra/): token bucket, circuit breaker, metrics, trace
      contexts.  Doubles are a class with two instances: exact rationals, and
      IEEE binary64 as the program runs it.
    - Overload.v, Heartbeat.v, Auth.v (src/service/): admission control, health
      of connections, sessions and routes.
    - Poller.v (src/net/channel.cpp, epollPoller.cpp): which descriptors the
      kernel watches.
    - TcpConnection.v (src/net/tcpConnection.cpp, the functor queue of
      eventLoop.cpp): reading, writing, water marks and the life of a connection.
    - ThreadPool.v (src/base/threadpool.h, threadpool.cpp, blockingQueue.h): the
      pool at the grain of its locked and atomic accesses, all threads
      interleaving.
    - Server.v (src/server_full.cpp): the callbacks [main] installs and the tasks
      they submit, composed from the components above.
    - Wire.v (the message callback of src/server_full.cpp): codec, server and
      connection composed, from the bytes of a client to the bytes it gets back.
    - WireMany.v: the same for any number of clients behind the one codec.
    - Text.v: decimal numbers and C strings, as the standard library writes and
      reads them.
    - Address.v (src/net/inetAddress.h), Clock.v (src/net/timestamp.cpp, the
      clocks of src/base/util.cpp, GenerateTraceId of src/infra/traceContext.cpp).
    - StoreSpec.v, Sql.v, Tables.v: the abstract message store, SQL texts with
      escaped values, and the tables of src/sql/001_m2_reliable_message.sql with
      an interpreter of the statements the server sends.
    - MySql.v (src/storage/mysqlClient.cpp and the three repositories),
      MySqlStore.v (MySqlMessageStore of messageStore.cpp): the statements, the
      rows and the transactions, over libmysqlclient as a class.  MySqlSpec.v
      states its laws and gives a database that satisfies them; MySqlRepos.v,
      MySqlAtomic.v, MySqlRefines.v, MySqlTheorems.v and MySqlSessions.v prove
      the properties.
    - Config.v (src/base/config.cpp): the INI reader and the typed getters.
    - Startup.v (the start of [main] in src/server_full.cpp): command line,
      settings, log, construction of all components; the shipped
      conf/server.ini.
    - ConnEffects.v, OutputRoom.v, TcpServer.v, TcpServerProofs.v
      (src/net/tcpServer.cpp, the destructor of TcpConnection): what an operation
      of a connection does to the loop and to its output buffer, the server's
      table of connections, many connections on one loop, and how long their
      objects live.
    - Dispatch.v (EventLoop::loop, EpollPoller::poll, Channel::handleEvent): a
      turn of the loop over these connections.
    - Shutdown.v (~TcpServer, ~TcpConnection, ~Channel) and StopOrder.v (the end
      of [main], the threads of the services): what happens after the loop.
    - RedisClient.v (src/base/redisClient.cpp) over hiredis as a class,
      RedisSpec.v (documented Redis commands, the laws of hiredis, the contract
      of the client) and RedisServices.v (sessions and routes of several nodes
      over one Redis).
    - MetricsText.v (MetricsRegistry::renderPrometheus) and MetricsServer.v
      (src/http/metricsServer.cpp): the text of the metrics, the answer to a
      request for it, and the life of the serving thread.
    - EventLoop.v (src/net/eventLoop.cpp): the phases of the loop, its queue and
      the wake-up descriptor, with other threads interleaving.
    - LoopThreads.v (src/net/currentThread.cpp, the thread checks, channels,
      constructor and destructor of src/net/eventLoop.cpp): functors as programs
      of calls to the loop, run by interleaved threads.
    - Logging.v (src/base/log.cpp, the trace contexts of src/server_full.cpp):
      the logger, the text of a line, and the scopes whose context it carries.
    - BasicServer.v (src/server.cpp): start and callbacks of the smaller server.
    - Wiring.v: the setters of the services in the order [main] calls them, the
      signal handler, and the stop of the smaller server.

    ** How the code is represented

    A class is a record of its fields, an operation a function from state to
    state with its result.  An exception is [None] or an error value, a failed
    [assert] is [Err AssertionFailed].  Clock readings, random numbers, the
    kernel's answers to read, write and accept, and [connected()] are arguments
    or come from an environment that may answer differently at every query, so
    a theorem holds for all of them.  Third-party code is a parameter: the JSON
    library ([JsonLib], laws [JsonLaws]), libmysqlclient with its server
    ([LibMySql], laws in MySqlSpec.v), hiredis with its server ([Hiredis],
    laws [HiredisLaws]), each with an instance that satisfies the laws, the
    sinks of spdlog ([SpdLog]) and the generated protobuf code, about which
    nothing is assumed.  The theorems on the services alone assume nothing about
    Redis and the session table either.  Operations under a mutex are atomic.
    Objects that are shared by pointer (channels, user contexts) live in a table.

    ** What is proved

    - The wire format: packets are delivered exactly once and in order for every
      fragmentation of the stream; on arbitrary bytes of any number of
      connections the parser ends, reads no byte it has not got and delivers only
      frames with the right length and checksum; a changed byte is detected; JSON bodies are read back as written.
    - Storage and delivery: numbers given to a receiver's messages have no gaps,
      a message waits until it is acknowledged and every pull from below it has it
      or a full page of earlier ones, repeated requests store nothing, retries are bounded and justified, an
      acknowledgement ends them, a message is stored before it is delivered.
    - The network layer: a connection is a faithful pipe within its buffer limit,
      its connect, disconnect and close callbacks are exactly those its state asks
      for, in order, and the poller's view of the kernel is exact.
    - The services: a connection is authenticated by a login with the user's
      token until it logs out, the breaker and the rate limiter implement their
      contracts, kicks hit exactly the connections that are due by their history,
      connection and message limits hold when used as intended.
    - The thread pool: tasks run in order and at most once, a draining stop
      terminates and, with at least one worker, loses nothing, the queue limit holds up to the number of
      concurrent callers.
    - The whole server: the answers to a request and the tasks that still owe one
      are never more than the requests and fall short of them only by the
      exceptions thrown, and nobody acts for a user without the user's token; both
      also from the state [main] builds.  The first also from bytes to bytes, when
      no answer is refused by a full output buffer and the output has drained: for
      a client that alone sends packed requests, however both streams are cut; and
      for every one of many clients that send well-formed frames through the
      shared codec, as long as no read event ends inside a payload.
    - The MySQL store behaves as the in-memory store for names the collation
      tells apart, keeps its tables paired under any failure of the library, and
      no value escapes its quotes; numbering goes on after a restart; the
      session table is a map.
    - Configuration files are read back as they say, and [main] comes up or
      stops as its command line, configuration, log file and threads allow.
    - Many connections on one loop, for a server name of at most 51 characters:
      the table of the server holds exactly the live ones, no queued functor
      fails, sends of other threads included, and an object is released only when
      nothing refers to it; no callback runs on a destroyed connection, for any report of the kernel and
      any interleaving of other threads and destructors with the turn.
    - The end of the process: its destructors pass their assertions exactly when
      no connection is registered any more.
    - The Redis client is a typed store with expiry that frees every reply;
      sessions and routes written by one node are read by the others that look
      them up there, until they expire.
    - The event loop runs functors in order and once, and loses no wake-up;
      while other threads use only its thread-safe calls, every functor and
      every channel operation runs on the loop's own thread, however nested.
    - A log line reads back as its level, thread, message and the trace context
      of the innermost scope when no identifier holds a space, and scopes restore the context also when left by
      an exception.
    - A scrape of the metrics is a well-formed response that reads back as the
      recorded samples.
    - Defects, as theorems about the same definitions: a codec shared between
      connections drops valid packets, a stop with an open connection aborts, the
      answers of tasks that finish after the loop are lost; and, as lemmas,
      descriptors of closed connections are never closed, the heartbeat thread
      reads its service after its destruction, colliding deduplication keys leak a message, an
      acknowledgement out of order strands a message, a refused connection frees
      a slot it never took, the end of an old connection silences the user's new
      one, a second message without client identifier is refused by MySQL, names
      that differ in case share messages there, names that agree up to a NUL
      byte share Redis entries, a lost Redis connection is final, a metrics port
      in use ends the program at shutdown, the basic server kicks everybody after
      ten seconds, a log file that cannot be opened crashes the start, a user
      identifier forges log fields, a pool configured with no threads accepts
      tasks and runs none, a failed eventfd leaves a loop nobody can
      wake, and others.

    ** Bounds and fuel

    The parsing loop of the codec takes fuel; [onMessage] gives it one round per
    buffered byte and one more, and [onMessage_total] shows that it never runs
    out.  Loops over the kernel's answers (read, write) are structural in the
    list of answers.  Buffer sizes are bounded by the largest [std::vector] of
    bytes, identifiers by 2^64; the theorems that need room say so.  The exact
    burst of the binary64 token bucket is computed for every burst up to 300,
    which covers the per-user and per-address limits of the configuration.

    ** Where a model is coarser than the code

    In Server.v a worker runs its task in one step, and [sendPacket] records every
    packet as sent, whatever the state of the connection; what becomes of a packet
    is in TcpConnection.v, Wire.v and Shutdown.v.  Dispatch.v leaves the loop's
    wake-up channel out of the poller, and EventLoop.v and LoopThreads.v, which
    have it, leave the connections out.  The steps of EventLoop.v have no [quit]
    by a signal on the loop's own thread between the test of [m_quit] and the
    poll; [signal_before_poll_waits] shows what happens then.  A status column
    outside the enumeration is an error in MySql.v, where the code casts it.  The
    connections of TcpServer.v keep the output limit of the constructor.

    ** Not modelled

    The texts of the log messages, the inside of spdlog (its sinks' mutexes, the
    flushing thread), the blocking of epoll_wait, and the branches for Windows.
    The pool pointer that only chooses on which thread a Redis write of the
    heartbeat service runs is not a field; the writes are events.  The generated
    protobuf code is a parameter.  The programs under tests/ (unit tests, a
    console client and a benchmark) are not part of the server. *)
From Stdlib Require Export ZArith Lia Ascii.
From Stdlib Require String.
From stdpp Require Export base tactics decidable list strings gmap fin_maps.

Open Scope Z_scope.

(** ** Errors

    C++ code that can leave its normal path is modelled with [res]: a failed
    [assert], a [std::length_error], [std::out_of_range] or
    [std::invalid_argument] thrown by a standard container or conversion, a
    [std::system_error] of a thread that cannot be made, a read outside a buffer's
    readable bytes ([OutOfRange] as well), a null pointer that is followed, and a
    loop model that ran out of fuel. *)
Inductive err :=
| AssertionFailed
| LengthError
| OutOfRange
| InvalidArgument
| NullPointer
| SystemError
| OutOfFuel.

Inductive res (A : Type) :=
| Ok (a : A)
| Err (e : err).
Arguments Ok {A} a.
Arguments Err {A} e.

Definition res_bind {A B} (m : res A) (f : A -> res B) : res B :=
  match m with Ok a => f a | Err e => Err e end.

Declare Scope im_scope.
Delimit Scope im_scope with im.
Notation "x <- m ;; k" := (res_bind m (fun x => k))
  (at level 100, m at next level, right associativity) : im_scope.
Notation "' p <- m ;; k" := (res_bind m (fun x => match x with p => k end))
  (at level 100, p pattern, m at next level, right associativity) : im_scope.
Open Scope im_scope.

(** [assert(b)] of <cassert>. *)
Definition assert_ (b : bool) : res () := if b then Ok () else Err AssertionFailed.

(** ** Machine integers: values in [Z], wrap-around written out. *)
Definition u8 (z : Z) : Z := z mod 2 ^ 8.
Definition u16 (z : Z) : Z := z mod 2 ^ 16.
Definition u32 (z : Z) : Z := z mod 2 ^ 32.
Definition u64 (z : Z) : Z := z mod 2 ^ 64.

Definition i32 (z : Z) : Z := (z + 2 ^ 31) mod 2 ^ 32 - 2 ^ 31.
Definition i64 (z : Z) : Z := (z + 2 ^ 63) mod 2 ^ 64 - 2 ^ 63.

Notation bytes := (list ascii).

Definition byte_val (c : ascii) : Z := Z.of_N (N_of_ascii c).
Definition byte_of (z : Z) : ascii := ascii_of_N (Z.to_N (z mod 256)).

(** Bytes of an unsigned integer in memory order of a little-endian host, what
    [memcpy] from or to a [uintN_t] moves. *)
Fixpoint le_bytes (n : nat) (x : Z) : bytes :=
  match n with
  | O => []
  | S n' => byte_of x :: le_bytes n' (x / 256)
  end.

Fixpoint le_val (bs : bytes) : Z :=
  match bs with
  | [] => 0
  | b :: bs' => byte_val b + 256 * le_val bs'
  end.

(** Network order. *)
Definition be_bytes (n : nat) (x : Z) : bytes := rev (le_bytes n x).
Definition be_val (bs : bytes) : Z := le_val (rev bs).

(** [bytes] of a [std::string]. *)
Notation chars := Stdlib.Strings.String.list_ascii_of_string.
Notation str := Stdlib.Strings.String.string_of_list_ascii.

(** Overwrite [length d] cells of [buf] from offset [i]: [std::copy] and
    [memcpy] into an allocated block. *)
Definition write_at (i : nat) (d : bytes) (buf : bytes) : bytes :=
  take i buf ++ d ++ drop (i + length d) buf.

(** The cells [i, i + n) of a block. *)
Definition slice (i n : nat) (buf : bytes) : bytes := take n (drop i buf).

(** Identity of a [TcpConnection] object ([std::shared_ptr] to it). *)
Notation ConnId := nat.

(** ** Automation *)
Create HintDb im discriminated.

Ltac res_inv :=
  repeat match goal with
  | H : Ok _ = Ok _ |- _ => injection H as H; try subst
  | H : Ok _ = Err _ |- _ => discriminate H
  | H : Err _ = Ok _ |- _ => discriminate H
  | H : Err _ = Err _ |- _ => injection H as H; try subst
  end.

(** Split conjunctions only (never unfolds a definition). *)
Ltac splits := repeat match goal with |- _ /\ _ => split end.

(** Case on every boolean test of the goal, turning comparisons into
    propositions. *)
Ltac case_if :=
  match goal with
  | |- context [if ?b then _ else _] =>
    let E := fresh "E" in destruct b eqn:E
  end.

Ltac b2p :=
  repeat match goal with
  | H : _ && _ = true |- _ => apply andb_true_iff in H; destruct H
  | H : _ || _ = false |- _ => apply orb_false_iff in H; destruct H
  | H : negb _ = true |- _ => apply negb_true_iff in H
  | H : negb _ = false |- _ => apply negb_false_iff in H
  | H : (_ <? _)%Z = true |- _ => apply Z.ltb_lt in H
  | H : (_ <? _)%Z = false |- _ => apply Z.ltb_ge in H
  | H : (_ <=? _)%Z = true |- _ => apply Z.leb_le in H
  | H : (_ <=? _)%Z = false |- _ => apply Z.leb_gt in H
  | H : (_ =? _)%Z = true |- _ => apply Z.eqb_eq in H
  | H : (_ =? _)%Z = false |- _ => apply Z.eqb_neq in H
  | H : bool_decide _ = true |- _ => apply bool_decide_eq_true in H
  | H : bool_decide _ = false |- _ => apply bool_decide_eq_false in H
  end.

(** ** Lemmas on machine integers *)
Lemma u16_small z : 0 <= z < 2 ^ 16 -> u16 z = z.
Proof. apply Z.mod_small. Qed.
Lemma u32_small z : 0 <= z < 2 ^ 32 -> u32 z = z.
Proof. apply Z.mod_small. Qed.
Lemma u64_small z : 0 <= z < 2 ^ 64 -> u64 z = z.
Proof. apply Z.mod_small. Qed.
Lemma u16_range z : 0 <= u16 z < 2 ^ 16.
Proof. apply Z.mod_pos_bound. lia. Qed.
Lemma u32_range z : 0 <= u32 z < 2 ^ 32.
Proof. apply Z.mod_pos_bound. lia. Qed.
Lemma u64_range z : 0 <= u64 z < 2 ^ 64.
Proof. apply Z.mod_pos_bound. lia. Qed.
Lemma i64_small z : - 2 ^ 63 <= z < 2 ^ 63 -> i64 z = z.
Proof. intros H. unfold i64. rewrite Z.mod_small; lia. Qed.

#[export] Hint Resolve u16_range u32_range u64_range : im.

(** ** Lemmas on bytes *)
Lemma byte_val_range c : 0 <= byte_val c < 256.
Proof.
  unfold byte_val. pose proof (N_ascii_bounded c). lia.
Qed.

Lemma byte_val_of z : byte_val (byte_of z) = z mod 256.
Proof.
  unfold byte_val, byte_of. pose proof (Z.mod_pos_bound z 256 ltac:(lia)).
  rewrite N_ascii_embedding by lia. lia.
Qed.

Lemma byte_of_val c : byte_of (byte_val c) = c.
Proof.
  unfold byte_of. pose proof (byte_val_range c).
  rewrite Z.mod_small by lia. unfold byte_val. rewrite N2Z.id. apply ascii_N_embedding.
Qed.

Lemma byte_val_inj c d : byte_val c = byte_val d -> c = d.
Proof. intros H. rewrite <- (byte_of_val c), <- (byte_of_val d). by rewrite H. Qed.

Lemma length_le_bytes n x : length (le_bytes n x) = n.
Proof. revert x; induction n; intros; simpl; auto. Qed.

Lemma length_be_bytes n x : length (be_bytes n x) = n.
Proof. unfold be_bytes. by rewrite length_rev, length_le_bytes. Qed.

Lemma le_val_range bs : 0 <= le_val bs < 2 ^ (8 * Z.of_nat (length bs)).
Proof.
  induction bs as [|b bs IH]; simpl length; simpl le_val; [lia|].
  pose proof (byte_val_range b).
  replace (8 * Z.of_nat (S (length bs))) with (8 + 8 * Z.of_nat (length bs)) by lia.
  rewrite Z.pow_add_r by lia. lia.
Qed.

Lemma le_val_bytes n x : le_val (le_bytes n x) = x mod 2 ^ (8 * Z.of_nat n).
Proof.
  revert x; induction n as [|n IH]; intros x; simpl le_bytes; simpl le_val.
  { by rewrite Z.mod_1_r. }
  rewrite IH, byte_val_of.
  replace (8 * Z.of_nat (S n)) with (8 + 8 * Z.of_nat n) by lia.
  rewrite Z.pow_add_r by lia. change (2 ^ 8) with 256.
  rewrite Z.rem_mul_r by lia. lia.
Qed.

Lemma le_bytes_val bs : le_bytes (length bs) (le_val bs) = bs.
Proof.
  induction bs as [|b bs IH]; simpl; [done|].
  pose proof (byte_val_range b).
  f_equal.
  - rewrite <- (byte_of_val b) at 2. unfold byte_of. do 2 f_equal.
    rewrite (Z.mul_comm 256), Z.mod_add by lia. done.
  - rewrite (Z.mul_comm 256), Z.div_add, Z.div_small, Z.add_0_l by lia. done.
Qed.

Lemma le_bytes_mod n x : le_bytes n (x mod 2 ^ (8 * Z.of_nat n)) = le_bytes n x.
Proof.
  rewrite <- le_val_bytes. rewrite <- (length_le_bytes n x) at 1. apply le_bytes_val.
Qed.

Lemma be_val_bytes n x : be_val (be_bytes n x) = x mod 2 ^ (8 * Z.of_nat n).
Proof. unfold be_val, be_bytes. by rewrite rev_involutive, le_val_bytes. Qed.

Lemma le_bytes_add n m x :
  le_bytes (n + m) x = le_bytes n x ++ le_bytes m (x / 2 ^ (8 * Z.of_nat n)).
Proof.
  revert x; induction n as [|n IH]; intros x.
  { simpl. by rewrite Z.div_1_r. }
  simpl plus. simpl le_bytes. rewrite IH. simpl. do 2 f_equal.
  rewrite Z.div_div by lia. f_equal.
  replace (8 * Z.of_nat (S n)) with (8 + 8 * Z.of_nat n) by lia.
  by rewrite Z.pow_add_r by lia.
Qed.

(** ** Lemmas on blocks *)
Lemma length_write_at i d buf :
  (i + length d <= length buf)%nat -> length (write_at i d buf) = length buf.
Proof.
  intros H. unfold write_at. rewrite !length_app, length_take, length_drop. lia.
Qed.

Lemma slice_write_at i d buf :
  (i + length d <= length buf)%nat -> slice i (length d) (write_at i d buf) = d.
Proof.
  intros H. unfold slice, write_at.
  rewrite drop_app_length' by (rewrite length_take; lia).
  by rewrite take_app_length.
Qed.

Lemma take_write_at i d buf :
  (i <= length buf)%nat -> take i (write_at i d buf) = take i buf.
Proof.
  intros H. unfold write_at. rewrite take_app_length'; [done|]. rewrite length_take. lia.
Qed.

Lemma slice_take_write_at i n j d buf :
  (i + n <= j)%nat -> (j <= length buf)%nat ->
  slice i n (write_at j d buf) = slice i n buf.
Proof.
  intros H Hj. unfold slice.
  rewrite !take_drop_commute.
  f_equal. transitivity (take (i + n) (take j (write_at j d buf))).
  { rewrite take_take. f_equal. lia. }
  rewrite take_write_at by done. rewrite take_take. f_equal. lia.
Qed.

Lemma slice_slice_app i n m buf :
  slice i (n + m) buf = slice i n buf ++ slice (i + n) m buf.
Proof.
  unfold slice. rewrite <- drop_drop.
  rewrite <- (take_drop n (drop i buf)) at 1.
  destruct (decide (n <= length (drop i buf))%nat) as [Hl|Hl].
  - rewrite take_app_ge by (rewrite length_take; lia).
    f_equal. f_equal. rewrite length_take. lia.
  - rewrite (drop_ge (drop i buf)) by lia. rewrite take_nil, !app_nil_r.
    rewrite take_take. f_equal. lia.
Qed.

Lemma length_slice i n buf :
  (i + n <= length buf)%nat -> length (slice i n buf) = n.
Proof. intros H. unfold slice. rewrite length_take, length_drop. lia. Qed.

(** ** Lemmas on lists *)
Lemma Forall_filter {A} (P Q : A -> Prop) `{forall x, Decision (Q x)} (l : list A) :
  Forall P l -> Forall P (filter Q l).
Proof.
  induction 1; [constructor|]. rewrite filter_cons. case_decide; [by constructor|done].
Qed.

Lemma length_omap {A B} (f : A -> option B) (l : list A) :
  (length (omap f l) <= length l)%nat.
Proof. induction l as [|x l IH]; csimpl; [done|]. destruct (f x); csimpl; lia. Qed.

(** ** Strings and their bytes *)
Lemma length_chars s : length (chars s) = String.length s.
Proof. induction s; simpl; auto. Qed.

Lemma chars_app s t : chars (s +:+ t) = chars s ++ chars t.
Proof. induction s; simpl; [done|]. by f_equal. Qed.

Lemma str_chars s : str (chars s) = s.
Proof. apply Stdlib.Strings.String.string_of_list_ascii_of_string. Qed.

Lemma chars_str l : chars (str l) = l.
Proof. apply Stdlib.Strings.String.list_ascii_of_string_of_list_ascii. Qed.

#[export] Hint Rewrite str_chars chars_str length_chars chars_app : im.
#[export] Hint Resolve byte_val_range length_le_bytes length_be_bytes : im.
