(* ===== verification/Util.v ===== *)
(** * util: byte order and string helpers (src/base/util.cpp)

    Byte-order conversions are modelled on a little-endian host, the branch
    [__BYTE_ORDER != __BIG_ENDIAN] of the source: [htons]/[htonl] reverse the
    bytes of their operand, and the 64-bit conversions are the source's own
    expression over [htonl].  The theorems show that storing a converted
    integer with [memcpy] writes its big-endian bytes, and that the two
    directions are inverse of each other.  The string helpers follow the
    standard algorithms they call. *)
From S2P Require Import Prelude.

Module util.

(** htons / htonl of <arpa/inet.h> on a little-endian host. *)
Definition bswap (n : nat) (x : Z) : Z := le_val (rev (le_bytes n x)).
Definition htons (x : Z) : Z := bswap 2 x.
Definition htonl (x : Z) : Z := bswap 4 x.

Definition HostToNetwork16 (host16 : Z) : Z := htons host16.
Definition NetworkToHost16 (net16 : Z) : Z := htons net16.
Definition HostToNetwork32 (host32 : Z) : Z := htonl host32.
Definition NetworkToHost32 (net32 : Z) : Z := htonl net32.

Definition HostToNetwork64 (host64 : Z) : Z :=
  Z.lor (u64 (Z.shiftl (htonl (Z.land host64 0xFFFFFFFF)) 32))
        (htonl (Z.shiftr host64 32)).

Definition NetworkToHost64 (net64 : Z) : Z :=
  Z.lor (u64 (Z.shiftl (htonl (Z.land net64 0xFFFFFFFF)) 32))
        (htonl (Z.shiftr net64 32)).

(** [std::tolower] and [std::toupper] in the C locale. *)
Definition tolower (c : ascii) : ascii :=
  if (65 <=? byte_val c) && (byte_val c <=? 90) then byte_of (byte_val c + 32) else c.
Definition toupper (c : ascii) : ascii :=
  if (97 <=? byte_val c) && (byte_val c <=? 122) then byte_of (byte_val c - 32) else c.

Definition ToLower (s : string) : string := str (map tolower (chars s)).
Definition ToUpper (s : string) : string := str (map toupper (chars s)).

(** [str.compare(pos, len, other) == 0] on in-range positions. *)
Definition StartWith (s prefix : string) : bool :=
  if (String.length s <? String.length prefix)%nat then false
  else bool_decide (take (String.length prefix) (chars s) = chars prefix).

Definition EndWith (s suffix : string) : bool :=
  if (String.length s <? String.length suffix)%nat then false
  else bool_decide
         (slice (String.length s - String.length suffix) (String.length suffix) (chars s)
          = chars suffix).

(** [std::getline(ss, token, delimiter)] until the stream is exhausted: a
    token ends at a delimiter, which is dropped, and a stream whose remaining
    input is empty yields no further token. *)
Fixpoint getline_all (delimiter : ascii) (token : bytes) (s : bytes) : list bytes :=
  match s with
  | [] => match token with [] => [] | _ => [token] end
  | c :: s' =>
    if bool_decide (c = delimiter) then token :: getline_all delimiter [] s'
    else getline_all delimiter (token ++ [c]) s'
  end.

Definition SplitString (s : string) (delimiter : ascii) : list string :=
  map (fun t => str t) (getline_all delimiter [] (chars s)).

(** The set of [find_first_not_of(" \t\n\r")]. *)
Definition is_blank (c : ascii) : bool :=
  let v := byte_val c in (v =? 32) || (v =? 9) || (v =? 10) || (v =? 13).

Fixpoint find_first_not_of (p : ascii -> bool) (s : bytes) : option nat :=
  match s with
  | [] => None
  | c :: s' => if p c then S <$> find_first_not_of p s' else Some O
  end.

Definition find_last_not_of (p : ascii -> bool) (s : bytes) : option nat :=
  (fun i => (length s - 1 - i)%nat) <$> find_first_not_of p (rev s).

Definition TrimString (s : string) : string :=
  let cs := chars s in
  match find_first_not_of is_blank cs, find_last_not_of is_blank cs with
  | Some start, Some end_ => str (slice start (end_ - start + 1) cs)
  | _, _ => ""
  end.

(** ** Byte order *)
Lemma le_bytes_bswap n x : le_bytes n (bswap n x) = be_bytes n x.
Proof.
  unfold bswap, be_bytes. rewrite <- (length_le_bytes n x) at 1.
  rewrite <- length_rev. apply le_bytes_val.
Qed.

Lemma bswap_range n x : 0 <= bswap n x < 2 ^ (8 * Z.of_nat n).
Proof.
  unfold bswap. pose proof (le_val_range (rev (le_bytes n x))) as H.
  by rewrite length_rev, length_le_bytes in H.
Qed.

Lemma bswap_le_val bs : bswap (length bs) (le_val bs) = be_val bs.
Proof. unfold bswap, be_val. by rewrite le_bytes_val. Qed.

Lemma le_val_app bs cs :
  le_val (bs ++ cs) = le_val bs + 2 ^ (8 * Z.of_nat (length bs)) * le_val cs.
Proof.
  induction bs as [|b bs IH]; simpl le_val; simpl length; [simpl; lia|].
  simpl app. simpl le_val. rewrite IH.
  replace (8 * Z.of_nat (S (length bs))) with (8 + 8 * Z.of_nat (length bs)) by lia.
  rewrite Z.pow_add_r by lia. lia.
Qed.

Lemma lor_shift_add a b n : 0 <= n -> 0 <= b < 2 ^ n -> Z.lor (Z.shiftl a n) b = a * 2 ^ n + b.
Proof.
  intros Hn Hb. rewrite <- Z.shiftl_mul_pow2 by done.
  symmetry. apply Z.add_nocarry_lor. clear -Hn Hb.
  all: apply Z.bits_inj'; intros i Hi; rewrite Z.land_spec, Z.bits_0;
    destruct (Z.ltb_spec i n);
    [ rewrite Z.shiftl_spec_low by lia; done
    | rewrite (Z.testbit_eqb b) by lia; rewrite Z.div_small;
      [by rewrite andb_false_r | split; [lia|]; apply Z.lt_le_trans with (2 ^ n); [lia|];
       apply Z.pow_le_mono_r; lia ] ].
Qed.

Lemma HostToNetwork64_bswap x : HostToNetwork64 x = bswap 8 x.
Proof.
  unfold HostToNetwork64, htonl, bswap.
  change 8%nat with (4 + 4)%nat at 1. rewrite le_bytes_add, rev_app_distr, le_val_app.
  rewrite length_rev, length_le_bytes.
  change 0xFFFFFFFF with (Z.ones 32). rewrite Z.land_ones by lia.
  change (x mod 2 ^ 32) with (x mod 2 ^ (8 * Z.of_nat 4)). rewrite le_bytes_mod.
  pose proof (bswap_range 4 x) as Hl. unfold bswap in Hl.
  pose proof (bswap_range 4 (x / 2 ^ 32)) as Hh. unfold bswap in Hh.
  unfold u64. rewrite Z.shiftr_div_pow2 by lia.
  rewrite Z.shiftl_mul_pow2, Z.mod_small by lia.
  rewrite <- Z.shiftl_mul_pow2 by lia.
  change (2 ^ (8 * Z.of_nat 4)) with (2 ^ 32) in *.
  rewrite lor_shift_add by (done || lia).
  change (2 ^ (8 * Z.of_nat 4)) with (2 ^ 32). lia.
Qed.

(** Storing the converted value writes the big-endian bytes. *)
Lemma store16 x : le_bytes 2 (HostToNetwork16 x) = be_bytes 2 x.
Proof. apply le_bytes_bswap. Qed.
Lemma store32 x : le_bytes 4 (HostToNetwork32 x) = be_bytes 4 x.
Proof. apply le_bytes_bswap. Qed.
Lemma store64 x : le_bytes 8 (HostToNetwork64 x) = be_bytes 8 x.
Proof. rewrite HostToNetwork64_bswap. apply le_bytes_bswap. Qed.

(** Loading big-endian bytes and converting gives the value back. *)
Lemma load16 bs : length bs = 2%nat -> NetworkToHost16 (le_val bs) = be_val bs.
Proof. intros H. rewrite <- bswap_le_val, H. done. Qed.
Lemma load32 bs : length bs = 4%nat -> NetworkToHost32 (le_val bs) = be_val bs.
Proof. intros H. rewrite <- bswap_le_val, H. done. Qed.
Lemma load64 bs : length bs = 8%nat -> NetworkToHost64 (le_val bs) = be_val bs.
Proof.
  intros H. change NetworkToHost64 with HostToNetwork64.
  rewrite HostToNetwork64_bswap, <- bswap_le_val, H. done.
Qed.

#[export] Hint Rewrite store16 store32 store64 : im.

Lemma bswap_involutive n x : bswap n (bswap n x) = x mod 2 ^ (8 * Z.of_nat n).
Proof.
  unfold bswap at 1. rewrite le_bytes_bswap. unfold be_bytes.
  by rewrite rev_involutive, le_val_bytes.
Qed.

(** ** Strings *)
Lemma find_first_not_of_spec p s :
  match find_first_not_of p s with
  | Some i => Forall (fun c => p c = true) (take i s)
              /\ exists c, s !! i = Some c /\ p c = false
  | None => Forall (fun c => p c = true) s
  end.
Proof.
  induction s as [|c s IH]; simpl; [constructor|].
  destruct (p c) eqn:E; simpl.
  - destruct (find_first_not_of p s); simpl; [|by constructor].
    destruct IH as [H1 H2]. split; [by constructor|done].
  - split; [constructor|eauto].
Qed.

Lemma getline_all_no_delim d t s :
  d ∉ t -> Forall (fun tok => d ∉ tok) (getline_all d t s).
Proof.
  revert t; induction s as [|c s IH]; intros t Ht; simpl.
  - destruct t; repeat constructor; done.
  - case_bool_decide; [constructor; [done|]; apply IH; set_solver|].
    apply IH. set_solver.
Qed.

(** Lines that end with the delimiter are read back. *)
Lemma getline_line d t s tok :
  d ∉ t -> getline_all d tok (t ++ d :: s) = (tok ++ t) :: getline_all d [] s.
Proof.
  revert tok; induction t as [|c t IH]; intros tok Ht.
  - simpl. rewrite bool_decide_eq_true_2 by done. by rewrite app_nil_r.
  - apply not_elem_of_cons in Ht as [Hc Ht]. simpl.
    rewrite bool_decide_eq_false_2 by congruence. rewrite IH by done. by rewrite <- app_assoc.
Qed.

Lemma getline_file d lines :
  Forall (fun l => d ∉ l) lines -> getline_all d [] (mjoin (map (fun l => l ++ [d]) lines)) = lines.
Proof.
  induction 1 as [|l lines Hl _ IH]; [done|]. simpl. rewrite <- app_assoc. simpl.
  rewrite (getline_line d l _ [] Hl). by rewrite IH.
Qed.

Lemma getline_all_cat d t s :
  t ++ s = mjoin ((fun tok => tok ++ [d]) <$> getline_all d t s)
  \/ t ++ s ++ [d] = mjoin ((fun tok => tok ++ [d]) <$> getline_all d t s).
Proof.
  revert t; induction s as [|c s IH]; intros t; simpl.
  - destruct t as [|x t]; simpl; [by left|]. right. by rewrite app_nil_r.
  - case_bool_decide as E; simpl.
    + subst. destruct (IH []) as [H|H]; simpl in H; [left|right];
        rewrite <- app_assoc; simpl; do 2 f_equal; done.
    + destruct (IH (t ++ [c])) as [H|H]; [left|right]; rewrite <- H, <- app_assoc; done.
Qed.

End util.
