(* ===== verification/Protocol.v ===== *)
(** * protocol: constants, messages and the frame checksum
      (src/codec/protocol.h, src/codec/protocol.cpp, src/codec/protoCodec.cpp)

    Enumerations with a fixed underlying type that the code compares with
    integers read from the wire ([Command], [PacketFlags], [ErrorCode],
    [AckCode]) are constants of [Z]; the ones it only switches on
    ([PayloadFormat], [DeliveryStatus]) are inductive types.  The checksum is
    the source's bit loop; the theorems give its range, its value on the
    reference input of CRC-16/CCITT-FALSE, and that it separates any two
    payloads that differ in one byte. *)
From S2P Require Import Prelude Util.

Module protocol.

Definition kMagicNumber : Z := 0xABCD1234.
Definition kProtocolVersionV1 : Z := 1.
Definition kHeaderSize : Z := 44.
Definition kMaxMessageSize : Z := 64 * 1024 * 1024.

Inductive PayloadFormat := Json | Protobuf.

(** PacketFlags *)
Definition kFlagNone : Z := 0x0000.
Definition kFlagRequest : Z := 0x0001.
Definition kFlagResponse : Z := 0x0002.
Definition kFlagAck : Z := 0x0004.
Definition kFlagRetry : Z := 0x0008.

(** ErrorCode *)
Definition ErrOk : Z := 0.
Definition ErrInvalidPacket : Z := 1001.
Definition ErrUnsupportedVersion : Z := 1002.
Definition ErrChecksumMismatch : Z := 1003.
Definition ErrPayloadTooLarge : Z := 1004.
Definition ErrAuthFailed : Z := 2001.
Definition ErrServerBusy : Z := 5001.

(** Command *)
Definition CmdLoginReq : Z := 0x0001.
Definition CmdLoginResp : Z := 0x0002.
Definition CmdHeartbeatReq : Z := 0x0003.
Definition CmdHeartbeatResp : Z := 0x0004.
Definition CmdP2pMsgReq : Z := 0x0005.
Definition CmdP2pMsgResp : Z := 0x0006.
Definition CmdP2pMsgNotify : Z := 0x0007.
Definition CmdBroadcastMsgReq : Z := 0x0008.
Definition CmdBroadcastMsgNotify : Z := 0x0009.
Definition CmdKickUserReq : Z := 0x000A.
Definition CmdKickUserResp : Z := 0x000B.
Definition CmdMessageAckReq : Z := 0x000C.
Definition CmdMessageAckResp : Z := 0x000D.
Definition CmdPullOfflineReq : Z := 0x000E.
Definition CmdPullOfflineResp : Z := 0x000F.

Inductive DeliveryStatus :=
| DeliveryCreated
| DeliveryPersisted
| DeliveryDelivering
| DeliveryDelivered
| DeliveryFailed
| DeliveryRead.

(** AckCode *)
Definition AckReceived : Z := 0.
Definition AckRead : Z := 1.

Record PacketHeader := mkPacketHeader {
  magic : Z;
  version : Z;
  headerLen : Z;
  totalLen : Z;
  command : Z;
  flags : Z;
  requestId : Z;
  clientSeq : Z;
  serverSeq : Z;
  errorCode : Z;
  checksum : Z;
}.

(** The default member initializers. *)
Definition defaultPacketHeader : PacketHeader :=
  mkPacketHeader kMagicNumber kProtocolVersionV1 kHeaderSize kHeaderSize
    0 kFlagNone 0 0 0 ErrOk 0.

Record LoginReq := mkLoginReq {
  lreq_userId : string; lreq_token : string; lreq_deviceId : string }.
Record LoginResp := mkLoginResp {
  lresp_resultCode : Z; lresp_resultMsg : string; lresp_sessionId : string }.
Record HeartbeatReq := mkHeartbeatReq {}.
Record HeartbeatResp := mkHeartbeatResp { hbresp_serverTime : Z }.
Record P2PMsgReq := mkP2PMsgReq {
  preq_fromUserId : string; preq_toUserId : string;
  preq_clientMsgId : string; preq_content : string }.
Record P2PMsgResp := mkP2PMsgResp {
  presp_resultCode : Z; presp_resultMsg : string;
  presp_msgId : Z; presp_serverSeq : Z }.
Record P2PMsgNotify := mkP2PMsgNotify {
  n_msgId : Z;
  n_serverSeq : Z;
  n_fromUserId : string;
  n_toUserId : string;
  n_clientMsgId : string;
  n_content : string;
  n_timestamp : Z;
}.
Record BroadcastMsgReq := mkBroadcastMsgReq {
  breq_fromUserId : string; breq_content : string }.
Record BroadcastMsgNotify := mkBroadcastMsgNotify {
  bn_fromUserId : string; bn_content : string; bn_timestamp : Z }.
Record KickUserReq := mkKickUserReq {
  kreq_targetUserId : string; kreq_reason : string }.
Record KickUserResp := mkKickUserResp {
  kresp_resultCode : Z; kresp_resultMsg : string }.
Record MessageAckReq := mkMessageAckReq {
  areq_msgId : Z; areq_serverSeq : Z; areq_ackCode : Z }.
Record MessageAckResp := mkMessageAckResp {
  aresp_resultCode : Z; aresp_resultMsg : string; aresp_serverSeq : Z }.
Record PullOfflineReq := mkPullOfflineReq {
  oreq_userId : string; oreq_lastAckedSeq : Z; oreq_limit : Z }.
Record OfflineItem := mkOfflineItem {
  oi_msgId : Z;
  oi_serverSeq : Z;
  oi_fromUserId : string;
  oi_toUserId : string;
  oi_clientMsgId : string;
  oi_content : string;
  oi_timestamp : Z;
}.
Record PullOfflineResp := mkPullOfflineResp {
  oresp_resultCode : Z; oresp_resultMsg : string;
  oresp_nextBeginSeq : Z; oresp_messages : list OfflineItem }.

#[export] Instance DeliveryStatus_eq_dec : EqDecision DeliveryStatus.
Proof. solve_decision. Defined.
#[export] Instance PayloadFormat_eq_dec : EqDecision PayloadFormat.
Proof. solve_decision. Defined.
#[export] Instance PacketHeader_eq_dec : EqDecision PacketHeader.
Proof. solve_decision. Defined.
#[export] Instance P2PMsgNotify_eq_dec : EqDecision P2PMsgNotify.
Proof. solve_decision. Defined.

Definition IsResponseCommand (command : Z) : bool :=
  (command =? CmdLoginResp) || (command =? CmdHeartbeatResp)
  || (command =? CmdP2pMsgResp) || (command =? CmdKickUserResp)
  || (command =? CmdMessageAckResp) || (command =? CmdPullOfflineResp).

Definition GuessFlagsFromCommand (command : Z) : Z :=
  if (command =? CmdP2pMsgNotify) || (command =? CmdBroadcastMsgNotify) then kFlagNone
  else if command =? CmdMessageAckReq then Z.lor kFlagRequest kFlagAck
  else if command =? CmdMessageAckResp then Z.lor kFlagResponse kFlagAck
  else if IsResponseCommand command then kFlagResponse else kFlagRequest.

(** One round of the inner loop [for (int j = 0; j < 8; ++j)]. *)
Definition crc_bit (crc : Z) : Z :=
  if Z.land crc 0x8000 =? 0 then u16 (Z.shiftl crc 1)
  else u16 (Z.lxor (Z.shiftl crc 1) 0x1021).

(** One round of the outer loop. *)
Definition crc_byte (crc : Z) (b : ascii) : Z :=
  Nat.iter 8 crc_bit (u16 (Z.lxor crc (Z.shiftl (byte_val b) 8))).

Definition CalcCRC16 (data : bytes) : Z := foldl crc_byte 0xFFFF data.

(** ProtoCodec *)
Definition parsePayloadFormat (value : string) : PayloadFormat :=
  let lowered := util.ToLower value in
  if bool_decide (lowered = "protobuf") || bool_decide (lowered = "proto")
  then Protobuf else Json.

Definition toString (format : PayloadFormat) : string :=
  match format with Protobuf => "protobuf" | Json => "json" end.

(** ** The checksum *)
Lemma crc_bit_range crc : 0 <= crc_bit crc < 2 ^ 16.
Proof. unfold crc_bit. case_match; apply u16_range. Qed.

Lemma crc_byte_range crc b : 0 <= crc_byte crc b < 2 ^ 16.
Proof. unfold crc_byte. simpl Nat.iter. apply crc_bit_range. Qed.

Lemma CalcCRC16_range data : 0 <= CalcCRC16 data < 2 ^ 16.
Proof.
  unfold CalcCRC16. destruct data as [|b data] using rev_ind; [simpl; lia|].
  rewrite foldl_app. apply crc_byte_range.
Qed.

(** A left inverse of [crc_bit] on 16-bit values: the low bit of the result
    tells which branch was taken. *)
Definition crc_bit_inv (crc : Z) : Z :=
  if Z.land crc 1 =? 0 then Z.shiftr crc 1
  else Z.lor (Z.shiftr (Z.lxor crc 0x1021) 1) 0x8000.

Fixpoint all_from (n : nat) (c : Z) (p : Z -> bool) : bool :=
  match n with
  | O => true
  | S n' => p c && all_from n' (c + 1) p
  end.

Lemma all_from_spec n c p x :
  all_from n c p = true -> c <= x < c + Z.of_nat n -> p x = true.
Proof.
  revert c; induction n as [|n IH]; intros c H Hx; [lia|]. simpl in H. b2p.
  destruct (decide (x = c)) as [->|]; [done|]. apply (IH (c + 1)); [done|lia].
Qed.

Lemma crc_bit_inv_table :
  all_from (256 * 256) 0 (fun c => crc_bit_inv (crc_bit c) =? c) = true.
Proof. vm_compute. reflexivity. Qed.

Lemma crc_bit_invertible c : 0 <= c < 2 ^ 16 -> crc_bit_inv (crc_bit c) = c.
Proof.
  intros H. apply Z.eqb_eq.
  apply (all_from_spec (256 * 256) 0 (fun c => crc_bit_inv (crc_bit c) =? c));
    [apply crc_bit_inv_table|lia].
Qed.

Lemma crc_bits_inj n c d :
  0 <= c < 2 ^ 16 -> 0 <= d < 2 ^ 16 ->
  Nat.iter n crc_bit c = Nat.iter n crc_bit d -> c = d.
Proof.
  intros Hc Hd. induction n as [|n IH]; simpl; [done|]. intros E. apply IH.
  assert (R : forall x, 0 <= x < 2 ^ 16 -> 0 <= Nat.iter n crc_bit x < 2 ^ 16).
  { intros x Hx. destruct n; simpl; [done|apply crc_bit_range]. }
  rewrite <- (crc_bit_invertible (Nat.iter n crc_bit c)) by auto.
  rewrite <- (crc_bit_invertible (Nat.iter n crc_bit d)) by auto.
  by rewrite E.
Qed.

Lemma lxor_16 a b : 0 <= a < 2 ^ 16 -> 0 <= b < 2 ^ 16 -> 0 <= Z.lxor a b < 2 ^ 16.
Proof.
  intros Ha Hb. split; [apply Z.lxor_nonneg; lia|].
  destruct (decide (Z.lxor a b = 0)) as [->|Hne]; [lia|].
  assert (0 <= Z.lxor a b) by (apply Z.lxor_nonneg; lia).
  apply Z.log2_lt_pow2; [lia|].
  assert (L : forall x, 0 <= x < 2 ^ 16 -> Z.log2 x < 16).
  { intros x Hx. destruct (decide (x = 0)) as [->|]; [done|].
    apply Z.log2_lt_pow2; lia. }
  pose proof (Z.log2_lxor a b ltac:(lia) ltac:(lia)).
  pose proof (L a Ha). pose proof (L b Hb). lia.
Qed.

Lemma lxor_cancel_r a b c : Z.lxor a c = Z.lxor b c -> a = b.
Proof.
  intros E. apply (f_equal (fun z => Z.lxor z c)) in E.
  by rewrite !Z.lxor_assoc, !Z.lxor_nilpotent, !Z.lxor_0_r in E.
Qed.

Lemma shifted_byte_16 b : 0 <= Z.shiftl (byte_val b) 8 < 2 ^ 16.
Proof. pose proof (byte_val_range b). rewrite Z.shiftl_mul_pow2; lia. Qed.

#[local] Hint Resolve lxor_16 shifted_byte_16 : im.

(** The step is injective in the register for a fixed byte. *)
Lemma crc_byte_inj_crc b c d :
  0 <= c < 2 ^ 16 -> 0 <= d < 2 ^ 16 -> crc_byte c b = crc_byte d b -> c = d.
Proof.
  intros Hc Hd E. unfold crc_byte in E.
  rewrite !u16_small in E by auto with im.
  apply crc_bits_inj in E; [|auto with im..].
  by apply lxor_cancel_r in E.
Qed.

(** The step is injective in the byte for a fixed register. *)
Lemma crc_byte_inj_byte c a b :
  0 <= c < 2 ^ 16 -> crc_byte c a = crc_byte c b -> a = b.
Proof.
  intros Hc E. unfold crc_byte in E.
  rewrite !u16_small in E by auto with im.
  apply crc_bits_inj in E; [|auto with im..].
  rewrite !(Z.lxor_comm c) in E. apply lxor_cancel_r in E. apply byte_val_inj.
  rewrite !Z.shiftl_mul_pow2 in E; lia.
Qed.

Lemma foldl_crc_inj data c d :
  0 <= c < 2 ^ 16 -> 0 <= d < 2 ^ 16 ->
  foldl crc_byte c data = foldl crc_byte d data -> c = d.
Proof.
  revert c d; induction data as [|b data IH]; intros c d Hc Hd; simpl; [done|].
  intros E. apply IH in E; [|apply crc_byte_range..]. by eapply crc_byte_inj_crc.
Qed.

(** Two payloads that differ in exactly one byte have different checksums. *)
Lemma CalcCRC16_one_byte pre a b post :
  a <> b -> CalcCRC16 (pre ++ a :: post) <> CalcCRC16 (pre ++ b :: post).
Proof.
  intros Hab E. apply Hab. unfold CalcCRC16 in E. rewrite !foldl_app in E. simpl in E.
  apply foldl_crc_inj in E; [|apply crc_byte_range..].
  eapply crc_byte_inj_byte; [|exact E]. apply CalcCRC16_range.
Qed.

Lemma parse_toString f : parsePayloadFormat (toString f) = f.
Proof. by destruct f. Qed.

End protocol.
