(* ===== verification/Buffer.v ===== *)
(** * Buffer: the byte queue of a connection (src/codec/buffer.h, buffer.cpp)

    [m_buffer] is the backing [std::vector<char>], the two indexes are
    [size_t] values: subtractions and additions wrap modulo [2 ^ 64], failed
    [assert]s and [vector::resize] beyond [max_size()] are errors.  [wf] is the
    layout picture of the header comment, [content] the readable region.
    Every operation preserves [wf], never fails an assertion on a well-formed
    buffer used within its preconditions, and refines a plain queue of bytes
    ([bspec]); sequences of operations refine it too. *)
From S2P Require Import Prelude.

Module buffer.

Definition kCheapPrepend : Z := 8.
Definition kInitialSize : Z := 1024.

(** [std::vector<char>::max_size()] on a 64-bit target. *)
Definition max_size : Z := 2 ^ 63 - 1.

Record Buffer := mkBuffer {
  m_buffer : bytes;
  m_readerIndex : Z;
  m_writerIndex : Z;
}.

Definition newBuffer : Buffer :=
  mkBuffer (replicate (Z.to_nat (kCheapPrepend + kInitialSize)) zero)
           kCheapPrepend kCheapPrepend.

Definition size (b : Buffer) : Z := Z.of_nat (length (m_buffer b)).

Definition readableBytes (b : Buffer) : Z := u64 (m_writerIndex b - m_readerIndex b).
Definition writableBytes (b : Buffer) : Z := u64 (size b - m_writerIndex b).
Definition prependableBytes (b : Buffer) : Z := m_readerIndex b.

(** The [n] bytes from the pointer [peek() + off]. *)
Definition peek (off n : Z) (b : Buffer) : bytes :=
  slice (Z.to_nat (m_readerIndex b + off)) (Z.to_nat n) (m_buffer b).

(** Bytes read through a pointer [peek() + off]: those past the readable region
    are not the buffer's to read. *)
Definition read_at (off n : Z) (b : Buffer) : res bytes :=
  if off + n <=? readableBytes b then Ok (peek off n b) else Err OutOfRange.

Definition retrieveAll (b : Buffer) : Buffer :=
  mkBuffer (m_buffer b) kCheapPrepend kCheapPrepend.

Definition retrieve (len : Z) (b : Buffer) : res Buffer :=
  _ <- assert_ (len <=? readableBytes b) ;;
  if len <? readableBytes b
  then Ok (mkBuffer (m_buffer b) (u64 (m_readerIndex b + len)) (m_writerIndex b))
  else Ok (retrieveAll b).

Definition retrieveAsString (len : Z) (b : Buffer) : res (bytes * Buffer) :=
  _ <- assert_ (len <=? readableBytes b) ;;
  let result := peek 0 len b in
  b' <- retrieve len b ;;
  Ok (result, b').

Definition retrieveAllAsString (b : Buffer) : res (bytes * Buffer) :=
  retrieveAsString (readableBytes b) b.

(** [m_buffer.resize(n)]: new cells are value-initialized. *)
Definition resize (n : Z) (buf : bytes) : res bytes :=
  if max_size <? n then Err LengthError
  else Ok (take (Z.to_nat n) buf ++ replicate (Z.to_nat n - length buf) zero).

Definition makeSpace (len : Z) (b : Buffer) : res Buffer :=
  if u64 (writableBytes b + prependableBytes b) <? u64 (len + kCheapPrepend)
  then buf <- resize (u64 (m_writerIndex b + len)) (m_buffer b) ;;
       Ok (mkBuffer buf (m_readerIndex b) (m_writerIndex b))
  else
    let readable := readableBytes b in
    let moved := write_at (Z.to_nat kCheapPrepend) (peek 0 readable b) (m_buffer b) in
    let b' := mkBuffer moved kCheapPrepend (u64 (kCheapPrepend + readable)) in
    _ <- assert_ (readable =? readableBytes b') ;;
    Ok b'.

Definition ensureWritableBytes (len : Z) (b : Buffer) : res Buffer :=
  b' <- (if writableBytes b <? len then makeSpace len b else Ok b) ;;
  _ <- assert_ (len <=? writableBytes b') ;;
  Ok b'.

(** Bytes stored through the pointer [beginWrite()]. *)
Definition writeAtWriter (d : bytes) (b : Buffer) : Buffer :=
  mkBuffer (write_at (Z.to_nat (m_writerIndex b)) d (m_buffer b))
           (m_readerIndex b) (m_writerIndex b).

Definition hasWritten (len : Z) (b : Buffer) : res Buffer :=
  _ <- assert_ (len <=? writableBytes b) ;;
  Ok (mkBuffer (m_buffer b) (m_readerIndex b) (u64 (m_writerIndex b + len))).

Definition append (data : bytes) (b : Buffer) : res Buffer :=
  let len := Z.of_nat (length data) in
  b' <- ensureWritableBytes len b ;;
  hasWritten len (writeAtWriter data b').

(** What [readv] finds on the socket: available bytes (none at end of
    stream), of which the kernel moves as many as the two regions of the
    [iovec] hold, or a failure, reported as [-1] with [errno]. *)
Inductive read_result :=
| ReadData (avail : bytes)
| ReadError (errno : Z).

(** [sizeof(extrabuf)] *)
Definition kExtraBuf : Z := 65536.

(** Returns the value of [readv], the saved errno and the buffer. *)
Definition readFd (r : read_result) (b : Buffer) : res (Z * option Z * Buffer) :=
  let writable := writableBytes b in
  match r with
  | ReadError errno => Ok (-1, Some errno, b)
  | ReadData avail =>
    let data := take (Z.to_nat (writable + kExtraBuf)) avail in
    let n := Z.of_nat (length data) in
    let b1 := writeAtWriter (take (Z.to_nat writable) data) b in
    if n <=? writable
    then Ok (n, None, mkBuffer (m_buffer b1) (m_readerIndex b1) (u64 (m_writerIndex b1 + n)))
    else
      let b2 := mkBuffer (m_buffer b1) (m_readerIndex b1) (size b1) in
      b3 <- append (drop (Z.to_nat writable) data) b2 ;;
      Ok (n, None, b3)
  end.

(** ** Well-formedness and the readable region *)
Definition wf (b : Buffer) : Prop :=
  kCheapPrepend <= m_readerIndex b <= m_writerIndex b
  /\ m_writerIndex b <= size b <= max_size.

Definition content (b : Buffer) : bytes :=
  slice (Z.to_nat (m_readerIndex b))
        (Z.to_nat (m_writerIndex b - m_readerIndex b)) (m_buffer b).

Definition blen (d : bytes) : Z := Z.of_nat (length d).

(** The room left below [max_size] after [b]'s written region. *)
Definition has_room (n : Z) (b : Buffer) : Prop := m_writerIndex b + n <= max_size.

Ltac wf_destruct H :=
  let a := fresh "Hix" in let b := fresh "Hix" in
  let c := fresh "Hix" in let d := fresh "Hix" in
  destruct H as [[a b] [c d]].
Ltac buf_lia := unfold blen, max_size, kCheapPrepend, size in *; simpl in *; lia.

Lemma newBuffer_wf : wf newBuffer.
Proof. repeat split; vm_compute; intros [=]. Qed.

Lemma newBuffer_content : content newBuffer = [].
Proof. reflexivity. Qed.

Lemma readableBytes_wf b : wf b -> readableBytes b = m_writerIndex b - m_readerIndex b.
Proof. intros H. wf_destruct H. unfold readableBytes. apply u64_small. buf_lia. Qed.

Lemma writableBytes_wf b : wf b -> writableBytes b = size b - m_writerIndex b.
Proof. intros H. wf_destruct H. unfold writableBytes. apply u64_small. buf_lia. Qed.

Lemma content_length b : wf b -> blen (content b) = m_writerIndex b - m_readerIndex b.
Proof.
  intros H. wf_destruct H. unfold content, blen. rewrite length_slice by buf_lia. lia.
Qed.

Lemma readable_content b : wf b -> readableBytes b = blen (content b).
Proof. intros H. by rewrite readableBytes_wf, content_length. Qed.

(** A read through [peek()] inside the readable region reads [content]. *)
Lemma peek_content off n b :
  wf b -> 0 <= off -> 0 <= n -> off + n <= blen (content b) ->
  peek off n b = slice (Z.to_nat off) (Z.to_nat n) (content b).
Proof.
  intros H ? ? Hn. rewrite content_length in Hn by done. wf_destruct H.
  unfold peek, content, slice.
  rewrite skipn_firstn_comm, take_take, drop_drop.
  f_equal; [lia|]. f_equal. buf_lia.
Qed.

Lemma read_at_ok off n b : wf b -> off + n <= blen (content b) -> read_at off n b = Ok (peek off n b).
Proof. intros H Hn. unfold read_at. rewrite readable_content by done. by rewrite (proj2 (Z.leb_le _ _)) by done. Qed.

Lemma peek_all b : wf b -> peek 0 (readableBytes b) b = content b.
Proof.
  intros H. rewrite readableBytes_wf by done. unfold peek, content. by rewrite Z.add_0_r.
Qed.

Lemma retrieveAll_wf b : wf b -> wf (retrieveAll b).
Proof. intros H. wf_destruct H. unfold wf, retrieveAll, size in *. simpl. buf_lia. Qed.

Lemma retrieveAll_content b : content (retrieveAll b) = [].
Proof. unfold content, retrieveAll, slice. simpl m_writerIndex. simpl m_readerIndex. by rewrite Z.sub_diag. Qed.

Lemma retrieve_spec len b :
  wf b -> 0 <= len <= blen (content b) ->
  exists b', retrieve len b = Ok b' /\ wf b'
    /\ content b' = drop (Z.to_nat len) (content b)
    /\ m_buffer b' = m_buffer b /\ m_writerIndex b' <= m_writerIndex b.
Proof.
  intros H Hlen. pose proof (content_length b H) as HL.
  unfold retrieve. rewrite readable_content by done.
  rewrite (proj2 (Z.leb_le _ _)) by lia. simpl.
  case_if; b2p.
  - eexists. split; [done|]. wf_destruct H.
    rewrite u64_small by buf_lia. split; [unfold wf; buf_lia|].
    split; [|split; [done|simpl; lia]].
    unfold content, slice. simpl.
    rewrite skipn_firstn_comm, drop_drop. f_equal; [lia|]. f_equal. buf_lia.
  - exists (retrieveAll b). split; [done|]. split; [by apply retrieveAll_wf|].
    rewrite retrieveAll_content. split; [|split; [done|]].
    + symmetry. apply drop_ge. unfold blen in *. lia.
    + wf_destruct H. simpl. buf_lia.
Qed.

Lemma retrieve_underflow len b :
  wf b -> blen (content b) < len -> retrieve len b = Err AssertionFailed.
Proof.
  intros H Hlen. unfold retrieve. rewrite readable_content by done.
  by rewrite (proj2 (Z.leb_gt _ _)) by lia.
Qed.

Lemma retrieveAsString_spec len b :
  wf b -> 0 <= len <= blen (content b) ->
  exists b', retrieveAsString len b = Ok (take (Z.to_nat len) (content b), b')
    /\ wf b' /\ content b' = drop (Z.to_nat len) (content b).
Proof.
  intros H Hlen. destruct (retrieve_spec len b H Hlen) as (b' & E & Hwf & Hc & _).
  exists b'. unfold retrieveAsString. rewrite readable_content by done.
  rewrite (proj2 (Z.leb_le _ _)) by lia. simpl. rewrite E. simpl.
  rewrite peek_content by (done || lia). done.
Qed.

Lemma retrieveAllAsString_spec b :
  wf b -> exists b', retrieveAllAsString b = Ok (content b, b') /\ wf b' /\ content b' = [].
Proof.
  intros H. unfold retrieveAllAsString. rewrite readable_content by done.
  destruct (retrieveAsString_spec (blen (content b)) b H) as (b' & E & Hwf & Hc).
  { unfold blen. lia. }
  exists b'. rewrite E, Hc. unfold blen. rewrite Nat2Z.id, take_ge, drop_ge by lia. done.
Qed.

Lemma resize_ok n buf :
  blen buf <= n <= max_size ->
  exists tail, resize n buf = Ok (buf ++ tail) /\ blen (buf ++ tail) = n.
Proof.
  intros H. unfold resize. rewrite (proj2 (Z.ltb_ge _ _)) by lia.
  unfold blen in *. rewrite take_ge by lia.
  eexists. split; [done|]. rewrite length_app, length_replicate. lia.
Qed.

(** [makeSpace] keeps the content, and leaves at least [len] writable bytes. *)
Lemma makeSpace_spec len b :
  wf b -> 0 <= len -> has_room len b -> writableBytes b < len ->
  exists b', makeSpace len b = Ok b' /\ wf b' /\ content b' = content b
    /\ len <= writableBytes b' /\ m_writerIndex b' <= m_writerIndex b.
Proof.
  intros H Hlen Hroom Hw. pose proof (content_length b H) as HL.
  pose proof (peek_all b H) as Hpk. pose proof H as H0. wf_destruct H0.
  unfold has_room in Hroom. rewrite writableBytes_wf in Hw by done.
  unfold makeSpace. rewrite Hpk, readableBytes_wf, writableBytes_wf by done.
  unfold prependableBytes. rewrite !u64_small by buf_lia. case_if; b2p.
  - destruct (resize_ok (m_writerIndex b + len) (m_buffer b)) as (tail & E1 & E2);
      [buf_lia|].
    rewrite E1. simpl. eexists; split; [done|].
    assert (Hwf : wf (mkBuffer (m_buffer b ++ tail) (m_readerIndex b) (m_writerIndex b)))
      by (unfold wf; buf_lia).
    split; [done|]. rewrite writableBytes_wf by done. split; [|buf_lia].
    unfold content, slice; simpl.
    rewrite drop_app_le, take_app_le by (rewrite ?length_drop; buf_lia). done.
  - set (b' := mkBuffer _ _ _).
    assert (Hl : length (content b) = Z.to_nat (m_writerIndex b - m_readerIndex b))
      by (unfold blen in HL; lia).
    assert (Hwf : wf b').
    { unfold wf, b'. simpl. unfold size. simpl.
      rewrite length_write_at by buf_lia. buf_lia. }
    exists b'. rewrite writableBytes_wf, readableBytes_wf by done.
    rewrite (proj2 (Z.eqb_eq _ _)) by (unfold b'; simpl; lia). simpl.
    split; [done|split; [done|split; [|split]]].
    + unfold content, b'. simpl m_readerIndex. simpl m_writerIndex. simpl m_buffer.
      etrans; [|apply (slice_write_at (Z.to_nat kCheapPrepend) (content b) (m_buffer b)); buf_lia].
      f_equal. rewrite Hl. f_equal. lia.
    + unfold size, b'. simpl. rewrite length_write_at by buf_lia. buf_lia.
    + unfold b'. simpl. buf_lia.
Qed.

Lemma ensureWritableBytes_spec len b :
  wf b -> 0 <= len -> has_room len b ->
  exists b', ensureWritableBytes len b = Ok b' /\ wf b' /\ content b' = content b
    /\ len <= writableBytes b' /\ m_writerIndex b' <= m_writerIndex b.
Proof.
  intros H Hlen Hroom. unfold ensureWritableBytes. case_if; b2p.
  - destruct (makeSpace_spec len b) as (b' & E1 & ? & ? & ? & ?); auto.
    rewrite E1. simpl. rewrite (proj2 (Z.leb_le _ _)) by done. simpl. eauto 10.
  - simpl. rewrite (proj2 (Z.leb_le _ _)) by done. simpl. eauto 10 with lia.
Qed.

(** Bytes stored at the writer index and then committed extend the content. *)
Lemma commit_spec d b :
  wf b -> blen d <= writableBytes b ->
  exists b', hasWritten (blen d) (writeAtWriter d b) = Ok b' /\ wf b'
    /\ content b' = content b ++ d /\ m_writerIndex b' = m_writerIndex b + blen d.
Proof.
  intros H Hd. pose proof H as H0. wf_destruct H0.
  rewrite writableBytes_wf in Hd by done.
  assert (Hsz : size (writeAtWriter d b) = size b).
  { unfold size, writeAtWriter. simpl. rewrite length_write_at; [done|]. buf_lia. }
  unfold hasWritten. unfold writableBytes. rewrite Hsz. simpl m_writerIndex.
  rewrite u64_small by buf_lia. rewrite (proj2 (Z.leb_le _ _)) by lia. simpl.
  rewrite u64_small by buf_lia. eexists; split; [done|].
  split; [unfold wf; unfold size in *; simpl in *; buf_lia|]. split; [|done].
  unfold content; simpl.
  replace (Z.to_nat (m_writerIndex b + blen d - m_readerIndex b)) with
    (Z.to_nat (m_writerIndex b - m_readerIndex b) + length d)%nat by buf_lia.
  rewrite slice_slice_app. f_equal.
  - apply slice_take_write_at; buf_lia.
  - replace (Z.to_nat (m_readerIndex b) + Z.to_nat (m_writerIndex b - m_readerIndex b))%nat
      with (Z.to_nat (m_writerIndex b)) by buf_lia.
    apply slice_write_at. buf_lia.
Qed.

Lemma append_spec d b :
  wf b -> has_room (blen d) b ->
  exists b', append d b = Ok b' /\ wf b' /\ content b' = content b ++ d
    /\ m_writerIndex b' <= m_writerIndex b + blen d.
Proof.
  intros H Hroom.
  destruct (ensureWritableBytes_spec (blen d) b) as (b1 & E1 & H1 & Hc & Hw & Hi);
    [done|unfold blen; lia|done|].
  destruct (commit_spec d b1 H1 Hw) as (b2 & E2 & H2 & Hc2 & Hi2).
  exists b2. unfold append. fold (blen d). rewrite E1. simpl. rewrite E2.
  rewrite Hc2, Hc. split; [done|split; [done|split; [done|lia]]].
Qed.

(** The number of bytes one [readFd] moves. *)
Definition read_count (avail : bytes) (b : Buffer) : Z :=
  blen (take (Z.to_nat (writableBytes b + kExtraBuf)) avail).

Lemma read_count_bounds avail b : wf b -> Z.min (blen avail) 65536 <= read_count avail b <= blen avail.
Proof.
  intros H. unfold read_count, blen. rewrite length_take. pose proof (writableBytes_wf b H). wf_destruct H.
  unfold kExtraBuf. lia.
Qed.

(** [readFd] appends exactly the bytes the kernel delivered. *)
Lemma readFd_data d b :
  wf b -> has_room (blen d) b ->
  exists b',
    (let b1 := writeAtWriter (take (Z.to_nat (writableBytes b)) d) b in
     if blen d <=? writableBytes b
     then Ok (blen d, @None Z,
              mkBuffer (m_buffer b1) (m_readerIndex b1) (u64 (m_writerIndex b1 + blen d)))
     else b3 <- append (drop (Z.to_nat (writableBytes b)) d)
                  (mkBuffer (m_buffer b1) (m_readerIndex b1) (size b1)) ;;
          Ok (blen d, None, b3)) = Ok (blen d, None, b')
    /\ wf b' /\ content b' = content b ++ d /\ m_writerIndex b' <= m_writerIndex b + blen d.
Proof.
  intros H Hroom. cbv zeta. pose proof H as H0. wf_destruct H0.
  pose proof (writableBytes_wf b H) as HW. case_if; b2p.
  - rewrite (take_ge d) by buf_lia.
    destruct (commit_spec d b H) as (b' & E' & Hwf & Hc & Hi); [done|].
    unfold hasWritten in E'. destruct (assert_ _); [|done]. simpl in E'. res_inv.
    eexists; split; [done|]. split; [done|]. split; [done|]. simpl in *; lia.
  - set (d1 := take _ d). set (d2 := drop _ d).
    assert (Hd1 : blen d1 = writableBytes b).
    { unfold d1, blen. rewrite length_take. buf_lia. }
    assert (Hd2 : blen d2 = blen d - writableBytes b).
    { unfold d2, blen. rewrite length_drop. buf_lia. }
    destruct (commit_spec d1 b H) as (b1 & E1 & Hwf1 & Hc1 & Hi1); [lia|].
    unfold hasWritten in E1. destruct (assert_ _); [|done]. simpl in E1. res_inv.
    rewrite Hd1, u64_small in * by buf_lia.
    assert (Hsz : size (writeAtWriter d1 b) = m_writerIndex b + writableBytes b).
    { unfold size, writeAtWriter. simpl. rewrite length_write_at; buf_lia. }
    rewrite Hsz.
    destruct (append_spec d2 _ Hwf1) as (b2 & E2 & Hwf2 & Hc2 & Hi2).
    { unfold has_room in *. simpl. lia. }
    cbn [m_buffer m_readerIndex m_writerIndex writeAtWriter] in *.
    rewrite E2. simpl. exists b2.
    split; [done|]. split; [done|]. rewrite Hc2. simpl in *. split; [|lia].
    rewrite Hc1, <- app_assoc. unfold d1, d2.
    by rewrite take_drop.
Qed.

Lemma readFd_spec avail b :
  wf b -> has_room (blen avail) b ->
  exists b', readFd (ReadData avail) b = Ok (read_count avail b, None, b') /\ wf b'
    /\ content b' = content b ++ take (Z.to_nat (read_count avail b)) avail
    /\ m_writerIndex b' <= m_writerIndex b + read_count avail b.
Proof.
  intros H Hroom. unfold readFd, read_count.
  set (d := take (Z.to_nat (writableBytes b + kExtraBuf)) avail).
  assert (Hd : take (Z.to_nat (blen d)) avail = d).
  { unfold d, blen. rewrite Nat2Z.id, length_take, <- take_take. f_equal.
    by rewrite take_ge by lia. }
  destruct (readFd_data d b H) as (b' & E & Hwf & Hc & Hi).
  { unfold has_room, d, blen in *. rewrite length_take. lia. }
  exists b'. rewrite Hd. split; [exact E|done].
Qed.

(** ** Refinement of a queue of bytes *)
Inductive bop :=
| BAppend (d : bytes)
| BReadFd (r : read_result)
| BRetrieve (n : Z)
| BRetrieveAsString (n : Z)
| BRetrieveAll
| BRetrieveAllAsString.

(** What an operation returns: nothing, a string, or the count of [readFd] and
    the errno it saved. *)
Inductive bout := ONone | OString (d : bytes) | ORead (n : Z) (savedErrno : option Z).

Definition impl_step (o : bop) (b : Buffer) : res (bout * Buffer) :=
  match o with
  | BAppend d => b' <- append d b ;; Ok (ONone, b')
  | BReadFd r => '(n, e, b') <- readFd r b ;; Ok (ORead n e, b')
  | BRetrieve n => b' <- retrieve n b ;; Ok (ONone, b')
  | BRetrieveAsString n => '(d, b') <- retrieveAsString n b ;; Ok (OString d, b')
  | BRetrieveAll => Ok (ONone, retrieveAll b)
  | BRetrieveAllAsString => '(d, b') <- retrieveAllAsString b ;; Ok (OString d, b')
  end.

(** The queue.  A read reports how many bytes it took from the socket, takes all
    of them or at least 65536, and exactly those reach the queue; a failed one
    reports -1 and the errno. *)
Inductive spec_step : bop -> bytes -> bout -> bytes -> Prop :=
| spec_append d q : spec_step (BAppend d) q ONone (q ++ d)
| spec_read avail n q :
    Z.min (blen avail) 65536 <= n <= blen avail ->
    spec_step (BReadFd (ReadData avail)) q (ORead n None) (q ++ take (Z.to_nat n) avail)
| spec_read_error e q : spec_step (BReadFd (ReadError e)) q (ORead (-1) (Some e)) q
| spec_retrieve n q :
    0 <= n <= blen q -> spec_step (BRetrieve n) q ONone (drop (Z.to_nat n) q)
| spec_retrieveAs n q :
    0 <= n <= blen q ->
    spec_step (BRetrieveAsString n) q (OString (take (Z.to_nat n) q)) (drop (Z.to_nat n) q)
| spec_retrieveAll q : spec_step BRetrieveAll q ONone []
| spec_retrieveAllAs q : spec_step BRetrieveAllAsString q (OString q) [].

(** Bytes an operation may add. *)
Definition bop_cost (o : bop) : Z :=
  match o with
  | BAppend d => blen d
  | BReadFd (ReadData d) => blen d
  | _ => 0
  end.

(** An operation is enabled when it takes no more than the queue holds. *)
Definition bop_enabled (o : bop) (q : bytes) : bool :=
  match o with
  | BRetrieve n | BRetrieveAsString n => (0 <=? n) && (n <=? blen q)
  | _ => true
  end.

(** [size_t] arguments. *)
Definition bop_valid (o : bop) : bool :=
  match o with
  | BRetrieve n | BRetrieveAsString n => 0 <=? n
  | _ => true
  end.

Fixpoint run_impl (ops : list bop) (b : Buffer) : res (list bout * Buffer) :=
  match ops with
  | [] => Ok ([], b)
  | o :: ops' =>
    '(out, b1) <- impl_step o b ;;
    '(outs, b2) <- run_impl ops' b1 ;;
    Ok (out :: outs, b2)
  end.

Inductive run_spec : list bop -> bytes -> list bout -> bytes -> Prop :=
| run_nil q : run_spec [] q [] q
| run_cons o ops q out q1 outs q2 :
    spec_step o q out q1 -> run_spec ops q1 outs q2 ->
    run_spec (o :: ops) q (out :: outs) q2.

Definition total_cost (ops : list bop) : Z := foldr (fun o z => bop_cost o + z) 0 ops.

Lemma bop_cost_nonneg o : 0 <= bop_cost o.
Proof. destruct o as [d|[d|e]|n|n| |]; simpl; unfold blen; lia. Qed.

Lemma total_cost_nonneg ops : 0 <= total_cost ops.
Proof. induction ops as [|o ops IH]; simpl; [lia|]. pose proof (bop_cost_nonneg o). lia. Qed.

Lemma impl_step_refines o b :
  wf b -> has_room (bop_cost o) b -> bop_enabled o (content b) = true ->
  exists out b', impl_step o b = Ok (out, b') /\ wf b'
    /\ spec_step o (content b) out (content b')
    /\ m_writerIndex b' <= m_writerIndex b + bop_cost o.
Proof.
  intros H Hroom Hen. destruct o as [d|[avail|e]|n|n| |]; cbn [impl_step bop_cost bop_enabled] in *; b2p.
  - destruct (append_spec d b H Hroom) as (b' & E & Hwf & Hc & Hi).
    rewrite E. simpl. eexists _, _; split; [done|]. rewrite Hc. eauto using spec_step.
  - destruct (readFd_spec avail b H Hroom) as (b' & E & Hwf & Hc & Hi).
    rewrite E. simpl. eexists _, _; split; [done|]. rewrite Hc.
    pose proof (read_count_bounds avail b H). split; [done|]. split; [by constructor|]. lia.
  - eexists _, _; split; [done|]. split; [done|]. split; [constructor|lia].
  - destruct (retrieve_spec n b H) as (b' & E & Hwf & Hc & _ & Hi); [lia|].
    rewrite E. simpl. eexists _, _; split; [done|]. rewrite Hc.
    split; [done|]. split; [by constructor|lia].
  - destruct (retrieve_spec n b H) as (b1 & E1 & _ & _ & _ & Hi); [lia|].
    destruct (retrieveAsString_spec n b H) as (b' & E & Hwf & Hc); [lia|].
    assert (b' = b1) as -> by (unfold retrieveAsString in E; rewrite E1 in E;
      destruct (assert_ _); simpl in E; congruence).
    rewrite E. cbn [res_bind]. eexists _, _; split; [done|]. rewrite Hc.
    split; [done|]. split; [by constructor|lia].
  - eexists _, _; split; [done|]. split; [by apply retrieveAll_wf|].
    rewrite retrieveAll_content. split; [constructor|].
    pose proof H as H0. wf_destruct H0. simpl. lia.
  - destruct (retrieveAllAsString_spec b H) as (b' & E & Hwf & Hc). rewrite E. cbn [res_bind].
    eexists _, _; split; [done|]. rewrite Hc. split; [done|]. split; [constructor|].
    unfold retrieveAllAsString, retrieveAsString, retrieve in E. rewrite Z.leb_refl, Z.ltb_irrefl in E. cbn in E.
    injection E as _ <-. wf_destruct H. simpl. lia.
Qed.

Lemma impl_step_disabled o b :
  wf b -> bop_valid o = true -> bop_enabled o (content b) = false ->
  impl_step o b = Err AssertionFailed.
Proof.
  intros H Hv Hen. destruct o as [d|r|n|n| |]; cbn [impl_step bop_enabled bop_valid] in *;
    try discriminate; b2p.
  all: rewrite (proj2 (Z.leb_le 0 n)) in Hen by done; simpl in Hen; b2p.
  - by rewrite retrieve_underflow.
  - unfold retrieveAsString. rewrite readable_content by done.
    by rewrite (proj2 (Z.leb_gt _ _)) by lia.
Qed.

Lemma run_impl_refines ops b :
  wf b -> forallb bop_valid ops = true -> has_room (total_cost ops) b ->
  match run_impl ops b with
  | Ok (outs, b') => wf b' /\ run_spec ops (content b) outs (content b')
  | Err e => e = AssertionFailed
      /\ exists pre o post outs q, ops = pre ++ o :: post
           /\ run_spec pre (content b) outs q /\ bop_enabled o q = false
  end.
Proof.
  revert b; induction ops as [|o ops IH]; intros b H Hv Hroom.
  { simpl. split; [done|constructor]. }
  simpl in Hv. b2p. cbn [run_impl].
  unfold has_room in *. simpl in Hroom.
  pose proof (bop_cost_nonneg o). pose proof (total_cost_nonneg ops).
  destruct (bop_enabled o (content b)) eqn:Hen.
  - destruct (impl_step_refines o b H) as (out & b1 & E & Hwf & Hs & Hi);
      [unfold has_room; lia|done|].
    rewrite E. cbn [res_bind]. specialize (IH b1 Hwf ltac:(done) ltac:(lia)).
    destruct (run_impl ops b1) as [[outs b2]|e]; cbn [res_bind].
    + destruct IH as [? ?]. split; [done|]. econstructor; eauto.
    + destruct IH as (-> & pre & o' & post & outs & q & -> & Hr & Hd).
      split; [done|]. exists (o :: pre), o', post, (out :: outs), q.
      split; [done|]. split; [|done]. econstructor; eauto.
  - rewrite impl_step_disabled by done. simpl. split; [done|].
    exists [], o, ops, [], (content b). split; [done|]. split; [constructor|done].
Qed.

(** C7: The connection buffer refines a queue of bytes.  Starting from a fresh
    [Buffer], any sequence of [append], [readFd], [retrieve],
    [retrieveAsString], [retrieveAll] and [retrieveAllAsString] whose bytes fit
    below [vector::max_size()] either runs to the end, returns exactly what the
    queue returns in the same order (for [readFd] the number of bytes taken from
    the socket, which are exactly the bytes added: all that are available or at
    least 65536) and leaves a well-formed buffer whose
    readable region is the queue, or stops at an [assert] because an operation
    asks for more bytes than the queue holds at that point; no other error and
    no index wrap-around is possible. *)
Theorem buffer_refines_queue ops :
  forallb bop_valid ops = true ->
  kCheapPrepend + total_cost ops <= max_size ->
  match run_impl ops newBuffer with
  | Ok (outs, b') => wf b' /\ run_spec ops [] outs (content b')
  | Err e => e = AssertionFailed
      /\ exists pre o post outs q, ops = pre ++ o :: post
           /\ run_spec pre [] outs q /\ bop_enabled o q = false
  end.
Proof.
  intros Hv Hc. apply (run_impl_refines ops newBuffer newBuffer_wf Hv). exact Hc.
Qed.

(** A run to the end, with a read that fills the buffer and goes on in the
    second region. *)
Definition ex_bops : list bop :=
  [BAppend (chars "hello"); BRetrieve 2; BReadFd (ReadData (replicate 2000 "x"%char)); BReadFd (ReadError 11);
   BRetrieveAsString 4; BRetrieve 1990; BRetrieveAllAsString].

Lemma ok_run {A} (r : res A) (Q : A -> Prop) (E : err -> Prop) :
  match r with Ok a => Q a | Err e => E e end -> match r with Ok _ => true | Err _ => false end = true ->
  exists a, r = Ok a /\ Q a.
Proof. destruct r; [eauto|done]. Qed.

Lemma buffer_refines_queue_witness :
  exists r, run_impl ex_bops newBuffer = Ok r
    /\ (let '(outs, b') := r in wf b' /\ run_spec ex_bops [] outs (content b')).
Proof.
  apply ok_run with (E := fun e => e = AssertionFailed
      /\ exists pre o post outs q, ex_bops = pre ++ o :: post /\ run_spec pre [] outs q /\ bop_enabled o q = false).
  - exact (buffer_refines_queue ex_bops eq_refl ltac:(vm_compute; discriminate)).
  - vm_compute. reflexivity.
Defined.

End buffer.
