(* ===== verification/Codec.v ===== *)
(** * Codec: framing of messages on a byte stream (src/codec/codec.h, codec.cpp)

    [WriteHeader] and [ReadHeader] are the field-by-field [memcpy]s of the
    source; [pack] writes a frame into a [Buffer]; [onMessage] is the parsing
    loop over a [Buffer], with the parser state kept in [Codec].  Callbacks are
    the events the loop emits, in order.  The loop is run with as much fuel as
    the buffer has readable bytes (every round that continues consumes at least
    a header), and is proved never to exhaust it. *)
From S2P Require Import Prelude Util Protocol Buffer.
Import util protocol buffer.

Module codec.

Definition kMagicFieldOffset : nat := 0.
Definition kVersionFieldOffset : nat := 4.
Definition kHeaderLenFieldOffset : nat := 6.
Definition kTotalLenFieldOffset : nat := 8.
Definition kCommandFieldOffset : nat := 12.
Definition kFlagsFieldOffset : nat := 14.
Definition kRequestIdFieldOffset : nat := 16.
Definition kClientSeqFieldOffset : nat := 20.
Definition kServerSeqFieldOffset : nat := 28.
Definition kErrorCodeFieldOffset : nat := 36.
Definition kChecksumFieldOffset : nat := 40.

(** The block [out] after the eleven [memcpy]s. *)
Definition WriteHeader (out : bytes) (header : PacketHeader) : bytes :=
  let out := write_at kMagicFieldOffset (le_bytes 4 (HostToNetwork32 (magic header))) out in
  let out := write_at kVersionFieldOffset (le_bytes 2 (HostToNetwork16 (version header))) out in
  let out := write_at kHeaderLenFieldOffset (le_bytes 2 (HostToNetwork16 (headerLen header))) out in
  let out := write_at kTotalLenFieldOffset (le_bytes 4 (HostToNetwork32 (totalLen header))) out in
  let out := write_at kCommandFieldOffset (le_bytes 2 (HostToNetwork16 (command header))) out in
  let out := write_at kFlagsFieldOffset (le_bytes 2 (HostToNetwork16 (flags header))) out in
  let out := write_at kRequestIdFieldOffset (le_bytes 4 (HostToNetwork32 (requestId header))) out in
  let out := write_at kClientSeqFieldOffset (le_bytes 8 (HostToNetwork64 (clientSeq header))) out in
  let out := write_at kServerSeqFieldOffset (le_bytes 8 (HostToNetwork64 (serverSeq header))) out in
  let out := write_at kErrorCodeFieldOffset (le_bytes 4 (HostToNetwork32 (errorCode header))) out in
  write_at kChecksumFieldOffset (le_bytes 4 (HostToNetwork32 (checksum header))) out.

Definition ReadHeader (data : bytes) : PacketHeader := {|
  magic := NetworkToHost32 (le_val (slice kMagicFieldOffset 4 data));
  version := NetworkToHost16 (le_val (slice kVersionFieldOffset 2 data));
  headerLen := NetworkToHost16 (le_val (slice kHeaderLenFieldOffset 2 data));
  totalLen := NetworkToHost32 (le_val (slice kTotalLenFieldOffset 4 data));
  command := NetworkToHost16 (le_val (slice kCommandFieldOffset 2 data));
  flags := NetworkToHost16 (le_val (slice kFlagsFieldOffset 2 data));
  requestId := NetworkToHost32 (le_val (slice kRequestIdFieldOffset 4 data));
  clientSeq := NetworkToHost64 (le_val (slice kClientSeqFieldOffset 8 data));
  serverSeq := NetworkToHost64 (le_val (slice kServerSeqFieldOffset 8 data));
  errorCode := NetworkToHost32 (le_val (slice kErrorCodeFieldOffset 4 data));
  checksum := NetworkToHost32 (le_val (slice kChecksumFieldOffset 4 data));
|}.

Inductive ParseState := kExpectHeader | kExpectPayload.

(** The three callbacks are [std::function]s that may be empty; the fields
    record which are set. *)
Record Codec := mkCodec {
  m_state : ParseState;
  m_expectedLength : Z;
  m_currentHeader : PacketHeader;
  m_messageCallback : bool;
  m_packetCallback : bool;
  m_errorCallback : bool;
}.

Record DecodedPacket := mkDecodedPacket { header : PacketHeader; payload : bytes }.

(** Callback invocations.  The error callback gets a null connection while a
    header is parsed. *)
Inductive event :=
| PacketEv (conn : ConnId) (packet : DecodedPacket)
| MessageEv (conn : ConnId) (command : Z) (seqId : Z) (message : bytes)
| ErrorEv (conn : option ConnId) (errorCode : Z).

Definition newCodec (messageCb packetCb errorCb : bool) : Codec :=
  mkCodec kExpectHeader kHeaderSize defaultPacketHeader messageCb packetCb errorCb.

(** Codec::pack with an explicit header. *)
Definition pack (rawHeader : PacketHeader) (message : bytes) (b : Buffer) : res Buffer :=
  let header := {|
    magic := kMagicNumber;
    version := kProtocolVersionV1;
    headerLen := kHeaderSize;
    totalLen := u32 (kHeaderSize + u32 (Z.of_nat (length message)));
    command := command rawHeader;
    flags := flags rawHeader;
    requestId := requestId rawHeader;
    clientSeq := clientSeq rawHeader;
    serverSeq := serverSeq rawHeader;
    errorCode := errorCode rawHeader;
    checksum := CalcCRC16 message |} in
  b1 <- ensureWritableBytes kHeaderSize b ;;
  let out := slice (Z.to_nat (m_writerIndex b1)) (Z.to_nat kHeaderSize) (m_buffer b1) in
  b2 <- hasWritten kHeaderSize (writeAtWriter (WriteHeader out header) b1) ;;
  append message b2.

(** Codec::pack from a command and a sequence number. *)
Definition packCommand (cmd seqId : Z) (message : bytes) (b : Buffer) : res Buffer :=
  pack {| magic := kMagicNumber;
          version := kProtocolVersionV1;
          headerLen := kHeaderSize;
          totalLen := u32 (kHeaderSize + u32 (Z.of_nat (length message)));
          command := cmd;
          flags := GuessFlagsFromCommand cmd;
          requestId := seqId;
          clientSeq := seqId;
          serverSeq := 0;
          errorCode := ErrOk;
          checksum := CalcCRC16 message |} message b.

Definition emit_error (c : Codec) (conn : option ConnId) (code : Z) : list event :=
  if m_errorCallback c then [ErrorEv conn code] else [].

Definition with_parse (st : ParseState) (len : Z) (h : PacketHeader) (c : Codec) : Codec :=
  mkCodec st len h (m_messageCallback c) (m_packetCallback c) (m_errorCallback c).

Definition parseHeader (c : Codec) (b : Buffer) : res (bool * Codec * Buffer * list event) :=
  d <- read_at 0 kHeaderSize b ;;
  let h := ReadHeader d in
  let reject code :=
    Ok (false, with_parse kExpectHeader kHeaderSize h c, retrieveAll b, emit_error c None code) in
  if negb (magic h =? kMagicNumber) then reject ErrInvalidPacket
  else if negb (version h =? kProtocolVersionV1) then reject ErrUnsupportedVersion
  else if negb (headerLen h =? kHeaderSize) || (totalLen h <? kHeaderSize)
          || (kMaxMessageSize <? totalLen h) then reject ErrPayloadTooLarge
  else Ok (true, with_parse kExpectPayload (totalLen h) h c, b, []).

Definition parsePayload (conn : ConnId) (c : Codec) (b : Buffer)
    : res (bool * Codec * Buffer * list event) :=
  let h := m_currentHeader c in
  let payloadLen := u32 (totalLen h - headerLen h) in
  payload <- read_at (headerLen h) payloadLen b ;;
  let calcChecksum := CalcCRC16 payload in
  let c' := with_parse kExpectHeader kHeaderSize h c in
  b' <- retrieve (m_expectedLength c) b ;;
  if negb (checksum h =? calcChecksum)
  then Ok (false, c', b', emit_error c (Some conn) ErrChecksumMismatch)
  else Ok (true, c', b',
           (if m_packetCallback c then [PacketEv conn (mkDecodedPacket h payload)] else [])
           ++ (if m_messageCallback c
               then [MessageEv conn (command h) (requestId h) payload] else [])).

(** One round of [while (true)]; the boolean tells whether the loop goes on. *)
Definition onMessage_round (conn : ConnId) (c : Codec) (b : Buffer)
    : res (bool * Codec * Buffer * list event) :=
  '(go, c1, b1, evs1) <-
    match m_state c with
    | kExpectHeader =>
      if readableBytes b <? kHeaderSize then Ok (false, c, b, []) else parseHeader c b
    | kExpectPayload => Ok (true, c, b, [])
    end ;;
  if negb go then Ok (false, c1, b1, evs1)
  else match m_state c1 with
       | kExpectHeader => Ok (true, c1, b1, evs1)
       | kExpectPayload =>
         if readableBytes b1 <? m_expectedLength c1 then Ok (false, c1, b1, evs1)
         else '(go2, c2, b2, evs2) <- parsePayload conn c1 b1 ;;
              Ok (go2, c2, b2, evs1 ++ evs2)
       end.

Fixpoint onMessage_loop (fuel : nat) (conn : ConnId) (c : Codec) (b : Buffer)
    : res (Codec * Buffer * list event) :=
  match fuel with
  | O => Err OutOfFuel
  | S fuel' =>
    '(go, c1, b1, evs1) <- onMessage_round conn c b ;;
    if (go : bool)
    then '(c2, b2, evs2) <- onMessage_loop fuel' conn c1 b1 ;; Ok (c2, b2, evs1 ++ evs2)
    else Ok (c1, b1, evs1)
  end.

Definition onMessage (conn : ConnId) (c : Codec) (b : Buffer)
    : res (Codec * Buffer * list event) :=
  onMessage_loop (S (Z.to_nat (readableBytes b))) conn c b.

(** ** The wire format *)
Definition header_wire (h : PacketHeader) : bytes :=
  be_bytes 4 (magic h) ++ be_bytes 2 (version h) ++ be_bytes 2 (headerLen h)
  ++ be_bytes 4 (totalLen h) ++ be_bytes 2 (command h) ++ be_bytes 2 (flags h)
  ++ be_bytes 4 (requestId h) ++ be_bytes 8 (clientSeq h) ++ be_bytes 8 (serverSeq h)
  ++ be_bytes 4 (errorCode h) ++ be_bytes 4 (checksum h).

(** The header [pack] puts in front of a message. *)
Definition frame_header (h : PacketHeader) (message : bytes) : PacketHeader :=
  mkPacketHeader kMagicNumber kProtocolVersionV1 kHeaderSize
    (u32 (kHeaderSize + u32 (Z.of_nat (length message))))
    (command h) (flags h) (requestId h) (clientSeq h) (serverSeq h) (errorCode h)
    (CalcCRC16 message).

Definition wire (p : PacketHeader * bytes) : bytes :=
  header_wire (frame_header p.1 p.2) ++ p.2.

(** Fields at their declared widths. *)
Definition header_in_range (h : PacketHeader) : bool :=
  (0 <=? magic h) && (magic h <? 2 ^ 32) && (0 <=? version h) && (version h <? 2 ^ 16)
  && (0 <=? headerLen h) && (headerLen h <? 2 ^ 16)
  && (0 <=? totalLen h) && (totalLen h <? 2 ^ 32)
  && (0 <=? command h) && (command h <? 2 ^ 16) && (0 <=? flags h) && (flags h <? 2 ^ 16)
  && (0 <=? requestId h) && (requestId h <? 2 ^ 32)
  && (0 <=? clientSeq h) && (clientSeq h <? 2 ^ 64)
  && (0 <=? serverSeq h) && (serverSeq h <? 2 ^ 64)
  && (0 <=? errorCode h) && (errorCode h <? 2 ^ 32)
  && (0 <=? checksum h) && (checksum h <? 2 ^ 32).

Ltac known_length l n :=
  let H := fresh in
  assert (H : length l = n) by apply length_be_bytes;
  revert H; generalize l; intros ? H;
  repeat match goal with
  | H : length ?x = S _ |- _ => destruct x; [discriminate H|]; simpl in H; injection H as H
  | H : length ?x = O |- _ => destruct x; [|discriminate H]; clear H
  end.

Ltac known_fields h :=
  known_length (be_bytes 4 (magic h)) 4%nat;
  known_length (be_bytes 2 (version h)) 2%nat;
  known_length (be_bytes 2 (headerLen h)) 2%nat;
  known_length (be_bytes 4 (totalLen h)) 4%nat;
  known_length (be_bytes 2 (command h)) 2%nat;
  known_length (be_bytes 2 (flags h)) 2%nat;
  known_length (be_bytes 4 (requestId h)) 4%nat;
  known_length (be_bytes 8 (clientSeq h)) 8%nat;
  known_length (be_bytes 8 (serverSeq h)) 8%nat;
  known_length (be_bytes 4 (errorCode h)) 4%nat;
  known_length (be_bytes 4 (checksum h)) 4%nat.

(** The eleven stores fill the block with the big-endian fields. *)
Lemma WriteHeader_wire out h : length out = 44%nat -> WriteHeader out h = header_wire h.
Proof.
  intros Hout. unfold WriteHeader, header_wire. rewrite !store16, !store32, !store64.
  known_fields h. reflexivity.
Qed.

Lemma length_header_wire h : length (header_wire h) = 44%nat.
Proof. unfold header_wire. rewrite !length_app, !length_be_bytes. reflexivity. Qed.

Lemma ReadHeader_fields h rest :
  ReadHeader (header_wire h ++ rest) =
  mkPacketHeader (be_val (be_bytes 4 (magic h))) (be_val (be_bytes 2 (version h)))
    (be_val (be_bytes 2 (headerLen h))) (be_val (be_bytes 4 (totalLen h)))
    (be_val (be_bytes 2 (command h))) (be_val (be_bytes 2 (flags h)))
    (be_val (be_bytes 4 (requestId h))) (be_val (be_bytes 8 (clientSeq h)))
    (be_val (be_bytes 8 (serverSeq h))) (be_val (be_bytes 4 (errorCode h)))
    (be_val (be_bytes 4 (checksum h))).
Proof.
  unfold ReadHeader, header_wire. known_fields h. unfold slice. cbn [app take drop].
  by rewrite !load16, !load32, !load64 by done.
Qed.

Lemma ReadHeader_wire h rest :
  header_in_range h = true -> ReadHeader (header_wire h ++ rest) = h.
Proof.
  intros H. rewrite ReadHeader_fields, !be_val_bytes.
  unfold header_in_range in H. b2p. destruct h. simpl in *.
  f_equal; apply Z.mod_small; simpl Z.of_nat; lia.
Qed.

(** ** pack *)
Lemma pack_spec h m b :
  wf b -> has_room (kHeaderSize + blen m) b ->
  exists b', pack h m b = Ok b' /\ wf b' /\ content b' = content b ++ wire (h, m)
    /\ m_writerIndex b' <= m_writerIndex b + kHeaderSize + blen m.
Proof.
  intros H Hroom. unfold has_room, pack in *.
  assert (0 <= blen m) by (unfold blen; lia).
  destruct (ensureWritableBytes_spec kHeaderSize b) as (b1 & E1 & H1 & Hc1 & Hw1 & Hi1);
    [done|done|unfold has_room; unfold kHeaderSize in *; lia|].
  rewrite E1. cbn [res_bind]. fold (frame_header h m).
  pose proof (writableBytes_wf b1 H1) as HW. pose proof H1 as H1'. wf_destruct H1'.
  rewrite WriteHeader_wire by (apply length_slice; unfold kHeaderSize in *; buf_lia).
  destruct (commit_spec (header_wire (frame_header h m)) b1 H1) as (b2 & E2 & H2 & Hc2 & Hi2).
  { unfold blen. rewrite length_header_wire. exact Hw1. }
  unfold blen in E2, Hi2. rewrite length_header_wire in E2, Hi2.
  change (Z.of_nat 44) with kHeaderSize in *. rewrite E2. cbn [res_bind].
  destruct (append_spec m b2 H2) as (b3 & E3 & H3 & Hc3 & Hi3); [unfold has_room; lia|].
  exists b3. rewrite E3, Hc3, Hc2, Hc1. unfold wire. rewrite app_assoc.
  split; [done|]. split; [done|]. split; [done|lia].
Qed.

(** ** Safety of the parser on arbitrary input *)
Definition codec_wf (c : Codec) : Prop :=
  m_state c = kExpectPayload ->
  (magic (m_currentHeader c) = kMagicNumber /\ version (m_currentHeader c) = kProtocolVersionV1
   /\ headerLen (m_currentHeader c) = kHeaderSize)
  /\ m_expectedLength c = totalLen (m_currentHeader c)
  /\ kHeaderSize <= totalLen (m_currentHeader c) <= kMaxMessageSize.

(** A packet that is delivered has the fixed fields, the length and the checksum
    its header states. *)
Definition event_valid (e : event) : Prop :=
  match e with
  | PacketEv _ p =>
    magic (header p) = kMagicNumber /\ version (header p) = kProtocolVersionV1
    /\ totalLen (header p) = kHeaderSize + blen (payload p) /\ totalLen (header p) <= kMaxMessageSize
    /\ checksum (header p) = CalcCRC16 (payload p)
  | _ => True
  end.

(** What is left of the input is its end. *)
Definition left_of (q r : bytes) : Prop := exists pre, q = pre ++ r.
Lemma left_of_refl q : left_of q q.
Proof. by exists []. Qed.
Lemma left_of_drop n q : left_of q (drop n q).
Proof. exists (take n q). by rewrite take_drop. Qed.
Lemma left_of_trans q r t : left_of q r -> left_of r t -> left_of q t.
Proof. intros [p ->] [p' ->]. exists (p ++ p'). by rewrite app_assoc. Qed.

Lemma emit_error_valid c conn code : Forall event_valid (emit_error c conn code).
Proof. unfold emit_error. destruct (m_errorCallback c); by repeat constructor. Qed.

Definition same_callbacks (c c' : Codec) : Prop :=
  m_messageCallback c' = m_messageCallback c
  /\ m_packetCallback c' = m_packetCallback c /\ m_errorCallback c' = m_errorCallback c.

Lemma same_callbacks_refl c : same_callbacks c c.
Proof. by repeat split. Qed.
Lemma same_callbacks_parse st len h c : same_callbacks c (with_parse st len h c).
Proof. by repeat split. Qed.
Lemma codec_wf_header len h c : codec_wf (with_parse kExpectHeader len h c).
Proof. intros [=]. Qed.
#[local] Hint Resolve same_callbacks_refl same_callbacks_parse codec_wf_header
  retrieveAll_wf Z.le_refl left_of_refl left_of_drop emit_error_valid : im.
#[local] Hint Extern 1 (Forall _ []) => constructor : im.

Lemma newCodec_wf x y z : codec_wf (newCodec x y z).
Proof. intros [=]. Qed.

(** [parseHeader] either hands over to the payload state without touching the
    buffer, or resets the parser and drops everything buffered. *)
Lemma parseHeader_cases c b :
  wf b -> kHeaderSize <= blen (content b) ->
  (exists h, parseHeader c b = Ok (true, with_parse kExpectPayload (totalLen h) h c, b, [])
     /\ h = ReadHeader (peek 0 kHeaderSize b) /\ magic h = kMagicNumber
     /\ version h = kProtocolVersionV1 /\ headerLen h = kHeaderSize
     /\ kHeaderSize <= totalLen h <= kMaxMessageSize)
  \/ exists h code, parseHeader c b =
       Ok (false, with_parse kExpectHeader kHeaderSize h c, retrieveAll b, emit_error c None code).
Proof.
  intros H Hl. unfold parseHeader. rewrite read_at_ok by done. cbn [res_bind]. set (h := ReadHeader _).
  repeat case_if; eauto. left. exists h. b2p. eauto 10.
Qed.

Lemma parsePayload_total conn c b :
  codec_wf c -> m_state c = kExpectPayload -> wf b ->
  m_expectedLength c <= blen (content b) ->
  exists go c' b' evs, parsePayload conn c b = Ok (go, c', b', evs)
    /\ codec_wf c' /\ same_callbacks c c' /\ wf b' /\ m_writerIndex b' <= m_writerIndex b
    /\ content b' = drop (Z.to_nat (m_expectedLength c)) (content b) /\ Forall event_valid evs.
Proof.
  intros Hc Hst H Hlen. destruct (Hc Hst) as ((Hmg & Hvs & Hh) & He & Ht).
  destruct (retrieve_spec (m_expectedLength c) b H) as (b' & E & Hwf & Hcb & _ & Hi).
  { unfold kHeaderSize in *; lia. }
  unfold parsePayload. rewrite read_at_ok by (done || (rewrite Hh, u32_small; unfold kHeaderSize, kMaxMessageSize in *; lia)).
  cbn [res_bind]. rewrite E. cbn [res_bind].
  case_if; eexists _, _, _, _; (split; [done|]); splits; auto with im. b2p.
  assert (Hp : blen (peek (headerLen (m_currentHeader c)) (u32 (totalLen (m_currentHeader c) - headerLen (m_currentHeader c))) b)
    = totalLen (m_currentHeader c) - kHeaderSize).
  { rewrite Hh, u32_small by (unfold kHeaderSize, kMaxMessageSize in *; lia).
    rewrite peek_content by (done || (unfold kHeaderSize in *; lia)).
    unfold blen in *. rewrite length_slice by (unfold kHeaderSize in *; lia). unfold kHeaderSize in *. lia. }
  apply Forall_app. split; [destruct (m_packetCallback c)|destruct (m_messageCallback c)];
    repeat constructor; cbn [event_valid header payload]; done || lia.
Qed.

Lemma onMessage_round_total conn c b :
  codec_wf c -> wf b ->
  exists go c' b' evs, onMessage_round conn c b = Ok (go, c', b', evs)
    /\ codec_wf c' /\ same_callbacks c c' /\ wf b' /\ m_writerIndex b' <= m_writerIndex b
    /\ left_of (content b) (content b') /\ Forall event_valid evs
    /\ (go = true -> blen (content b') + kHeaderSize <= blen (content b)).
Proof.
  intros Hc H. unfold onMessage_round.
  assert (P : forall c1, codec_wf c1 -> m_state c1 = kExpectPayload ->
    m_expectedLength c1 <= blen (content b) ->
    exists go c' b' evs,
      ('(go2, c2, b2, evs2) <- parsePayload conn c1 b ;; Ok (go2, c2, b2, evs2))
      = Ok (go, c', b', evs)
      /\ codec_wf c' /\ same_callbacks c1 c' /\ wf b' /\ m_writerIndex b' <= m_writerIndex b
      /\ left_of (content b) (content b') /\ Forall event_valid evs
      /\ (go = true -> blen (content b') + kHeaderSize <= blen (content b))).
  { intros c1 Hc1 Hst1 Hlen. destruct (Hc1 Hst1) as (_ & He & Ht).
    destruct (parsePayload_total conn c1 b) as (go & c' & b' & evs & E & ? & ? & ? & ? & Hcb & ?); auto.
    rewrite E. eexists _, _, _, _; split; [done|].
    rewrite Hcb. splits; auto with im. unfold blen, kHeaderSize in *. rewrite length_drop. intros _. lia. }
  destruct (m_state c) eqn:Hst.
  - pose proof (readable_content b H) as Hrd. destruct (Z.ltb_spec (readableBytes b) kHeaderSize) as [Hlt|Hge]; cbn [negb res_bind].
    { eexists _, _, _, _; split; [done|]. splits; auto with im; done. }
    destruct (parseHeader_cases c b H) as [(h & Ep & Hh & Hm1 & Hv1 & H1 & H2)|(h & code & Ep)]; [lia|..];
      rewrite Ep; cbn [negb res_bind].
    + cbn [m_state with_parse m_expectedLength]. rewrite readable_content by done.
      case_if; b2p.
      * eexists _, _, _, _; split; [done|]. splits; auto with im; done.
      * destruct (P (with_parse kExpectPayload (totalLen h) h c)) as
          (go & c' & b' & evs & E' & R); [done|done|done|].
        exists go, c', b', evs. split; [exact E'|exact R].
    + eexists _, _, _, _; split; [done|]. rewrite retrieveAll_content.
      splits; auto with im; [|exists (content b); by rewrite app_nil_r|done]. wf_destruct H. simpl. lia.
  - cbn [negb res_bind]. rewrite Hst, readable_content by done. case_if; b2p.
    + eexists _, _, _, _; split; [done|]. splits; auto with im; done.
    + destruct (P c) as (go & c' & b' & evs & E' & R); [done..|].
      exists go, c', b', evs. split; [exact E'|exact R].
Qed.

Lemma onMessage_loop_total fuel conn c b :
  codec_wf c -> wf b -> blen (content b) < Z.of_nat fuel ->
  exists c' b' evs, onMessage_loop fuel conn c b = Ok (c', b', evs)
    /\ codec_wf c' /\ same_callbacks c c' /\ wf b' /\ m_writerIndex b' <= m_writerIndex b
    /\ left_of (content b) (content b') /\ Forall event_valid evs.
Proof.
  revert c b; induction fuel as [|fuel IH]; intros c b Hc H Hf.
  { unfold blen in Hf; lia. }
  cbn [onMessage_loop].
  destruct (onMessage_round_total conn c b Hc H) as
    (go & c1 & b1 & evs1 & E & Hc1 & Hs1 & H1 & Hi1 & Hle1 & Hev1 & Hd).
  rewrite E. cbn [res_bind]. destruct go; [|eauto 10].
  destruct (IH c1 b1 Hc1 H1) as (c2 & b2 & evs2 & E2 & Hc2 & Hs2 & H2 & Hi2 & Hle2 & Hev2).
  { specialize (Hd eq_refl). unfold kHeaderSize in *. lia. }
  rewrite E2. cbn [res_bind]. eexists _, _, _; split; [done|]. split; [done|].
  destruct Hs1 as (?&?&?), Hs2 as (?&?&?).
  split; [repeat split; congruence|]. splits; [done|lia|by eapply left_of_trans|by apply Forall_app].
Qed.

(** ** Parsing well-formed streams *)

(** Header fields at their widths and a frame within the size limit. *)
Definition frame_ok (p : PacketHeader * bytes) : bool :=
  header_in_range p.1 && (kHeaderSize + blen p.2 <=? kMaxMessageSize).

(** The callbacks a frame triggers. *)
Definition frame_events (conn : ConnId) (c : Codec) (p : PacketHeader * bytes) : list event :=
  let h := frame_header p.1 p.2 in
  (if m_packetCallback c then [PacketEv conn (mkDecodedPacket h p.2)] else [])
  ++ (if m_messageCallback c then [MessageEv conn (command h) (requestId h) p.2] else []).

Definition stream (ps : list (PacketHeader * bytes)) : bytes := mjoin (wire <$> ps).

(** The parser state agrees with the frame at the head of the buffer. *)
Definition synced (c : Codec) (h : PacketHeader) : Prop :=
  m_state c = kExpectHeader
  \/ (m_state c = kExpectPayload /\ m_currentHeader c = h /\ m_expectedLength c = totalLen h).

Lemma frame_header_total p :
  frame_ok p = true -> totalLen (frame_header p.1 p.2) = kHeaderSize + blen p.2.
Proof.
  unfold frame_ok. intros H. b2p. simpl. fold (blen p.2).
  assert (0 <= blen p.2) by (unfold blen; lia).
  unfold kHeaderSize, kMaxMessageSize in *. rewrite (u32_small (blen _)), u32_small; lia.
Qed.

Lemma frame_payload_len p :
  frame_ok p = true -> u32 (totalLen (frame_header p.1 p.2) - kHeaderSize) = blen p.2.
Proof.
  intros Hok. rewrite frame_header_total by done. unfold frame_ok in Hok. b2p.
  replace (kHeaderSize + blen p.2 - kHeaderSize) with (blen p.2) by lia.
  apply u32_small. unfold blen, kMaxMessageSize, kHeaderSize in *. lia.
Qed.

Lemma frame_header_in_range p :
  frame_ok p = true -> header_in_range (frame_header p.1 p.2) = true.
Proof.
  unfold frame_ok. intros H. b2p. unfold header_in_range in *. b2p.
  cbn [frame_header magic version headerLen totalLen command flags requestId clientSeq
       serverSeq errorCode checksum].
  pose proof (CalcCRC16_range p.2). pose proof (u32_range (kHeaderSize + u32 (Z.of_nat (length p.2)))).
  rewrite !andb_true_iff, !Z.leb_le, !Z.ltb_lt.
  splits; (assumption || done || lia).
Qed.

Lemma length_wire p : frame_ok p = true -> blen (wire p) = totalLen (frame_header p.1 p.2).
Proof.
  intros H. rewrite frame_header_total by done. unfold wire, blen.
  rewrite length_app, length_header_wire. unfold kHeaderSize. lia.
Qed.

(** With the header of a valid frame at the front, a round waits for the whole
    frame and then parses its payload, whether the header was read in this
    round or in an earlier one. *)
Lemma onMessage_round_frame conn c b p :
  wf b -> frame_ok p = true -> synced c (frame_header p.1 p.2) ->
  take 44 (content b) = header_wire (frame_header p.1 p.2) ->
  let h := frame_header p.1 p.2 in
  let c1 := with_parse kExpectPayload (totalLen h) h c in
  onMessage_round conn c b =
    if readableBytes b <? totalLen h then Ok (false, c1, b, []) else parsePayload conn c1 b.
Proof.
  intros H Hok Hsync Hpre h c1.
  assert (Hlen : kHeaderSize <= blen (content b)).
  { apply (f_equal length) in Hpre. rewrite length_take, length_header_wire in Hpre.
    unfold blen, kHeaderSize. lia. }
  assert (E : forall r : res (bool * Codec * Buffer * list event),
    ('(go2, c2, b2, evs2) <- r ;; Ok (go2, c2, b2, [] ++ evs2)) = r).
  { by intros [[[[? ?] ?] ?]|e]. }
  unfold onMessage_round. destruct Hsync as [Hst|(Hst & Hh & He)]; rewrite Hst.
  - rewrite readable_content by done. rewrite (proj2 (Z.ltb_ge _ _)) by done.
    assert (Hr : ReadHeader (peek 0 kHeaderSize b) = h).
    { rewrite peek_content by (done || (unfold kHeaderSize in *; lia)).
      change (slice (Z.to_nat 0) (Z.to_nat kHeaderSize) (content b)) with (take 44 (content b)).
      rewrite Hpre, <- (app_nil_r (header_wire _)).
      apply ReadHeader_wire, frame_header_in_range, Hok. }
    unfold parseHeader. rewrite read_at_ok by done. cbn [res_bind]. rewrite Hr.
    pose proof (frame_header_total p Hok) as Ht. pose proof Hok as Hok'. unfold frame_ok in Hok'. b2p.
    assert (0 <= blen p.2) by (unfold blen; lia).
    change (magic h) with kMagicNumber. change (version h) with kProtocolVersionV1.
    change (headerLen h) with kHeaderSize. rewrite !Z.eqb_refl. cbn [negb orb].
    rewrite (proj2 (Z.ltb_ge (totalLen h) _)) by (unfold h; lia).
    rewrite (proj2 (Z.ltb_ge _ (totalLen h))) by (unfold h; lia).
    cbn [orb negb res_bind with_parse m_state m_expectedLength]. fold c1.
    rewrite readable_content by done. case_if; [done|]. apply E.
  - cbn [negb res_bind]. rewrite Hst, He.
    assert (c = c1) as <-.
    { unfold c1, h. destruct c; simpl in *. by rewrite Hst, Hh, He. }
    fold h. case_if; [done|]. apply E.
Qed.

Lemma parsePayload_frame conn c b p rest :
  wf b -> frame_ok p = true -> content b = wire p ++ rest ->
  let h := frame_header p.1 p.2 in
  exists b', parsePayload conn (with_parse kExpectPayload (totalLen h) h c) b
      = Ok (true, with_parse kExpectHeader kHeaderSize h c, b', frame_events conn c p)
    /\ wf b' /\ content b' = rest /\ m_writerIndex b' <= m_writerIndex b.
Proof.
  intros H Hok Hc h.
  pose proof (frame_header_total p Hok) as Ht. pose proof (length_wire p Hok) as Hw.
  assert (0 <= blen p.2) by (unfold blen; lia).
  assert (Hl : blen (content b) = totalLen h + blen rest).
  { rewrite Hc. unfold blen in *. rewrite length_app. unfold h. lia. }
  assert (0 <= blen rest) by (unfold blen; lia).
  unfold parsePayload. cbn [with_parse m_currentHeader m_expectedLength m_packetCallback m_messageCallback].
  change (headerLen h) with kHeaderSize.
  assert (Hu : u32 (totalLen h - kHeaderSize) = blen p.2) by (by apply frame_payload_len).
  assert (Hp : peek kHeaderSize (u32 (totalLen h - kHeaderSize)) b = p.2).
  { rewrite Hu.
    rewrite peek_content by (done || (unfold kHeaderSize, h in *; lia)).
    rewrite Hc. unfold wire, slice, blen. rewrite <- app_assoc, Nat2Z.id.
    rewrite drop_app_length' by (rewrite length_header_wire; done).
    by rewrite take_app_length. }
  rewrite read_at_ok by (done || (rewrite Hu; unfold h in *; lia)). cbn [res_bind].
  rewrite Hp. destruct (retrieve_spec (totalLen h) b H) as (b' & E & Hwf & Hc' & _ & Hi).
  { unfold h in *. unfold kHeaderSize in *. lia. }
  rewrite E. cbn [res_bind]. change (checksum h) with (CalcCRC16 p.2).
  rewrite Z.eqb_refl. cbn [negb]. exists b'. split; [done|]. split; [done|].
  split; [|done]. rewrite Hc', Hc. apply drop_app_length'. unfold blen, h in *. lia.
Qed.

(** One call of [onMessage] on a buffer that holds a prefix of a stream of
    valid frames delivers every complete frame and keeps the rest. *)
Lemma onMessage_loop_stream fuel conn c b ps fut :
  wf b -> forallb frame_ok ps = true -> content b ++ fut = stream ps ->
  (forall p ps', ps = p :: ps' -> synced c (frame_header p.1 p.2)) ->
  (content b = [] -> m_state c = kExpectHeader) ->
  blen (content b) < Z.of_nat fuel ->
  exists ps1 ps2 c' b', ps = ps1 ++ ps2
    /\ onMessage_loop fuel conn c b
       = Ok (c', b', mjoin (frame_events conn c <$> ps1))
    /\ wf b' /\ same_callbacks c c' /\ m_writerIndex b' <= m_writerIndex b
    /\ content b' ++ fut = stream ps2
    /\ (forall p ps', ps2 = p :: ps' ->
          synced c' (frame_header p.1 p.2) /\ blen (content b') < blen (wire p))
    /\ (content b' = [] -> m_state c' = kExpectHeader).
Proof.
  revert c b ps. induction fuel as [|fuel IH]; intros c b ps H Hok Hs Hsync Hnil Hf.
  { unfold blen in Hf; lia. }
  cbn [onMessage_loop].
  destruct ps as [|p ps].
  { (* nothing is left *)
    apply app_eq_nil in Hs. destruct Hs as [Hs ->]. pose proof (Hnil Hs) as Hst.
    exists [], [], c, b. split; [done|]. unfold onMessage_round. rewrite Hst.
    rewrite readable_content, Hs by done.
    change (blen [] <? kHeaderSize) with true. cbn [negb res_bind].
    splits; auto with im; done. }
  cbn [forallb] in Hok. apply andb_true_iff in Hok as [Hokp Hokps]. specialize (Hsync _ _ eq_refl).
  pose proof (length_wire p Hokp) as Hw.
  assert (Hwl : kHeaderSize <= blen (wire p)).
  { unfold wire, blen. rewrite length_app, length_header_wire. unfold kHeaderSize. lia. }
  pose proof Hs as Hs0. change (stream (p :: ps)) with (wire p ++ stream ps) in Hs.
  destruct (decide (blen (content b) < kHeaderSize)) as [Hlt|Hge].
  { (* not even a header *)
    destruct Hsync as [Hst|(Hst & Hh & He)].
    - exists [], (p :: ps), c, b. split; [done|]. unfold onMessage_round. rewrite Hst.
      rewrite readable_content by done. rewrite (proj2 (Z.ltb_lt _ _)) by done.
      cbn [negb res_bind].
      splits; [done|done|apply same_callbacks_refl|done|exact Hs0| |done].
      intros ? ? [= <- <-]. split; [by left|lia].
    - exists [], (p :: ps), c, b. split; [done|]. unfold onMessage_round. rewrite Hst.
      cbn [negb res_bind]. rewrite Hst, readable_content by done.
      rewrite (proj2 (Z.ltb_lt _ _)) by (rewrite He; lia).
      cbn [res_bind].
      splits; [done|done|apply same_callbacks_refl|done|exact Hs0| |by rewrite <- Hst].
      intros ? ? [= <- <-]. split; [by right|lia]. }
  assert (Hpre : take 44 (content b) = header_wire (frame_header p.1 p.2)).
  { transitivity (take 44 (content b ++ fut)).
    - rewrite take_app_le; [done|]. unfold blen, kHeaderSize in *. lia.
    - rewrite Hs. unfold wire. rewrite <- app_assoc.
      by rewrite take_app_length' by (rewrite length_header_wire; done). }
  rewrite (onMessage_round_frame conn c b p) by done.
  rewrite readable_content by done. case_if; b2p.
  { (* an incomplete frame *)
    exists [], (p :: ps). eexists _, b. split; [done|]. cbn [res_bind]. split; [done|].
    splits; [done|apply same_callbacks_parse|done|exact Hs0| |].
    - intros ? ? [= <- <-]. split; [right; done|]. lia.
    - intros Hb. rewrite Hb in Hge. unfold blen, kHeaderSize in Hge. simpl in Hge. lia. }
  (* a complete frame *)
  assert (Hrest : exists rest, content b = wire p ++ rest /\ rest ++ fut = stream ps).
  { exists (drop (length (wire p)) (content b)).
    assert (Ht : take (length (wire p)) (content b) = wire p).
    { transitivity (take (length (wire p)) (content b ++ fut)).
      - rewrite take_app_le; [done|]. unfold blen in *. lia.
      - rewrite Hs. by rewrite take_app_length. }
    split; [by rewrite <- Ht at 1; rewrite take_drop|].
    transitivity (drop (length (wire p)) (content b ++ fut)).
    - rewrite drop_app_le; [done|]. unfold blen in *. lia.
    - rewrite Hs. by rewrite drop_app_length. }
  destruct Hrest as (rest & Hcr & Hrf).
  destruct (parsePayload_frame conn c b p rest H) as (b1 & E1 & Hwf1 & Hc1 & Hi1); [done|done|].
  rewrite E1. cbn [res_bind].
  destruct (IH (with_parse kExpectHeader kHeaderSize (frame_header p.1 p.2) c) b1 ps)
    as (ps1 & ps2 & c2 & b2 & -> & E2 & Hwf2 & Hcb & Hi2 & Hs2 & Hsy2 & Hn2).
  { done. } { done. } { by rewrite Hc1. } { by left. } { done. }
  { rewrite Hc1. rewrite Hcr in Hf. unfold blen in *. rewrite length_app in Hf.
    unfold kHeaderSize in *. lia. }
  rewrite E2. cbn [res_bind]. exists (p :: ps1), ps2, c2, b2.
  split; [done|]. split; [done|]. splits; [done|done|lia|done|done|done].
Qed.

(** Chunks of one connection: each is appended to the input buffer and handed
    to [onMessage], as the message callback of a connection does. *)
Fixpoint feed (conn : ConnId) (c : Codec) (b : Buffer) (chunks : list bytes)
    : res (Codec * Buffer * list event) :=
  match chunks with
  | [] => Ok (c, b, [])
  | d :: chunks' =>
    b1 <- append d b ;;
    '(c2, b2, evs) <- onMessage conn c b1 ;;
    '(c3, b3, evs') <- feed conn c2 b2 chunks' ;;
    Ok (c3, b3, evs ++ evs')
  end.

Fixpoint pack_all (ps : list (PacketHeader * bytes)) (b : Buffer) : res Buffer :=
  match ps with
  | [] => Ok b
  | p :: ps' => b1 <- pack p.1 p.2 b ;; pack_all ps' b1
  end.

Lemma frame_events_callbacks conn c c' p :
  same_callbacks c c' -> frame_events conn c' p = frame_events conn c p.
Proof. intros (H1 & H2 & _). unfold frame_events. by rewrite H1, H2. Qed.

Lemma blen_app x y : blen (x ++ y) = blen x + blen y.
Proof. unfold blen. rewrite length_app. lia. Qed.

Lemma blen_nonneg x : 0 <= blen x.
Proof. unfold blen. lia. Qed.

Lemma stream_cons p ps : stream (p :: ps) = wire p ++ stream ps.
Proof. done. Qed.

Lemma pack_all_spec ps b :
  wf b -> has_room (blen (stream ps)) b ->
  exists b', pack_all ps b = Ok b' /\ wf b' /\ content b' = content b ++ stream ps.
Proof.
  revert b; induction ps as [|p ps IH]; intros b H Hroom.
  { exists b. split; [done|]. split; [done|]. cbn. by rewrite app_nil_r. }
  rewrite stream_cons in *. cbn [pack_all]. unfold has_room in *. rewrite blen_app in Hroom.
  pose proof (blen_nonneg (stream ps)).
  assert (Hw : blen (wire p) = kHeaderSize + blen p.2).
  { unfold wire. rewrite blen_app. unfold blen at 1. by rewrite length_header_wire. }
  destruct (pack_spec p.1 p.2 b H) as (b1 & E1 & H1 & Hc1 & Hi1); [unfold has_room; lia|].
  rewrite E1. cbn [res_bind].
  destruct (IH b1 H1) as (b2 & E2 & H2 & Hc2); [lia|].
  exists b2. rewrite E2, Hc2, Hc1, <- app_assoc. by destruct p.
Qed.

Lemma feed_stream conn chunks : forall c b ps,
  wf b -> forallb frame_ok ps = true -> content b ++ mjoin chunks = stream ps ->
  has_room (blen (mjoin chunks)) b ->
  (forall p ps', ps = p :: ps' -> synced c (frame_header p.1 p.2) /\ blen (content b) < blen (wire p)) ->
  (content b = [] -> m_state c = kExpectHeader) ->
  exists c' b', feed conn c b chunks = Ok (c', b', mjoin (frame_events conn c <$> ps))
    /\ wf b' /\ content b' = [] /\ m_state c' = kExpectHeader.
Proof.
  induction chunks as [|d chunks IH]; intros c b ps H Hok Hs Hroom Hsync Hnil.
  { rewrite app_nil_r in Hs. destruct ps as [|p ps].
    - exists c, b. cbn [feed]. splits; auto.
    - destruct (Hsync _ _ eq_refl) as [_ Hlt]. rewrite Hs, stream_cons, blen_app in Hlt.
      pose proof (blen_nonneg (stream ps)). lia. }
  cbn [feed]. change (mjoin (d :: chunks)) with (d ++ mjoin chunks) in *.
  unfold has_room in *. rewrite blen_app in Hroom. pose proof (blen_nonneg (mjoin chunks)).
  destruct (append_spec d b H) as (b1 & E1 & H1 & Hc1 & Hi1); [unfold has_room; lia|].
  rewrite E1. cbn [res_bind]. unfold onMessage.
  destruct (onMessage_loop_stream (S (Z.to_nat (readableBytes b1))) conn c b1 ps (mjoin chunks))
    as (ps1 & ps2 & c2 & b2 & -> & E2 & H2 & Hcb & Hi2 & Hs2 & Hsy2 & Hn2).
  { done. } { done. } { by rewrite Hc1, <- app_assoc. }
  { intros p ps' Hp. by destruct (Hsync p ps' Hp). }
  { rewrite Hc1. intros [Hb _]%app_eq_nil. auto. }
  { rewrite readable_content by done. pose proof (blen_nonneg (content b1)). lia. }
  rewrite E2. cbn [res_bind]. rewrite forallb_app in Hok. apply andb_true_iff in Hok as [_ Hok2].
  destruct (IH c2 b2 ps2) as (c3 & b3 & E3 & H3 & Hc3 & Hst3); [done|done|done|lia|done|done|].
  rewrite E3. cbn [res_bind]. exists c3, b3. split; [|done].
  rewrite fmap_app, join_app. do 3 f_equal. f_equal.
  apply list_fmap_ext. intros. by apply frame_events_callbacks.
Qed.

(** C3: [Codec::pack] and [Codec::onMessage] are inverse on a TCP stream, however
    the stream is cut.  Packing any list of frames (fields at their widths,
    size within [kMaxMessageSize]) into a buffer succeeds; and whatever chunks
    the resulting bytes arrive in, one connection's codec delivers exactly
    those frames to the callbacks, in order and once each, and ends with an
    empty buffer in the header state. *)
Theorem pack_onMessage_roundtrip conn mcb pcb ecb ps :
  forallb frame_ok ps = true ->
  kCheapPrepend + blen (stream ps) <= max_size ->
  exists out, pack_all ps newBuffer = Ok out /\
  forall chunks, mjoin chunks = content out ->
  exists c b, feed conn (newCodec mcb pcb ecb) newBuffer chunks
      = Ok (c, b, mjoin (frame_events conn (newCodec mcb pcb ecb) <$> ps))
    /\ content b = [] /\ m_state c = kExpectHeader.
Proof.
  intros Hok Hroom.
  destruct (pack_all_spec ps newBuffer newBuffer_wf) as (out & E & Hwf & Hc); [exact Hroom|].
  exists out. split; [done|]. intros chunks Hch. rewrite Hc in Hch.
  destruct (feed_stream conn chunks (newCodec mcb pcb ecb) newBuffer ps) as (c & b & E' & _ & R).
  { apply newBuffer_wf. } { done. } { done. } { unfold has_room. by rewrite Hch. }
  { intros p ps' ->. split; [by left|]. unfold wire. rewrite blen_app.
    unfold blen. rewrite length_header_wire. change (length (content newBuffer)) with 0%nat. lia. }
  { done. }
  eauto.
Qed.

(** One call of [onMessage] in a state the codec can be in. *)
Lemma onMessage_total conn c b :
  codec_wf c -> wf b ->
  exists c' b' evs, onMessage conn c b = Ok (c', b', evs) /\ codec_wf c' /\ wf b'
    /\ m_writerIndex b' <= m_writerIndex b /\ left_of (content b) (content b') /\ Forall event_valid evs.
Proof.
  intros Hc H. unfold onMessage.
  destruct (onMessage_loop_total (S (Z.to_nat (readableBytes b))) conn c b Hc H)
    as (c' & b' & evs & E & ? & _ & ? & ? & ? & ?).
  { rewrite readable_content by done. unfold blen. lia. }
  exists c', b', evs. by splits.
Qed.

(** A frame whose payload bytes do not match its checksum. *)
Lemma parsePayload_mismatch conn c b p hd bad rest :
  wf b -> frame_ok p = true -> length bad = length p.2 ->
  CalcCRC16 bad <> CalcCRC16 p.2 ->
  length hd = 44%nat -> content b = hd ++ bad ++ rest ->
  let h := frame_header p.1 p.2 in
  exists b', parsePayload conn (with_parse kExpectPayload (totalLen h) h c) b
      = Ok (false, with_parse kExpectHeader kHeaderSize h c, b',
            emit_error c (Some conn) ErrChecksumMismatch)
    /\ wf b' /\ content b' = rest.
Proof.
  intros H Hok Hlen Hcrc Hhd Hc h.
  pose proof (frame_header_total p Hok) as Ht.
  assert (Hb : blen bad = blen p.2) by (unfold blen; lia).
  pose proof (blen_nonneg p.2). pose proof (blen_nonneg rest).
  assert (Hh : blen hd = kHeaderSize) by (unfold blen; by rewrite Hhd).
  assert (Hl : blen (content b) = totalLen h + blen rest)
    by (rewrite Hc, !blen_app; unfold h; lia).
  unfold parsePayload. cbn [with_parse m_currentHeader m_expectedLength].
  change (headerLen h) with kHeaderSize.
  assert (Hu : u32 (totalLen h - kHeaderSize) = blen bad) by (rewrite Hb; by apply frame_payload_len).
  assert (Hp : peek kHeaderSize (u32 (totalLen h - kHeaderSize)) b = bad).
  { rewrite Hu.
    rewrite peek_content by (done || (unfold kHeaderSize, h in *; lia)).
    rewrite Hc. unfold slice, blen. rewrite Nat2Z.id.
    rewrite drop_app_length' by (rewrite Hhd; done).
    by rewrite take_app_length. }
  rewrite read_at_ok by (done || (rewrite Hu; unfold h in *; lia)). cbn [res_bind].
  rewrite Hp. destruct (retrieve_spec (totalLen h) b H) as (b' & E & Hwf & Hc' & _ & _).
  { unfold h in *. unfold kHeaderSize in *. lia. }
  rewrite E. cbn [res_bind]. change (checksum h) with (CalcCRC16 p.2).
  rewrite (proj2 (Z.eqb_neq _ _)) by congruence. cbn [negb]. exists b'. splits; [done|done|].
  rewrite Hc', Hc, app_assoc. apply drop_app_length'. rewrite length_app.
  unfold blen, h in *. lia.
Qed.

(** C28: A corrupted frame is reported and never delivered.  If one byte of the
    payload of a valid frame changes in transit, [onMessage] invokes only the
    error callback, with [ErrChecksumMismatch] and the connection, drops
    exactly that frame and returns to the header state; the bytes behind it
    stay in the buffer, and even complete frames among them wait for the next
    call. *)
Theorem onMessage_detects_corruption conn c b h pre x y post rest :
  let p := (h, pre ++ x :: post) in
  wf b -> frame_ok p = true -> m_state c = kExpectHeader -> x <> y ->
  content b = header_wire (frame_header h (pre ++ x :: post)) ++ (pre ++ y :: post) ++ rest ->
  exists c' b', onMessage conn c b = Ok (c', b', emit_error c (Some conn) ErrChecksumMismatch)
    /\ m_state c' = kExpectHeader /\ wf b' /\ content b' = rest.
Proof.
  intros p H Hok Hst Hxy Hc. pose proof (frame_header_total p Hok) as Ht.
  assert (Hlen : length (pre ++ y :: post) = length p.2) by (cbn; by rewrite !length_app).
  unfold onMessage. cbn [onMessage_loop].
  rewrite (onMessage_round_frame conn c b p); [|done|done|by left|].
  2: { rewrite Hc. rewrite take_app_length' by (by rewrite length_header_wire). done. }
  assert (Hl : blen (content b) = totalLen (frame_header p.1 p.2) + blen rest).
  { rewrite Hc, blen_app, blen_app, Ht. unfold blen. rewrite length_header_wire, Hlen.
    unfold kHeaderSize. lia. }
  pose proof (blen_nonneg rest).
  rewrite readable_content by done. rewrite (proj2 (Z.ltb_ge _ _)) by lia.
  destruct (parsePayload_mismatch conn c b p (header_wire (frame_header p.1 p.2)) (pre ++ y :: post) rest)
    as (b' & E & Hwf & Hc'); [done|done|done| |apply length_header_wire|done|].
  { apply CalcCRC16_one_byte. congruence. }
  rewrite E. cbn [res_bind]. eexists _, b'. splits; done.
Qed.

(** The size limit is enforced by the receiver only: [Codec::pack] accepts a
    message that makes the frame longer than [kMaxMessageSize] (up to the
    32-bit length field), and the receiving [onMessage] answers such a frame
    with [ErrPayloadTooLarge], without a connection, and discards everything
    that is in the buffer. *)
Lemma oversized_frame_discards_buffer conn c b h m rest :
  wf b -> header_in_range h = true -> m_state c = kExpectHeader ->
  kMaxMessageSize < kHeaderSize + blen m < 2 ^ 32 ->
  content b = wire (h, m) ++ rest ->
  exists c' b', onMessage conn c b = Ok (c', b', emit_error c None ErrPayloadTooLarge)
    /\ m_state c' = kExpectHeader /\ content b' = [].
Proof.
  intros H Hr Hst Hm Hc. set (fh := frame_header h m).
  assert (Ht : totalLen fh = kHeaderSize + blen m).
  { unfold fh. cbn [frame_header totalLen]. fold (blen m). pose proof (blen_nonneg m).
    unfold kHeaderSize in *. rewrite (u32_small (blen m)), u32_small; lia. }
  assert (Hfh : header_in_range fh = true).
  { unfold header_in_range in *. b2p. pose proof (CalcCRC16_range m).
    rewrite Ht. unfold fh.
    cbn [frame_header magic version headerLen totalLen command flags requestId clientSeq
         serverSeq errorCode checksum].
    pose proof (blen_nonneg m). rewrite !andb_true_iff, !Z.leb_le, !Z.ltb_lt.
    splits; (assumption || done || (unfold kHeaderSize in *; lia)). }
  assert (Hlen : kHeaderSize <= blen (content b)).
  { rewrite Hc. unfold wire. rewrite !blen_app. unfold blen at 1.
    rewrite length_header_wire. pose proof (blen_nonneg m). pose proof (blen_nonneg rest).
    unfold kHeaderSize. simpl snd. lia. }
  assert (Hrd : ReadHeader (peek 0 kHeaderSize b) = fh).
  { rewrite peek_content by (done || (unfold kHeaderSize in *; lia)).
    change (slice (Z.to_nat 0) (Z.to_nat kHeaderSize) (content b)) with (take 44 (content b)).
    rewrite Hc. unfold wire. rewrite <- app_assoc.
    rewrite take_app_length' by (by rewrite length_header_wire).
    rewrite <- (app_nil_r (header_wire _)). by apply ReadHeader_wire. }
  unfold onMessage. cbn [onMessage_loop]. unfold onMessage_round. rewrite Hst.
  rewrite readable_content by done. rewrite (proj2 (Z.ltb_ge _ _)) by done.
  unfold parseHeader. rewrite read_at_ok by done. cbn [res_bind]. rewrite Hrd.
  change (magic fh) with kMagicNumber. change (version fh) with kProtocolVersionV1.
  change (headerLen fh) with kHeaderSize. rewrite !Z.eqb_refl, Ht. cbn [negb orb].
  rewrite (proj2 (Z.ltb_lt kMaxMessageSize _)) by lia. rewrite orb_true_r. cbn [negb res_bind].
  eexists _, _. splits; [done|done|apply retrieveAll_content].
Qed.

(** ** One codec for all connections

    server_full.cpp creates a single [Codec] and its message callback runs
    every connection's buffer through it. *)
Fixpoint feed_shared (c : Codec) (bufs : gmap ConnId Buffer) (chunks : list (ConnId * bytes))
    : res (Codec * gmap ConnId Buffer * list event) :=
  match chunks with
  | [] => Ok (c, bufs, [])
  | (conn, d) :: chunks' =>
    b1 <- append d (default newBuffer (bufs !! conn)) ;;
    '(c2, b2, evs) <- onMessage conn c b1 ;;
    '(c3, bufs', evs') <- feed_shared c2 (<[conn := b2]> bufs) chunks' ;;
    Ok (c3, bufs', evs ++ evs')
  end.

(** The bytes of one connection among the chunks. *)
Definition bytes_of (x : ConnId) (chunks : list (ConnId * bytes)) : bytes :=
  mjoin (omap (fun ch => if bool_decide (ch.1 = x) then Some ch.2 else None) chunks).

Lemma bytes_of_cons x ch chunks :
  bytes_of x (ch :: chunks) = (if bool_decide (ch.1 = x) then ch.2 else []) ++ bytes_of x chunks.
Proof. unfold bytes_of. cbn [omap list_omap]. by case_bool_decide. Qed.

Definition buffer_of (bufs : gmap ConnId Buffer) (x : ConnId) : Buffer := default newBuffer (bufs !! x).

Lemma feed_shared_total chunks : forall c bufs,
  codec_wf c -> (forall x, wf (buffer_of bufs x) /\ m_writerIndex (buffer_of bufs x) + blen (mjoin chunks.*2) <= max_size) ->
  exists c' bufs' evs, feed_shared c bufs chunks = Ok (c', bufs', evs) /\ codec_wf c'
    /\ (forall x, wf (buffer_of bufs' x)
          /\ left_of (content (buffer_of bufs x) ++ bytes_of x chunks) (content (buffer_of bufs' x)))
    /\ Forall event_valid evs.
Proof.
  induction chunks as [|[y d] chunks IH]; intros c bufs Hc Hb.
  { exists c, bufs, []. splits; [done|done| |constructor]. intros x. split; [apply Hb|]. rewrite app_nil_r. apply left_of_refl. }
  change (mjoin ((y, d) :: chunks).*2) with (d ++ mjoin chunks.*2) in Hb. setoid_rewrite blen_app in Hb.
  pose proof (blen_nonneg d). pose proof (blen_nonneg (mjoin chunks.*2)).
  cbn [feed_shared]. fold (buffer_of bufs y). destruct (Hb y) as [Hwy Hry].
  destruct (append_spec d (buffer_of bufs y) Hwy) as (b1 & E1 & Hw1 & Hc1 & Hi1); [unfold has_room; lia|].
  rewrite E1. cbn [res_bind].
  destruct (onMessage_total y c b1 Hc Hw1) as (c2 & b2 & evs & E2 & Hc2 & Hw2 & Hi2 & Hl2 & Hev). rewrite E2. cbn [res_bind].
  destruct (IH c2 (<[y := b2]> bufs) Hc2) as (c3 & bufs3 & evs3 & E3 & Hc3 & Hb3 & Hev3).
  { intros x. unfold buffer_of. destruct (decide (x = y)) as [->|Hne].
    - rewrite lookup_insert_eq. cbn [default from_option]. split; [done|]. change (id b2) with b2. lia.
    - rewrite lookup_insert_ne by congruence. destruct (Hb x) as [? ?]. unfold buffer_of in *. split; [done|lia]. }
  rewrite E3. cbn [res_bind]. eexists _, _, _. splits; [done|done| |by apply Forall_app].
  intros x. destruct (Hb3 x) as [Hwx Hlx]. split; [done|]. rewrite bytes_of_cons. cbn [fst snd].
  destruct (decide (x = y)) as [->|Hne].
  - rewrite bool_decide_eq_true_2 by done. unfold buffer_of at 1 in Hlx. rewrite lookup_insert_eq in Hlx.
    cbn [default from_option] in Hlx. eapply left_of_trans; [|exact Hlx].
    destruct Hl2 as [pre Hl2]. exists pre. rewrite app_assoc, <- Hc1, Hl2. by rewrite app_assoc.
  - rewrite bool_decide_eq_false_2 by congruence. unfold buffer_of at 1 in Hlx. rewrite lookup_insert_ne in Hlx by congruence.
    exact Hlx.
Qed.

(** C27: The parser is total and memory-safe on arbitrary input.  Whatever bytes
    any number of connections send, in whatever pieces and interleaving, the
    one codec and the connections' buffers handle them: every call of
    [onMessage] returns (the loop ends within the fuel the model gives it), no
    assertion of [Buffer] fails, nothing past the readable bytes is read, the
    buffers stay well formed and hold an end of what their connection sent, and
    every packet that is delivered has the magic number, version, length and
    checksum its header states. *)
Theorem parser_safe_on_any_input mcb pcb ecb chunks :
  kCheapPrepend + blen (mjoin chunks.*2) <= max_size ->
  exists c bufs evs, feed_shared (newCodec mcb pcb ecb) ∅ chunks = Ok (c, bufs, evs)
    /\ (forall x, wf (buffer_of bufs x) /\ left_of (bytes_of x chunks) (content (buffer_of bufs x)))
    /\ Forall event_valid evs.
Proof.
  intros Hroom. destruct (feed_shared_total chunks (newCodec mcb pcb ecb) ∅) as (c & bufs & evs & E & _ & Hb & Hev).
  - apply newCodec_wf.
  - intros x. unfold buffer_of. rewrite lookup_empty. split; [apply newBuffer_wf|exact Hroom].
  - exists c, bufs, evs. splits; [exact E| |exact Hev]. intros x. specialize (Hb x). unfold buffer_of at 2 in Hb.
    rewrite lookup_empty in Hb. exact Hb.
Qed.

(** A call that gets a part of a frame beyond its header waits for the rest. *)
Lemma onMessage_waits conn c b p k :
  wf b -> frame_ok p = true -> m_state c = kExpectHeader ->
  content b = take k (wire p) -> (44 <= k < length (wire p))%nat ->
  let h := frame_header p.1 p.2 in
  onMessage conn c b = Ok (with_parse kExpectPayload (totalLen h) h c, b, []).
Proof.
  intros H Hok Hst Hc Hk h. unfold onMessage. cbn [onMessage_loop].
  rewrite (onMessage_round_frame conn c b p); [|done|done|by left|].
  - pose proof (length_wire p Hok) as Hw. rewrite readable_content, Hc by done.
    rewrite (proj2 (Z.ltb_lt _ _)); [done|]. rewrite <- Hw. unfold blen. rewrite length_take. lia.
  - rewrite Hc, take_take, Nat.min_l by lia. unfold wire. by rewrite take_app_length' by (by rewrite length_header_wire).
Qed.

(** A call that still has the header of another connection's frame. *)
Lemma onMessage_foreign conn c b p q :
  wf b -> frame_ok p = true -> length q.2 = length p.2 -> CalcCRC16 q.2 <> CalcCRC16 p.2 -> content b = wire q ->
  let h := frame_header p.1 p.2 in
  exists b', onMessage conn (with_parse kExpectPayload (totalLen h) h c) b
    = Ok (with_parse kExpectHeader kHeaderSize h c, b', emit_error c (Some conn) ErrChecksumMismatch)
    /\ wf b' /\ content b' = [].
Proof.
  intros H Hok Hlen Hcrc Hc h. pose proof (frame_header_total p Hok) as Ht.
  destruct (parsePayload_mismatch conn c b p (header_wire (frame_header q.1 q.2)) q.2 [])
    as (b' & E & Hw & Hc'); [done..|apply length_header_wire|by rewrite app_nil_r|].
  exists b'. split; [|done]. unfold onMessage. cbn [onMessage_loop]. unfold onMessage_round.
  cbn [with_parse m_state m_expectedLength res_bind negb]. rewrite readable_content by done.
  rewrite (proj2 (Z.ltb_ge _ _)).
  - fold (with_parse kExpectPayload (totalLen h) h c). fold h in E. rewrite E. done.
  - rewrite Hc. unfold wire. rewrite blen_app. unfold blen. rewrite length_header_wire, Hlen. unfold h. rewrite Ht.
    unfold blen, kHeaderSize. lia.
Qed.

Lemma onMessage_one conn c b p :
  wf b -> frame_ok p = true -> m_state c = kExpectHeader -> content b = wire p ->
  exists c' b', onMessage conn c b = Ok (c', b', frame_events conn c p).
Proof.
  intros H Hok Hst Hc. unfold onMessage.
  destruct (onMessage_loop_stream (S (Z.to_nat (readableBytes b))) conn c b [p] [])
    as (ps1 & ps2 & c' & b' & Eps & E & _ & _ & _ & Hs & Hsh & _); [done| | |by left|done| |].
  - cbn. by rewrite Hok.
  - rewrite app_nil_r, Hc. cbn. by rewrite app_nil_r.
  - rewrite readable_content by done. pose proof (blen_nonneg (content b)). lia.
  - destruct ps1 as [|p1 [|p2 ps1]]; [|injection Eps as <- <-|done].
    + cbn in Eps. subst ps2. destruct (Hsh p [] eq_refl) as [_ Hlt]. rewrite app_nil_r in Hs. rewrite Hs in Hlt.
      cbn in Hlt. rewrite app_nil_r in Hlt. lia.
    + exists c', b'. rewrite E. cbn. by rewrite app_nil_r.
Qed.

(** C37: Sharing one codec between connections loses messages.  With the single
    [Codec] of the server, whenever a read event of one connection ends inside
    the payload of its frame and another connection then sends a complete valid
    frame with a payload of the same length and another checksum, that frame is
    parsed against the first connection's header, reported as a checksum error
    and dropped; the first frame is delivered when its rest arrives. *)
Theorem shared_codec_drops_valid_frame i j f1 f2 k :
  i <> j -> frame_ok f1 = true -> frame_ok f2 = true ->
  length f2.2 = length f1.2 -> CalcCRC16 f2.2 <> CalcCRC16 f1.2 ->
  (44 <= k < length (wire f1))%nat ->
  exists c bufs, feed_shared (newCodec false true true) ∅ [(i, take k (wire f1)); (j, wire f2); (i, drop k (wire f1))]
    = Ok (c, bufs, [ErrorEv (Some j) ErrChecksumMismatch; PacketEv i (mkDecodedPacket (frame_header f1.1 f1.2) f1.2)]).
Proof.
  intros Hij H1 H2 Hlen Hcrc Hk.
  assert (room : forall d, blen d <= kMaxMessageSize -> has_room (blen d) newBuffer).
  { intros d Hd. unfold has_room. cbn. unfold max_size, kMaxMessageSize, kCheapPrepend in *. lia. }
  assert (long : forall p, frame_ok p = true -> blen (wire p) <= kMaxMessageSize).
  { intros p Hp. rewrite length_wire, frame_header_total by done. unfold frame_ok in Hp. b2p. done. }
  pose proof (long f1 H1) as L1. pose proof (long f2 H2) as L2.
  destruct (append_spec (take k (wire f1)) newBuffer newBuffer_wf) as (b1 & A1 & W1 & C1 & I1).
  { apply room. unfold blen in *. rewrite length_take. lia. }
  destruct (append_spec (wire f2) newBuffer newBuffer_wf (room _ L2)) as (b2 & A2 & W2 & C2 & _).
  rewrite newBuffer_content in C1, C2.
  destruct (append_spec (drop k (wire f1)) b1 W1) as (b3 & A3 & W3 & C3 & _).
  { unfold has_room. cbn in I1. unfold blen, max_size, kMaxMessageSize, kCheapPrepend in *. rewrite length_take in I1.
    rewrite length_drop. lia. }
  rewrite C1, app_nil_l, take_drop in C3. set (h := frame_header f1.1 f1.2).
  destruct (onMessage_foreign j (newCodec false true true) b2 f1 f2) as (b2' & E2 & _); [done..|].
  destruct (onMessage_one i (with_parse kExpectHeader kHeaderSize h (newCodec false true true)) b3 f1) as (c3 & b3' & E3); [done..|].
  cbn [feed_shared]. rewrite lookup_empty. cbn [default from_option]. rewrite A1. cbn [res_bind].
  rewrite (onMessage_waits i (newCodec false true true) b1 f1 k) by done. cbn [res_bind].
  rewrite lookup_insert_ne, lookup_empty by done. cbn [default from_option]. rewrite A2. cbn [res_bind]. fold h. fold h in E2.
  rewrite E2. cbn [res_bind]. rewrite lookup_insert_ne, lookup_insert_eq by done. cbn [default from_option].
  change (id b1) with b1. rewrite A3. cbn [res_bind]. rewrite E3. cbn [res_bind]. by do 2 eexists.
Qed.

(** ** Concrete instances *)
Definition ex_header : PacketHeader :=
  mkPacketHeader 0 0 0 0 CmdLoginReq kFlagRequest 1 1 0 0 0.
Definition ex_frames : list (PacketHeader * bytes) :=
  [(ex_header, chars "{}"); (ex_header, []); (ex_header, chars "xyz")].

Lemma pack_onMessage_roundtrip_witness :
  exists out, pack_all ex_frames newBuffer = Ok out /\
  forall chunks, mjoin chunks = content out ->
  exists c b, feed 3%nat (newCodec true true true) newBuffer chunks
      = Ok (c, b, mjoin (frame_events 3%nat (newCodec true true true) <$> ex_frames))
    /\ content b = [] /\ m_state c = kExpectHeader.
Proof. apply pack_onMessage_roundtrip; [reflexivity|vm_compute; intros [=]]. Defined.

Definition ex_f1 : PacketHeader * bytes :=
  (mkPacketHeader 0 0 0 0 CmdP2pMsgReq kFlagRequest 7 7 0 0 0, chars "0123456789").
Definition ex_f2 : PacketHeader * bytes :=
  (mkPacketHeader 0 0 0 0 CmdHeartbeatReq kFlagRequest 9 9 0 0 0, chars "abcdefghij").

(** Two connections send garbage, a frame in two pieces and a frame with a wrong
    checksum. *)
Definition ex_chunks : list (ConnId * bytes) :=
  [(1%nat, chars "GET / HTTP/1.1 this is not a frame of the protocol at all");
   (2%nat, take 50 (wire ex_f1)); (1%nat, take 10 (wire ex_f2)); (2%nat, drop 50 (wire ex_f1));
   (1%nat, header_wire (frame_header ex_header (chars "abc")) ++ chars "abd" ++ chars "rest")].

Lemma parser_safe_on_any_input_witness :
  exists c bufs evs, feed_shared (newCodec false true true) ∅ ex_chunks = Ok (c, bufs, evs)
    /\ (forall x, wf (buffer_of bufs x) /\ left_of (bytes_of x ex_chunks) (content (buffer_of bufs x)))
    /\ Forall event_valid evs.
Proof. apply parser_safe_on_any_input. vm_compute. discriminate. Defined.

Lemma shared_codec_drops_valid_frame_witness :
  exists c bufs, feed_shared (newCodec false true true) ∅
      [(1%nat, take 50 (wire ex_f1)); (2%nat, wire ex_f2); (1%nat, drop 50 (wire ex_f1))]
    = Ok (c, bufs, [ErrorEv (Some 2%nat) ErrChecksumMismatch;
                    PacketEv 1%nat (mkDecodedPacket (frame_header ex_f1.1 ex_f1.2) ex_f1.2)]).
Proof.
  apply (shared_codec_drops_valid_frame 1%nat 2%nat ex_f1 ex_f2 50);
    [discriminate|reflexivity|reflexivity|reflexivity|vm_compute; discriminate|].
  assert (E : length (wire ex_f1) = 54%nat) by (vm_compute; reflexivity). rewrite E. lia.
Defined.

Lemma filled_buffer d :
  kCheapPrepend + blen d <= max_size -> exists b, append d newBuffer = Ok b /\ wf b /\ content b = d.
Proof.
  intros H. destruct (append_spec d newBuffer newBuffer_wf) as (b & E & Hwf & Hc & _); [exact H|].
  exists b. rewrite newBuffer_content in Hc. done.
Qed.

Definition ex_corrupt : Buffer :=
  match append (header_wire (frame_header ex_header (chars "abc"))
                ++ (chars "a" ++ "X"%char :: chars "c") ++ []) newBuffer with
  | Ok b => b | Err _ => newBuffer end.

Lemma ex_corrupt_wf : wf ex_corrupt.
Proof. repeat split; vm_compute; intros [=]. Qed.

Lemma onMessage_detects_corruption_witness :
  exists c' b', onMessage 1%nat (newCodec true true true) ex_corrupt
      = Ok (c', b', emit_error (newCodec true true true) (Some 1%nat) ErrChecksumMismatch)
    /\ m_state c' = kExpectHeader /\ wf b' /\ content b' = [].
Proof.
  apply (onMessage_detects_corruption 1%nat (newCodec true true true) ex_corrupt ex_header
           (chars "a") "b"%char "X"%char (chars "c") []);
    [exact ex_corrupt_wf|reflexivity|reflexivity|intros [=]|vm_compute; reflexivity].
Defined.

Definition ex_big : bytes := replicate (Z.to_nat kMaxMessageSize) zero.

Lemma blen_ex_big : blen ex_big = kMaxMessageSize.
Proof. unfold blen, ex_big. rewrite length_replicate. by rewrite Z2Nat.id. Qed.

Lemma oversized_frame_discards_buffer_witness :
  exists b c' b', content b = wire (ex_header, ex_big) ++ []
    /\ onMessage 1%nat (newCodec true true true) b
       = Ok (c', b', emit_error (newCodec true true true) None ErrPayloadTooLarge)
    /\ m_state c' = kExpectHeader /\ content b' = [].
Proof.
  destruct (filled_buffer (wire (ex_header, ex_big) ++ [])) as (b & _ & Hwf & Hc).
  { unfold wire. rewrite !blen_app. cbn [snd]. rewrite blen_ex_big. unfold blen.
    rewrite length_header_wire. intros [=]. }
  exists b.
  destruct (oversized_frame_discards_buffer 1%nat (newCodec true true true) b ex_header ex_big [])
    as (c' & b' & R); [exact Hwf|reflexivity|reflexivity| |exact Hc|exists c', b'; tauto].
  rewrite blen_ex_big. split; [reflexivity|reflexivity].
Defined.

End codec.
