(* ===== verification/MessageStore.v ===== *)
(** * storage: the message-store interface and the in-memory store
      (src/storage/messageStore.h, src/storage/messageStore.cpp)

    [IMessageStore] is the virtual interface of the source as a type class:
    each operation takes the store and returns the values of its out-parameters
    with the new store ([inl e]/[Some e] is [return false] with [errorMsg = e]).
    [MessageStoreLaws] states what its client, the message service, relies on,
    over the map of stored messages.  [InMemoryMessageStore] is modelled field
    by field, with the insertions that [operator\[\]] performs; its invariant
    [mem_inv] is proved for every operation and discharges the laws. *)
From Stdlib Require Import Sorting.Sorted.
From S2P Require Import Prelude Protocol.
Import protocol.

Module storage.

Record CreateMessageRequest := mkCreateMessageRequest {
  req_fromUserId : string;
  req_toUserId : string;
  req_clientMsgId : string;
  req_content : string;
  req_timestamp : Z;
}.

Record StoredMessage := mkStoredMessage {
  notify : P2PMsgNotify;
  status : DeliveryStatus;
  receiverId : string;
  createdAt : Z;
  lastDeliverAt : Z;
  ackedAt : Z;
  retryCount : Z;
}.

#[export] Instance StoredMessage_eq_dec : EqDecision StoredMessage.
Proof. solve_decision. Defined.

Notation msgId m := (n_msgId (notify m)).
Notation seqOf m := (n_serverSeq (notify m)).

(** The virtual interface. *)
Class IMessageStore (St : Type) := {
  saveMessageAndDelivery : CreateMessageRequest -> St -> (string + StoredMessage * bool) * St;
  markDeliveryAttempt : string -> Z -> DeliveryStatus -> Z -> Z -> St -> option string * St;
  markAcked : string -> Z -> Z -> Z -> Z -> St -> (option string * Z) * St;
  loadPendingMessages : string -> Z -> Z -> St -> (list StoredMessage * Z * string) * St;
  getLastAckedSeq : string -> St -> Z * St;
}.

(** A record of a message after a delivery attempt, and after an ack. *)
Definition attempted (st : DeliveryStatus) (deliverAt retries : Z) (m : StoredMessage) :=
  mkStoredMessage (notify m) st (receiverId m) (createdAt m) deliverAt (ackedAt m) retries.

Definition ack_status (ackCode : Z) : DeliveryStatus :=
  if ackCode =? AckRead then DeliveryRead else DeliveryDelivered.

Definition acked (ackCode at_ : Z) (m : StoredMessage) :=
  mkStoredMessage (notify m) (ack_status ackCode) (receiverId m) (createdAt m)
    (lastDeliverAt m) at_ (retryCount m).

(** Waiting for delivery or for an acknowledgement. *)
Definition awaits (m : StoredMessage) : bool :=
  match status m with
  | DeliveryDelivered | DeliveryRead | DeliveryFailed => false
  | _ => true
  end.

(** ** The in-memory store *)
Record InMemoryMessageStore := mkMem {
  m_nextMsgId : Z;
  m_nextServerSeqByUser : gmap string Z;
  m_lastAckedSeqByUser : gmap string Z;
  m_clientMsgDedupIndex : gmap string Z;
  m_messages : gmap Z StoredMessage;
  m_pendingMsgIdsByUser : gmap string (list Z);
}.

Definition newMem : InMemoryMessageStore := mkMem 1 ∅ ∅ ∅ ∅ ∅.

Definition makeDedupKey (fromUserId clientMsgId : string) : string :=
  if bool_decide (clientMsgId = "") then "" else fromUserId +:+ "#" +:+ clientMsgId.

(** [operator\[\]] of an [unordered_map] with integer values. *)
Definition at_default (k : string) (m : gmap string Z) : Z := default 0 (m !! k).

Definition mem_lookup_dup (key : string) (s : InMemoryMessageStore) : option StoredMessage :=
  if bool_decide (key = "") then None
  else id ← m_clientMsgDedupIndex s !! key; m_messages s !! id.

Definition mem_saveMessageAndDelivery (request : CreateMessageRequest) (s : InMemoryMessageStore)
    : (string + StoredMessage * bool) * InMemoryMessageStore :=
  let dedupKey := makeDedupKey (req_fromUserId request) (req_clientMsgId request) in
  match mem_lookup_dup dedupKey s with
  | Some m => (inr (m, true), s)
  | None =>
    let id := m_nextMsgId s in
    let seq := u64 (at_default (req_toUserId request) (m_nextServerSeqByUser s) + 1) in
    let message := mkStoredMessage
      (mkP2PMsgNotify id seq (req_fromUserId request) (req_toUserId request)
         (req_clientMsgId request) (req_content request) (req_timestamp request))
      DeliveryPersisted (req_toUserId request) (req_timestamp request) 0 0 0 in
    (inr (message, false),
     mkMem (u64 (id + 1))
       (<[req_toUserId request := seq]> (m_nextServerSeqByUser s))
       (m_lastAckedSeqByUser s)
       (if bool_decide (dedupKey = "") then m_clientMsgDedupIndex s
        else <[dedupKey := id]> (m_clientMsgDedupIndex s))
       (<[id := message]> (m_messages s))
       (<[req_toUserId request :=
            default [] (m_pendingMsgIdsByUser s !! req_toUserId request) ++ [id]]>
          (m_pendingMsgIdsByUser s)))
  end.

Definition with_messages (f : gmap Z StoredMessage -> gmap Z StoredMessage)
    (s : InMemoryMessageStore) : InMemoryMessageStore :=
  mkMem (m_nextMsgId s) (m_nextServerSeqByUser s) (m_lastAckedSeqByUser s)
    (m_clientMsgDedupIndex s) (f (m_messages s)) (m_pendingMsgIdsByUser s).

Definition mem_markDeliveryAttempt (receiver : string) (id : Z) (st : DeliveryStatus)
    (deliverAt retries : Z) (s : InMemoryMessageStore) : option string * InMemoryMessageStore :=
  match m_messages s !! id with
  | None => (Some "message not found", s)
  | Some m =>
    if bool_decide (receiverId m = receiver)
    then (None, with_messages <[id := attempted st deliverAt retries m]> s)
    else (Some "receiver mismatch", s)
  end.

(** [m_lastAckedSeqByUser\[receiverId\]] in an error path: reads, inserting 0. *)
Definition touch_lastAcked (receiver : string) (s : InMemoryMessageStore)
    : Z * InMemoryMessageStore :=
  let v := at_default receiver (m_lastAckedSeqByUser s) in
  (v, mkMem (m_nextMsgId s) (m_nextServerSeqByUser s)
        (<[receiver := v]> (m_lastAckedSeqByUser s)) (m_clientMsgDedupIndex s)
        (m_messages s) (m_pendingMsgIdsByUser s)).

Definition mem_markAcked (receiver : string) (id seq ackCode at_ : Z) (s : InMemoryMessageStore)
    : (option string * Z) * InMemoryMessageStore :=
  let fail e := let '(v, s') := touch_lastAcked receiver s in ((Some e, v), s') in
  match m_messages s !! id with
  | None => fail "message not found"
  | Some m =>
    if negb (bool_decide (receiverId m = receiver)) then fail "ack user mismatch"
    else if negb (seqOf m =? seq) then fail "server_seq mismatch"
    else
      let last := Z.max (at_default receiver (m_lastAckedSeqByUser s)) seq in
      ((None, last),
       mkMem (m_nextMsgId s) (m_nextServerSeqByUser s)
         (<[receiver := last]> (m_lastAckedSeqByUser s))
         (m_clientMsgDedupIndex s)
         (<[id := acked ackCode at_ m]> (m_messages s))
         (<[receiver := filter (fun i => i <> id)
                          (default [] (m_pendingMsgIdsByUser s !! receiver))]>
            (m_pendingMsgIdsByUser s)))
  end.

(** The loop over the pending ids: [result] and [nextBeginSeq] accumulate, and
    the loop stops once [result.size() >= limit] after a [push_back]. *)
Fixpoint load_loop (ms : gmap Z StoredMessage) (after limit : Z) (ids : list Z)
    (result : list StoredMessage) (next : Z) : list StoredMessage * Z :=
  match ids with
  | [] => (result, next)
  | id :: ids' =>
    match ms !! id with
    | None => load_loop ms after limit ids' result next
    | Some m =>
      if (seqOf m <=? after) || negb (awaits m)
      then load_loop ms after limit ids' result next
      else
        let result' := result ++ [m] in
        let next' := Z.max next (seqOf m) in
        if limit <=? Z.of_nat (length result') then (result', next')
        else load_loop ms after limit ids' result' next'
    end
  end.

Definition mem_loadPendingMessages (receiver : string) (after limit : Z)
    (s : InMemoryMessageStore) : (list StoredMessage * Z * string) * InMemoryMessageStore :=
  match m_pendingMsgIdsByUser s !! receiver with
  | None => (([], after, ""), s)
  | Some ids =>
    let '(result, next) := load_loop (m_messages s) after limit ids [] after in
    ((result, (match result with [] => next | _ => u64 (next + 1) end), ""), s)
  end.

Definition mem_getLastAckedSeq (receiver : string) (s : InMemoryMessageStore)
    : Z * InMemoryMessageStore :=
  (match m_lastAckedSeqByUser s !! receiver with None => 0 | Some v => v end, s).

#[export] Instance mem_store : IMessageStore InMemoryMessageStore := {
  saveMessageAndDelivery := mem_saveMessageAndDelivery;
  markDeliveryAttempt := mem_markDeliveryAttempt;
  markAcked := mem_markAcked;
  loadPendingMessages := mem_loadPendingMessages;
  getLastAckedSeq := mem_getLastAckedSeq;
}.

(** ** What a client relies on *)
Class MessageStoreLaws (St : Type) `{IMessageStore St} := {
  store_inv : St -> Prop;
  (** The store has identifiers left. *)
  store_room : St -> Prop;
  view : St -> gmap Z StoredMessage;
  law_save : forall req s, store_inv s -> store_room s ->
    match saveMessageAndDelivery req s with
    | (inr (m, false), s') =>
        store_inv s' /\ view s !! msgId m = None /\ view s' = <[msgId m := m]> (view s)
        /\ receiverId m = req_toUserId req /\ n_fromUserId (notify m) = req_fromUserId req
        /\ n_content (notify m) = req_content req /\ retryCount m = 0
        /\ status m = DeliveryPersisted
    | (inr (m, true), s') => store_inv s' /\ view s' = view s /\ view s !! msgId m = Some m
    | (inl _, s') => store_inv s' /\ view s' = view s
    end;
  law_mark : forall r id st at_ n s, store_inv s ->
    let '(e, s') := markDeliveryAttempt r id st at_ n s in
    store_inv s' /\
    match e with
    | None => exists m, view s !! id = Some m /\ receiverId m = r
                /\ view s' = <[id := attempted st at_ n m]> (view s)
    | Some _ => view s' = view s /\ (forall m, view s !! id = Some m -> receiverId m <> r)
    end;
  law_acked : forall r id seq code at_ s, store_inv s ->
    let '((e, last), s') := markAcked r id seq code at_ s in
    store_inv s' /\
    match e with
    | None => exists m, view s !! id = Some m /\ receiverId m = r /\ seqOf m = seq
                /\ view s' = <[id := acked code at_ m]> (view s) /\ seq <= last
    | Some _ => view s' = view s
    end;
  law_load : forall r after limit s, store_inv s ->
    let '((l, next, e), s') := loadPendingMessages r after limit s in
    store_inv s' /\ view s' = view s /\
    (e = "" -> NoDup (map (fun m => msgId m) l)
               /\ Forall (fun m => view s !! msgId m = Some m /\ receiverId m = r
                         /\ after < seqOf m /\ awaits m = true) l);
  law_last : forall r s, store_inv s ->
    let '(_, s') := getLastAckedSeq r s in store_inv s' /\ view s' = view s;
}.

(** Who the stored messages come from; a store only learns senders from
    [saveMessageAndDelivery]. *)
Class MessageSenders (St : Type) `{IMessageStore St} := {
  sender : St -> string -> Prop;
  sender_save : forall req s u, sender (saveMessageAndDelivery req s).2 u ->
    sender s u \/ u = req_fromUserId req;
  sender_mark : forall r id st at_ n s u, sender (markDeliveryAttempt r id st at_ n s).2 u -> sender s u;
  sender_acked : forall r id seq code at_ s u, sender (markAcked r id seq code at_ s).2 u -> sender s u;
  sender_load : forall r after limit s u, sender (loadPendingMessages r after limit s).2 u -> sender s u;
  sender_last : forall r s u, sender (getLastAckedSeq r s).2 u -> sender s u;
}.

(** ** The invariant of the in-memory store *)
Record mem_inv (s : InMemoryMessageStore) : Prop := {
  inv_next : 1 <= m_nextMsgId s < 2 ^ 64;
  inv_seq : forall u, 0 <= at_default u (m_nextServerSeqByUser s) < m_nextMsgId s;
  inv_msg : forall id m, m_messages s !! id = Some m ->
    msgId m = id /\ 1 <= id < m_nextMsgId s /\ n_toUserId (notify m) = receiverId m
    /\ 1 <= seqOf m <= at_default (receiverId m) (m_nextServerSeqByUser s);
  inv_order : forall i j m n, m_messages s !! i = Some m -> m_messages s !! j = Some n ->
    receiverId m = receiverId n -> i < j -> seqOf m < seqOf n;
  inv_pending : forall u ids, m_pendingMsgIdsByUser s !! u = Some ids ->
    StronglySorted Z.lt ids
    /\ Forall (fun id => exists m, m_messages s !! id = Some m /\ receiverId m = u) ids;
  inv_dedup : forall k id, m_clientMsgDedupIndex s !! k = Some id ->
    k <> "" /\ exists m, m_messages s !! id = Some m
      /\ makeDedupKey (n_fromUserId (notify m)) (n_clientMsgId (notify m)) = k;
  inv_acked : forall u, 0 <= at_default u (m_lastAckedSeqByUser s)
    <= at_default u (m_nextServerSeqByUser s);
  inv_dense : forall u q, 1 <= q <= at_default u (m_nextServerSeqByUser s) ->
    exists id m, m_messages s !! id = Some m /\ receiverId m = u /\ seqOf m = q;
}.

(** One more identifier can be handed out without wrapping. *)
Definition mem_room (s : InMemoryMessageStore) : Prop := m_nextMsgId s + 1 < 2 ^ 64.

Lemma at_default_insert k v m u :
  at_default u (<[k := v]> m) = if decide (k = u) then v else at_default u m.
Proof. unfold at_default. rewrite lookup_insert. by case_decide. Qed.

Ltac mem_simpl := cbn [m_nextMsgId m_nextServerSeqByUser m_lastAckedSeqByUser
  m_clientMsgDedupIndex m_messages m_pendingMsgIdsByUser with_messages touch_lastAcked fst snd].

Lemma newMem_inv : mem_inv newMem.
Proof.
  assert (D : forall u, at_default u ∅ = 0) by (intros; unfold at_default; by rewrite lookup_empty).
  split; cbn -[Z.pow Z.lt Z.le]; intros; rewrite ?D in *; try lia; rewrite lookup_empty in *; discriminate.
Qed.

Lemma StronglySorted_snoc (ids : list Z) x :
  StronglySorted Z.lt ids -> Forall (fun i => i < x) ids -> StronglySorted Z.lt (ids ++ [x]).
Proof.
  induction 1 as [|i ids Hs IH Hi]; intros Hx; simpl; [repeat constructor|].
  inversion Hx; subst. constructor; [auto|]. apply Forall_app. by split; [|constructor].
Qed.

Lemma StronglySorted_filter (P : Z -> Prop) `{forall x, Decision (P x)} ids :
  StronglySorted Z.lt ids -> StronglySorted Z.lt (filter P ids).
Proof.
  induction 1 as [|i ids Hs IH Hi]; [constructor|].
  rewrite filter_cons. case_decide; [|done]. constructor; [done|].
  by apply Forall_filter.
Qed.

(** The message a fresh save creates. *)
Definition fresh_message (request : CreateMessageRequest) (s : InMemoryMessageStore) :=
  mkStoredMessage
    (mkP2PMsgNotify (m_nextMsgId s)
       (at_default (req_toUserId request) (m_nextServerSeqByUser s) + 1)
       (req_fromUserId request) (req_toUserId request)
       (req_clientMsgId request) (req_content request) (req_timestamp request))
    DeliveryPersisted (req_toUserId request) (req_timestamp request) 0 0 0.

Lemma fresh_id s : mem_inv s -> m_messages s !! m_nextMsgId s = None.
Proof.
  intros H. destruct (m_messages s !! m_nextMsgId s) as [m|] eqn:E; [|done].
  destruct (inv_msg s H _ _ E) as (_ & ? & _). lia.
Qed.

Lemma save_cases request s :
  mem_inv s -> mem_room s ->
  let key := makeDedupKey (req_fromUserId request) (req_clientMsgId request) in
  (exists m, mem_lookup_dup key s = Some m
     /\ mem_saveMessageAndDelivery request s = (inr (m, true), s))
  \/ (mem_lookup_dup key s = None
     /\ let m := fresh_message request s in
        mem_saveMessageAndDelivery request s =
          (inr (m, false),
           mkMem (m_nextMsgId s + 1)
             (<[req_toUserId request := seqOf m]> (m_nextServerSeqByUser s))
             (m_lastAckedSeqByUser s)
             (if bool_decide (key = "") then m_clientMsgDedupIndex s
              else <[key := m_nextMsgId s]> (m_clientMsgDedupIndex s))
             (<[m_nextMsgId s := m]> (m_messages s))
             (<[req_toUserId request :=
                  default [] (m_pendingMsgIdsByUser s !! req_toUserId request) ++ [m_nextMsgId s]]>
                (m_pendingMsgIdsByUser s)))).
Proof.
  intros H Hroom key. unfold mem_saveMessageAndDelivery. fold key.
  destruct (mem_lookup_dup key s) as [m|] eqn:E; [left; eauto|right].
  split; [done|]. pose proof (inv_seq s H (req_toUserId request)).
  pose proof (inv_next s H). unfold mem_room in Hroom.
  rewrite (u64_small (m_nextMsgId s + 1)) by lia.
  unfold fresh_message. simpl.
  rewrite (u64_small (at_default _ _ + 1)) by lia. done.
Qed.

Lemma save_inv request s :
  mem_inv s -> mem_room s -> mem_inv (mem_saveMessageAndDelivery request s).2.
Proof.
  intros H Hroom. destruct (save_cases request s H Hroom) as [(m & _ & ->)|(_ & ->)]; [done|].
  pose proof (fresh_id s H) as Hf. unfold mem_room in Hroom.
  set (m := fresh_message request s). set (u := req_toUserId request).
  pose proof (inv_seq s H u) as Hu. pose proof (inv_next s H).
  assert (Hseq : seqOf m = at_default u (m_nextServerSeqByUser s) + 1) by done.
  assert (Hrec : receiverId m = u) by done.
  split; mem_simpl.
  - lia.
  - intros v. rewrite at_default_insert. case_decide; [lia|].
    pose proof (inv_seq s H v). lia.
  - intros id n Hn. rewrite at_default_insert.
    apply lookup_insert_Some in Hn as [[<- <-]|[Hne Hn]].
    + splits; try done; rewrite ?decide_True by done; lia.
    + destruct (inv_msg s H _ _ Hn) as (? & ? & ? & ?). splits; try done; try lia.
      case_decide as Hd; [rewrite <- Hd in *|]; lia.
  - intros i j x y Hx Hy Hr Hij.
    apply lookup_insert_Some in Hx as [[<- <-]|[Hnx Hx]];
    apply lookup_insert_Some in Hy as [[<- <-]|[Hny Hy]].
    + lia.
    + destruct (inv_msg s H _ _ Hy) as (_ & ? & _). lia.
    + destruct (inv_msg s H _ _ Hx) as (_ & _ & _ & ?). rewrite Hr in *.   rewrite Hrec in *. lia.
    + by eapply (inv_order s H).
  - intros v ids Hids.
    assert (Hold : forall ids0, m_pendingMsgIdsByUser s !! v = Some ids0 ->
      Forall (fun id => exists m0, <[m_nextMsgId s := m]> (m_messages s) !! id = Some m0
                          /\ receiverId m0 = v) ids0).
    { intros ids0 E. destruct (inv_pending s H _ _ E) as [_ HF].
      eapply Forall_impl; [exact HF|]. intros id (m0 & Em & Er). exists m0. split; [|done].
      rewrite lookup_insert_ne; [done|]. intros <-. congruence. }
    apply lookup_insert_Some in Hids as [[<- <-]|[Hne Hids]].
    + destruct (m_pendingMsgIdsByUser s !! u) as [ids0|] eqn:E; simpl.
      * destruct (inv_pending s H _ _ E) as [HS HF]. split.
        -- apply StronglySorted_snoc; [done|]. eapply Forall_impl; [exact HF|].
           intros id (m0 & Em & _). destruct (inv_msg s H _ _ Em) as (_ & ? & _). lia.
        -- apply Forall_app. split; [by apply Hold|]. constructor; [|done].
           exists m. by rewrite lookup_insert_eq.
      * split; [repeat constructor|]. constructor; [|done]. exists m. by rewrite lookup_insert_eq.
    + split; [by destruct (inv_pending s H _ _ Hids)|by apply Hold].
  - intros k id Hk.
    assert (Hold : forall i, m_clientMsgDedupIndex s !! k = Some i ->
      k <> "" /\ exists n, <[m_nextMsgId s := m]> (m_messages s) !! i = Some n
        /\ makeDedupKey (n_fromUserId (notify n)) (n_clientMsgId (notify n)) = k).
    { intros i Hi. destruct (inv_dedup s H _ _ Hi) as (? & n & En & ?). split; [done|].
      exists n. split; [|done]. rewrite lookup_insert_ne; [done|]. intros <-. congruence. }
    case_bool_decide as Ek; [by apply Hold|].
    apply lookup_insert_Some in Hk as [[<- <-]|[Hne Hk]]; [|by apply Hold].
    split; [done|]. exists m. by rewrite lookup_insert_eq.
  - intros v. rewrite at_default_insert. pose proof (inv_acked s H v).
    case_decide as Hd; [rewrite <- Hd in *; lia|done].
  - intros v q. rewrite at_default_insert. intros Hq.
    destruct (decide (u = v /\ q = seqOf m)) as [[<- ->]|Hne].
    { exists (m_nextMsgId s), m. by rewrite lookup_insert_eq. }
    destruct (inv_dense s H v q) as (id & n & En & ? & ?); [|exists id, n].
    { destruct (decide (u = v)) as [<-|]; [|done].
      assert (q <> seqOf m) by tauto. lia. }
    rewrite lookup_insert_ne; [done|]. intros <-. congruence.
Qed.

(** Replacing a stored message by one with the same identity keeps the
    invariant. *)
Lemma update_message_inv id m m' s :
  mem_inv s -> m_messages s !! id = Some m ->
  notify m' = notify m -> receiverId m' = receiverId m ->
  mem_inv (with_messages <[id := m']> s).
Proof.
  intros H Hm Hn Hr.
  assert (L : forall i n, <[id := m']> (m_messages s) !! i = Some n ->
    exists n0, m_messages s !! i = Some n0 /\ notify n = notify n0 /\ receiverId n = receiverId n0).
  { intros i n [[<- <-]|[_ Hi]]%lookup_insert_Some; eauto. }
  assert (R : forall i n, m_messages s !! i = Some n ->
    exists n0, <[id := m']> (m_messages s) !! i = Some n0 /\ notify n0 = notify n
      /\ receiverId n0 = receiverId n).
  { intros i n Hi. destruct (decide (id = i)) as [<-|].
    - exists m'. rewrite lookup_insert_eq. assert (n = m) as -> by congruence. done.
    - exists n. by rewrite lookup_insert_ne. }
  split; mem_simpl.
  - apply H.
  - apply H.
  - intros i n (n0 & E & En & Er)%L. rewrite En, Er. by apply (inv_msg s H).
  - intros i j x y (x0 & Ex & Enx & Erx)%L (y0 & Ey & Eny & Ery)%L.
    rewrite Enx, Eny, Erx, Ery. by apply (inv_order s H).
  - intros u ids E. destruct (inv_pending s H _ _ E) as [HS HF]. split; [done|].
    eapply Forall_impl; [exact HF|]. intros i (n & En & <-).
    destruct (R _ _ En) as (n0 & ? & _ & ?). eauto.
  - intros k i E. destruct (inv_dedup s H _ _ E) as (? & n & En & <-). split; [done|].
    destruct (R _ _ En) as (n0 & ? & En0 & _). exists n0. by rewrite En0.
  - apply H.
  - intros u q Hq. destruct (inv_dense s H u q Hq) as (i & n & En & <- & <-).
    destruct (R _ _ En) as (n0 & ? & En0 & ?). exists i, n0. by rewrite En0.
Qed.

Lemma touch_inv r s : mem_inv s -> mem_inv (touch_lastAcked r s).2.
Proof.
  intros H. split; simpl; try apply H. intros u. rewrite at_default_insert.
  case_decide; [subst|]; apply H.
Qed.

Lemma mark_inv r id st at_ n s : mem_inv s -> mem_inv (mem_markDeliveryAttempt r id st at_ n s).2.
Proof.
  intros H. unfold mem_markDeliveryAttempt.
  destruct (m_messages s !! id) as [m|] eqn:E; [|done].
  case_bool_decide; [|done]. by apply (update_message_inv id m).
Qed.

Lemma acked_inv r id seq code at_ s : mem_inv s -> mem_inv (mem_markAcked r id seq code at_ s).2.
Proof.
  intros H. unfold mem_markAcked. pose proof (touch_inv r s H) as Ht.
  destruct (m_messages s !! id) as [m|] eqn:E; [|done].
  repeat case_if; [done|done|]. b2p. subst seq.
  pose proof (update_message_inv id m (acked code at_ m) s H E eq_refl eq_refl) as HU.
  destruct (inv_msg s H _ _ E) as (_ & _ & _ & Hseq).
  split; try apply HU; simpl.
  - intros u ids [[<- <-]|[Hne Hu]]%lookup_insert_Some; [|by apply (inv_pending _ HU)].
    destruct (m_pendingMsgIdsByUser s !! r) as [ids|] eqn:Ep; simpl; [|by repeat constructor].
    destruct (inv_pending _ HU _ _ Ep) as [HS HF].
    split; [by apply StronglySorted_filter|by apply Forall_filter].
  - intros u. rewrite at_default_insert. pose proof (inv_acked s H u).
    case_decide; [subst; lia|done].
Qed.

(** ** Loading: the loop against a reference definition *)

(** The messages of [ids] above [after] that still wait, in the order of [ids]. *)
Definition wanted (ms : gmap Z StoredMessage) (after : Z) (ids : list Z) : list StoredMessage :=
  filter (fun m => after < seqOf m /\ awaits m = true) (omap (fun id => ms !! id) ids).

Lemma load_loop_spec ms after limit ids result next :
  let l := take (Z.to_nat (Z.max 1 (limit - Z.of_nat (length result)))) (wanted ms after ids) in
  load_loop ms after limit ids result next =
    (result ++ l, foldl Z.max next (map (fun m => seqOf m) l)).
Proof.
  revert result next. induction ids as [|id ids IH]; intros result next; simpl.
  { unfold wanted. cbn [omap list_omap]. by rewrite filter_nil, take_nil, app_nil_r. }
  unfold wanted. cbn [omap list_omap]. destruct (ms !! id) as [m|]; [|apply IH].
  rewrite filter_cons. destruct ((seqOf m <=? after) || negb (awaits m)) eqn:E.
  { rewrite decide_False; [apply IH|]. intros [? Ha]. rewrite Ha, orb_false_r in E. b2p. lia. }
  b2p. rewrite decide_True by done. rewrite length_app. simpl length.
  destruct (limit <=? Z.of_nat (length result + 1)) eqn:El; b2p.
  - replace (Z.to_nat (Z.max 1 (limit - Z.of_nat (length result)))) with 1%nat by lia. done.
  - rewrite IH, length_app. simpl length.
    replace (Z.to_nat (Z.max 1 (limit - Z.of_nat (length result))))
      with (S (Z.to_nat (Z.max 1 (limit - Z.of_nat (length result + 1))))) by lia.
    cbn [take list.take map foldl]. rewrite <- app_assoc. done.
Qed.

Definition by_seq (m n : StoredMessage) : Prop := seqOf m < seqOf n.

Lemma wanted_sorted s u ids after :
  mem_inv s -> StronglySorted Z.lt ids ->
  Forall (fun id => exists m, m_messages s !! id = Some m /\ receiverId m = u) ids ->
  StronglySorted by_seq (wanted (m_messages s) after ids)
  /\ Forall (fun m => m_messages s !! msgId m = Some m /\ receiverId m = u
       /\ msgId m ∈ ids /\ after < seqOf m /\ awaits m = true) (wanted (m_messages s) after ids).
Proof.
  intros H. unfold wanted. induction 1 as [|id ids Hs IH Hlt]; intros HF; [split; constructor|].
  inversion HF as [|? ? (m & Em & Er) HF']; subst.
  destruct (IH HF') as [IHs IHf]. simpl. rewrite Em.
  assert (W : Forall (fun n => m_messages s !! msgId n = Some n /\ receiverId n = receiverId m
       /\ msgId n ∈ id :: ids /\ after < seqOf n /\ awaits n = true)
     (filter (fun m => after < seqOf m /\ awaits m = true) (omap (fun id => m_messages s !! id) ids))).
  { eapply Forall_impl; [exact IHf|]. cbn beta. intros n (? & ? & ? & ?). splits; try done; try tauto.
    by right. }
  destruct (inv_msg s H _ _ Em) as (Hid & _).
  rewrite filter_cons. case_decide as Hd; [|done]. split.
  - constructor; [done|]. eapply Forall_impl; [exact IHf|]. cbn beta. intros n (En & Er & Hin & _).
    eapply (inv_order s H); [exact Em|exact En|done|].
    by eapply (Forall_forall (fun j => id < j) ids).
  - constructor; [|done]. rewrite Hid. splits; try done; try tauto. by left.
Qed.

Lemma foldl_max_sorted l x :
  StronglySorted by_seq l -> Forall (fun m => x < seqOf m) l ->
  foldl Z.max x (map (fun m => seqOf m) l) = match last l with None => x | Some m => seqOf m end.
Proof.
  revert x. induction l as [|m l IH]; intros x Hs Hx; [done|].
  inversion Hs as [|? ? Hs' Hm]; inversion Hx; subst. simpl foldl.
  rewrite Z.max_r by lia. rewrite last_cons, IH; [by destruct (last l)|done|exact Hm].
Qed.

Lemma StronglySorted_take {A} (R : A -> A -> Prop) n l :
  StronglySorted R l -> StronglySorted R (take n l).
Proof.
  intros H. revert n. induction H as [|x l Hs IH Hx]; intros [|n]; simpl; constructor; auto.
  by apply Forall_take.
Qed.

(** ** Sequences of operations *)
Inductive mem_op :=
| OpSave (request : CreateMessageRequest)
| OpMark (receiver : string) (id : Z) (st : DeliveryStatus) (deliverAt retries : Z)
| OpAck (receiver : string) (id seq code at_ : Z)
| OpLoad (receiver : string) (after limit : Z)
| OpLast (receiver : string).

Definition mem_step (s : InMemoryMessageStore) (op : mem_op) : InMemoryMessageStore :=
  match op with
  | OpSave request => (saveMessageAndDelivery request s).2
  | OpMark r id st at_ n => (markDeliveryAttempt r id st at_ n s).2
  | OpAck r id seq code at_ => (markAcked r id seq code at_ s).2
  | OpLoad r after limit => (loadPendingMessages r after limit s).2
  | OpLast r => (getLastAckedSeq r s).2
  end.

Notation mem_run ops s := (fold_left mem_step ops s).

(** Room for [n] more messages before an identifier wraps. *)
Definition room_for (n : nat) (s : InMemoryMessageStore) : Prop :=
  m_nextMsgId s + Z.of_nat n < 2 ^ 64.

Definition pending (s : InMemoryMessageStore) (u : string) : list Z :=
  default [] (m_pendingMsgIdsByUser s !! u).

Definition acks (id : Z) (op : mem_op) : bool :=
  match op with OpAck _ i _ _ _ => i =? id | _ => false end.

Lemma load_state r after limit s : (mem_loadPendingMessages r after limit s).2 = s.
Proof.
  unfold mem_loadPendingMessages. destruct (_ !! r); [|done].
  by destruct (load_loop _ _ _ _ _ _).
Qed.

Lemma step_inv s op : mem_inv s -> room_for 1 s -> mem_inv (mem_step s op).
Proof.
  intros H Hr. destruct op; simpl.
  - by apply save_inv.
  - by apply mark_inv.
  - by apply acked_inv.
  - by rewrite load_state.
  - done.
Qed.

(** What a step does to the stored messages: one that exists keeps its
    identity, and stays in the queue of its receiver unless it is acked. *)
Lemma step_message s op id m :
  mem_inv s -> room_for 1 s -> m_messages s !! id = Some m ->
  exists m', m_messages (mem_step s op) !! id = Some m' /\ notify m' = notify m
    /\ receiverId m' = receiverId m
    /\ (acks id op = false -> id ∈ pending s (receiverId m) ->
        id ∈ pending (mem_step s op) (receiverId m)).
Proof.
  intros H Hr Hm. destruct op as [req|r i st at_ n|r i seq code at_|r after limit|r]; simpl.
  - destruct (save_cases req s H Hr) as [(x & _ & ->)|(_ & ->)]; mem_simpl; [by exists m|].
    exists m. rewrite lookup_insert_ne by (intros <-; rewrite (fresh_id s H) in Hm; done).
    splits; try done. intros _ Hin. unfold pending. mem_simpl. rewrite lookup_insert.
    case_decide as Hd; [|done]. simpl. rewrite Hd. apply elem_of_app. by left.
  - unfold mem_markDeliveryAttempt. destruct (m_messages s !! i) as [x|] eqn:E; [|by exists m].
    case_bool_decide; [|by exists m]. mem_simpl. destruct (decide (i = id)) as [->|Hne].
    + rewrite lookup_insert_eq. eexists. split; [done|]. by assert (x = m) as -> by congruence.
    + rewrite lookup_insert_ne by done. by exists m.
  - unfold mem_markAcked. destruct (m_messages s !! i) as [x|] eqn:E; [|by exists m].
    repeat case_if; try by exists m. mem_simpl. b2p. destruct (decide (i = id)) as [->|Hne].
    + rewrite lookup_insert_eq. eexists. split; [done|]. assert (x = m) as -> by congruence.
      splits; try done. rewrite Z.eqb_refl. done.
    + rewrite lookup_insert_ne by done. exists m. splits; try done. intros _ Hin.
      unfold pending. mem_simpl. rewrite lookup_insert. case_decide as Hd; [|done]. simpl.
      rewrite list_elem_of_filter. rewrite Hd. done.
  - rewrite load_state. by exists m.
  - by exists m.
Qed.

Lemma step_counters s op :
  mem_inv s -> room_for 1 s ->
  m_nextMsgId s <= m_nextMsgId (mem_step s op) <= m_nextMsgId s + 1
  /\ (forall u, at_default u (m_lastAckedSeqByUser s)
               <= at_default u (m_lastAckedSeqByUser (mem_step s op))).
Proof.
  intros H Hr. destruct op as [req|r i st at_ n|r i seq code at_|r after limit|r]; simpl.
  - destruct (save_cases req s H Hr) as [(x & _ & ->)|(_ & ->)]; mem_simpl; split; intros; lia.
  - unfold mem_markDeliveryAttempt. destruct (m_messages s !! i); [case_bool_decide|];
      mem_simpl; split; intros; lia.
  - unfold mem_markAcked. destruct (m_messages s !! i) as [x|]; [repeat case_if|];
      mem_simpl; (split; [lia|]); intros u; rewrite at_default_insert;
      destruct (decide (r = u)) as [<-|]; lia.
  - rewrite load_state. split; intros; lia.
  - split; intros; lia.
Qed.

Lemma step_dedup s op k id :
  mem_inv s -> room_for 1 s -> m_clientMsgDedupIndex s !! k = Some id ->
  m_clientMsgDedupIndex (mem_step s op) !! k = Some id.
Proof.
  intros H Hr Hk. destruct op as [req|r i st at_ n|r i seq code at_|r after limit|r]; simpl.
  - destruct (save_cases req s H Hr) as [(x & _ & ->)|(Hn & ->)]; mem_simpl; [done|].
    case_bool_decide; [done|]. rewrite lookup_insert_ne; [done|]. intros <-.
    destruct (inv_dedup s H _ _ Hk) as (Hne & m & Hm & _).
    unfold mem_lookup_dup in Hn. rewrite bool_decide_eq_false_2 in Hn by done.
    rewrite Hk in Hn. simpl in Hn. congruence.
  - unfold mem_markDeliveryAttempt. destruct (m_messages s !! i); [case_bool_decide|]; done.
  - unfold mem_markAcked. destruct (m_messages s !! i); [repeat case_if|]; done.
  - by rewrite load_state.
  - done.
Qed.

Lemma room_step s op n : mem_inv s -> room_for (S n) s -> room_for n (mem_step s op).
Proof.
  intros H Hr. unfold room_for in *.
  destruct (step_counters s op H) as [? _]; unfold room_for; lia.
Qed.

Lemma room_one s n : room_for (S n) s -> room_for 1 s.
Proof. unfold room_for. lia. Qed.

(** Rule induction over a sequence of operations. *)
Lemma run_ind (P : InMemoryMessageStore -> Prop) (good : mem_op -> Prop) :
  (forall s op, mem_inv s -> room_for 1 s -> good op -> P s -> P (mem_step s op)) ->
  forall ops s, mem_inv s -> room_for (length ops) s -> Forall good ops -> P s ->
    mem_inv (mem_run ops s) /\ P (mem_run ops s).
Proof.
  intros Hstep ops. induction ops as [|op ops IH]; intros s H Hr Hg HP; [done|].
  inversion Hg; subst. simpl length in Hr. pose proof (room_one _ _ Hr).
  simpl. apply IH; eauto using step_inv, room_step.
Qed.

(** ** The store meets the interface *)
Lemma pending_inv s u :
  mem_inv s -> StronglySorted Z.lt (pending s u)
    /\ Forall (fun id => exists m, m_messages s !! id = Some m /\ receiverId m = u) (pending s u).
Proof.
  intros H. unfold pending. destruct (m_pendingMsgIdsByUser s !! u) as [ids|] eqn:E; simpl.
  - by apply (inv_pending s H).
  - split; constructor.
Qed.

Lemma load_eq s u after limit :
  mem_inv s ->
  let l := take (Z.to_nat (Z.max 1 limit)) (wanted (m_messages s) after (pending s u)) in
  mem_loadPendingMessages u after limit s =
    ((l, match last l with None => after | Some m => seqOf m + 1 end, ""), s).
Proof.
  intros H. unfold mem_loadPendingMessages, pending.
  destruct (m_pendingMsgIdsByUser s !! u) as [ids|] eqn:E; simpl default;
    [|unfold wanted; cbn [omap list_omap]; by rewrite filter_nil, take_nil].
  destruct (inv_pending s H _ _ E) as [HS HF].
  destruct (wanted_sorted s u ids after H HS HF) as [Ws Wf].
  rewrite load_loop_spec. simpl length. rewrite Z.sub_0_r. simpl app.
  set (l := take _ _). set (k := Z.to_nat (Z.max 1 limit)) in *.
  assert (Wl : Forall (fun m => after < seqOf m) l).
  { apply Forall_take. eapply Forall_impl; [exact Wf|]. cbn beta. tauto. }
  assert (Sl : StronglySorted by_seq l) by (by apply StronglySorted_take).
  rewrite foldl_max_sorted by done. destruct (last l) as [m|] eqn:El.
  - destruct l as [|x l'] eqn:Ell; [done|]. rewrite u64_small; [done|].
    assert (Hm : m ∈ wanted (m_messages s) after ids).
    { apply (subseteq_take k). fold l. rewrite Ell. by apply last_Some_elem_of. }
    rewrite Forall_forall in Wf. destruct (Wf m Hm) as (Em & _).
    destruct (inv_msg s H _ _ Em) as (_ & _ & _ & ?).
    pose proof (inv_seq s H (receiverId m)). pose proof (inv_next s H). lia.
  - apply last_None in El. by rewrite El.
Qed.

Lemma stored_ids_nodup (ms : gmap Z StoredMessage) l :
  StronglySorted by_seq l -> Forall (fun m => ms !! msgId m = Some m) l ->
  NoDup (map (fun m => msgId m) l).
Proof.
  induction 1 as [|m l Hs IH Hm]; intros HF; simpl; [constructor|].
  inversion HF as [|? ? Em HF']; subst. constructor; [|by apply IH].
  intros (m' & Eid & Hin)%list_elem_of_fmap.
  rewrite Forall_forall in Hm, HF'. pose proof (Hm _ Hin) as Hlt. pose proof (HF' _ Hin) as Em'.
  simpl in Em'. rewrite <- Eid in Em'. assert (m = m') as <- by congruence.
  unfold by_seq in Hlt. lia.
Qed.

Definition mem_sender (s : InMemoryMessageStore) (u : string) : Prop :=
  exists id m, m_messages s !! id = Some m /\ n_fromUserId (notify m) = u.

(** Replacing a message by one with the same notification adds no sender. *)
Lemma sender_update (ms : gmap Z StoredMessage) id0 m0 m1 u :
  ms !! id0 = Some m0 -> notify m1 = notify m0 ->
  (exists id m, <[id0 := m1]> ms !! id = Some m /\ n_fromUserId (notify m) = u) ->
  exists id m, ms !! id = Some m /\ n_fromUserId (notify m) = u.
Proof.
  intros H0 Hn (id & m & [[<- <-]|[_ Hm]]%lookup_insert_Some & Hu); [|by eauto].
  exists id0, m0. by rewrite <- Hn.
Qed.

#[export] Instance mem_senders : MessageSenders InMemoryMessageStore.
Proof.
  refine {| sender := mem_sender |}; unfold mem_sender; cbn.
  - intros req s u. unfold mem_saveMessageAndDelivery.
    destruct (mem_lookup_dup _ s); [by left|]. simpl.
    intros (id & m & [[<- <-]|[_ Hm]]%lookup_insert_Some & <-); [by right|left; by eauto].
  - intros r id st at_ n s u. unfold mem_markDeliveryAttempt.
    destruct (m_messages s !! id) as [m|] eqn:E; [|done]. case_bool_decide; [|done]. simpl.
    by eapply sender_update.
  - intros r id seq code at_ s u. unfold mem_markAcked.
    destruct (m_messages s !! id) as [m|] eqn:E; [|done].
    case_if; [done|]. case_if; [done|]. simpl. by eapply sender_update.
  - intros r after limit s u. unfold mem_loadPendingMessages.
    destruct (m_pendingMsgIdsByUser s !! r); [|done]. by destruct (load_loop _ _ _ _ _ _).
  - done.
Defined.

#[export] Instance mem_laws : MessageStoreLaws InMemoryMessageStore.
Proof.
  refine {| store_inv := mem_inv; store_room := mem_room; view := m_messages |}.
  - intros req s H Hr. pose proof (save_inv req s H Hr) as HI.
    destruct (save_cases req s H Hr) as [(m & Hd & E)|(_ & E)]; cbn; rewrite E in *.
    + splits; try done. unfold mem_lookup_dup in Hd. case_bool_decide; [done|].
      destruct (m_clientMsgDedupIndex s !! _) as [id|]; [|done]. simpl in Hd.
      by destruct (inv_msg s H _ _ Hd) as (-> & _).
    + splits; try done. by apply fresh_id.
  - intros r id st at_ n s H. pose proof (mark_inv r id st at_ n s H) as HI. cbn.
    unfold mem_markDeliveryAttempt in *. destruct (m_messages s !! id) as [m|] eqn:E; [|done].
    case_bool_decide as Hr; (split; [done|]); [by exists m|]. split; [done|]. naive_solver.
  - intros r id seq code at_ s H. pose proof (acked_inv r id seq code at_ s H) as HI. cbn.
    unfold mem_markAcked in *. destruct (m_messages s !! id) as [m|] eqn:E; [|done].
    repeat case_if; try done. b2p. split; [done|]. exists m. splits; try done. lia.
  - intros r after limit s H. cbn. rewrite (load_eq s r after limit H). splits; try done.
    intros _. destruct (pending_inv s r H) as [HS HF].
    destruct (wanted_sorted s r _ after H HS HF) as [Ws Wf].
    assert (Wt : Forall (fun m => m_messages s !! msgId m = Some m /\ receiverId m = r
       /\ after < seqOf m /\ awaits m = true) (wanted (m_messages s) after (pending s r))).
    { eapply Forall_impl; [exact Wf|]. cbn beta. tauto. }
    split; [|by apply Forall_take].
    eapply stored_ids_nodup; [by apply StronglySorted_take|]. apply Forall_take.
    eapply Forall_impl; [exact Wt|]. cbn beta. intros m (? & _). done.
  - intros r s H. done.
Defined.

(** C32: Over any sequence of operations on a fresh store, the sequence numbers
    given out to a receiver are exactly 1, 2, ..., n: none is missing, none is
    used twice, and they follow the order of the message identifiers. *)
Theorem server_seq_dense ops u :
  Z.of_nat (length ops) < 2 ^ 64 - 1 ->
  let s := mem_run ops newMem in
  let n := at_default u (m_nextServerSeqByUser s) in
  (forall q, 1 <= q <= n <-> exists id m, m_messages s !! id = Some m /\ receiverId m = u /\ seqOf m = q)
  /\ (forall i j m m', m_messages s !! i = Some m -> m_messages s !! j = Some m' ->
        receiverId m = u -> receiverId m' = u -> (i < j <-> seqOf m < seqOf m')).
Proof.
  intros Hlen s n.
  assert (H : mem_inv s).
  { apply (run_ind (fun _ => True) (fun _ => True)); auto using newMem_inv.
    - unfold room_for. simpl. lia.
    - by apply Forall_true. }
  split.
  - intros q. split; [apply (inv_dense s H)|]. intros (id & m & Em & <- & <-).
    by destruct (inv_msg s H _ _ Em) as (_ & _ & _ & ?).
  - intros i j m m' Em Em' Hr Hr'. split.
    + apply (inv_order s H _ _ _ _ Em Em'). congruence.
    + intros Hlt. destruct (Z.lt_trichotomy i j) as [|[->|Hgt]]; [done| |].
      * assert (m = m') as -> by congruence. lia.
      * pose proof (inv_order s H _ _ _ _ Em' Em ltac:(congruence) Hgt). lia.
Qed.

(** A pull returns, in ascending sequence order, the first [limit] (at
    least one) messages of the receiver that still wait and lie above the given
    sequence number, changes nothing, and answers the last number plus one. *)
Lemma load_pending_spec s u after limit :
  mem_inv s ->
  exists full, StronglySorted by_seq full
    /\ (forall m, m ∈ full <-> m_messages s !! msgId m = Some m /\ msgId m ∈ pending s u
          /\ after < seqOf m /\ awaits m = true)
    /\ let l := take (Z.to_nat (Z.max 1 limit)) full in
       mem_loadPendingMessages u after limit s =
         ((l, match last l with None => after | Some m => seqOf m + 1 end, ""), s).
Proof.
  intros H. destruct (pending_inv s u H) as [HS HF].
  destruct (wanted_sorted s u _ after H HS HF) as [Ws Wf].
  exists (wanted (m_messages s) after (pending s u)). splits; [done| |by apply load_eq].
  intros m. split.
  - rewrite Forall_forall in Wf. intros Hm. specialize (Wf m Hm). tauto.
  - intros (Em & Hin & Ha). apply list_elem_of_filter. split; [done|].
    apply list_elem_of_omap. eauto.
Qed.

(** A sorted list's first [k] entries hold a given entry, or are full of
    smaller ones. *)
Lemma sorted_take_or {A} (R : A -> A -> Prop) k l x :
  StronglySorted R l -> x ∈ l ->
  x ∈ take k l \/ length (take k l) = k /\ Forall (fun y => R y x) (take k l).
Proof.
  intros Hs. revert k. induction Hs as [|y l Hs IH Hy]; intros k Hx; [by apply elem_of_nil in Hx|].
  destruct k as [|k]; [right; split; [done|constructor]|]. simpl.
  apply elem_of_cons in Hx as [->|Hx]; [left; by left|].
  destruct (IH k Hx) as [Hin|[Hl Hf]]; [left; by right|right].
  split; [by rewrite Hl|]. constructor; [|done].
  rewrite Forall_forall in Hy. by apply Hy.
Qed.

(** C33: No loss: once stored, a message survives every sequence of
    operations that does not acknowledge it, with the same content.  As long as
    its status is not final, every pull of its receiver from below its sequence
    number, with any limit, has an ascending page of numbers above the start that
    either holds the message, or is full (the limit, at least one) with smaller
    numbers only. *)
Theorem pending_until_acked ops req s m s1 :
  mem_inv s -> room_for (S (length ops)) s ->
  mem_saveMessageAndDelivery req s = (inr (m, false), s1) ->
  Forall (fun op => acks (msgId m) op = false) ops ->
  let s2 := mem_run ops s1 in
  exists m', m_messages s2 !! msgId m = Some m' /\ notify m' = notify m
    /\ n_content (notify m') = req_content req
    /\ (awaits m' = true -> forall after limit, after < seqOf m ->
        let page := (mem_loadPendingMessages (req_toUserId req) after limit s2).1.1.1 in
        StronglySorted by_seq page /\ Forall (fun n => after < seqOf n) page
        /\ (m' ∈ page \/ length page = Z.to_nat (Z.max 1 limit)
                         /\ Forall (fun n => seqOf n < seqOf m) page)).
Proof.
  intros H Hr Hsave Hops s2. pose proof (room_one _ _ Hr) as Hr1.
  pose proof (save_inv req s H Hr1) as H1.
  destruct (save_cases req s H Hr1) as [(x & _ & E)|(_ & E)]; rewrite Hsave in E; [done|].
  rewrite Hsave in H1. simpl in H1. injection E as Em Es1.
  assert (Hid : msgId m = m_nextMsgId s) by (by rewrite Em).
  assert (Hrm : receiverId m = req_toUserId req) by (by rewrite Em).
  assert (Hc : n_content (notify m) = req_content req) by (by rewrite Em).
  rewrite <- Em in Es1. clear Em.
  destruct (run_ind (fun s' => exists m', m_messages s' !! msgId m = Some m' /\ notify m' = notify m
      /\ receiverId m' = receiverId m /\ msgId m ∈ pending s' (receiverId m))
    (fun op => acks (msgId m) op = false)) with (ops := ops) (s := s1)
    as (H2 & m' & Em' & Hn & Hrec & Hin); try done.
  - intros s' op Hi Hro Ha (m' & Em' & Hn & Hrec & Hin).
    destruct (step_message s' op _ _ Hi Hro Em') as (m2 & ? & Hn2 & Hr2 & Hp).
    exists m2. rewrite Hn2, Hr2, Hn, Hrec. rewrite Hrec in Hp. auto.
  - unfold room_for in *. rewrite Es1. mem_simpl. lia.
  - exists m. rewrite Es1. mem_simpl. rewrite Hid, lookup_insert_eq. splits; try done.
    unfold pending. mem_simpl. rewrite Hrm, lookup_insert_eq. simpl.
    apply elem_of_app. right. by left.
  - fold s2 in Em', Hin, H2. exists m'. splits; try done; [by rewrite Hn|].
    intros Ha after limit Hlt page.
    destruct (pending_inv s2 (receiverId m) H2) as [HS HF].
    destruct (wanted_sorted s2 _ _ after H2 HS HF) as [Ws Wf].
    assert (Hp : page = take (Z.to_nat (Z.max 1 limit))
              (wanted (m_messages s2) after (pending s2 (receiverId m)))).
    { unfold page. by rewrite <- Hrm, (load_eq s2 _ _ _ H2). }
    rewrite Hp. splits.
    + by apply StronglySorted_take.
    + apply Forall_take. eapply Forall_impl; [exact Wf|]. cbn beta. tauto.
    + replace (seqOf m) with (seqOf m') by (by rewrite Hn). apply (sorted_take_or by_seq); [done|].
      apply list_elem_of_filter. rewrite Hn. split; [done|].
      apply list_elem_of_omap. by exists (msgId m).
Qed.

(** C38: Sending again is idempotent: after a message with a client identifier
    was stored, a later request of the same sender with the same identifier
    finds the stored message, whatever happened in between, and stores nothing. *)
Theorem resend_is_idempotent ops req req' s m b s1 :
  mem_inv s -> room_for (S (length ops)) s ->
  mem_saveMessageAndDelivery req s = (inr (m, b), s1) ->
  req_clientMsgId req <> "" ->
  req_fromUserId req' = req_fromUserId req -> req_clientMsgId req' = req_clientMsgId req ->
  let s2 := mem_run ops s1 in
  exists m', notify m' = notify m /\ m_messages s2 !! msgId m = Some m'
    /\ mem_saveMessageAndDelivery req' s2 = (inr (m', true), s2).
Proof.
  intros H Hr Hsave Hne Hf Hcid s2. pose proof (room_one _ _ Hr) as Hr1.
  pose proof (save_inv req s H Hr1) as H1. rewrite Hsave in H1. simpl in H1.
  set (key := makeDedupKey (req_fromUserId req) (req_clientMsgId req)).
  assert (Hkey : key <> "").
  { unfold key, makeDedupKey. rewrite bool_decide_eq_false_2 by done.
    by destruct (req_fromUserId req). }
  assert (Hm1 : m_clientMsgDedupIndex s1 !! key = Some (msgId m)
                /\ m_messages s1 !! msgId m = Some m
                /\ m_nextMsgId s1 <= m_nextMsgId s + 1).
  { destruct (save_cases req s H Hr1) as [(x & Hd & E)|(_ & E)];
      rewrite Hsave in E; injection E as Ex Eb Es.
    - subst x s1. fold key in Hd. unfold mem_lookup_dup in Hd. rewrite bool_decide_eq_false_2 in Hd by done.
      destruct (m_clientMsgDedupIndex s !! key) as [id|] eqn:Ek; [|done]. simpl in Hd.
      destruct (inv_msg s H _ _ Hd) as (-> & _). splits; [done|done|lia].
    - subst s1. mem_simpl. fold key. rewrite bool_decide_eq_false_2 by done. rewrite Ex.
      cbn [notify n_msgId fresh_message]. rewrite !lookup_insert_eq. splits; [done|done|lia]. }
  destruct Hm1 as (Hk1 & Hm1 & Hn1).
  destruct (run_ind (fun s' => m_clientMsgDedupIndex s' !! key = Some (msgId m)
      /\ exists m', m_messages s' !! msgId m = Some m' /\ notify m' = notify m) (fun _ => True))
    with (ops := ops) (s := s1) as (H2 & Hk2 & m' & Hm' & Hnot); try done.
  - intros s' op Hi Hro _ (Hk & m' & Em' & Hn).
    destruct (step_message s' op _ _ Hi Hro Em') as (m2 & ? & Hn2 & _).
    split; [by apply step_dedup|]. exists m2. split; [done|congruence].
  - unfold room_for in *. lia.
  - by apply Forall_true.
  - eauto.
  - exists m'. splits; [done|done|]. fold s2 in Hk2, Hm'.
    unfold mem_saveMessageAndDelivery. rewrite Hf, Hcid. fold key.
    unfold mem_lookup_dup. rewrite bool_decide_eq_false_2 by done. rewrite Hk2. simpl.
    by rewrite Hm'.
Qed.

(** The sequence number a store reports as acknowledged never goes
    back and never passes the last number given out. *)
Lemma last_acked_monotone ops s u :
  mem_inv s -> room_for (length ops) s ->
  (mem_getLastAckedSeq u s).1 <= (mem_getLastAckedSeq u (mem_run ops s)).1
    <= at_default u (m_nextServerSeqByUser (mem_run ops s)).
Proof.
  intros H Hr.
  assert (G : forall s', (mem_getLastAckedSeq u s').1 = at_default u (m_lastAckedSeqByUser s'))
    by (intros s'; unfold at_default; simpl; by destruct (_ !! u)).
  destruct (run_ind (fun s' => at_default u (m_lastAckedSeqByUser s)
                      <= at_default u (m_lastAckedSeqByUser s')) (fun _ => True))
    with (ops := ops) (s := s) as (H2 & Hle); try done.
  - intros s' op Hi Hro _ Hle. destruct (step_counters s' op Hi Hro) as [_ Hs].
    specialize (Hs u). lia.
  - by apply Forall_true.
  - rewrite !G. split; [done|]. apply (inv_acked _ H2).
Qed.

(** ** Concrete runs *)
Definition req_of (from to cid content : string) : CreateMessageRequest :=
  mkCreateMessageRequest from to cid content 1000.

Definition three_saved : InMemoryMessageStore :=
  mem_run [OpSave (req_of "a" "b" "1" "x"); OpSave (req_of "a" "b" "2" "y");
           OpSave (req_of "a" "b" "3" "z")] newMem.

Definition page (begin limit : Z) (s : InMemoryMessageStore) : list Z * Z :=
  let '((l, next, _), _) := mem_loadPendingMessages "b" begin limit s in
  (map (fun m => seqOf m) l, next).

Lemma three_saved_inv : mem_inv three_saved /\ room_for 10 three_saved.
Proof.
  split; [|by vm_compute].
  apply (run_ind (fun _ => True) (fun _ => True)); auto using newMem_inv.
  - by vm_compute.
Qed.

(** Pulling page by page with the answered [next_begin_seq] skips a
    message at each page border: with sequence numbers 1, 2 and 3 waiting and
    pages of one message, the second page starts above 2. *)
Lemma paging_by_next_begin_seq_skips :
  page 0 10 three_saved = ([1; 2; 3], 4)
  /\ page 0 1 three_saved = ([1], 2) /\ page 2 1 three_saved = ([3], 4).
Proof. vm_compute. done. Qed.

(** The deduplication key does not separate sender from client identifier:
    a message of the user "a#b" with identifier "c" is answered as a duplicate
    of the one of user "a" with identifier "b#c" and is not stored. *)
Lemma dedup_key_collision :
  let s1 := (mem_saveMessageAndDelivery (req_of "a" "x" "b#c" "first") newMem).2 in
  match mem_saveMessageAndDelivery (req_of "a#b" "y" "c" "second") s1 with
  | (inr (m, duplicate), s2) =>
      duplicate = true /\ n_fromUserId (notify m) = "a" /\ n_content (notify m) = "first" /\ s2 = s1
  | _ => False
  end.
Proof. vm_compute. done. Qed.

Definition mixed_ops : list mem_op :=
  [OpMark "b" 1 DeliveryDelivering 5 1; OpAck "b" 2 2 0 7; OpSave (req_of "c" "b" "" "w");
   OpAck "b" 9 9 0 7; OpLoad "b" 0 5].

Lemma server_seq_dense_witness :
  exists id m, m_messages (mem_run mixed_ops newMem) !! id = Some m /\ receiverId m = "b" /\ seqOf m = 1.
Proof.
  apply (server_seq_dense mixed_ops "b"); [vm_compute; done|]. vm_compute. done.
Defined.

Lemma load_pending_spec_witness :
  exists full, StronglySorted by_seq full
    /\ (forall m, m ∈ full <-> m_messages three_saved !! msgId m = Some m
          /\ msgId m ∈ pending three_saved "b" /\ 1 < seqOf m /\ awaits m = true)
    /\ let l := take (Z.to_nat (Z.max 1 1)) full in
       mem_loadPendingMessages "b" 1 1 three_saved =
         ((l, match last l with None => 1 | Some m => seqOf m + 1 end, ""), three_saved).
Proof. apply (load_pending_spec three_saved "b" 1 1), three_saved_inv. Defined.

Definition fourth : StoredMessage := fresh_message (req_of "a" "b" "4" "t") three_saved.
Definition four_saved := mem_step three_saved (OpSave (req_of "a" "b" "4" "t")).

(** Message 4 of "b" still waits after [mixed_ops]; two pulls of one message
    each, from below it. *)
Lemma pending_until_acked_witness :
  exists m', m_messages (mem_run mixed_ops four_saved) !! 4 = Some m' /\ notify m' = notify fourth
    /\ awaits m' = true
    /\ m' ∈ (mem_loadPendingMessages "b" 3 1 (mem_run mixed_ops four_saved)).1.1.1
    /\ Forall (fun n => seqOf n < 4) (mem_loadPendingMessages "b" 0 1 (mem_run mixed_ops four_saved)).1.1.1.
Proof.
  destruct (pending_until_acked mixed_ops (req_of "a" "b" "4" "t") three_saved fourth four_saved)
    as (m' & Em & Hn & _ & Hp).
  - apply three_saved_inv.
  - by vm_compute.
  - by vm_compute.
  - repeat constructor.
  - assert (Ha : awaits m' = true) by (vm_compute in Em; injection Em as <-; reflexivity).
    exists m'. splits; [exact Em|exact Hn|exact Ha| |].
    + destruct (Hp Ha 3 1 eq_refl) as (_ & _ & [Hin|[_ Hf]]); [exact Hin|].
      vm_compute in Hf. inversion Hf as [|? ? Hlt _]. discriminate Hlt.
    + destruct (Hp Ha 0 1 eq_refl) as (_ & _ & [Hin|[_ Hf]]); [|exact Hf].
      vm_compute in Em. injection Em as <-. vm_compute in Hin.
      inversion Hin as [|? ? ? Hin']. inversion Hin'.
Defined.

Lemma resend_is_idempotent_witness :
  exists m', notify m' = notify fourth
    /\ m_messages (mem_run mixed_ops four_saved) !! 4 = Some m'
    /\ mem_saveMessageAndDelivery (req_of "a" "z" "4" "u") (mem_run mixed_ops four_saved)
       = (inr (m', true), mem_run mixed_ops four_saved).
Proof.
  apply (resend_is_idempotent mixed_ops (req_of "a" "b" "4" "t") (req_of "a" "z" "4" "u")
           three_saved fourth false four_saved); try done.
  - apply three_saved_inv.
Defined.

Lemma last_acked_monotone_witness :
  (mem_getLastAckedSeq "b" three_saved).1 <= (mem_getLastAckedSeq "b" (mem_run mixed_ops three_saved)).1
    <= at_default "b" (m_nextServerSeqByUser (mem_run mixed_ops three_saved)).
Proof. apply (last_acked_monotone mixed_ops three_saved "b"); [apply three_saved_inv|done]. Defined.

End storage.
