(* ===== verification/Serializer.v ===== *)
(** * serializer: JSON bodies of the protocol messages
      (src/codec/messageSerializer.cpp)

    nlohmann::json is third-party: the class [JsonLib] lists the operations the
    source calls and [JsonLaws] the documented behaviour the round trip rests
    on, up to the library's own equality [jeq] (a parsed number may be held in
    another integer type than the one dumped).  A [Deserialize] function
    assigns the fields of its out-parameter one after the other inside one
    [try]: the model threads the message, so a failure returns it as far as it
    was filled in.  [Undefined] is the const [operator\[\]] on a missing key. *)
From S2P Require Import Prelude Protocol.
Import protocol.

Module serializer.

(** The integer types of the fields. *)
Inductive ity := U32 | U64 | I64.

Definition fits (t : ity) (z : Z) : bool :=
  match t with
  | U32 => (0 <=? z) && (z <? 2 ^ 32)
  | U64 => (0 <=? z) && (z <? 2 ^ 64)
  | I64 => (- 2 ^ 63 <=? z) && (z <? 2 ^ 63)
  end.

Class JsonLib := {
  json : Type;
  jnull : json;                                  (* json j; *)
  jset : string -> json -> json -> json;         (* j[k] = v *)
  jstr : string -> json;
  jint : ity -> Z -> json;
  jbool : bool -> json;
  jarray : json;                                 (* json::array() *)
  jpush : json -> json -> json;                  (* a.push_back(v) *)
  dump : json -> option string;                  (* None: throws *)
  parse : string -> option json;                 (* None: throws *)
  jindex : json -> string -> option json;        (* j[k]; None: throws *)
  jcontains : json -> string -> bool;
  jis_object : json -> bool;
  jis_array : json -> bool;
  jelems : json -> list json;                    (* for (auto& x : j) *)
  get_string : json -> option string;            (* get<std::string>() *)
  get_int : ity -> json -> option Z;             (* get<uint64_t>() ... *)
  jvalue_string : json -> string -> string -> option string;  (* j.value(k, d) *)
  jvalue_int : ity -> json -> string -> Z -> option Z;
  get_bool : json -> option bool;                (* get<bool>() *)
  jvalue_bool : json -> string -> bool -> option bool;
}.

Inductive outcome (M : Type) :=
| Done (ok : bool) (msg : M)
| Undefined.
Arguments Done {M} ok msg.
Arguments Undefined {M}.

(** An expression that may throw inside the [try] with [m] filled in so far. *)
Definition try_ {A M} (e : option A) (m : M) (k : A -> outcome M) : outcome M :=
  match e with Some a => k a | None => Done false m end.

Notation "x <~ e 'or' m ;; k" := (try_ e m (fun x => k))
  (at level 100, e at next level, m at next level, right associativity) : im_scope.

Section Messages.
Context `{JsonLib}.

(** [json j; j\[k1\] = v1; j\[k2\] = v2; ...] *)
Definition build (fs : list (string * json)) : json :=
  foldl (fun j kv => jset kv.1 kv.2 j) jnull fs.

Definition str_at (j : json) (k : string) : option string := v ← jindex j k; get_string v.
Definition int_at (t : ity) (j : json) (k : string) : option Z := v ← jindex j k; get_int t v.

Definition Serialize_LoginReq (msg : LoginReq) : option string :=
  dump (build [("user_id", jstr (lreq_userId msg)); ("token", jstr (lreq_token msg));
               ("device_id", jstr (lreq_deviceId msg))]).

Definition Deserialize_LoginReq (data : string) (msg : LoginReq) : outcome LoginReq :=
  j <~ parse data or msg ;;
  x <~ str_at j "user_id" or msg ;;
  let msg := mkLoginReq x (lreq_token msg) (lreq_deviceId msg) in
  x <~ str_at j "token" or msg ;;
  let msg := mkLoginReq (lreq_userId msg) x (lreq_deviceId msg) in
  if jcontains j "device_id" then
    x <~ str_at j "device_id" or msg ;;
    Done true (mkLoginReq (lreq_userId msg) (lreq_token msg) x)
  else Done true msg.

Definition Serialize_LoginResp (msg : LoginResp) : option string :=
  dump (build [("result_code", jint U32 (lresp_resultCode msg));
               ("result_msg", jstr (lresp_resultMsg msg));
               ("session_id", jstr (lresp_sessionId msg))]).

Definition Deserialize_LoginResp (data : string) (msg : LoginResp) : outcome LoginResp :=
  j <~ parse data or msg ;;
  x <~ int_at U32 j "result_code" or msg ;;
  let msg := mkLoginResp x (lresp_resultMsg msg) (lresp_sessionId msg) in
  x <~ str_at j "result_msg" or msg ;;
  let msg := mkLoginResp (lresp_resultCode msg) x (lresp_sessionId msg) in
  if jcontains j "session_id" then
    x <~ str_at j "session_id" or msg ;;
    Done true (mkLoginResp (lresp_resultCode msg) (lresp_resultMsg msg) x)
  else Done true msg.

Definition Serialize_HeartbeatReq (msg : HeartbeatReq) : option string := Some "{}".

Definition Deserialize_HeartbeatReq (data : string) (msg : HeartbeatReq) : outcome HeartbeatReq :=
  Done true msg.

Definition Serialize_HeartbeatResp (msg : HeartbeatResp) : option string :=
  dump (build [("server_time", jint I64 (hbresp_serverTime msg))]).

Definition Deserialize_HeartbeatResp (data : string) (msg : HeartbeatResp) : outcome HeartbeatResp :=
  j <~ parse data or msg ;;
  x <~ int_at I64 j "server_time" or msg ;;
  Done true (mkHeartbeatResp x).

Definition Serialize_P2PMsgReq (msg : P2PMsgReq) : option string :=
  dump (build [("from_user_id", jstr (preq_fromUserId msg));
               ("to_user_id", jstr (preq_toUserId msg));
               ("client_msg_id", jstr (preq_clientMsgId msg));
               ("content", jstr (preq_content msg))]).

Definition Deserialize_P2PMsgReq (data : string) (msg : P2PMsgReq) : outcome P2PMsgReq :=
  j <~ parse data or msg ;;
  x <~ str_at j "from_user_id" or msg ;;
  let msg := mkP2PMsgReq x (preq_toUserId msg) (preq_clientMsgId msg) (preq_content msg) in
  x <~ str_at j "to_user_id" or msg ;;
  let msg := mkP2PMsgReq (preq_fromUserId msg) x (preq_clientMsgId msg) (preq_content msg) in
  x <~ jvalue_string j "client_msg_id" "" or msg ;;
  let msg := mkP2PMsgReq (preq_fromUserId msg) (preq_toUserId msg) x (preq_content msg) in
  x <~ str_at j "content" or msg ;;
  Done true (mkP2PMsgReq (preq_fromUserId msg) (preq_toUserId msg) (preq_clientMsgId msg) x).

Definition Serialize_P2PMsgResp (msg : P2PMsgResp) : option string :=
  dump (build [("result_code", jint U32 (presp_resultCode msg));
               ("result_msg", jstr (presp_resultMsg msg));
               ("msg_id", jint U64 (presp_msgId msg));
               ("server_seq", jint U64 (presp_serverSeq msg))]).

Definition Deserialize_P2PMsgResp (data : string) (msg : P2PMsgResp) : outcome P2PMsgResp :=
  j <~ parse data or msg ;;
  x <~ int_at U32 j "result_code" or msg ;;
  let msg := mkP2PMsgResp x (presp_resultMsg msg) (presp_msgId msg) (presp_serverSeq msg) in
  x <~ str_at j "result_msg" or msg ;;
  let msg := mkP2PMsgResp (presp_resultCode msg) x (presp_msgId msg) (presp_serverSeq msg) in
  x <~ int_at U64 j "msg_id" or msg ;;
  let msg := mkP2PMsgResp (presp_resultCode msg) (presp_resultMsg msg) x (presp_serverSeq msg) in
  x <~ jvalue_int U64 j "server_seq" 0 or msg ;;
  Done true (mkP2PMsgResp (presp_resultCode msg) (presp_resultMsg msg) (presp_msgId msg) x).

Definition Serialize_P2PMsgNotify (msg : P2PMsgNotify) : option string :=
  dump (build [("msg_id", jint U64 (n_msgId msg)); ("server_seq", jint U64 (n_serverSeq msg));
               ("from_user_id", jstr (n_fromUserId msg)); ("to_user_id", jstr (n_toUserId msg));
               ("client_msg_id", jstr (n_clientMsgId msg)); ("content", jstr (n_content msg));
               ("timestamp", jint I64 (n_timestamp msg))]).

Definition Deserialize_P2PMsgNotify (data : string) (msg : P2PMsgNotify) : outcome P2PMsgNotify :=
  j <~ parse data or msg ;;
  x <~ int_at U64 j "msg_id" or msg ;;
  let msg := mkP2PMsgNotify x (n_serverSeq msg) (n_fromUserId msg) (n_toUserId msg)
               (n_clientMsgId msg) (n_content msg) (n_timestamp msg) in
  x <~ int_at U64 j "server_seq" or msg ;;
  let msg := mkP2PMsgNotify (n_msgId msg) x (n_fromUserId msg) (n_toUserId msg)
               (n_clientMsgId msg) (n_content msg) (n_timestamp msg) in
  x <~ str_at j "from_user_id" or msg ;;
  let msg := mkP2PMsgNotify (n_msgId msg) (n_serverSeq msg) x (n_toUserId msg)
               (n_clientMsgId msg) (n_content msg) (n_timestamp msg) in
  x <~ str_at j "to_user_id" or msg ;;
  let msg := mkP2PMsgNotify (n_msgId msg) (n_serverSeq msg) (n_fromUserId msg) x
               (n_clientMsgId msg) (n_content msg) (n_timestamp msg) in
  x <~ jvalue_string j "client_msg_id" "" or msg ;;
  let msg := mkP2PMsgNotify (n_msgId msg) (n_serverSeq msg) (n_fromUserId msg) (n_toUserId msg)
               x (n_content msg) (n_timestamp msg) in
  x <~ str_at j "content" or msg ;;
  let msg := mkP2PMsgNotify (n_msgId msg) (n_serverSeq msg) (n_fromUserId msg) (n_toUserId msg)
               (n_clientMsgId msg) x (n_timestamp msg) in
  x <~ int_at I64 j "timestamp" or msg ;;
  Done true (mkP2PMsgNotify (n_msgId msg) (n_serverSeq msg) (n_fromUserId msg) (n_toUserId msg)
               (n_clientMsgId msg) (n_content msg) x).

Definition Serialize_BroadcastMsgReq (msg : BroadcastMsgReq) : option string :=
  dump (build [("from_user_id", jstr (breq_fromUserId msg)); ("content", jstr (breq_content msg))]).

Definition Deserialize_BroadcastMsgReq (data : string) (msg : BroadcastMsgReq)
    : outcome BroadcastMsgReq :=
  j <~ parse data or msg ;;
  x <~ str_at j "from_user_id" or msg ;;
  let msg := mkBroadcastMsgReq x (breq_content msg) in
  x <~ str_at j "content" or msg ;;
  Done true (mkBroadcastMsgReq (breq_fromUserId msg) x).

Definition Serialize_BroadcastMsgNotify (msg : BroadcastMsgNotify) : option string :=
  dump (build [("from_user_id", jstr (bn_fromUserId msg)); ("content", jstr (bn_content msg));
               ("timestamp", jint I64 (bn_timestamp msg))]).

Definition Deserialize_BroadcastMsgNotify (data : string) (msg : BroadcastMsgNotify)
    : outcome BroadcastMsgNotify :=
  j <~ parse data or msg ;;
  x <~ str_at j "from_user_id" or msg ;;
  let msg := mkBroadcastMsgNotify x (bn_content msg) (bn_timestamp msg) in
  x <~ str_at j "content" or msg ;;
  let msg := mkBroadcastMsgNotify (bn_fromUserId msg) x (bn_timestamp msg) in
  x <~ int_at I64 j "timestamp" or msg ;;
  Done true (mkBroadcastMsgNotify (bn_fromUserId msg) (bn_content msg) x).

Definition Serialize_KickUserReq (msg : KickUserReq) : option string :=
  dump (build [("target_user_id", jstr (kreq_targetUserId msg)); ("reason", jstr (kreq_reason msg))]).

Definition Deserialize_KickUserReq (data : string) (msg : KickUserReq) : outcome KickUserReq :=
  j <~ parse data or msg ;;
  x <~ str_at j "target_user_id" or msg ;;
  let msg := mkKickUserReq x (kreq_reason msg) in
  x <~ str_at j "reason" or msg ;;
  Done true (mkKickUserReq (kreq_targetUserId msg) x).

Definition Serialize_KickUserResp (msg : KickUserResp) : option string :=
  dump (build [("result_code", jint U32 (kresp_resultCode msg));
               ("result_msg", jstr (kresp_resultMsg msg))]).

Definition Deserialize_KickUserResp (data : string) (msg : KickUserResp) : outcome KickUserResp :=
  j <~ parse data or msg ;;
  x <~ int_at U32 j "result_code" or msg ;;
  let msg := mkKickUserResp x (kresp_resultMsg msg) in
  x <~ str_at j "result_msg" or msg ;;
  Done true (mkKickUserResp (kresp_resultCode msg) x).

Definition Serialize_MessageAckReq (msg : MessageAckReq) : option string :=
  dump (build [("msg_id", jint U64 (areq_msgId msg)); ("server_seq", jint U64 (areq_serverSeq msg));
               ("ack_code", jint U32 (areq_ackCode msg))]).

Definition Deserialize_MessageAckReq (data : string) (msg : MessageAckReq) : outcome MessageAckReq :=
  j <~ parse data or msg ;;
  x <~ int_at U64 j "msg_id" or msg ;;
  let msg := mkMessageAckReq x (areq_serverSeq msg) (areq_ackCode msg) in
  x <~ int_at U64 j "server_seq" or msg ;;
  let msg := mkMessageAckReq (areq_msgId msg) x (areq_ackCode msg) in
  x <~ jvalue_int U32 j "ack_code" AckReceived or msg ;;
  Done true (mkMessageAckReq (areq_msgId msg) (areq_serverSeq msg) x).

Definition Serialize_MessageAckResp (msg : MessageAckResp) : option string :=
  dump (build [("result_code", jint U32 (aresp_resultCode msg));
               ("result_msg", jstr (aresp_resultMsg msg));
               ("server_seq", jint U64 (aresp_serverSeq msg))]).

Definition Deserialize_MessageAckResp (data : string) (msg : MessageAckResp)
    : outcome MessageAckResp :=
  j <~ parse data or msg ;;
  x <~ int_at U32 j "result_code" or msg ;;
  let msg := mkMessageAckResp x (aresp_resultMsg msg) (aresp_serverSeq msg) in
  x <~ str_at j "result_msg" or msg ;;
  let msg := mkMessageAckResp (aresp_resultCode msg) x (aresp_serverSeq msg) in
  x <~ jvalue_int U64 j "server_seq" 0 or msg ;;
  Done true (mkMessageAckResp (aresp_resultCode msg) (aresp_resultMsg msg) x).

Definition Serialize_PullOfflineReq (msg : PullOfflineReq) : option string :=
  dump (build [("user_id", jstr (oreq_userId msg));
               ("last_acked_seq", jint U64 (oreq_lastAckedSeq msg));
               ("limit", jint U32 (oreq_limit msg))]).

Definition Deserialize_PullOfflineReq (data : string) (msg : PullOfflineReq)
    : outcome PullOfflineReq :=
  j <~ parse data or msg ;;
  x <~ str_at j "user_id" or msg ;;
  let msg := mkPullOfflineReq x (oreq_lastAckedSeq msg) (oreq_limit msg) in
  x <~ jvalue_int U64 j "last_acked_seq" 0 or msg ;;
  let msg := mkPullOfflineReq (oreq_userId msg) x (oreq_limit msg) in
  x <~ jvalue_int U32 j "limit" 100 or msg ;;
  Done true (mkPullOfflineReq (oreq_userId msg) (oreq_lastAckedSeq msg) x).

(** The initializer list of one element of [messages]. *)
Definition item_json (item : OfflineItem) : json :=
  build [("msg_id", jint U64 (oi_msgId item)); ("server_seq", jint U64 (oi_serverSeq item));
         ("from_user_id", jstr (oi_fromUserId item)); ("to_user_id", jstr (oi_toUserId item));
         ("client_msg_id", jstr (oi_clientMsgId item)); ("content", jstr (oi_content item));
         ("timestamp", jint I64 (oi_timestamp item))].

Definition items_json (items : list OfflineItem) : json :=
  foldl (fun a item => jpush a (item_json item)) jarray items.

Definition Serialize_PullOfflineResp (msg : PullOfflineResp) : option string :=
  dump (build [("result_code", jint U32 (oresp_resultCode msg));
               ("result_msg", jstr (oresp_resultMsg msg));
               ("next_begin_seq", jint U64 (oresp_nextBeginSeq msg));
               ("messages", items_json (oresp_messages msg))]).

(** The const [item\[k\]] followed by [get]: undefined on an object without the
    key, throws on anything that is not an object. *)
Definition const_at {A M} (get : json -> string -> option A) (item : json) (k : string)
    (m : M) (f : A -> outcome M) : outcome M :=
  if jis_object item && negb (jcontains item k) then Undefined else try_ (get item k) m f.

Definition push_item (msg : PullOfflineResp) (it : OfflineItem) : PullOfflineResp :=
  mkPullOfflineResp (oresp_resultCode msg) (oresp_resultMsg msg) (oresp_nextBeginSeq msg)
    (oresp_messages msg ++ [it]).

Fixpoint read_items (items : list json) (msg : PullOfflineResp) : outcome PullOfflineResp :=
  match items with
  | [] => Done true msg
  | item :: rest =>
    const_at (int_at U64) item "msg_id" msg (fun id =>
    const_at (int_at U64) item "server_seq" msg (fun seq =>
    const_at str_at item "from_user_id" msg (fun from =>
    const_at str_at item "to_user_id" msg (fun to =>
    cid <~ jvalue_string item "client_msg_id" "" or msg ;;
    const_at str_at item "content" msg (fun content =>
    const_at (int_at I64) item "timestamp" msg (fun ts =>
    read_items rest (push_item msg (mkOfflineItem id seq from to cid content ts))))))))
  end.

Definition Deserialize_PullOfflineResp (data : string) (msg : PullOfflineResp)
    : outcome PullOfflineResp :=
  j <~ parse data or msg ;;
  x <~ int_at U32 j "result_code" or msg ;;
  let msg := mkPullOfflineResp x (oresp_resultMsg msg) (oresp_nextBeginSeq msg) (oresp_messages msg) in
  x <~ str_at j "result_msg" or msg ;;
  let msg := mkPullOfflineResp (oresp_resultCode msg) x (oresp_nextBeginSeq msg) (oresp_messages msg) in
  x <~ jvalue_int U64 j "next_begin_seq" 0 or msg ;;
  let msg := mkPullOfflineResp (oresp_resultCode msg) (oresp_resultMsg msg) x [] in
  if jcontains j "messages" then
    ms <~ jindex j "messages" or msg ;; read_items (jelems ms) msg
  else Done true msg.

End Messages.

(** ** What the source relies on *)
Class JsonLaws `{JsonLib} := {
  jeq : relation json;
  jeq_equiv :: Equivalence jeq;
  jindex_jeq : forall j j' k v, jeq j' j -> jindex j k = Some v ->
    exists v', jindex j' k = Some v' /\ jeq v' v;
  jcontains_proper :: Proper (jeq ==> eq ==> eq) jcontains;
  jis_object_proper :: Proper (jeq ==> eq) jis_object;
  jelems_jeq : forall j j', jeq j' j -> Forall2 jeq (jelems j') (jelems j);
  get_string_proper :: Proper (jeq ==> eq) get_string;
  get_int_jeq : forall t z v, jeq v (jint t z) -> fits t z = true -> get_int t v = Some z;
  (** [parse] of a dump gives a value equal to the one dumped. *)
  parse_dump : forall j s, dump j = Some s -> exists j', parse s = Some j' /\ jeq j' j;
  (** Assignment by key on a null or object value. *)
  jobj : json -> Prop;
  jobj_null : jobj jnull;
  jobj_set : forall k v j, jobj j -> jobj (jset k v j);
  jindex_set : forall k v j, jobj j -> jindex (jset k v j) k = Some v;
  jindex_set_ne : forall k k' v j, jobj j -> k <> k' -> jcontains j k' = true ->
    jindex (jset k v j) k' = jindex j k';
  jcontains_set : forall k k' v j, jobj j ->
    jcontains (jset k v j) k' = bool_decide (k = k') || jcontains j k';
  jcontains_object : forall j k, jcontains j k = true -> jis_object j = true;
  get_string_jstr : forall s, get_string (jstr s) = Some s;
  (** Arrays. *)
  jarray_array : jis_array jarray = true;
  jpush_array : forall a v, jis_array a = true -> jis_array (jpush a v) = true;
  jelems_array : jelems jarray = [];
  jelems_push : forall a v, jis_array a = true -> jelems (jpush a v) = jelems a ++ [v];
  (** [value] on an object that has the key. *)
  jvalue_string_present : forall j k d, jcontains j k = true ->
    jvalue_string j k d = str_at j k;
  jvalue_int_present : forall t j k d, jcontains j k = true ->
    jvalue_int t j k d = int_at t j k;
  get_bool_jeq : forall b v, jeq v (jbool b) -> get_bool v = Some b;
  jvalue_bool_present : forall j k d, jcontains j k = true ->
    jvalue_bool j k d = v ← jindex j k; get_bool v;
}.

Section RoundTrip.
Context `{JsonLaws}.

Lemma jobj_foldl fs j : jobj j -> jobj (foldl (fun j kv => jset kv.1 kv.2 j) j fs).
Proof. revert j; induction fs; intros j Hj; simpl; auto using jobj_set. Qed.

Lemma foldl_keeps fs j k v :
  jobj j -> k ∉ fs.*1 -> jindex j k = Some v -> jcontains j k = true ->
  jindex (foldl (fun j kv => jset kv.1 kv.2 j) j fs) k = Some v
  /\ jcontains (foldl (fun j kv => jset kv.1 kv.2 j) j fs) k = true.
Proof.
  revert j. induction fs as [|[k0 v0] fs IH]; intros j Hj Hk Hi Hc; [done|].
  simpl in *. apply not_elem_of_cons in Hk as [Hne Hk]. apply IH; auto using jobj_set.
  - by rewrite jindex_set_ne.
  - rewrite jcontains_set by done. by rewrite Hc, orb_true_r.
Qed.

(** A key assigned once is found with its value. *)
Lemma foldl_has fs j k v :
  jobj j -> NoDup fs.*1 -> (k, v) ∈ fs ->
  jindex (foldl (fun j kv => jset kv.1 kv.2 j) j fs) k = Some v
  /\ jcontains (foldl (fun j kv => jset kv.1 kv.2 j) j fs) k = true.
Proof.
  revert j. induction fs as [|[k0 v0] fs IH]; intros j Hj Hnd Hin; [by inversion Hin|].
  simpl in *. apply NoDup_cons in Hnd as [Hk Hnd].
  apply elem_of_cons in Hin as [[= -> ->]|Hin]; [|by apply IH; auto using jobj_set].
  apply foldl_keeps; auto using jobj_set.
  - by apply jindex_set.
  - rewrite jcontains_set by done. by rewrite bool_decide_eq_true_2.
Qed.

Section Fields.
Variables (fs : list (string * json)) (j : json).
Hypothesis Hj : jeq j (build fs).
Hypothesis Hnd : bool_decide (NoDup fs.*1) = true.

Lemma read_contains k v : (k, v) ∈ fs -> jcontains j k = true.
Proof.
  intros Hin. rewrite Hj. apply bool_decide_eq_true in Hnd.
  by destruct (foldl_has fs jnull k v jobj_null Hnd Hin).
Qed.

Lemma read_index k v : (k, v) ∈ fs -> exists v', jindex j k = Some v' /\ jeq v' v.
Proof.
  intros Hin. apply (jindex_jeq (build fs)); [done|]. apply bool_decide_eq_true in Hnd.
  by destruct (foldl_has fs jnull k v jobj_null Hnd Hin).
Qed.

Lemma read_str k s : (k, jstr s) ∈ fs -> str_at j k = Some s.
Proof.
  intros Hin. destruct (read_index _ _ Hin) as (v & Hv & He).
  unfold str_at. rewrite Hv. simpl. rewrite He. apply get_string_jstr.
Qed.

Lemma read_int t k z : (k, jint t z) ∈ fs -> fits t z = true -> int_at t j k = Some z.
Proof.
  intros Hin Hz. destruct (read_index _ _ Hin) as (v & Hv & He).
  unfold int_at. rewrite Hv. simpl. by apply get_int_jeq.
Qed.

Lemma read_value_string k s d : (k, jstr s) ∈ fs -> jvalue_string j k d = Some s.
Proof.
  intros Hin. rewrite jvalue_string_present by (by eapply read_contains). by apply read_str.
Qed.

Lemma read_value_int t k z d :
  (k, jint t z) ∈ fs -> fits t z = true -> jvalue_int t j k d = Some z.
Proof.
  intros Hin Hz. rewrite jvalue_int_present by (by eapply read_contains). by apply read_int.
Qed.

Lemma read_value_bool k b d : (k, jbool b) ∈ fs -> jvalue_bool j k d = Some b.
Proof.
  intros Hin. rewrite jvalue_bool_present by (by eapply read_contains).
  destruct (read_index _ _ Hin) as (v & -> & He). simpl. by apply get_bool_jeq.
Qed.

Lemma read_const_str {M} k s (m : M) f : (k, jstr s) ∈ fs -> const_at str_at j k m f = f s.
Proof.
  intros Hin. unfold const_at. rewrite (read_contains _ _ Hin), andb_false_r, (read_str _ _ Hin).
  done.
Qed.

Lemma read_const_int {M} t k z (m : M) f :
  (k, jint t z) ∈ fs -> fits t z = true -> const_at (int_at t) j k m f = f z.
Proof.
  intros Hin Hz. unfold const_at.
  rewrite (read_contains _ _ Hin), andb_false_r, (read_int _ _ _ Hin Hz). done.
Qed.
End Fields.

(** Replays a deserializer on the parsed dump of [build fs]. *)
Ltac fast :=
  match goal with |- bool_decide _ = true => vm_compute; reflexivity end.
Ltac member := repeat first [apply list_elem_of_here | apply list_elem_of_further].
Ltac replay Hj :=
  repeat (first
    [ erewrite (read_str _ _ Hj) by (first [fast | member])
    | erewrite (read_int _ _ Hj) by (first [fast | eassumption | member])
    | erewrite (read_value_string _ _ Hj) by (first [fast | member])
    | erewrite (read_value_int _ _ Hj) by (first [fast | eassumption | member])
    | erewrite (read_const_str _ _ Hj) by (first [fast | member])
    | erewrite (read_const_int _ _ Hj) by (first [fast | eassumption | member])
    | erewrite (read_contains _ _ Hj) by (first [fast | member]) ];
    cbn [try_]).

(** The integer fields are values of their types. *)
Definition ok_item (it : OfflineItem) : bool :=
  fits U64 (oi_msgId it) && fits U64 (oi_serverSeq it) && fits I64 (oi_timestamp it).

Lemma jelems_items items :
  jelems (items_json items) = map item_json items.
Proof.
  unfold items_json. rewrite <- (app_nil_l (map _ _)), <- jelems_array.
  generalize jarray_array. generalize jarray. induction items as [|it items IH]; intros a Ha; simpl.
  { by rewrite app_nil_r. }
  rewrite IH by (by apply jpush_array). rewrite jelems_push by done. by rewrite <- app_assoc.
Qed.

Lemma read_items_ok items js msg :
  Forall2 jeq js (map item_json items) -> forallb ok_item items = true ->
  read_items js msg = Done true (mkPullOfflineResp (oresp_resultCode msg) (oresp_resultMsg msg)
                        (oresp_nextBeginSeq msg) (oresp_messages msg ++ items)).
Proof.
  revert js msg. induction items as [|it items IH]; intros js msg HF Hok.
  { inversion HF; subst. destruct msg. simpl. by rewrite app_nil_r. }
  inversion HF as [|j ? js' ? Hj HF']; subst. simpl in Hok. b2p. unfold ok_item in *. b2p.
  cbn [read_items]. unfold item_json in Hj. replay Hj. rewrite IH by done. simpl.
  rewrite <- app_assoc. by destruct it.
Qed.

Definition round_trips {M} (ser : M -> option string) (de : string -> M -> outcome M)
    (ok : M -> bool) : Prop :=
  forall m m0 s, ok m = true -> ser m = Some s -> de s m0 = Done true m.

Ltac solve_round_trip :=
  intros m m0 s Hok Hs; cbn beta in Hok; b2p;
  destruct (parse_dump _ _ Hs) as (j & Hp & Hj);
  match goal with |- ?d _ s m0 = _ => unfold d end;
  rewrite Hp; cbn [try_]; replay Hj; by destruct m.

(** C35: Every protocol message written by [Serialize] and dumped by the JSON
    library is read back by [Deserialize] as the same message, whatever the
    out-parameter held before. *)
Theorem serialize_roundtrip :
  round_trips Serialize_LoginReq Deserialize_LoginReq (fun _ => true)
  /\ round_trips Serialize_LoginResp Deserialize_LoginResp (fun m => fits U32 (lresp_resultCode m))
  /\ round_trips Serialize_HeartbeatReq Deserialize_HeartbeatReq (fun _ => true)
  /\ round_trips Serialize_HeartbeatResp Deserialize_HeartbeatResp
       (fun m => fits I64 (hbresp_serverTime m))
  /\ round_trips Serialize_P2PMsgReq Deserialize_P2PMsgReq (fun _ => true)
  /\ round_trips Serialize_P2PMsgResp Deserialize_P2PMsgResp
       (fun m => fits U32 (presp_resultCode m) && fits U64 (presp_msgId m)
                 && fits U64 (presp_serverSeq m))
  /\ round_trips Serialize_P2PMsgNotify Deserialize_P2PMsgNotify
       (fun m => fits U64 (n_msgId m) && fits U64 (n_serverSeq m) && fits I64 (n_timestamp m))
  /\ round_trips Serialize_BroadcastMsgReq Deserialize_BroadcastMsgReq (fun _ => true)
  /\ round_trips Serialize_BroadcastMsgNotify Deserialize_BroadcastMsgNotify
       (fun m => fits I64 (bn_timestamp m))
  /\ round_trips Serialize_KickUserReq Deserialize_KickUserReq (fun _ => true)
  /\ round_trips Serialize_KickUserResp Deserialize_KickUserResp
       (fun m => fits U32 (kresp_resultCode m))
  /\ round_trips Serialize_MessageAckReq Deserialize_MessageAckReq
       (fun m => fits U64 (areq_msgId m) && fits U64 (areq_serverSeq m) && fits U32 (areq_ackCode m))
  /\ round_trips Serialize_MessageAckResp Deserialize_MessageAckResp
       (fun m => fits U32 (aresp_resultCode m) && fits U64 (aresp_serverSeq m))
  /\ round_trips Serialize_PullOfflineReq Deserialize_PullOfflineReq
       (fun m => fits U64 (oreq_lastAckedSeq m) && fits U32 (oreq_limit m))
  /\ round_trips Serialize_PullOfflineResp Deserialize_PullOfflineResp
       (fun m => fits U32 (oresp_resultCode m) && fits U64 (oresp_nextBeginSeq m)
                 && forallb ok_item (oresp_messages m)).
Proof.
  splits; try solve [solve_round_trip].
  - intros [] [] s _ _. done.
  - intros m m0 s Hok Hs. cbn beta in Hok. b2p. destruct (parse_dump _ _ Hs) as (j & Hp & Hj).
    unfold Deserialize_PullOfflineResp. rewrite Hp. cbn [try_]. replay Hj.
    destruct (read_index _ _ Hj eq_refl "messages" (items_json (oresp_messages m)))
      as (ms & -> & Hms); [member|]. cbn [try_].
    rewrite (read_items_ok (oresp_messages m)); [by destruct m| |done].
    rewrite <- jelems_items. by apply jelems_jeq.
Qed.

End RoundTrip.

Definition is_undefined {M} (o : outcome M) : bool :=
  match o with Undefined => true | _ => false end.

Section Requests.
Context `{JsonLib}.

Lemma try_defined {A M} (e : option A) (m : M) k :
  (forall a, is_undefined (k a) = false) -> is_undefined (try_ e m k) = false.
Proof. destruct e; simpl; auto. Qed.

(** Total and defined on every input; false, with nothing assigned, on text
    that is not JSON. *)
Definition safe_reader {M} (de : string -> M -> outcome M) : Prop :=
  forall data m, is_undefined (de data m) = false
    /\ (parse data = None -> de data m = Done false m).

Ltac solve_safe :=
  intros data m; split;
  [ match goal with |- is_undefined (?d _ data m) = _ => unfold d end;
    repeat (first [apply try_defined; intros ? | case_match | reflexivity])
  | intros Hp; match goal with |- ?d _ data m = _ => unfold d end; by rewrite Hp ].

(** On arbitrary bytes the readers of the messages a client may send
    return a value and reach no undefined behaviour; text that is not JSON is
    refused without touching the message. *)
Lemma request_readers_safe :
  safe_reader Deserialize_LoginReq /\ safe_reader Deserialize_P2PMsgReq
  /\ safe_reader Deserialize_BroadcastMsgReq /\ safe_reader Deserialize_KickUserReq
  /\ safe_reader Deserialize_MessageAckReq /\ safe_reader Deserialize_PullOfflineReq.
Proof. splits; solve_safe. Qed.

(** The reader of the offline answer indexes a const element: an element
    object without "msg_id" is undefined behaviour instead of [false]. *)
Lemma offline_item_missing_key_undefined item rest msg :
  jis_object item = true -> jcontains item "msg_id" = false ->
  read_items (item :: rest) msg = Undefined.
Proof. intros Ho Hc. cbn. unfold const_at. by rewrite Ho, Hc. Qed.

End Requests.

(** ** A concrete library *)
Inductive jv :=
| JNull
| JStr (s : string)
| JNum (z : Z)
| JBool (b : bool)
| JArr (l : list jv)
| JObj (l : list (string * jv)).

(** Dumped as a tree of tokens: [inl] a mark or a string, [inr] a number. *)
Fixpoint jv_tree (v : jv) : gen_tree (string + Z) :=
  match v with
  | JNull => GenNode 0 []
  | JStr s => GenLeaf (inl s)
  | JNum z => GenLeaf (inr z)
  | JBool b => GenNode (if b then 5 else 4) []
  | JArr l => GenNode 1 (map jv_tree l)
  | JObj l => GenNode 2 (map (fun kv => GenNode 3 [GenLeaf (inl kv.1); jv_tree kv.2]) l)
  end.

Fixpoint tree_jv (t : gen_tree (string + Z)) : jv :=
  match t with
  | GenNode 0 _ => JNull
  | GenLeaf (inl s) => JStr s
  | GenLeaf (inr z) => JNum z
  | GenNode 1 l => JArr (map tree_jv l)
  | GenNode 4 _ => JBool false
  | GenNode 5 _ => JBool true
  | GenNode _ l =>
      JObj (map (fun t => match t with
                          | GenNode _ [GenLeaf (inl k); v] => (k, tree_jv v)
                          | _ => ("", JNull)
                          end) l)
  end.

Fixpoint tree_jv_tree (v : jv) : tree_jv (jv_tree v) = v.
Proof.
  destruct v as [|s|z|[]|l|l]; simpl; try done.
  - f_equal. induction l as [|x l IH]; simpl; [done|]. by rewrite tree_jv_tree, IH.
  - f_equal. induction l as [|[k x] l IH]; simpl; [done|]. by rewrite tree_jv_tree, IH.
Qed.

Fixpoint pos_string (p : positive) : string :=
  match p with
  | xH => ""
  | xO p => String.String "0"%char (pos_string p)
  | xI p => String.String "1"%char (pos_string p)
  end.

Fixpoint string_pos (s : string) : option positive :=
  match s with
  | "" => Some xH
  | String.String c s => p ← string_pos s;
      if bool_decide (c = "0"%char) then Some (xO p)
      else if bool_decide (c = "1"%char) then Some (xI p) else None
  end.

Lemma string_pos_string p : string_pos (pos_string p) = Some p.
Proof. induction p; simpl; [by rewrite IHp|by rewrite IHp|done]. Qed.

Fixpoint assoc (k : string) (l : list (string * jv)) : option jv :=
  match l with
  | [] => None
  | (k', v) :: l => if bool_decide (k' = k) then Some v else assoc k l
  end.

Definition toy_fields (j : jv) : option (list (string * jv)) :=
  match j with JNull => Some [] | JObj l => Some l | _ => None end.

Definition toy_wrap (t : ity) (z : Z) : Z :=
  match t with U32 => u32 z | U64 => u64 z | I64 => i64 z end.

Definition toy_get_int (t : ity) (v : jv) : option Z :=
  match v with JNum z => Some (toy_wrap t z) | _ => None end.
Definition toy_get_string (v : jv) : option string :=
  match v with JStr s => Some s | _ => None end.
Definition toy_get_bool (v : jv) : option bool :=
  match v with JBool b => Some b | _ => None end.
Definition toy_contains (j : jv) (k : string) : bool :=
  match j with JObj l => match assoc k l with Some _ => true | None => false end | _ => false end.
Definition toy_index (j : jv) (k : string) : option jv :=
  match j with JObj l => Some (default JNull (assoc k l)) | JNull => Some JNull | _ => None end.

Definition toy_value {A} (get : jv -> option A) (j : jv) (k : string) (d : A) : option A :=
  match j with
  | JObj l => match assoc k l with Some v => get v | None => Some d end
  | _ => None
  end.

#[export] Instance toy_json : JsonLib := {
  json := jv;
  jnull := JNull;
  jset k v j := match j with
    | JNull => JObj [(k, v)]
    | JObj l => JObj ((k, v) :: l)
    | _ => j end;
  jstr := JStr;
  jint _ z := JNum z;
  jbool := JBool;
  jarray := JArr [];
  jpush a v := match a with JArr l => JArr (l ++ [v]) | _ => a end;
  dump v := Some (pos_string (encode (jv_tree v)));
  parse s := p ← string_pos s; tree_jv <$> decode p;
  jindex := toy_index;
  jcontains := toy_contains;
  jis_object j := match j with JObj _ => true | _ => false end;
  jis_array j := match j with JArr _ => true | _ => false end;
  jelems j := match j with JArr l => l | JObj l => l.*2 | JNull => [] | v => [v] end;
  get_string := toy_get_string;
  get_int := toy_get_int;
  jvalue_string := toy_value toy_get_string;
  jvalue_int t := toy_value (toy_get_int t);
  get_bool := toy_get_bool;
  jvalue_bool := toy_value toy_get_bool;
}.

#[export] Instance toy_laws : JsonLaws.
Proof.
  refine {| jeq := @eq jv; jobj := fun j => is_Some (toy_fields j) |}; cbn.
  - naive_solver.
  - intros j j' ->. reflexivity.
  - intros t z v ->. intros Hf. simpl. destruct t; simpl in *; b2p;
      f_equal; [apply u32_small|apply u64_small|apply i64_small]; lia.
  - intros j s [= <-]. exists j. rewrite string_pos_string. simpl.
    rewrite decode_encode. simpl. by rewrite tree_jv_tree.
  - by eexists.
  - intros k v [] [? Hj]; simpl in *; try done; by eexists.
  - intros k v [] [? Hj]; simpl in *; try done; by rewrite bool_decide_eq_true_2.
  - intros k k' v [] [? Hj] Hne; simpl in *; try done; by rewrite bool_decide_eq_false_2.
  - intros k k' v [] [? Hj]; simpl in *; try done; by case_bool_decide.
  - by intros [].
  - done.
  - done.
  - by intros [].
  - done.
  - by intros [].
  - intros [] k d; simpl; try done. by destruct (assoc k l).
  - intros t [] k d; simpl; try done. by destruct (assoc k l).
  - by intros b v ->.
  - intros [] k d; simpl; try done. by destruct (assoc k l).
Defined.

Definition ex_notify : P2PMsgNotify := mkP2PMsgNotify 7 3 "alice" "bob" "c-1" "hi" 1700000000000.

Lemma serialize_roundtrip_witness :
  exists s, Serialize_P2PMsgNotify ex_notify = Some s
    /\ Deserialize_P2PMsgNotify s (mkP2PMsgNotify 0 0 "" "" "" "" 0) = Done true ex_notify.
Proof.
  eexists. split; [reflexivity|].
  destruct serialize_roundtrip as (_ & _ & _ & _ & _ & _ & R & _).
  by apply R.
Defined.

End serializer.
