(* ===== verification/MessageService.v ===== *)
(** * MessageService: reliable delivery
      (src/service/messageService.h, src/service/messageService.cpp)

    The service is written against the interface [IMessageStore].  Its handlers
    run in a small state monad: the state is the service object (with the store
    it owns) and what the handlers emit (packets handed to [conn->send],
    metrics, updates of the session table); [None] is an exception that leaves
    the handler.  The clock and [conn->connected()] are read through an
    environment whose answers may change at every query, so every interleaving
    with the network threads is covered. *)
From S2P Require Import Prelude Protocol Buffer Codec MessageStore Serializer.
Import protocol buffer codec storage serializer.

Module message.

(** Answers of [util::GetTimestampMs()] and [conn->connected()] at the n-th query. *)
Record Env := mkEnv {
  now_at : nat -> Z;
  connected_at : nat -> ConnId -> bool;
}.

Inductive out :=
| Sent (conn : ConnId) (header : PacketHeader) (data : bytes)
| Counter (name : string)
| Observe (name : string) (value : Z)
| SessionSeq (userId : string) (seq : Z).

Section Service.
Context `{JsonLib} {St : Type} `{IMessageStore St}.

Record MessageService := mkService {
  m_messageStore : option St;
  m_sessionRepository : bool;
  m_userToConn : gmap string (option ConnId);
  m_retryRunning : bool;
  m_retryIntervalMs : Z;
  m_ackTimeoutMs : Z;
  m_retryBackoffMs : Z;
  m_maxRetryCount : Z;
  m_retryBatchSize : Z;
  m_p2pNotifyEncoder : option (P2PMsgNotify -> option string);
  m_broadcastNotifyEncoder : option (BroadcastMsgNotify -> option string);
}.

Definition newService : MessageService :=
  mkService None false ∅ false 5000 15000 3000 5 200 None None.

Record World := mkWorld { svc : MessageService; tick : nat; outs : list out }.

Definition M (A : Type) : Type := World -> option A * World.

Definition ret {A} (a : A) : M A := fun w => (Some a, w).
Definition throw {A} : M A := fun w => (None, w).
Definition bind {A B} (m : M A) (k : A -> M B) : M B := fun w =>
  match m w with
  | (Some a, w') => k a w'
  | (None, w') => (None, w')
  end.

Local Notation "'let!' x := m 'in' k" := (bind m (fun x => k))
  (at level 200, x pattern, m at level 100, k at level 200).

Definition emit (o : out) : M () := fun w => (Some (), mkWorld (svc w) (tick w) (outs w ++ [o])).

Definition get_svc : M MessageService := fun w => (Some (svc w), w).
Definition put_svc (s : MessageService) : M () := fun w => (Some (), mkWorld s (tick w) (outs w)).

Definition with_store (st : option St) (s : MessageService) : MessageService :=
  mkService st (m_sessionRepository s) (m_userToConn s) (m_retryRunning s) (m_retryIntervalMs s)
    (m_ackTimeoutMs s) (m_retryBackoffMs s) (m_maxRetryCount s) (m_retryBatchSize s)
    (m_p2pNotifyEncoder s) (m_broadcastNotifyEncoder s).

Definition with_conns (c : gmap string (option ConnId)) (s : MessageService) : MessageService :=
  mkService (m_messageStore s) (m_sessionRepository s) c (m_retryRunning s) (m_retryIntervalMs s)
    (m_ackTimeoutMs s) (m_retryBackoffMs s) (m_maxRetryCount s) (m_retryBatchSize s)
    (m_p2pNotifyEncoder s) (m_broadcastNotifyEncoder s).

(** A call [m_messageStore->op(...)] on a configured store. *)
Definition on_store {A} (st : St) (op : St -> A * St) : M A := fun w =>
  let '(a, st') := op st in
  (Some a, mkWorld (with_store (Some st') (svc w)) (tick w) (outs w)).

Definition setMessageStore (st : option St) (s : MessageService) : MessageService := with_store st s.

Definition setRetryConfig (interval batch : Z) (s : MessageService) : MessageService :=
  mkService (m_messageStore s) (m_sessionRepository s) (m_userToConn s) (m_retryRunning s) interval
    (m_ackTimeoutMs s) (m_retryBackoffMs s) (m_maxRetryCount s) batch
    (m_p2pNotifyEncoder s) (m_broadcastNotifyEncoder s).

Definition setRetryPolicy (ackTimeoutMs retryBackoffMs maxRetryCount : Z) (s : MessageService)
    : MessageService :=
  mkService (m_messageStore s) (m_sessionRepository s) (m_userToConn s) (m_retryRunning s)
    (m_retryIntervalMs s) ackTimeoutMs retryBackoffMs maxRetryCount (m_retryBatchSize s)
    (m_p2pNotifyEncoder s) (m_broadcastNotifyEncoder s).

Definition registerConnection (userId : string) (conn : option ConnId) (s : MessageService)
    : MessageService := with_conns (<[userId := conn]> (m_userToConn s)) s.

Definition unregisterConnection (userId : string) (s : MessageService) : MessageService :=
  with_conns (delete userId (m_userToConn s)) s.

(** [m_userToConn.find(userId)]: null when absent. *)
Definition find_conn (userId : string) (s : MessageService) : option ConnId :=
  mjoin (m_userToConn s !! userId).

Definition ShouldRetryMessage (message : StoredMessage) (nowMs ackTimeoutMs retryBackoffMs : Z) : bool :=
  if bool_decide (status message = DeliveryPersisted) then true
  else if negb (bool_decide (status message = DeliveryDelivering)) then false
  else
    let lastAt := if 0 <? lastDeliverAt message then lastDeliverAt message else createdAt message in
    let delay := ackTimeoutMs
      + Z.max 0 (if 0 <? retryCount message then retryCount message - 1 else 0) * retryBackoffMs in
    delay <=? nowMs - lastAt.

(** The header [deliverLocked] fills in. *)
Definition notify_header (message : StoredMessage) : PacketHeader :=
  let flags := if 0 <? retryCount message then Z.lor kFlagNone kFlagRetry else kFlagNone in
  mkPacketHeader kMagicNumber kProtocolVersionV1 kHeaderSize kHeaderSize CmdP2pMsgNotify flags
    0 (msgId message) (seqOf message) ErrOk 0.

Definition broadcast_header (msgId : Z) : PacketHeader :=
  mkPacketHeader kMagicNumber kProtocolVersionV1 kHeaderSize kHeaderSize CmdBroadcastMsgNotify
    kFlagNone 0 msgId 0 ErrOk 0.

Section WithEnv.
Variable env : Env.

Definition GetTimestampMs : M Z := fun w =>
  (Some (now_at env (tick w)), mkWorld (svc w) (S (tick w)) (outs w)).

Definition connected (conn : ConnId) : M bool := fun w =>
  (Some (connected_at env (tick w) conn), mkWorld (svc w) (S (tick w)) (outs w)).

(** [conn && conn->connected()] *)
Definition online (conn : option ConnId) : M bool :=
  match conn with None => ret false | Some c => connected c end.

(** [m_encoder ? m_encoder(x) : serializer::Serialize(x)]; either may throw. *)
Definition encode_with {A} (encoder : option (A -> option string)) (ser : A -> option string) (x : A)
    : M string :=
  match default ser encoder x with Some s => ret s | None => throw end.

(** [Codec::pack(&buffer, header, msg); conn->send(&buffer);] *)
Definition pack_send (conn : ConnId) (header : PacketHeader) (msg : string) : M () :=
  match pack header (chars msg) newBuffer with
  | Ok _ => emit (Sent conn header (chars msg))
  | Err _ => throw
  end.

(** Returns [errorMsg]. *)
Definition deliverLocked (conn : option ConnId) (message : StoredMessage) : M string :=
  let! up := online conn in
  match conn, up with
  | Some c, true =>
    let! s := get_svc in
    let! notifyMsg := encode_with (m_p2pNotifyEncoder s) Serialize_P2PMsgNotify (notify message) in
    let! _ := pack_send c (notify_header message) notifyMsg in
    let! _ := (if 0 <? retryCount message then emit (Counter "im_message_retry_total") else ret ()) in
    let! now := GetTimestampMs in
    let! _ := emit (Observe "im_message_latency_ms" (now - createdAt message)) in
    let! at_ := GetTimestampMs in
    let retries := u32 (retryCount message + 1) in
    match m_messageStore s with
    | None => ret ""
    | Some st =>
      let! e := on_store st (markDeliveryAttempt (receiverId message) (msgId message)
                               DeliveryDelivering at_ retries) in
      ret (match e with Some e => e | None => "" end)
    end
  | _, _ => ret "connection is offline"
  end.

(** The out-parameters start with the caller's values. *)
Definition sendReliableP2PMessage (fromUserId toUserId clientMsgId content : string)
    (outMsgId outServerSeq : Z) : M (bool * Z * Z * string) :=
  let! s := get_svc in
  match m_messageStore s with
  | None => ret (false, outMsgId, outServerSeq, "message store is not configured")
  | Some st =>
    let! now := GetTimestampMs in
    let! r := on_store st (saveMessageAndDelivery
                (mkCreateMessageRequest fromUserId toUserId clientMsgId content now)) in
    match r with
    | inl e => ret (false, outMsgId, outServerSeq, e)
    | inr (storedMessage, duplicate) =>
      let id := msgId storedMessage in
      let seq := seqOf storedMessage in
      let conn := find_conn toUserId s in
      let! up := online conn in
      if up then
        let! deliverError := deliverLocked conn storedMessage in
        if bool_decide (deliverError = "")
        then ret (true, id, seq,
                  if (duplicate : bool) then "duplicate request redelivered" else "persisted and delivered")
        else ret (false, id, seq, deliverError)
      else ret (true, id, seq,
                if (duplicate : bool) then "duplicate request still pending offline"
                else "persisted and queued offline")
    end
  end.

Definition sendP2PMessage (fromUserId toUserId content : string) : M (bool * Z * string) :=
  let! r := sendReliableP2PMessage fromUserId toUserId "" content 0 0 in
  let '(ok, id, _, msg) := r in ret (ok, u32 id, msg).

(** Returns the result, [outLastAckedSeq] and [errorMsg]. *)
Definition processAck (userId : string) (msgId serverSeq ackCode : Z) : M (bool * Z * string) :=
  let! s := get_svc in
  match m_messageStore s with
  | None => ret (false, 0, "message store is not configured")
  | Some st =>
    let! now := GetTimestampMs in
    let! r := on_store st (markAcked userId msgId serverSeq ackCode now) in
    match r with
    | (Some e, last) => ret (false, last, e)
    | (None, last) =>
      let! _ := (if m_sessionRepository s then emit (SessionSeq userId last) else ret ()) in
      ret (true, last, "")
    end
  end.

Definition offline_item (message : StoredMessage) : OfflineItem :=
  mkOfflineItem (n_msgId (notify message)) (n_serverSeq (notify message))
    (n_fromUserId (notify message)) (n_toUserId (notify message))
    (n_clientMsgId (notify message)) (n_content (notify message)) (n_timestamp (notify message)).

Definition pullOfflineMessages (userId : string) (lastAckedSeq limit : Z) : M (list OfflineItem * Z) :=
  let! s := get_svc in
  match m_messageStore s with
  | None => ret ([], lastAckedSeq)
  | Some st =>
    let! r := on_store st (loadPendingMessages userId lastAckedSeq limit) in
    let '(storedMessages, nextBeginSeq, errorMsg) := r in
    if negb (bool_decide (errorMsg = "")) then ret ([], nextBeginSeq)
    else ret (map offline_item storedMessages, nextBeginSeq)
  end.

(** The body of the loop of [deliverPendingMessages]. *)
Definition retry_message (conn : option ConnId) (nowMs : Z) (message : StoredMessage) : M () :=
  let! s := get_svc in
  match m_messageStore s with
  | None => ret ()
  | Some st =>
    if m_maxRetryCount s <=? retryCount message then
      let! _ := on_store st (markDeliveryAttempt (receiverId message) (msgId message) DeliveryFailed
                               (lastDeliverAt message) (retryCount message)) in
      ret ()
    else if negb (ShouldRetryMessage message nowMs (m_ackTimeoutMs s) (m_retryBackoffMs s)) then ret ()
    else
      let! _ := (if bool_decide (status message = DeliveryDelivering)
                 then emit (Counter "im_message_ack_timeout_total") else ret ()) in
      let! _ := deliverLocked conn message in
      ret ()
  end.

Fixpoint retry_all (conn : option ConnId) (nowMs : Z) (messages : list StoredMessage) : M () :=
  match messages with
  | [] => ret ()
  | m :: rest => let! _ := retry_message conn nowMs m in retry_all conn nowMs rest
  end.

Definition deliverPendingMessages (userId : string) : M () :=
  let! s := get_svc in
  match m_messageStore s with
  | None => ret ()
  | Some st =>
    let conn := find_conn userId s in
    let! up := online conn in
    if negb up then ret ()
    else
      let! last := on_store st (getLastAckedSeq userId) in
      let! s1 := get_svc in
      match m_messageStore s1 with
      | None => ret ()
      | Some st1 =>
        let! r := on_store st1 (loadPendingMessages userId last (m_retryBatchSize s1)) in
        let '(pendingMessages, _, errorMsg) := r in
        if negb (bool_decide (errorMsg = "")) then ret ()
        else
          let! nowMs := GetTimestampMs in
          retry_all conn nowMs pendingMessages
      end
  end.

(** One round of the retry thread. *)
Fixpoint filter_online (l : list (string * option ConnId)) : M (list string) :=
  match l with
  | [] => ret []
  | (u, conn) :: l =>
    let! up := online conn in
    let! us := filter_online l in
    ret (if (up : bool) then u :: us else us)
  end.

Fixpoint deliver_users (users : list string) : M () :=
  match users with
  | [] => ret ()
  | u :: us => let! _ := deliverPendingMessages u in deliver_users us
  end.

Definition retry_round : M () :=
  let! s := get_svc in
  let! users := filter_online (map_to_list (m_userToConn s)) in
  deliver_users users.

(** [for (const auto& pair : m_userToConn)] of [broadcastMessage]. *)
Fixpoint broadcast_to (l : list (string * option ConnId)) (msgId : Z) (notifyMsg : string) : M () :=
  match l with
  | [] => ret ()
  | (_, conn) :: l =>
    let! up := online conn in
    let! _ := (match conn, up with
               | Some c, true => pack_send c (broadcast_header msgId) notifyMsg
               | _, _ => ret ()
               end) in
    broadcast_to l msgId notifyMsg
  end.

Definition broadcastMessage (fromUserId content : string) : M () :=
  let! s := get_svc in
  let! now := GetTimestampMs in
  let! notifyMsg := encode_with (m_broadcastNotifyEncoder s) Serialize_BroadcastMsgNotify
                      (mkBroadcastMsgNotify fromUserId content now) in
  let! t := GetTimestampMs in
  broadcast_to (map_to_list (m_userToConn s)) (u64 t) notifyMsg.

End WithEnv.

(** [start] launches the retry thread unless it runs; [stop] ends it. *)
Definition with_running (b : bool) (s : MessageService) : MessageService :=
  mkService (m_messageStore s) (m_sessionRepository s) (m_userToConn s) b (m_retryIntervalMs s)
    (m_ackTimeoutMs s) (m_retryBackoffMs s) (m_maxRetryCount s) (m_retryBatchSize s)
    (m_p2pNotifyEncoder s) (m_broadcastNotifyEncoder s).

(** The result says whether a thread is launched, or joined. *)
Definition start (s : MessageService) : bool * MessageService :=
  (negb (m_retryRunning s), with_running true s).
Definition stop (s : MessageService) : bool * MessageService :=
  (m_retryRunning s, with_running false s).

(** ** Reasoning about handlers *)
Context `{!MessageStoreLaws St}.

Definition store_ok (w : World) : Prop :=
  match m_messageStore (svc w) with Some st => store_inv st | None => True end.

(** The stored messages. *)
Definition wview (w : World) : gmap Z StoredMessage :=
  match m_messageStore (svc w) with Some st => view st | None => ∅ end.

Definition is_notify_of (id : Z) (o : out) : bool :=
  match o with
  | Sent _ h _ => (command h =? CmdP2pMsgNotify) && (clientSeq h =? id)
  | _ => false
  end.

(** How many notify packets of message [id] were handed to a connection. *)
Fixpoint count (id : Z) (os : list out) : Z :=
  match os with
  | [] => 0
  | o :: os => (if is_notify_of id o then 1 else 0) + count id os
  end.

Lemma count_app id l l' : count id (l ++ l') = count id l + count id l'.
Proof. induction l as [|o l IH]; simpl; [done|]. rewrite IH. lia. Qed.

(** [m'] is [m] after [k] more delivery attempts within the limit. *)
Definition progressed (limit k : Z) (m m' : StoredMessage) : Prop :=
  notify m' = notify m /\ receiverId m' = receiverId m /\ 0 <= k
  /\ retryCount m' = retryCount m + k /\ (retryCount m <= limit -> retryCount m' <= limit).

(** What the retry code may do between two worlds: nothing but the store
    changes, every stored message is kept, and the retry counter of a message
    grows by the number of notify packets emitted for it. *)
Record retried (P : out -> Prop) (w w' : World) : Prop := {
  rt_svc : svc w' = with_store (m_messageStore (svc w')) (svc w);
  rt_some : is_Some (m_messageStore (svc w)) <-> is_Some (m_messageStore (svc w'));
  rt_ok : store_ok w';
  rt_view : forall id,
    option_Forall2 (progressed (m_maxRetryCount (svc w)) (count id (outs w') - count id (outs w)))
      (wview w !! id) (wview w' !! id);
  rt_final : forall id m, wview w !! id = Some m -> awaits m = false ->
    wview w' !! id = Some m /\ count id (outs w') = count id (outs w);
  rt_outs : exists os, outs w' = outs w ++ os /\ Forall P os;
}.

Lemma progressed_refl limit m : progressed limit 0 m m.
Proof. unfold progressed. splits; try done; lia. Qed.

Lemma with_store_same s : with_store (m_messageStore s) s = s.
Proof. by destruct s. Qed.

Lemma retried_quiet P w w' :
  store_ok w -> svc w' = svc w -> outs w' = outs w -> retried P w w'.
Proof.
  intros Hok Hs Ho. split.
  - rewrite Hs. by rewrite with_store_same.
  - by rewrite Hs.
  - unfold store_ok in *. by rewrite Hs.
  - intros id. unfold wview. rewrite Hs, Ho, Z.sub_diag.
    destruct (m_messageStore (svc w)) as [st|]; [|rewrite lookup_empty; constructor].
    destruct (view st !! id); constructor. apply progressed_refl.
  - intros id m Hm _. unfold wview in *. by rewrite Hs, Ho.
  - exists []. by rewrite app_nil_r.
Qed.

Lemma retried_trans P w1 w2 w3 : retried P w1 w2 -> retried P w2 w3 -> retried P w1 w3.
Proof.
  intros [S12 N12 _ V12 A12 (o1 & O1 & F1)] [S23 N23 K3 V23 A23 (o2 & O2 & F2)]. split.
  - rewrite S23 at 1. rewrite S12. by destruct (svc w1).
  - by rewrite N12.
  - done.
  - intros id. specialize (V12 id). specialize (V23 id).
    assert (Hmax : m_maxRetryCount (svc w2) = m_maxRetryCount (svc w1))
      by (rewrite S12; by destruct (svc w1)).
    rewrite Hmax in V23. inversion V12 as [m m2 P12|]; inversion V23 as [m2' m3 P23|];
      subst; try congruence; [|constructor].
    constructor. assert (m2' = m2) as -> by congruence.
    unfold progressed in *. destruct P12 as (? & ? & ? & ? & ?), P23 as (? & ? & ? & ? & ?).
    splits; try congruence; try lia.
  - intros id m Hm Ha. destruct (A12 id m Hm Ha) as [Hm2 Hc2].
    destruct (A23 id m Hm2 Ha) as [Hm3 Hc3]. split; [done|congruence].
  - exists (o1 ++ o2). split; [by rewrite O2, O1, app_assoc|by apply Forall_app].
Qed.

(** Replacing the store by one with the same view. *)
Lemma retried_same_view P w w' st st' :
  m_messageStore (svc w) = Some st -> svc w' = with_store (Some st') (svc w) ->
  store_inv st' -> view st' = view st -> outs w' = outs w -> retried P w w'.
Proof.
  intros Hst Hs Hi Hv Ho. split.
  - rewrite Hs. by destruct (svc w).
  - rewrite Hs, Hst. simpl. split; by eexists.
  - unfold store_ok. by rewrite Hs.
  - intros id. unfold wview. rewrite Hs, Hst, Ho, Z.sub_diag. simpl. rewrite Hv.
    destruct (view st !! id); constructor. apply progressed_refl.
  - intros id m. unfold wview. rewrite Hs, Hst, Ho. simpl. by rewrite Hv.
  - exists []. by rewrite app_nil_r.
Qed.

(** Updating one stored message, with the packets that go with it. *)
Lemma retried_update P w w' st st' id m m' k os :
  m_messageStore (svc w) = Some st -> svc w' = with_store (Some st') (svc w) ->
  store_inv st' -> view st !! id = Some m -> awaits m = true ->
  view st' = <[id := m']> (view st) ->
  outs w' = outs w ++ os -> Forall P os ->
  (forall i, count i os = if i =? id then k else 0) ->
  progressed (m_maxRetryCount (svc w)) k m m' -> retried P w w'.
Proof.
  intros Hst Hs Hi Hm Haw Hv Ho HP Hc Hpr. split.
  - rewrite Hs. by destruct (svc w).
  - rewrite Hs, Hst. simpl. split; by eexists.
  - unfold store_ok. by rewrite Hs.
  - intros i. unfold wview. rewrite Hs, Hst, Ho, count_app, Hc. simpl. rewrite Hv.
    destruct (decide (id = i)) as [<-|Hne].
    + rewrite lookup_insert_eq, Hm. constructor. rewrite Z.eqb_refl.
      by replace (count id (outs w) + k - count id (outs w)) with k by lia.
    + rewrite lookup_insert_ne by done. replace (i =? id) with false by (symmetry; b2p; lia).
      rewrite Z.add_0_r, Z.sub_diag.
      destruct (view st !! i); constructor. apply progressed_refl.
  - intros i n. unfold wview. rewrite Hs, Hst, Ho, count_app, Hc. simpl. rewrite Hv. intros Hn Ha.
    assert (i <> id) by (intros ->; congruence).
    rewrite lookup_insert_ne by done. replace (i =? id) with false by (symmetry; b2p; lia).
    split; [done|lia].
  - eauto.
Qed.

(** The body of the notify packet. *)
Definition encoded (s : MessageService) (n : P2PMsgNotify) : option string :=
  default Serialize_P2PMsgNotify (m_p2pNotifyEncoder s) n.

Definition delivery_outs (c : ConnId) (m : StoredMessage) (msg : string) (latency : Z) : list out :=
  [Sent c (notify_header m) (chars msg)]
  ++ (if 0 <? retryCount m then [Counter "im_message_retry_total"] else [])
  ++ [Observe "im_message_latency_ms" latency].

Section Runs.
Variable env : Env.

Lemma online_run conn w :
  exists b n, online env conn w = (Some b, mkWorld (svc w) n (outs w))
    /\ (b = true -> exists c, conn = Some c /\ connected_at env (tick w) c = true).
Proof.
  destruct conn as [c|]; simpl.
  - eexists _, _. split; [done|]. eauto.
  - exists false, (tick w). split; [by destruct w|done].
Qed.

(** Either nothing happens (offline, or an exception of the encoder), or the
    packet is handed over and the attempt recorded. *)
Lemma deliverLocked_cases conn m w r w' :
  deliverLocked env conn m w = (r, w') ->
  (svc w' = svc w /\ outs w' = outs w /\ r <> Some "")
  \/ exists c msg latency at_, conn = Some c /\ encoded (svc w) (notify m) = Some msg
     /\ outs w' = outs w ++ delivery_outs c m msg latency
     /\ match m_messageStore (svc w) with
        | None => svc w' = svc w /\ r = Some ""
        | Some st =>
          let '(e, st') := markDeliveryAttempt (receiverId m) (msgId m) DeliveryDelivering at_
                             (u32 (retryCount m + 1)) st in
          svc w' = with_store (Some st') (svc w) /\ r = Some (default "" e)
        end.
Proof.
  intros Hrun. unfold deliverLocked in Hrun. unfold bind at 1 in Hrun.
  destruct (online_run conn w) as (b & n & Hon & Hb). rewrite Hon in Hrun.
  destruct conn as [c|]; [|injection Hrun as <- <-; by left].
  destruct b; [|injection Hrun as <- <-; by left].
  unfold get_svc, bind at 1 in Hrun. simpl in Hrun. unfold bind at 1 in Hrun.
  assert (E : forall v, encode_with (m_p2pNotifyEncoder (svc w)) Serialize_P2PMsgNotify (notify m) v
                        = (encoded (svc w) (notify m), v)).
  { intros v. unfold encode_with, encoded. by destruct (default _ _ _). }
  rewrite E in Hrun.
  destruct (encoded (svc w) (notify m)) as [msg|]; [|injection Hrun as <- <-; by left].
  unfold pack_send, bind at 1 in Hrun.
  destruct (pack _ _ _) as [buf|e]; [|injection Hrun as <- <-; by left].
  right. exists c, msg. unfold emit, bind, GetTimestampMs, on_store, ret in Hrun. simpl in Hrun.
  unfold delivery_outs. destruct (0 <? retryCount m); simpl in Hrun;
    (destruct (m_messageStore (svc w)) as [st|];
     [destruct (markDeliveryAttempt _ _ _ _ _ _) as [e st'] eqn:Em; injection Hrun as <- <-;
      do 2 eexists; rewrite <- ?app_assoc; simpl; splits; try done; rewrite Em; by destruct e
     |injection Hrun as <- <-; eexists _, 0; rewrite <- ?app_assoc; simpl; splits; done]).
Qed.

Definition no_packet (o : out) : Prop := match o with Sent _ _ _ => False | _ => True end.

Lemma count_delivery c m msg latency i :
  count i (delivery_outs c m msg latency) = if i =? msgId m then 1 else 0.
Proof.
  unfold delivery_outs. rewrite Z.eqb_sym. destruct (0 <? retryCount m); simpl; case_if; done.
Qed.

(** [P] holds of whatever the retry of [m] may emit. *)
Definition allows (P : out -> Prop) (s : MessageService) (conn : option ConnId) (now : Z)
    (m : StoredMessage) : Prop :=
  (forall o, no_packet o -> P o)
  /\ (forall c msg, conn = Some c -> encoded s (notify m) = Some msg ->
        retryCount m < m_maxRetryCount s ->
        ShouldRetryMessage m now (m_ackTimeoutMs s) (m_retryBackoffMs s) = true ->
        P (Sent c (notify_header m) (chars msg))).

Lemma allows_delivery P s conn now m c msg latency :
  allows P s conn now m -> conn = Some c -> encoded s (notify m) = Some msg ->
  retryCount m < m_maxRetryCount s ->
  ShouldRetryMessage m now (m_ackTimeoutMs s) (m_retryBackoffMs s) = true ->
  Forall P (delivery_outs c m msg latency).
Proof.
  intros [Hq Hs] **. unfold delivery_outs. apply Forall_app. split; [by constructor; [eapply Hs|]|].
  apply Forall_app. split; [destruct (0 <? retryCount m); repeat constructor; by apply Hq|].
  repeat constructor. by apply Hq.
Qed.

(** Delivering an up-to-date copy of a stored message. *)
Lemma deliver_retried P conn now m w r w' st pre :
  m_messageStore (svc w) = Some st -> store_inv st -> view st !! msgId m = Some m ->
  awaits m = true -> 0 <= retryCount m < m_maxRetryCount (svc w) -> m_maxRetryCount (svc w) < 2 ^ 32 ->
  ShouldRetryMessage m now (m_ackTimeoutMs (svc w)) (m_retryBackoffMs (svc w)) = true ->
  allows P (svc w) conn now m -> Forall no_packet pre ->
  deliverLocked env conn m (mkWorld (svc w) (tick w) (outs w ++ pre)) = (r, w') ->
  retried P w w' /\ (forall id, id <> msgId m -> wview w' !! id = wview w !! id).
Proof.
  intros Hst Hi Hm Haw Hrc Hmax Hdue HP Hpre Hrun.
  assert (Hprec : forall i, count i pre = 0).
  { intros i. clear -Hpre. induction Hpre as [|[] l Ho _ IH]; simpl; [done|done| | |]; rewrite IH; done. }
  assert (HPpre : Forall P pre) by (eapply Forall_impl; [exact Hpre|apply HP]).
  apply deliverLocked_cases in Hrun as [(Hs & Ho & _)|(c & msg & lat & at_ & Hc & He & Ho & Hrun)];
    simpl in *.
  - split; [|intros; unfold wview; by rewrite Hs].
    split; rewrite ?Hs; try by rewrite with_store_same.
    + done.
    + unfold store_ok. by rewrite Hs, Hst.
    + intros i. unfold wview. rewrite Hs, Ho, Hst, count_app, Hprec, Z.add_0_r, Z.sub_diag.
      destruct (view st !! i); constructor. apply progressed_refl.
    + intros i n Hn _. unfold wview in *. rewrite Hs, Ho, count_app, Hprec. split; [done|lia].
    + eauto.
  - rewrite Hst in Hrun. pose proof (law_mark (receiverId m) (msgId m) DeliveryDelivering at_
      (u32 (retryCount m + 1)) st Hi) as L.
    destruct (markDeliveryAttempt _ _ _ _ _ _) as [e st'] eqn:Em. destruct Hrun as [Hs _].
    destruct L as [Hi' L]. destruct e as [e|]; [destruct L as [_ L]; by specialize (L _ Hm)|].
    destruct L as (m0 & Hm0 & _ & Hv). assert (m0 = m) as -> by congruence.
    split.
    + eapply (retried_update P w w' st st' (msgId m) m _ 1 (pre ++ delivery_outs c m msg lat)); try done.
      * by rewrite Ho, <- app_assoc.
      * apply Forall_app. split; [done|]. eapply allows_delivery; eauto; lia.
      * intros i. by rewrite count_app, Hprec, count_delivery.
      * unfold progressed. simpl. rewrite u32_small by lia. splits; try done; lia.
    + intros id Hne. unfold wview. rewrite Hs, Hst. simpl. rewrite Hv. by rewrite lookup_insert_ne.
Qed.

Lemma retry_message_retried P conn now m w r w' st :
  m_messageStore (svc w) = Some st -> store_inv st -> view st !! msgId m = Some m ->
  awaits m = true -> 0 <= retryCount m -> m_maxRetryCount (svc w) < 2 ^ 32 ->
  allows P (svc w) conn now m ->
  retry_message env conn now m w = (r, w') ->
  retried P w w' /\ (forall id, id <> msgId m -> wview w' !! id = wview w !! id).
Proof.
  intros Hst Hi Hm Haw Hrc Hmax HP Hrun. unfold retry_message in Hrun.
  unfold bind at 1, get_svc in Hrun. rewrite Hst in Hrun.
  destruct (m_maxRetryCount (svc w) <=? retryCount m) eqn:El; b2p.
  { unfold bind, on_store, ret in Hrun.
    pose proof (law_mark (receiverId m) (msgId m) DeliveryFailed (lastDeliverAt m)
      (retryCount m) st Hi) as L.
    destruct (markDeliveryAttempt _ _ _ _ _ _) as [e st'] eqn:Em. injection Hrun as <- <-.
    destruct L as [Hi' L]. destruct e as [e|]; [destruct L as [_ L]; by specialize (L _ Hm)|].
    destruct L as (m0 & Hm0 & _ & Hv). assert (m0 = m) as -> by congruence.
    split.
    - eapply (retried_update P w _ st st' (msgId m) m _ 0 []); simpl; try done.
      + by rewrite app_nil_r.
      + intros i. by case_if.
      + unfold progressed. simpl. splits; try done; lia.
    - intros id Hne. unfold wview. rewrite Hst. simpl. rewrite Hv. by rewrite lookup_insert_ne. }
  destruct (ShouldRetryMessage _ _ _ _) eqn:Hdue; simpl in Hrun.
  2:{ injection Hrun as <- <-. split; [|done]. apply retried_quiet; try done.
      unfold store_ok. by rewrite Hst. }
  assert (Hrun' : exists pre r', Forall no_packet pre
    /\ deliverLocked env conn m (mkWorld (svc w) (tick w) (outs w ++ pre)) = (r', w')).
  { unfold bind, emit, ret in Hrun. case_bool_decide; simpl in Hrun.
    - exists [Counter "im_message_ack_timeout_total"].
      destruct (deliverLocked _ _ _ _) as [[?|] w2] eqn:Ed; injection Hrun as <- <-;
        eexists; split; try done; by repeat constructor.
    - exists []. rewrite app_nil_r. replace (mkWorld (svc w) (tick w) (outs w)) with w by (by destruct w).
      destruct (deliverLocked _ _ _ _) as [[?|] w2] eqn:Ed; injection Hrun as <- <-;
        eexists; split; try done; by repeat constructor. }
  destruct Hrun' as (pre & r' & Hpre & Hd). eapply deliver_retried; eauto.
Qed.

(** The retry counters are unsigned values. *)
Definition counts_ok (w : World) : Prop := forall id m, wview w !! id = Some m -> 0 <= retryCount m.

Lemma retried_counts P w w' : retried P w w' -> counts_ok w -> counts_ok w'.
Proof.
  intros R Hc id m' Hm'. pose proof (rt_view _ _ _ R id) as V. rewrite Hm' in V.
  destruct (wview w !! id) as [m|] eqn:Hm; [|by inversion V].
  inversion V as [? ? (_ & _ & ? & Hk & _)|]; subst. rewrite Hk. apply Hc in Hm. lia.
Qed.

Lemma retried_store P w w' st :
  retried P w w' -> m_messageStore (svc w) = Some st ->
  exists st', m_messageStore (svc w') = Some st' /\ store_inv st'
    /\ svc w' = with_store (Some st') (svc w).
Proof.
  intros [Hs Hn Hok _ _ _] Hst. destruct Hn as [Hn _]. destruct Hn as [st' Hst']; [by eexists|].
  exists st'. unfold store_ok in Hok. rewrite Hst' in *. done.
Qed.

Lemma allows_with_store P s st conn now m :
  allows P s conn now m -> allows P (with_store st s) conn now m.
Proof. done. Qed.

Lemma retry_all_retried P conn now l w r w' st :
  m_messageStore (svc w) = Some st -> store_ok w -> counts_ok w ->
  m_maxRetryCount (svc w) < 2 ^ 32 ->
  NoDup (map (fun m => msgId m) l) ->
  Forall (fun m => wview w !! msgId m = Some m /\ awaits m = true) l ->
  Forall (allows P (svc w) conn now) l ->
  retry_all env conn now l w = (r, w') -> retried P w w'.
Proof.
  revert w st. induction l as [|m l IH]; intros w st Hst Hok Hc Hmax Hnd Hv Ha Hrun.
  { injection Hrun as <- <-. by apply retried_quiet. }
  simpl in Hrun. unfold bind in Hrun. inversion Hnd as [|? ? Hm Hnd']; subst.
  inversion Hv as [|? ? [Vm Haw] Hv']; inversion Ha as [|? ? Am Ha']; subst.
  destruct (retry_message env conn now m w) as [r1 w1] eqn:E1.
  assert (Vm' : view st !! msgId m = Some m) by (unfold wview in Vm; by rewrite Hst in Vm).
  assert (Hi : store_inv st) by (unfold store_ok in Hok; by rewrite Hst in Hok).
  destruct (retry_message_retried P conn now m w r1 w1 st) as [R1 F1]; eauto.
  destruct r1 as [[]|]; [|by injection Hrun as <- <-].
  destruct (retried_store P w w1 st R1 Hst) as (st1 & Hst1 & Hi1 & Hs1).
  eapply retried_trans; [exact R1|]. apply (IH w1 st1); auto.
  - apply R1.
  - by eapply retried_counts.
  - by rewrite Hs1.
  - rewrite Forall_forall in *. intros x Hx. rewrite F1; [by apply Hv'|].
    intros Heq. apply Hm. rewrite <- Heq. by apply (list_elem_of_fmap_2 (fun m => msgId m)).
  - rewrite Hs1. eapply Forall_impl; [exact Ha'|]. intros. by apply allows_with_store.
Qed.

(** What [deliverPendingMessages] may emit for user [u]: packets on the
    connection registered for [u], each for a stored message of [u] that waits,
    has attempts left and is due. *)
Definition due_packet (w : World) (u : string) (o : out) : Prop :=
  match o with
  | Sent c h data => exists m n msg, find_conn u (svc w) = Some c /\ h = notify_header m
      /\ data = chars msg /\ encoded (svc w) (notify m) = Some msg
      /\ wview w !! msgId m = Some m /\ receiverId m = u /\ awaits m = true
      /\ retryCount m < m_maxRetryCount (svc w)
      /\ ShouldRetryMessage m (now_at env n) (m_ackTimeoutMs (svc w)) (m_retryBackoffMs (svc w)) = true
  | _ => True
  end.

Lemma deliverPending_retried P u w r w' :
  store_ok w -> counts_ok w -> m_maxRetryCount (svc w) < 2 ^ 32 ->
  (forall o, due_packet w u o -> P o) ->
  deliverPendingMessages env u w = (r, w') -> retried P w w'.
Proof.
  intros Hok Hc Hmax HP Hrun. unfold deliverPendingMessages in Hrun.
  unfold bind at 1, get_svc at 1 in Hrun.
  destruct (m_messageStore (svc w)) as [st|] eqn:Hst.
  2:{ injection Hrun as <- <-. by apply retried_quiet. }
  assert (Hi : store_inv st) by (unfold store_ok in Hok; by rewrite Hst in Hok).
  unfold bind at 1 in Hrun. destruct (online_run (find_conn u (svc w)) w) as (b & n & Hon & Hb).
  rewrite Hon in Hrun. destruct b; simpl in Hrun.
  2:{ injection Hrun as <- <-. by apply retried_quiet. }
  unfold bind, on_store, get_svc, GetTimestampMs in Hrun. simpl in Hrun.
  pose proof (law_last u st Hi) as L. destruct (getLastAckedSeq u st) as [last st1] eqn:El.
  destruct L as [Hi1 Hv1]. simpl in Hrun.
  pose proof (law_load u last (m_retryBatchSize (svc w)) st1 Hi1) as L.
  destruct (loadPendingMessages u last (m_retryBatchSize (svc w)) st1) as [[[l nx] e] st2] eqn:Eld.
  destruct L as (Hi2 & Hv2 & HL).
  set (w2 := mkWorld (with_store (Some st2) (svc w)) (S n) (outs w)).
  assert (R2 : retried P w w2).
  { eapply (retried_same_view P w w2 st st2); try done. congruence. }
  case_bool_decide as He; simpl in Hrun.
  2:{ injection Hrun as <- <-. eapply (retried_same_view P w _ st st2); try done. congruence. }
  destruct (HL He) as [Hnd Hl]. change (mkWorld _ _ _) with w2 in Hrun.
  assert (Hw2 : wview w2 = wview w) by (unfold wview, w2; simpl; rewrite Hst; congruence).
  assert (Hw1 : view st1 = wview w) by (unfold wview; rewrite Hst; done).
  eapply retried_trans; [exact R2|].
  eapply (retry_all_retried P (find_conn u (svc w)) (now_at env n) l w2 r w' st2); try done.
  - by eapply retried_counts.
  - rewrite Hw2, <- Hw1. eapply Forall_impl; [exact Hl|]. intros m (? & _ & _ & ?). done.
  - rewrite Forall_forall in *. intros m Hm. destruct (Hl m Hm) as (Vm & Hr & _ & Haw).
    apply allows_with_store. split.
    + intros o Ho. apply HP. by destruct o.
    + intros c msg Hcn Hen Hlt Hdue. apply HP. exists m, n, msg. rewrite <- Hw1. done.
Qed.

Definition any_out (o : out) : Prop := True.

Lemma filter_online_quiet l w r w' :
  filter_online env l w = (r, w') -> svc w' = svc w /\ outs w' = outs w.
Proof.
  revert w r w'. induction l as [|[u conn] l IH]; intros w r w' Hrun.
  { by injection Hrun as <- <-. }
  simpl in Hrun. unfold bind at 1 in Hrun.
  destruct (online_run conn w) as (b & n & Hon & _). rewrite Hon in Hrun.
  unfold bind in Hrun. destruct (filter_online env l _) as [r2 w2] eqn:E.
  apply IH in E as [Hs Ho]. destruct r2; injection Hrun as <- <-; done.
Qed.

Definition ready (w : World) : Prop :=
  store_ok w /\ counts_ok w /\ m_maxRetryCount (svc w) < 2 ^ 32.

Lemma retried_ready P w w' : ready w -> retried P w w' -> ready w'.
Proof.
  intros (Hok & Hc & Hm) R. unfold ready. splits; [apply R|by eapply retried_counts|].
  by rewrite (rt_svc _ _ _ R).
Qed.

Lemma deliver_users_retried us w r w' :
  ready w -> deliver_users env us w = (r, w') -> retried any_out w w'.
Proof.
  revert w r. induction us as [|u us IH]; intros w r Hr Hrun.
  { injection Hrun as <- <-. apply retried_quiet; try done. apply Hr. }
  simpl in Hrun. unfold bind in Hrun.
  destruct (deliverPendingMessages env u w) as [r1 w1] eqn:E1.
  assert (R1 : retried any_out w w1).
  { destruct Hr as (? & ? & ?). eapply deliverPending_retried; eauto. done. }
  destruct r1 as [[]|]; [|by injection Hrun as <- <-].
  eapply retried_trans; [exact R1|]. eapply IH; [|done]. by eapply retried_ready.
Qed.

Lemma retry_round_retried w : ready w -> retried any_out w (retry_round env w).2.
Proof.
  intros Hr. unfold retry_round, bind, get_svc.
  destruct (filter_online env _ w) as [r1 w1] eqn:E1.
  destruct (filter_online_quiet _ _ _ _ E1) as [Hs Ho].
  assert (R1 : retried any_out w w1) by (apply retried_quiet; [apply Hr|done|done]).
  destruct r1 as [us|]; [|done]. eapply retried_trans; [exact R1|].
  eapply deliver_users_retried; [by eapply retried_ready|]. apply surjective_pairing.
Qed.

Definition retry_rounds (n : nat) (w : World) : World :=
  Nat.iter n (fun w => (retry_round env w).2) w.

Lemma retry_rounds_retried n w : ready w -> retried any_out w (retry_rounds n w).
Proof.
  intros Hr. induction n as [|n IH]; [apply retried_quiet; try done; apply Hr|].
  eapply retried_trans; [exact IH|]. apply retry_round_retried. by eapply retried_ready.
Qed.

(** C5: Bounded retries: over any number of rounds of the retry thread, with
    any behaviour of clock and connections, a stored message gets as many new
    notify packets as its retry counter grows, and never more than the
    configured maximum leaves; it keeps its identity throughout. *)
Theorem retry_attempts_bounded n w id m :
  ready w -> wview w !! id = Some m -> retryCount m <= m_maxRetryCount (svc w) ->
  exists m', wview (retry_rounds n w) !! id = Some m' /\ notify m' = notify m
    /\ retryCount m' = retryCount m + (count id (outs (retry_rounds n w)) - count id (outs w))
    /\ count id (outs w) <= count id (outs (retry_rounds n w))
         <= count id (outs w) + (m_maxRetryCount (svc w) - retryCount m).
Proof.
  intros Hr Hm Hle. pose proof (rt_view _ _ _ (retry_rounds_retried n w Hr) id) as V.
  rewrite Hm in V. inversion V as [? m' (Hn & _ & Hk & Hc & Hlim) Hm0 Hm'|]; subst.
  exists m'. specialize (Hlim Hle). splits; try done; lia.
Qed.

(** Retries are justified: everything [deliverPendingMessages] sends goes
    to the connection registered for the user and is a stored message of that
    user that is not acknowledged, has attempts left, and was never delivered
    or whose acknowledgement timeout plus backoff has passed. *)
Lemma retry_only_due u w :
  ready w ->
  exists os, outs (deliverPendingMessages env u w).2 = outs w ++ os /\ Forall (due_packet w u) os.
Proof.
  intros (Hok & Hc & Hm). destruct (deliverPendingMessages env u w) as [r w'] eqn:E.
  eapply deliverPending_retried in E; eauto. apply E.
Qed.


(** C29: Store first: when the store accepts a new message, it is there
    afterwards with its content whatever happens to the delivery, still marked
    persisted with nothing sent, or marked delivering after exactly one packet
    went to the receiver's connection; the caller is told its numbers. *)
Theorem send_persists_first from to cid content o1 o2 w st m st1 r w' :
  m_messageStore (svc w) = Some st -> store_inv st -> store_room st ->
  saveMessageAndDelivery (mkCreateMessageRequest from to cid content (now_at env (tick w))) st
    = (inr (m, false), st1) ->
  sendReliableP2PMessage env from to cid content o1 o2 w = (r, w') ->
  exists m', wview w' !! msgId m = Some m' /\ notify m' = notify m /\ receiverId m' = to
    /\ n_content (notify m') = content /\ n_fromUserId (notify m') = from
    /\ (status m' = DeliveryPersisted /\ outs w' = outs w
        \/ status m' = DeliveryDelivering /\ retryCount m' = 1
            /\ exists c msg latency, find_conn to (svc w) = Some c
                 /\ encoded (svc w) (notify m) = Some msg
                 /\ outs w' = outs w ++ delivery_outs c m msg latency)
    /\ (forall ok id seq txt, r = Some (ok, id, seq, txt) -> id = msgId m /\ seq = seqOf m).
Proof.
  intros Hst Hi Hroom Hsave Hrun. unfold sendReliableP2PMessage in Hrun.
  unfold bind at 1, get_svc in Hrun. rewrite Hst in Hrun.
  unfold bind at 1, GetTimestampMs in Hrun. unfold bind at 1, on_store in Hrun.
  pose proof (law_save (mkCreateMessageRequest from to cid content (now_at env (tick w))) st Hi Hroom) as L.
  rewrite Hsave in Hrun, L. simpl in Hrun, L.
  destruct L as (Hi1 & Hnew & Hv1 & Hto & Hfrom & Hcont & Hrc & Hpers).
  set (w1 := mkWorld (with_store (Some st1) (svc w)) (S (tick w)) (outs w)) in Hrun.
  assert (Hm1 : view st1 !! msgId m = Some m) by (rewrite Hv1; by rewrite lookup_insert_eq).
  destruct (online_run (find_conn to (svc w)) w1) as (b & n & Hon & Hb).
  unfold bind at 1 in Hrun. rewrite Hon in Hrun. destruct b.
  2:{ injection Hrun as <- <-. exists m. splits; try done; [by left|]. by intros ? ? ? ? [= <- <- <- <-]. }
  unfold bind in Hrun.
  destruct (deliverLocked env (find_conn to (svc w)) m _) as [rd wd] eqn:Ed.
  assert (Hw' : svc w' = svc wd /\ outs w' = outs wd
    /\ forall ok id seq txt, r = Some (ok, id, seq, txt) -> id = msgId m /\ seq = seqOf m).
  { destruct rd as [e|]; [case_bool_decide|]; injection Hrun as <- <-; splits; try done;
      by intros ? ? ? ? [= <- <- <- <-]. }
  destruct Hw' as (Hsw & How & Hres).
  apply deliverLocked_cases in Ed as [(Hs & Ho & _)|(c & msg & lat & at_ & Hc & He & Ho & Ed)]; simpl in *.
  - exists m. unfold wview. rewrite Hsw, Hs. splits; try done. left. split; [done|congruence].
  - pose proof (law_mark (receiverId m) (msgId m) DeliveryDelivering at_ (u32 (retryCount m + 1)) st1 Hi1) as L.
    destruct (markDeliveryAttempt _ _ _ _ _ _) as [e st2]. destruct Ed as [Hs _].
    destruct L as [_ L]. destruct e as [e|]; [destruct L as [_ L]; by specialize (L _ Hm1)|].
    destruct L as (m0 & Hm0 & _ & Hv2). assert (m0 = m) as -> by congruence.
    eexists. unfold wview. rewrite Hsw, Hs. simpl. rewrite Hv2, lookup_insert_eq.
    splits; try done. right. rewrite Hrc. splits; try done. exists c, msg, lat.
    splits; try done. congruence.
Qed.

Lemma broadcast_to_run up l id msg b w :
  (forall n c, connected_at env n c = up c) ->
  pack (broadcast_header id) (chars msg) newBuffer = Ok b ->
  exists n, broadcast_to env l id msg w
    = (Some (), mkWorld (svc w) n
         (outs w ++ map (fun c => Sent c (broadcast_header id) (chars msg))
                      (filter (fun c => up c = true) (omap snd l)))).
Proof.
  intros Hup Hp. revert w. induction l as [|[u conn] l IH]; intros w.
  { exists (tick w). cbn [broadcast_to omap list_omap]. rewrite filter_nil. simpl.
    rewrite app_nil_r. by destruct w. }
  destruct conn as [c|]; simpl.
  - unfold bind at 1, connected. rewrite Hup, filter_cons. unfold bind.
    destruct (up c) eqn:Ec.
    + unfold pack_send. rewrite Hp. unfold emit at 1. simpl.
      destruct (IH (mkWorld (svc w) (S (tick w))
        (outs w ++ [Sent c (broadcast_header id) (chars msg)]))) as [n ->].
      exists n. simpl. by rewrite <- app_assoc.
    + simpl. destruct (IH (mkWorld (svc w) (S (tick w)) (outs w))) as [n ->]. by exists n.
  - unfold bind, ret. simpl. destruct (IH w) as [n ->]. exists n. done.
Qed.

(** A broadcast reaches exactly the connected ones of the registered
    connections, one packet each, and changes nothing else of the service. *)
Lemma broadcast_reaches_all_online up from content w msg b :
  (forall n c, connected_at env n c = up c) ->
  let id := u64 (now_at env (S (tick w))) in
  let n := mkBroadcastMsgNotify from content (now_at env (tick w)) in
  default Serialize_BroadcastMsgNotify (m_broadcastNotifyEncoder (svc w)) n = Some msg ->
  pack (broadcast_header id) (chars msg) newBuffer = Ok b ->
  exists conns w', broadcastMessage env from content w = (Some (), w')
    /\ svc w' = svc w
    /\ outs w' = outs w ++ map (fun c => Sent c (broadcast_header id) (chars msg)) conns
    /\ (forall c, c ∈ conns <-> up c = true /\ exists u, m_userToConn (svc w) !! u = Some (Some c))
    /\ (length conns <= base.size (m_userToConn (svc w)))%nat.
Proof.
  intros Hup id nt Henc Hp. unfold broadcastMessage, bind, get_svc, GetTimestampMs.
  cbn [svc tick outs]. fold nt.
  assert (E : forall v, encode_with (m_broadcastNotifyEncoder (svc w)) Serialize_BroadcastMsgNotify nt v
                        = (Some msg, v)).
  { intros v. unfold encode_with. by rewrite Henc. }
  rewrite E. cbn [svc tick outs]. fold id.
  destruct (broadcast_to_run up (map_to_list (m_userToConn (svc w))) id msg b
    (mkWorld (svc w) (S (S (tick w))) (outs w)) Hup Hp) as [n Hrun].
  eexists _, _. splits; [exact Hrun|done|reflexivity| |].
  - intros c. rewrite list_elem_of_filter, list_elem_of_omap. split.
    + intros [Hc ([u o] & Hin & Ho)]. split; [done|]. exists u. simpl in Ho. subst o.
      by apply elem_of_map_to_list.
    + intros [Hc [u Hu]]. split; [done|]. exists (u, Some c). split; [|done].
      by apply elem_of_map_to_list.
  - etrans; [apply length_filter|]. etrans; [apply length_omap|].
    by rewrite length_map_to_list.
Qed.

End Runs.
End Service.

(** ** Concrete runs with the in-memory store *)
#[local] Existing Instance toy_json.

Notation MemWorld := (World (St := InMemoryMessageStore)).

(** Time passes quickly; every connection is up. *)
Definition ex_env : Env := mkEnv (fun n => 1000000 * Z.of_nat (S n)) (fun _ _ => true).

Definition ex_world (conns : gmap string (option ConnId)) : MemWorld :=
  mkWorld (mkService (Some newMem) false conns true 5000 15000 3000 2 200
             (Some (Some ∘ n_content)) (Some (Some ∘ bn_content))) 0 [].

Definition then_send (from to cid content : string) (w : MemWorld) : MemWorld :=
  (sendReliableP2PMessage ex_env from to cid content 0 0 w).2.
Definition then_ack (u : string) (id seq : Z) (w : MemWorld) : MemWorld :=
  (processAck ex_env u id seq AckReceived w).2.
Definition then_deliver (u : string) (w : MemWorld) : MemWorld :=
  (deliverPendingMessages ex_env u w).2.

Definition packets (w : MemWorld) : list (ConnId * string) :=
  omap (fun o => match o with Sent c _ d => Some (c, str d) | _ => None end) (outs w).
Definition status_of (id : Z) (w : MemWorld) : option DeliveryStatus :=
  status <$> (st ← m_messageStore (svc w); m_messages st !! id).

(** A client can read a foreign message: the user "a#b" asks to send to
    itself under the client identifier "c" and is answered with the message
    that "a" sent to "x" under "b#c", delivered to its own connection. *)
Lemma dedup_collision_leaks_message :
  packets (then_send "a#b" "a#b" "c" "mine"
    (then_send "a" "x" "b#c" "secret" (ex_world {["a#b" := Some 2%nat]})))
  = [(2%nat, "secret")].
Proof. by vm_compute. Qed.

(** Sending an acknowledged message again reopens it: the packet is
    delivered a second time and the stored status goes back from delivered to
    delivering. *)
Lemma resend_reopens_acked_message :
  let w1 := then_ack "b" 1 1 (then_send "a" "b" "k" "hi" (ex_world {["b" := Some 1%nat]})) in
  let w2 := then_send "a" "b" "k" "hi" w1 in
  status_of 1 w1 = Some DeliveryDelivered /\ packets w1 = [(1%nat, "hi")]
  /\ status_of 1 w2 = Some DeliveryDelivering /\ packets w2 = [(1%nat, "hi"); (1%nat, "hi")].
Proof. by vm_compute. Qed.

(** An acknowledgement out of order strands the message before it: once
    number 2 is acknowledged, the retry thread never sends number 1 again,
    although it waits and its timeout passed, while without that
    acknowledgement it does. *)
Lemma out_of_order_ack_strands_message :
  let w := then_send "a" "b" "2" "two" (then_send "a" "b" "1" "one" (ex_world {["b" := Some 1%nat]})) in
  status_of 1 (then_ack "b" 2 2 w) = Some DeliveryDelivering
  /\ packets (then_deliver "b" (then_ack "b" 2 2 w)) = packets w
  /\ packets (then_deliver "b" w) = packets w ++ [(1%nat, "one"); (1%nat, "two")].
Proof. by vm_compute. Qed.

(** *** Witnesses *)
Definition ex_sent : MemWorld := then_send "a" "b" "1" "one" (ex_world {["b" := Some 1%nat]}).
Definition ex_store : InMemoryMessageStore :=
  mem_run [OpSave (mkCreateMessageRequest "a" "b" "1" "one" 1000000);
           OpMark "b" 1 DeliveryDelivering 5000000 1] newMem.

Lemma ex_sent_ready : ready ex_sent.
Proof.
  assert (E : m_messageStore (svc ex_sent) = Some ex_store) by (by vm_compute).
  unfold ready, store_ok, counts_ok, wview. rewrite E. splits.
  - apply (run_ind (fun _ => True) (fun _ => True)); auto using newMem_inv; by vm_compute.
  - intros id m. change (view ex_store) with (m_messages ex_store).
    assert (Em : m_messages ex_store = {[1 := default fourth (m_messages ex_store !! 1)]})
      by (by vm_compute).
    rewrite Em. intros [<- <-]%lookup_singleton_Some. vm_compute. done.
  - by vm_compute.
Qed.

Lemma retry_attempts_bounded_witness :
  exists m', wview (retry_rounds ex_env 7 ex_sent) !! 1 = Some m' /\ count 1 (outs ex_sent) = 1
    /\ count 1 (outs (retry_rounds ex_env 7 ex_sent)) <= 2.
Proof.
  destruct (retry_attempts_bounded ex_env 7 ex_sent 1
    (default fourth (m_messages ex_store !! 1)) ex_sent_ready) as (m' & Hm & _ & _ & Hc).
  - by vm_compute.
  - by vm_compute.
  - exists m'. split; [exact Hm|]. split; [by vm_compute|].
    assert (E : count 1 (outs ex_sent) + (m_maxRetryCount (svc ex_sent)
       - retryCount (default fourth (m_messages ex_store !! 1))) = 2) by (by vm_compute).
    lia.
Defined.

Lemma retry_only_due_witness :
  exists os, outs (deliverPendingMessages ex_env "b" ex_sent).2 = outs ex_sent ++ os
    /\ Forall (due_packet ex_env ex_sent "b") os.
Proof. exact (retry_only_due ex_env "b" ex_sent ex_sent_ready). Defined.


Lemma send_persists_first_witness :
  exists m', wview ex_sent !! 1 = Some m' /\ n_content (notify m') = "one".
Proof.
  destruct (send_persists_first ex_env "a" "b" "1" "one" 0 0 (ex_world {["b" := Some 1%nat]}) newMem
    (fresh_message (mkCreateMessageRequest "a" "b" "1" "one" 1000000) newMem)
    (mem_step newMem (OpSave (mkCreateMessageRequest "a" "b" "1" "one" 1000000)))
    (Some (true, 1, 1, "persisted and delivered")) ex_sent)
    as (m' & Hm & _ & _ & Hc & _).
  - reflexivity.
  - apply newMem_inv.
  - by vm_compute.
  - by vm_compute.
  - by vm_compute.
  - exact (ex_intro _ m' (conj Hm Hc)).
Defined.

Lemma broadcast_reaches_all_online_witness :
  exists (conns : list ConnId) w', broadcastMessage ex_env "a" "hello" (ex_world {["b" := Some 1%nat; "c" := Some 2%nat]})
      = (Some (), w') /\ (forall c, c ∈ conns <-> true = true /\ exists u,
          ({["b" := Some 1%nat; "c" := Some 2%nat]} : gmap string (option ConnId)) !! u = Some (Some c)).
Proof.
  assert (P : exists b, pack (broadcast_header (u64 2000000)) (chars "hello") newBuffer = Ok b)
    by (eexists; vm_compute; reflexivity).
  destruct P as [b Hb].
  destruct (broadcast_reaches_all_online ex_env (fun _ => true) "a" "hello"
    (ex_world {["b" := Some 1%nat; "c" := Some 2%nat]}) "hello" b) as (conns & w' & Hr & _ & _ & Hc & _).
  - reflexivity.
  - reflexivity.
  - exact Hb.
  - exact (ex_intro _ conns (ex_intro _ w' (conj Hr Hc))).
Defined.

End message.
