(* ===== verification/Infra.v ===== *)
(** * infra: rate limiter, circuit breaker, metrics and trace context
      (src/infra/rateLimiter, circuitBreaker, metricsRegistry, traceContext)

    [double] is the class [Double]: its instance [binary64] is the arithmetic
    the program runs with (IEEE binary64, rounding to nearest), [exact] computes
    the same expressions on rationals.  A call of [util::GetTimestampMs()] is
    the argument [now] of the operation that makes it. *)
From Stdlib Require Import Floats.SpecFloat QArith.
From Stdlib Require Import Lqa.
From stdpp Require Import pretty.
From S2P Require Import Prelude.
#[local] Open Scope Z_scope.

Module infra.

(** ** double *)
Class Double := {
  dbl : Type;
  dadd : dbl -> dbl -> dbl;
  dsub : dbl -> dbl -> dbl;
  dmul : dbl -> dbl -> dbl;
  ddiv : dbl -> dbl -> dbl;
  dlt : dbl -> dbl -> bool;
  dle : dbl -> dbl -> bool;
  dint : Z -> dbl;
}.

#[export] Instance binary64 : Double := {
  dbl := spec_float;
  dadd := SFadd 53 1024;
  dsub := SFsub 53 1024;
  dmul := SFmul 53 1024;
  ddiv := SFdiv 53 1024;
  dlt := SFltb;
  dle := SFleb;
  dint z := binary_normalize 53 1024 z 0 false;
}.

Definition exact : Double := {|
  dbl := Q;
  dadd := Qplus;
  dsub := Qminus;
  dmul := Qmult;
  ddiv := Qdiv;
  dlt x y := negb (Qle_bool y x);
  dle := Qle_bool;
  dint := inject_Z;
|}.

(** [std::max(a, b)] and [std::min(a, b)]. *)
Definition dmax `{Double} (a b : dbl) : dbl := if dlt a b then b else a.
Definition dmin `{Double} (a b : dbl) : dbl := if dlt b a then b else a.

(** ** TokenBucketRateLimiter *)
Section RateLimiter.
Context `{Double}.

Record TokenBucketRateLimiter := mkLimiter {
  m_rate : dbl;
  m_burst : dbl;
  m_tokens : dbl;
  m_lastRefillMs : dbl;
}.

Definition newLimiter (rate burst : dbl) (now : Z) : TokenBucketRateLimiter :=
  mkLimiter rate (dmax (dint 1) burst) (dmax (dint 1) burst) (dint now).

Definition refill (now : Z) (l : TokenBucketRateLimiter) : TokenBucketRateLimiter :=
  let nowMs := dint now in
  let deltaMs := dsub nowMs (m_lastRefillMs l) in
  if dle deltaMs (dint 0) || dle (m_rate l) (dint 0)
  then mkLimiter (m_rate l) (m_burst l) (m_tokens l) nowMs
  else
    let refillTokens := dmul deltaMs (ddiv (m_rate l) (dint 1000)) in
    mkLimiter (m_rate l) (m_burst l) (dmin (m_burst l) (dadd (m_tokens l) refillTokens)) nowMs.

Definition allow (tokens : dbl) (now : Z) (l : TokenBucketRateLimiter)
    : bool * TokenBucketRateLimiter :=
  let l := refill now l in
  if dlt (m_tokens l) tokens then (false, l)
  else (true, mkLimiter (m_rate l) (m_burst l) (dsub (m_tokens l) tokens) (m_lastRefillMs l)).

Definition reset (rate burst : dbl) (now : Z) (l : TokenBucketRateLimiter) : TokenBucketRateLimiter :=
  mkLimiter rate (dmax (dint 1) burst) (dmax (dint 1) burst) (dint now).

(** Calls of [allow(1.0)] at the given times; the number granted. *)
Fixpoint grants (times : list Z) (l : TokenBucketRateLimiter) : Z * TokenBucketRateLimiter :=
  match times with
  | [] => (0, l)
  | t :: ts =>
    let '(ok, l) := allow (dint 1) t l in
    let '(n, l) := grants ts l in
    ((if ok then 1 else 0) + n, l)
  end.

End RateLimiter.

(** ** CircuitBreaker *)
Inductive State := Closed | Open | HalfOpen.

#[export] Instance State_eq_dec : EqDecision State.
Proof. solve_decision. Defined.

Record CircuitBreaker := mkBreaker {
  m_enabled : bool;
  m_failureThreshold : Z;
  m_halfOpenAfterMs : Z;
  m_state : State;
  m_consecutiveFailures : Z;
  m_openedAtMs : Z;
}.

Definition newBreaker (enabled : bool) (threshold halfOpenAfterMs : Z) : CircuitBreaker :=
  mkBreaker enabled threshold halfOpenAfterMs Closed 0 0.

Definition with_state (st : State) (b : CircuitBreaker) : CircuitBreaker :=
  mkBreaker (m_enabled b) (m_failureThreshold b) (m_halfOpenAfterMs b) st
    (m_consecutiveFailures b) (m_openedAtMs b).

Definition allowRequest (now : Z) (b : CircuitBreaker) : bool * CircuitBreaker :=
  if negb (m_enabled b) then (true, b)
  else if bool_decide (m_state b = Closed) then (true, b)
  else if bool_decide (m_state b = Open) && (m_halfOpenAfterMs b <=? now - m_openedAtMs b)
  then (true, with_state HalfOpen b)
  else (bool_decide (m_state b = HalfOpen), b).

Definition recordSuccess (b : CircuitBreaker) : CircuitBreaker :=
  mkBreaker (m_enabled b) (m_failureThreshold b) (m_halfOpenAfterMs b) Closed 0 0.

Definition recordFailure (now : Z) (b : CircuitBreaker) : CircuitBreaker :=
  if negb (m_enabled b) then b
  else
    let n := u32 (m_consecutiveFailures b + 1) in
    if m_failureThreshold b <=? n
    then mkBreaker (m_enabled b) (m_failureThreshold b) (m_halfOpenAfterMs b) Open n now
    else mkBreaker (m_enabled b) (m_failureThreshold b) (m_halfOpenAfterMs b) (m_state b) n
           (m_openedAtMs b).

Definition configure (enabled : bool) (threshold halfOpenAfterMs : Z) (b : CircuitBreaker)
    : CircuitBreaker := mkBreaker enabled threshold halfOpenAfterMs Closed 0 0.

Definition isOpen (b : CircuitBreaker) : bool := bool_decide (m_state b = Open).

(** ** MetricsRegistry *)
Section Metrics.
Context `{Double}.

Record CounterMetric := mkCounter { c_value : dbl; c_help : string }.
Record GaugeMetric := mkGauge { g_value : dbl; g_help : string }.
Record HistogramMetric := mkHistogram {
  bounds : list dbl;
  bucketCounts : list Z;
  sum : dbl;
  h_count : Z;
  h_help : string;
}.

Record MetricsRegistry := mkRegistry {
  r_enabled : bool;
  m_counters : gmap string CounterMetric;
  m_gauges : gmap string GaugeMetric;
  m_histograms : gmap string HistogramMetric;
}.

Definition DefaultHistogramBounds : list dbl :=
  map dint [1; 5; 10; 50; 100; 250; 500; 1000; 5000].

Definition valid_char (ch : ascii) : bool :=
  let c := byte_val ch in
  ((97 <=? c) && (c <=? 122)) || ((65 <=? c) && (c <=? 90)) || ((48 <=? c) && (c <=? 57))
  || (c =? 95) || (c =? 58).

Definition sanitizeName (name : string) : string :=
  let sanitized := str (map (fun ch => if valid_char ch then ch else "_"%char) (chars name)) in
  if bool_decide (sanitized = "") then "unnamed_metric" else sanitized.

Definition newline : ascii := "010"%char.

Definition sanitizeHelp (help : string) : string :=
  if bool_decide (help = "") then "no_help"
  else str (map (fun ch => if bool_decide (ch = newline) then " "%char else ch) (chars help)).

(** [if (!help.empty()) metric.help = help;] *)
Definition new_help (help old : string) : string := if bool_decide (help = "") then old else help.

Definition setEnabled (enabled : bool) (r : MetricsRegistry) : MetricsRegistry :=
  mkRegistry enabled (m_counters r) (m_gauges r) (m_histograms r).

Definition incCounter (name : string) (delta : dbl) (help : string) (r : MetricsRegistry)
    : MetricsRegistry :=
  if negb (r_enabled r) then r
  else
    let key := sanitizeName name in
    let metric := default (mkCounter (dint 0) "") (m_counters r !! key) in
    mkRegistry (r_enabled r)
      (<[key := mkCounter (dadd (c_value metric) delta) (new_help help (c_help metric))]> (m_counters r))
      (m_gauges r) (m_histograms r).

Definition setGauge (name : string) (value : dbl) (help : string) (r : MetricsRegistry)
    : MetricsRegistry :=
  if negb (r_enabled r) then r
  else
    let key := sanitizeName name in
    let metric := default (mkGauge (dint 0) "") (m_gauges r !! key) in
    mkRegistry (r_enabled r) (m_counters r)
      (<[key := mkGauge value (new_help help (g_help metric))]> (m_gauges r)) (m_histograms r).

(** The loop that looks for the bucket; [bounds.size()] when none fits. *)
Fixpoint bucket_index (value : dbl) (bs : list dbl) : nat :=
  match bs with
  | [] => 0
  | b :: bs => if dle value b then 0 else S (bucket_index value bs)
  end.

(** [++metric.bucketCounts\[i\]] *)
Definition bump (i : nat) (counts : list Z) : list Z := alter (fun c => u64 (c + 1)) i counts.

Definition observe (name : string) (value : dbl) (help : string) (r : MetricsRegistry)
    : MetricsRegistry :=
  if negb (r_enabled r) then r
  else
    let key := sanitizeName name in
    let metric := default (mkHistogram [] [] (dint 0) 0 "") (m_histograms r !! key) in
    let '(bs, counts) :=
      match bounds metric with
      | [] => (DefaultHistogramBounds, replicate (S (length DefaultHistogramBounds)) 0)
      | _ => (bounds metric, bucketCounts metric)
      end in
    mkRegistry (r_enabled r) (m_counters r) (m_gauges r)
      (<[key := mkHistogram bs (bump (bucket_index value bs) counts) (dadd (sum metric) value)
                  (u64 (h_count metric + 1)) (new_help help (h_help metric))]> (m_histograms r)).

(** The cumulative counts [renderPrometheus] prints for the buckets of one
    histogram, the one of "+Inf" last. *)
Fixpoint cumulative_counts (acc : Z) (counts : list Z) : list Z :=
  match counts with
  | [] => []
  | c :: counts => u64 (acc + c) :: cumulative_counts (u64 (acc + c)) counts
  end.

End Metrics.

(** ** TraceContext *)
Record TraceContext := mkTrace {
  traceId : string;
  t_requestId : Z;
  t_sessionId : string;
  t_userId : string;
  t_nodeId : string;
  t_messageId : Z;
  t_serverSeq : Z;
}.

Definition emptyTrace : TraceContext := mkTrace "" 0 "" "" "" 0 0.

(** The two thread-local variables. *)
Record TraceState := mkTraceState {
  g_currentTraceContext : TraceContext;
  g_hasCurrentTraceContext : bool;
}.

Definition SetCurrentTraceContext (context : TraceContext) (s : TraceState) : TraceState :=
  mkTraceState context true.
Definition ClearCurrentTraceContext (s : TraceState) : TraceState := mkTraceState emptyTrace false.

Record ScopedTraceContext := mkScoped { m_hadPrevious : bool; m_previous : TraceContext }.

Definition enterScope (context : TraceContext) (s : TraceState) : ScopedTraceContext * TraceState :=
  (mkScoped (g_hasCurrentTraceContext s) (g_currentTraceContext s), SetCurrentTraceContext context s).

Definition leaveScope (scope : ScopedTraceContext) (s : TraceState) : TraceState :=
  if m_hadPrevious scope then SetCurrentTraceContext (m_previous scope) s
  else ClearCurrentTraceContext s.

Definition NormalizeField (value : string) : string := if bool_decide (value = "") then "-" else value.

Definition FormatTraceContextForLog (s : TraceState) : string :=
  let context := g_currentTraceContext s in
  "trace_id=" +:+ NormalizeField (traceId context)
  +:+ " request_id=" +:+ pretty (t_requestId context)
  +:+ " session_id=" +:+ NormalizeField (t_sessionId context)
  +:+ " user_id=" +:+ NormalizeField (t_userId context)
  +:+ " node_id=" +:+ NormalizeField (t_nodeId context)
  +:+ (if 0 <? t_messageId context then " message_id=" +:+ pretty (t_messageId context) else "")
  +:+ (if 0 <? t_serverSeq context then " server_seq=" +:+ pretty (t_serverSeq context) else "").

(** ** The circuit breaker against its contract *)
Inductive breaker_event := BSuccess | BFailure (t : Z) | BAllow (t : Z).

Definition breaker_step (b : CircuitBreaker) (e : breaker_event) : CircuitBreaker :=
  match e with
  | BSuccess => recordSuccess b
  | BFailure t => recordFailure t b
  | BAllow t => (allowRequest t b).2
  end.

(** The contract keeps no state machine, only the failures since the last
    success and the time of the last failure. *)
Definition history_step (h : Z * Z) (e : breaker_event) : Z * Z :=
  match e with
  | BSuccess => (0, 0)
  | BFailure t => (h.1 + 1, t)
  | BAllow _ => h
  end.

Definition refuses (enabled : bool) (threshold halfOpenAfterMs : Z) (h : Z * Z) (now : Z) : bool :=
  enabled && (1 <=? h.1) && (threshold <=? h.1) && (now - h.2 <? halfOpenAfterMs).

(** Times do not go back. *)
Fixpoint chronological (t : Z) (es : list breaker_event) : bool :=
  match es with
  | [] => true
  | BSuccess :: es => chronological t es
  | BFailure u :: es | BAllow u :: es => (t <=? u) && chronological u es
  end.

(** The breaker at time [t] agrees with the history. *)
Record agrees (en : bool) (th half : Z) (b : CircuitBreaker) (h : Z * Z) (t : Z) : Prop := {
  ag_cfg : m_enabled b = en /\ m_failureThreshold b = th /\ m_halfOpenAfterMs b = half;
  ag_count : en = true -> m_consecutiveFailures b = h.1 /\ 0 <= h.1;
  ag_closed : en = true -> m_state b = Closed -> h.1 < 1 \/ h.1 < th;
  ag_open : en = true -> m_state b <> Closed -> 1 <= h.1 /\ th <= h.1 /\ m_openedAtMs b = h.2;
  ag_half : en = true -> m_state b = HalfOpen -> half <= t - h.2;
}.

Lemma agrees_later en th half b h t t' :
  agrees en th half b h t -> t <= t' -> agrees en th half b h t'.
Proof. intros [? ? ? ? Hh] Ht. split; try done. intros. specialize (Hh ltac:(done) ltac:(done)). lia. Qed.

Lemma agrees_success en th half b h t :
  agrees en th half b h t -> agrees en th half (recordSuccess b) (0, 0) t.
Proof. intros [Hc ? ? ? ?]. split; simpl; try done. intros _ _. left. lia. Qed.

Lemma agrees_failure en th half b h t :
  agrees en th half b h t -> h.1 + 1 < 2 ^ 32 ->
  agrees en th half (recordFailure t b) (h.1 + 1, t) t.
Proof.
  intros [(He & Ht & Hh) Hn Hc Ho Hha] Hlt. unfold recordFailure. rewrite He.
  destruct en; [|by split]. destruct (Hn eq_refl) as [Hcf Hpos]. simpl.
  rewrite u32_small by lia. rewrite Ht, Hcf.
  destruct (th <=? h.1 + 1) eqn:El; b2p.
  - split; simpl; try done; intros _; [lia|intros; lia].
  - assert (Hcl : m_state b = Closed).
    { destruct (decide (m_state b = Closed)) as [|Hs]; [done|]. destruct (Ho eq_refl Hs). lia. }
    rewrite Hcl. split; simpl; try done; intros _; [lia|intros; lia].
Qed.

Lemma agrees_allow en th half b h t :
  agrees en th half b h t ->
  (allowRequest t b).1 = negb (refuses en th half h t)
  /\ agrees en th half (allowRequest t b).2 h t.
Proof.
  intros A. pose proof A as [(He & Ht & Hh) Hn Hc Ho Hha]. unfold allowRequest, refuses. rewrite He.
  destruct en; [|done]. simpl negb at 1. cbn [andb].
  destruct (m_state b) eqn:Es; simpl.
  - split; [|done]. specialize (Hc eq_refl eq_refl). symmetry. apply negb_true_iff.
    apply not_true_iff_false. intros Hr. b2p. lia.
  - destruct (Ho eq_refl) as (H1 & H2 & H3); [congruence|]. rewrite H3, Hh.
    rewrite (proj2 (Z.leb_le 1 _)), (proj2 (Z.leb_le th _)) by lia. simpl.
    destruct (half <=? t - h.2) eqn:El; b2p; simpl.
    + split; [symmetry; apply negb_true_iff; apply Z.ltb_ge; lia|].
      split; simpl; try done; intros; try lia; auto.
    + split; [|done]. symmetry. apply negb_false_iff. apply Z.ltb_lt. lia.
  - split; [|done]. specialize (Hha eq_refl eq_refl). symmetry. apply negb_true_iff.
    apply not_true_iff_false. intros Hr. b2p. lia.
Qed.

Lemma breaker_run es en th half b h t now :
  agrees en th half b h t -> h.1 + Z.of_nat (length es) < 2 ^ 32 -> 0 <= h.1 ->
  chronological t (es ++ [BAllow now]) = true ->
  agrees en th half (fold_left breaker_step es b) (fold_left history_step es h) now.
Proof.
  revert b h t. induction es as [|e es IH]; intros b h t A Hn Hpos Hc.
  { simpl in *. b2p. by eapply agrees_later. }
  simpl length in Hn. destruct e as [|u|u]; simpl in Hc |- *; b2p.
  - eapply IH; [by eapply agrees_success| | |done]; simpl; lia.
  - eapply IH; [apply agrees_failure; [by eapply agrees_later|lia]| | |done]; simpl; lia.
  - eapply IH; [|lia|done|done]. eapply agrees_allow. by eapply agrees_later.
Qed.

(** C36: The circuit breaker implements its contract: after any sequence of
    successes, failures and admission tests in the order of time, a request is
    refused exactly when the breaker is enabled, the failures since the last
    success reach the threshold (and are at least one), and the last failure is
    less than the cool-down ago. *)
Theorem breaker_refines_contract enabled threshold halfOpenAfterMs es now t0 :
  Z.of_nat (length es) < 2 ^ 32 ->
  chronological t0 (es ++ [BAllow now]) = true ->
  (allowRequest now (fold_left breaker_step es (newBreaker enabled threshold halfOpenAfterMs))).1
  = negb (refuses enabled threshold halfOpenAfterMs (fold_left history_step es (0, 0)) now).
Proof.
  intros Hlen Hc. eapply agrees_allow. eapply breaker_run; [|done|done|exact Hc].
  split; simpl; try done. intros _ _. left. lia.
Qed.

Lemma breaker_refines_contract_witness :
  (allowRequest 5200 (fold_left breaker_step [BFailure 100; BFailure 200; BAllow 300]
     (newBreaker true 2 5000))).1
  = negb (refuses true 2 5000
     (fold_left history_step [BFailure 100; BFailure 200; BAllow 300] (0, 0)) 5200).
Proof.
  apply (breaker_refines_contract true 2 5000 [BFailure 100; BFailure 200; BAllow 300] 5200 0);
    vm_compute; reflexivity.
Defined.

(** ** Histograms *)
Section MetricsProofs.
Context `{Double}.

Lemma bucket_index_le v bs : (bucket_index v bs <= length bs)%nat.
Proof. induction bs as [|b bs IH]; simpl; [done|]. case_if; lia. Qed.

Definition total (counts : list Z) : Z := foldr Z.add 0 counts.

(** One bucket per bound and one for the rest, and every observation counted
    in exactly one of them. *)
Definition histogram_ok (h : HistogramMetric) : Prop :=
  bounds h = DefaultHistogramBounds /\ length (bucketCounts h) = S (length (bounds h))
  /\ Forall (fun c => 0 <= c) (bucketCounts h) /\ total (bucketCounts h) = h_count h.

Lemma total_bump i counts :
  (i < length counts)%nat -> Forall (fun c => 0 <= c) counts -> total counts + 1 < 2 ^ 64 ->
  total (bump i counts) = total counts + 1 /\ Forall (fun c => 0 <= c) (bump i counts)
  /\ length (bump i counts) = length counts.
Proof.
  unfold bump. revert i. induction counts as [|c counts IH]; intros i Hi HF Ht; [simpl in Hi; lia|].
  inversion HF as [|? ? Hc HF']; subst. simpl in Ht.
  assert (0 <= total counts).
  { clear -HF'. induction HF'; simpl; lia. }
  destruct i as [|i]; simpl.
  - rewrite u64_small by lia. splits; [lia|by constructor; [lia|]|done].
  - simpl in Hi. destruct (IH i) as (IH1 & IH2 & IH3); [lia|done|lia|].
    unfold alter in *. rewrite IH1, IH3. splits; [lia|by constructor|done].
Qed.

Lemma total_replicate n : total (replicate n 0) = 0.
Proof. induction n; simpl; [done|]. by rewrite IHn. Qed.

Definition observe_all (obs : list (string * dbl * string)) (r : MetricsRegistry) : MetricsRegistry :=
  foldl (fun r o => observe o.1.1 o.1.2 o.2 r) r obs.

Definition registry_ok (n : Z) (r : MetricsRegistry) : Prop :=
  forall k h, m_histograms r !! k = Some h -> histogram_ok h /\ 0 <= h_count h <= n.

Lemma observe_ok n name v help r :
  registry_ok n r -> 0 <= n -> n + 1 < 2 ^ 64 -> registry_ok (n + 1) (observe name v help r).
Proof.
  intros Hr Hn Hlt. unfold observe. destruct (r_enabled r); cbn [negb].
  2:{ intros k h E. destruct (Hr k h E). split; [done|lia]. }
  set (key := sanitizeName name).
  assert (Hold : forall k h, m_histograms r !! k = Some h -> histogram_ok h /\ 0 <= h_count h <= n + 1).
  { intros k h E. destruct (Hr k h E). split; [done|lia]. }
  destruct (m_histograms r !! key) as [m|] eqn:Ek; cbn [default from_option id bounds].
  - destruct (Hr key m Ek) as [(Hb & Hl & HF & Ht) Hc].
    destruct (bounds m) as [|b0 bs] eqn:Eb; [done|]. rewrite <- Eb in *.
    intros k h. simpl. intros [[<- <-]|[_ E]]%lookup_insert_Some; [|by eapply Hold].
    pose proof (bucket_index_le v (bounds m)).
    destruct (total_bump (bucket_index v (bounds m)) (bucketCounts m)) as (T1 & T2 & T3); [lia|done|lia|].
    unfold histogram_ok. simpl. rewrite u64_small by lia. splits; try done; try lia.
  - intros k h. cbn [m_histograms sum h_count h_help]. intros [[<- <-]|[_ E]]%lookup_insert_Some; [|by eapply Hold].
    pose proof (bucket_index_le v DefaultHistogramBounds).
    destruct (total_bump (bucket_index v DefaultHistogramBounds)
      (replicate (S (length DefaultHistogramBounds)) 0)) as (T1 & T2 & T3).
    + rewrite length_replicate. lia.
    + apply Forall_replicate. lia.
    + rewrite total_replicate. lia.
    + unfold histogram_ok. cbn [bounds bucketCounts h_count]. rewrite T1, T3, length_replicate, total_replicate.
      rewrite u64_small by lia. splits; try done; try lia.
Qed.

(** The last cumulative count a histogram prints (the one of "+Inf") is the
    number of its observations. *)
Lemma cumulative_last acc counts :
  Forall (fun c => 0 <= c) counts -> 0 <= acc -> acc + total counts < 2 ^ 64 ->
  last (cumulative_counts acc counts) = match counts with [] => None | _ => Some (acc + total counts) end.
Proof.
  revert acc. induction counts as [|c counts IH]; intros acc HF Ha Ht; [done|].
  inversion HF as [|? ? Hc HF']; subst. simpl in Ht.
  assert (0 <= total counts) by (clear -HF'; induction HF'; simpl; lia).
  cbn [cumulative_counts]. rewrite last_cons, IH; [|done|rewrite u64_small; lia|rewrite u64_small; lia].
  rewrite u64_small by lia. destruct counts; simpl in *; f_equal; lia.
Qed.

(** Prometheus consistency: after any observations, every histogram has
    one bucket per bound plus the rest, its buckets add up to its count, and
    the "+Inf" line it renders equals that count. *)
Lemma histogram_counts_consistent obs key h :
  let r := observe_all obs (mkRegistry true ∅ ∅ ∅) in
  Z.of_nat (length obs) < 2 ^ 64 - 1 ->
  m_histograms r !! key = Some h ->
  length (bucketCounts h) = S (length (bounds h)) /\ total (bucketCounts h) = h_count h
  /\ last (cumulative_counts 0 (bucketCounts h)) = Some (h_count h).
Proof.
  intros r Hlen Hk.
  assert (R : registry_ok (Z.of_nat (length obs)) r).
  { unfold r, observe_all. clear -Hlen. induction obs as [|o obs IH] using rev_ind.
    - intros k h E. cbn in E. by rewrite lookup_empty in E.
    - rewrite foldl_app, length_app in *. simpl in *. rewrite Nat2Z.inj_add.
      apply observe_ok; [apply IH; lia|lia|lia]. }
  destruct (R key h Hk) as [(_ & Hl & HF & Ht) Hc]. splits; [done|done|].
  rewrite cumulative_last by (try done; lia).
  destruct (bucketCounts h); [done|]. by rewrite Ht.
Qed.

End MetricsProofs.

Definition ex_obs : list (string * @dbl binary64 * string) :=
  [("lat.ms", dint 3, "h"); ("lat.ms", dint 7000, ""); ("other", dint 1, "")].

Definition ex_hist : HistogramMetric :=
  default (mkHistogram [] [] (dint 0) 0 "")
    (m_histograms (observe_all ex_obs (mkRegistry true ∅ ∅ ∅)) !! "lat_ms").

Lemma histogram_counts_consistent_witness :
  last (cumulative_counts 0 (bucketCounts ex_hist)) = Some (h_count ex_hist).
Proof.
  assert (Hk : m_histograms (observe_all ex_obs (mkRegistry true ∅ ∅ ∅)) !! "lat_ms" = Some ex_hist)
    by (vm_cast_no_check (@eq_refl (option HistogramMetric) (Some ex_hist))).
  assert (Hl : Z.of_nat (length ex_obs) < 2 ^ 64 - 1) by (vm_compute; reflexivity).
  destruct (histogram_counts_consistent (H := binary64) ex_obs "lat_ms" ex_hist Hl Hk) as (_ & _ & E).
  exact E.
Defined.

(** ** The rate limiter *)
Section Exact.
#[local] Existing Instance exact.
#[local] Open Scope Q_scope.

Lemma dlt_exact (x y : Q) : dlt x y = true <-> x < y.
Proof.
  simpl. rewrite negb_true_iff. split.
  - intros H. apply Qnot_le_lt. intros Hle. apply Qle_bool_iff in Hle. congruence.
  - intros H. apply not_true_iff_false. intros Hle. apply Qle_bool_iff in Hle. lra.
Qed.

Lemma dlt_exact_false (x y : Q) : dlt x y = false <-> y <= x.
Proof.
  rewrite <- not_true_iff_false, dlt_exact. split; intros H; [by apply Qnot_lt_le|lra].
Qed.

(** What one call grants is paid by the tokens it takes and the time passed. *)
Lemma refill_budget (l : TokenBucketRateLimiter) (now t : Z) :
  0 <= m_rate l -> m_lastRefillMs l == inject_Z t -> (t <= now)%Z ->
  m_tokens (refill now l) <= m_tokens l + (m_rate l / 1000) * inject_Z (now - t)
  /\ m_rate (refill now l) = m_rate l /\ m_burst (refill now l) = m_burst l
  /\ m_lastRefillMs (refill now l) = inject_Z now
  /\ (0 <= m_tokens l -> 0 <= m_burst l -> 0 <= m_tokens (refill now l)).
Proof.
  intros Hr Hl Ht.
  assert (Hd : 0 <= inject_Z (now - t)) by (change 0 with (inject_Z 0); rewrite <- Zle_Qle; lia).
  assert (Hpay : 0 <= m_rate l / 1000 * inject_Z (now - t)).
  { apply Qmult_le_0_compat; [|done]. apply Qle_shift_div_l; lra. }
  assert (HP : (inject_Z now - m_lastRefillMs l) * (m_rate l / inject_Z 1000)
               == m_rate l / 1000 * inject_Z (now - t)).
  { rewrite Hl. unfold Zminus. rewrite inject_Z_plus, inject_Z_opp. change (inject_Z 1000) with 1000. ring. }
  unfold refill. cbn [dle dint dsub dmul ddiv dadd dbl exact].
  case_if; cbn [m_tokens m_rate m_burst m_lastRefillMs]; [splits; try done; lra|].
  unfold dmin. destruct (dlt _ _) eqn:Em; cbn [dle dint dsub dmul ddiv dadd dbl exact] in *.
  - splits; try done; intros; rewrite HP; lra.
  - apply dlt_exact_false in Em. rewrite HP in Em. splits; done.
Qed.

Lemma allow_budget (l : TokenBucketRateLimiter) (x : Q) (now t : Z) :
  0 <= m_rate l -> 0 <= m_burst l -> 0 <= m_tokens l -> m_lastRefillMs l == inject_Z t -> (t <= now)%Z ->
  let '(ok, l') := allow x now l in
  (if ok then x else 0) + m_tokens l' <= m_tokens l + (m_rate l / 1000) * inject_Z (now - t)
  /\ m_rate l' = m_rate l /\ m_burst l' = m_burst l /\ m_lastRefillMs l' = inject_Z now
  /\ 0 <= m_tokens l'.
Proof.
  intros Hr Hb Ht Hl Hle. destruct (refill_budget l now t Hr Hl Hle) as (R1 & R2 & R3 & R4 & R5).
  unfold allow. destruct (dlt (m_tokens (refill now l)) x) eqn:Ex.
  - splits; try done; [lra|by apply R5].
  - apply dlt_exact_false in Ex. cbn [m_tokens m_rate m_burst m_lastRefillMs dsub exact].
    splits; try done; lra.
Qed.

(** Non-decreasing times from [t] on, and the last of them. *)
Fixpoint ascending (t : Z) (ts : list Z) : bool :=
  match ts with [] => true | u :: ts => (t <=? u)%Z && ascending u ts end.
Fixpoint latest (t : Z) (ts : list Z) : Z :=
  match ts with [] => t | u :: ts => latest u ts end.

Lemma grants_budget ts (l : TokenBucketRateLimiter) t :
  0 <= m_rate l -> 0 <= m_burst l -> 0 <= m_tokens l -> m_lastRefillMs l == inject_Z t ->
  ascending t ts = true ->
  inject_Z (grants ts l).1 <= m_tokens l + (m_rate l / 1000) * inject_Z (latest t ts - t).
Proof.
  revert l t. induction ts as [|u ts IH]; intros l t Hr Hb Ht Hl Ha.
  { cbn [grants fst latest]. rewrite Z.sub_diag. change (inject_Z 0) with 0. lra. }
  simpl in Ha. apply andb_true_iff in Ha as [Hu Ha]. apply Z.leb_le in Hu.
  pose proof (allow_budget l 1 u t Hr Hb Ht Hl Hu) as B. cbn [grants latest dint exact].
  change (inject_Z 1) with 1.
  destruct (@allow exact 1 u l) as [ok l'] eqn:E. destruct B as (B1 & B2 & B3 & B4 & B5).
  specialize (IH l' u). rewrite B2, B3, B4 in IH.
  specialize (IH Hr Hb B5 (Qeq_refl _) Ha).
  destruct (grants ts l') as [n l'']. cbn [fst] in *.
  assert (Hs : inject_Z (latest u ts - t) == inject_Z (latest u ts - u) + inject_Z (u - t)).
  { rewrite <- inject_Z_plus. f_equiv. lia. }
  rewrite Hs, Qmult_plus_distr_r, inject_Z_plus.
  destruct ok; [change (inject_Z 1) with 1|change (inject_Z 0) with 0]; lra.
Qed.

(** The rate limit holds: with the token arithmetic computed exactly and a
    clock that does not go back, calls at any times after construction grant at
    most the burst plus the rate times the elapsed seconds. *)
Lemma grants_within_rate (rate burst : Q) (t0 : Z) (ts : list Z) :
  0 <= rate -> ascending t0 ts = true ->
  inject_Z (grants ts (@newLimiter exact rate burst t0)).1
    <= @dmax exact 1 burst + rate * (inject_Z (latest t0 ts - t0) / 1000).
Proof.
  intros Hr Ha.
  assert (Hb : 0 <= @dmax exact 1 burst).
  { unfold dmax. destruct (@dlt exact 1 burst) eqn:E; [apply dlt_exact in E|]; lra. }
  pose proof (grants_budget ts (@newLimiter exact rate burst t0) t0 Hr Hb Hb (Qeq_refl _) Ha) as B.
  eapply Qle_trans; [exact B|]. apply Qle_lteq. right.
  cbn [m_tokens m_rate newLimiter dint exact]. change (inject_Z 1) with 1.
  unfold Qdiv. ring.
Qed.

Lemma grants_within_rate_witness :
  inject_Z (grants [0; 0; 0; 400; 500; 900]%Z (@newLimiter exact 2 2 0)).1
    <= @dmax exact 1 2 + 2 * (inject_Z (900 - 0) / 1000).
Proof. apply (grants_within_rate 2 2 0 [0; 0; 0; 400; 500; 900]%Z); [lra|reflexivity]. Defined.
End Exact.

(** *** The burst in binary64 *)
Definition finite (x : spec_float) : bool :=
  match x with S754_zero _ | S754_finite _ _ _ => true | _ => false end.

Lemma SFsub_diag x : finite x = true -> SFleb (SFsub 53 1024 x x) (S754_zero false) = true.
Proof.
  destruct x as [s| | |s m e]; intros H; try done; simpl; [by destruct s|].
  rewrite Z.sub_diag. done.
Qed.

(** Calls within one millisecond take tokens one by one. *)
Fixpoint take_tokens (n : nat) (tokens : spec_float) : Z :=
  match n with
  | O => 0
  | S n => if dlt tokens (dint 1) then take_tokens n tokens
           else 1 + take_tokens n (dsub tokens (dint 1))
  end.

Lemma grants_same_ms n now rate burst tokens :
  finite (dint now) = true ->
  (grants (replicate n now) (mkLimiter rate burst tokens (dint now))).1 = take_tokens n tokens.
Proof.
  intros Hf. revert tokens. induction n as [|n IH]; intros tokens; [done|].
  cbn [replicate grants take_tokens].
  assert (E : refill now (mkLimiter rate burst tokens (dint now)) = mkLimiter rate burst tokens (dint now)).
  { unfold refill. cbn [m_lastRefillMs]. pose proof (SFsub_diag (dint now) Hf) as Hz.
    change (dint 0) with (S754_zero false) at 1. cbn [dle dsub binary64]. by rewrite Hz. }
  unfold allow. rewrite E. cbn [m_tokens m_rate m_burst m_lastRefillMs].
  destruct (dlt tokens (dint 1)).
  - specialize (IH tokens). destruct (grants _ _). cbn [fst] in *. lia.
  - specialize (IH (dsub tokens (dint 1))). destruct (grants _ _). cbn [fst] in *. lia.
Qed.

(** [n] tokens taken in a row, none refused. *)
Fixpoint drain (n : nat) (tokens : spec_float) : option spec_float :=
  match n with
  | O => Some tokens
  | S n => if dlt tokens (dint 1) then None else drain n (dsub tokens (dint 1))
  end.

Lemma take_tokens_drained n tokens rest extra :
  drain n tokens = Some rest -> dlt rest (dint 1) = true ->
  take_tokens (n + extra) tokens = Z.of_nat n.
Proof.
  revert tokens. induction n as [|n IH]; intros tokens Hd Hl.
  - injection Hd as ->. induction extra as [|e IHe]; [done|].
    cbn [take_tokens Nat.add]. rewrite Hl. exact IHe.
  - cbn [drain take_tokens Nat.add] in *. destruct (@dlt binary64 tokens (dint 1)); [done|].
    rewrite IH by done. lia.
Qed.

Definition drains_exactly (b : nat) : bool :=
  match drain b (dmax (dint 1) (dint (Z.of_nat b))) with
  | Some rest => dlt rest (dint 1)
  | None => false
  end.

Lemma drains_upto_300 : forallb drains_exactly (seq 1 300) = true.
Proof. vm_cast_no_check (eq_refl true). Qed.

(** In the program's own binary64 arithmetic, a bucket with a whole burst
    of up to 300 grants exactly that many of the requests that arrive within
    one millisecond, for every rate. *)
Lemma burst_exact_binary64 (rate : spec_float) (b now : Z) (extra : nat) :
  1 <= b <= 300 -> finite (dint now) = true ->
  (grants (replicate (Z.to_nat b + extra) now) (newLimiter (H := binary64) rate (dint b) now)).1 = b.
Proof.
  intros Hb Hf. unfold newLimiter. rewrite grants_same_ms by done.
  pose proof drains_upto_300 as Hall. rewrite forallb_forall in Hall.
  specialize (Hall (Z.to_nat b)). rewrite in_seq in Hall. specialize (Hall ltac:(lia)).
  unfold drains_exactly in Hall. rewrite Z2Nat.id in Hall by lia.
  destruct (drain _ _) as [rest|] eqn:Ed; [|done].
  rewrite (take_tokens_drained _ _ rest); [lia|done|done].
Qed.

Lemma burst_exact_binary64_witness :
  (grants (replicate (Z.to_nat 3 + 2) 1700000000000)
     (@newLimiter binary64 (@dint binary64 7) (@dint binary64 3) 1700000000000)).1 = 3.
Proof. apply (burst_exact_binary64 (@dint binary64 7) 3 1700000000000 2); [lia|reflexivity]. Defined.

(** ** The trace context *)
(** Scopes entered and left in stack order. *)
Inductive nested := Nest (context : TraceContext) (body : list nested).

Fixpoint run_nested (n : nested) (s : TraceState) : TraceState :=
  match n with
  | Nest context body =>
    let '(scope, s1) := enterScope context s in
    leaveScope scope (fold_left (fun s n => run_nested n s) body s1)
  end.

(** No context means the empty one. *)
Definition trace_wf (s : TraceState) : Prop :=
  g_hasCurrentTraceContext s = false -> g_currentTraceContext s = emptyTrace.

(** Leaving a scope restores what was there before it, whatever scopes were
    opened inside. *)
Lemma scope_restores n s : trace_wf s -> run_nested n s = s.
Proof.
  intros Hwf. destruct n as [context body]. cbn. unfold leaveScope. cbn.
  destruct s as [cur has]. unfold trace_wf in Hwf. simpl in *.
  destruct has; [done|]. by rewrite Hwf.
Qed.

End infra.
