(* ===== verification/Overload.v ===== *)
(** * OverloadProtectService: admission control
      (src/service/overloadProtectService.h, src/service/overloadProtectService.cpp)

    Counters are [size_t] (they wrap), the limiters are those of [Infra].  A
    pooled limiter lives in its pool: the shared pointer that
    [getOrCreateLimiter] returns is used at once and its update is the update
    of the pool entry.  Each clock reading of an operation is an argument, in
    the order of the calls. *)
From S2P Require Import Prelude Protocol Infra.
Import protocol infra.

Module overload.

Section Overload.
Context `{Double}.

Record OverloadProtectService := mkOverload {
  m_maxConnections : Z;
  m_maxQps : Z;
  m_currentConnections : Z;
  m_messageCount : Z;
  m_lastResetTime : Z;
  m_rateLimitEnabled : bool;
  m_ipConnectRatePerSecond : dbl;
  m_userSendRatePerSecond : dbl;
  m_loginLimiter : option TokenBucketRateLimiter;
  m_p2pLimiter : option TokenBucketRateLimiter;
  m_broadcastLimiter : option TokenBucketRateLimiter;
  m_ipLimiters : gmap string TokenBucketRateLimiter;
  m_userLimiters : gmap string TokenBucketRateLimiter;
}.

Definition newOverload (maxConnections maxQps now : Z) : OverloadProtectService :=
  mkOverload maxConnections maxQps 0 0 now false (dint 0) (dint 0) None None None ∅ ∅.

(** Updates of one group of fields. *)
Definition with_connections (n : Z) (s : OverloadProtectService) : OverloadProtectService :=
  mkOverload (m_maxConnections s) (m_maxQps s) n (m_messageCount s) (m_lastResetTime s)
    (m_rateLimitEnabled s) (m_ipConnectRatePerSecond s) (m_userSendRatePerSecond s)
    (m_loginLimiter s) (m_p2pLimiter s) (m_broadcastLimiter s) (m_ipLimiters s) (m_userLimiters s).

Definition with_window (count reset : Z) (s : OverloadProtectService) : OverloadProtectService :=
  mkOverload (m_maxConnections s) (m_maxQps s) (m_currentConnections s) count reset
    (m_rateLimitEnabled s) (m_ipConnectRatePerSecond s) (m_userSendRatePerSecond s)
    (m_loginLimiter s) (m_p2pLimiter s) (m_broadcastLimiter s) (m_ipLimiters s) (m_userLimiters s).

Definition with_ip (rate : dbl) (pool : gmap string TokenBucketRateLimiter)
    (s : OverloadProtectService) : OverloadProtectService :=
  mkOverload (m_maxConnections s) (m_maxQps s) (m_currentConnections s) (m_messageCount s)
    (m_lastResetTime s) (m_rateLimitEnabled s) rate (m_userSendRatePerSecond s)
    (m_loginLimiter s) (m_p2pLimiter s) (m_broadcastLimiter s) pool (m_userLimiters s).

Definition with_user (rate : dbl) (pool : gmap string TokenBucketRateLimiter)
    (s : OverloadProtectService) : OverloadProtectService :=
  mkOverload (m_maxConnections s) (m_maxQps s) (m_currentConnections s) (m_messageCount s)
    (m_lastResetTime s) (m_rateLimitEnabled s) (m_ipConnectRatePerSecond s) rate
    (m_loginLimiter s) (m_p2pLimiter s) (m_broadcastLimiter s) (m_ipLimiters s) pool.

Definition with_commands (login p2p broadcast : option TokenBucketRateLimiter)
    (s : OverloadProtectService) : OverloadProtectService :=
  mkOverload (m_maxConnections s) (m_maxQps s) (m_currentConnections s) (m_messageCount s)
    (m_lastResetTime s) (m_rateLimitEnabled s) (m_ipConnectRatePerSecond s)
    (m_userSendRatePerSecond s) login p2p broadcast (m_ipLimiters s) (m_userLimiters s).

Definition setRateLimitEnabled (enabled : bool) (s : OverloadProtectService) : OverloadProtectService :=
  mkOverload (m_maxConnections s) (m_maxQps s) (m_currentConnections s) (m_messageCount s)
    (m_lastResetTime s) enabled (m_ipConnectRatePerSecond s) (m_userSendRatePerSecond s)
    (m_loginLimiter s) (m_p2pLimiter s) (m_broadcastLimiter s) (m_ipLimiters s) (m_userLimiters s).

Definition canAcceptConnection (s : OverloadProtectService) : bool :=
  m_currentConnections s <? m_maxConnections s.

(** The limiter of [key], created when absent. *)
Definition getOrCreateLimiter (pool : gmap string TokenBucketRateLimiter) (key : string)
    (rate burst : dbl) (now : Z) : TokenBucketRateLimiter :=
  match pool !! key with Some l => l | None => newLimiter rate burst now end.

(** [getOrCreateLimiter(pool, key, rate, rate)->allow()]: the answer and the pool. *)
Definition allow_in_pool (pool : gmap string TokenBucketRateLimiter) (key : string) (rate : dbl)
    (now1 now2 : Z) : bool * gmap string TokenBucketRateLimiter :=
  let '(ok, l) := allow (dint 1) now2 (getOrCreateLimiter pool key rate rate now1) in
  (ok, <[key := l]> pool).

Definition canAcceptConnectionFrom (ip : string) (now1 now2 : Z) (s : OverloadProtectService)
    : bool * OverloadProtectService :=
  if negb (canAcceptConnection s) then (false, s)
  else if negb (m_rateLimitEnabled s) || dle (m_ipConnectRatePerSecond s) (dint 0)
          || bool_decide (ip = "") then (true, s)
  else
    let '(ok, pool) := allow_in_pool (m_ipLimiters s) ip (m_ipConnectRatePerSecond s) now1 now2 in
    (ok, with_ip (m_ipConnectRatePerSecond s) pool s).

Definition onConnectionAccepted (s : OverloadProtectService) : OverloadProtectService :=
  with_connections (u64 (m_currentConnections s + 1)) s.

Definition onConnectionClosed (s : OverloadProtectService) : OverloadProtectService :=
  with_connections (u64 (m_currentConnections s - 1)) s.

Definition canProcessMessage (now : Z) (s : OverloadProtectService) : bool * OverloadProtectService :=
  let s := if 1000 <=? now - m_lastResetTime s then with_window 0 now s else s in
  (m_messageCount s <? m_maxQps s, s).

(** The [allow()] of one of the command limiters. *)
Definition limiter_allow (l : option TokenBucketRateLimiter) (now : Z)
    : bool * option TokenBucketRateLimiter :=
  match l with
  | None => (true, None)
  | Some l => let '(ok, l) := allow (dint 1) now l in (ok, Some l)
  end.

Definition canProcessCommand (command now1 now2 : Z) (s : OverloadProtectService)
    : bool * OverloadProtectService :=
  let '(ok, s) := canProcessMessage now1 s in
  if negb ok then (false, s)
  else if negb (m_rateLimitEnabled s) then (true, s)
  else if (command =? CmdLoginReq) && bool_decide (is_Some (m_loginLimiter s)) then
    let '(ok, l) := limiter_allow (m_loginLimiter s) now2 in
    (ok, with_commands l (m_p2pLimiter s) (m_broadcastLimiter s) s)
  else if (command =? CmdP2pMsgReq) && bool_decide (is_Some (m_p2pLimiter s)) then
    let '(ok, l) := limiter_allow (m_p2pLimiter s) now2 in
    (ok, with_commands (m_loginLimiter s) l (m_broadcastLimiter s) s)
  else if (command =? CmdBroadcastMsgReq) && bool_decide (is_Some (m_broadcastLimiter s)) then
    let '(ok, l) := limiter_allow (m_broadcastLimiter s) now2 in
    (ok, with_commands (m_loginLimiter s) (m_p2pLimiter s) l s)
  else (true, s).

Definition canSendMessage (userId : string) (now1 now2 : Z) (s : OverloadProtectService)
    : bool * OverloadProtectService :=
  if negb (m_rateLimitEnabled s) || dle (m_userSendRatePerSecond s) (dint 0)
     || bool_decide (userId = "") then (true, s)
  else
    let '(ok, pool) := allow_in_pool (m_userLimiters s) userId (m_userSendRatePerSecond s) now1 now2 in
    (ok, with_user (m_userSendRatePerSecond s) pool s).

Definition onMessageProcessed (s : OverloadProtectService) : OverloadProtectService :=
  with_window (u64 (m_messageCount s + 1)) (m_lastResetTime s) s.

Definition getCurrentQps (s : OverloadProtectService) : Z := m_messageCount s.

Definition configureIpConnectRate (perSecond : dbl) (s : OverloadProtectService)
    : OverloadProtectService := with_ip perSecond ∅ s.

Definition configureUserSendRate (perSecond : dbl) (s : OverloadProtectService)
    : OverloadProtectService := with_user perSecond ∅ s.

Definition configureCommandRates (loginQps p2pQps broadcastQps : dbl) (now1 now2 now3 : Z)
    (s : OverloadProtectService) : OverloadProtectService :=
  let make qps now := if dlt (dint 0) qps then Some (newLimiter qps qps now) else None in
  with_commands (make loginQps now1) (make p2pQps now2) (make broadcastQps now3) s.

(** ** Connections *)
(** Accepting is gated by the test; only accepted connections are closed. *)
Inductive conn_event := Arrive | Leave.

Definition conn_step (s : OverloadProtectService) (e : conn_event) : OverloadProtectService :=
  match e with
  | Arrive => if canAcceptConnection s then onConnectionAccepted s else s
  | Leave => onConnectionClosed s
  end.

(** Every [Leave] is one of a connection that is open. *)
Fixpoint paired (max opened : Z) (es : list conn_event) : bool :=
  match es with
  | [] => true
  | Arrive :: es => paired max (if opened <? max then opened + 1 else opened) es
  | Leave :: es => (1 <=? opened) && paired max (opened - 1) es
  end.

Lemma conn_run es s :
  0 <= m_currentConnections s <= m_maxConnections s -> m_maxConnections s < 2 ^ 64 ->
  paired (m_maxConnections s) (m_currentConnections s) es = true ->
  0 <= m_currentConnections (fold_left conn_step es s) <= m_maxConnections s.
Proof.
  revert s. induction es as [|e es IH]; intros s Hc Hm Hp; [done|].
  destruct e; simpl in Hp |- *.
  - unfold canAcceptConnection. destruct (m_currentConnections s <? m_maxConnections s) eqn:El; b2p.
    + assert (E : m_currentConnections (onConnectionAccepted s) = m_currentConnections s + 1)
        by (simpl; apply u64_small; lia).
      specialize (IH (onConnectionAccepted s)). rewrite E in IH. simpl m_maxConnections in IH.
      apply IH; [lia|done|done].
    + by apply IH.
  - b2p. assert (E : m_currentConnections (onConnectionClosed s) = m_currentConnections s - 1)
      by (simpl; apply u64_small; lia).
    specialize (IH (onConnectionClosed s)). rewrite E in IH. simpl m_maxConnections in IH.
    apply IH; [lia|done|done].
Qed.

(** Used as intended, the connection limit holds: when every accept is
    gated by the test and only accepted connections are reported closed, the
    count stays between zero and the maximum, whatever the order. *)
Lemma connection_limit_holds maxConnections maxQps now es :
  0 <= maxConnections < 2 ^ 64 -> paired maxConnections 0 es = true ->
  0 <= m_currentConnections (fold_left conn_step es (newOverload maxConnections maxQps now))
    <= maxConnections.
Proof. intros Hm Hp. apply (conn_run es (newOverload maxConnections maxQps now)); simpl; [lia|lia|done]. Qed.

(** ** Messages per second *)
(** A message is admitted when the test passes, and then counted. *)
Fixpoint admitted_of (times : list Z) (s : OverloadProtectService) : Z :=
  match times with
  | [] => 0
  | t :: ts =>
    let '(ok, s) := canProcessMessage t s in
    if ok then 1 + admitted_of ts (onMessageProcessed s) else admitted_of ts s
  end.

Lemma admit_window ts s :
  Forall (fun t => t - m_lastResetTime s < 1000) ts ->
  0 <= m_messageCount s -> m_messageCount s + Z.of_nat (length ts) < 2 ^ 64 ->
  admitted_of ts s = Z.max 0 (Z.min (Z.of_nat (length ts)) (m_maxQps s - m_messageCount s)).
Proof.
  revert s. induction ts as [|t ts IH]; intros s HF Hc Hlen; [simpl; lia|].
  inversion HF as [|? ? Ht HF']; subst. cbn [admitted_of]. unfold canProcessMessage.
  rewrite (proj2 (Z.leb_gt _ _) Ht).
  destruct (m_messageCount s <? m_maxQps s) eqn:El; b2p; simpl length in *.
  - assert (E : m_messageCount (onMessageProcessed s) = m_messageCount s + 1)
      by (simpl; apply u64_small; lia).
    rewrite IH; [|exact HF'|rewrite E; lia|rewrite E; lia].
    rewrite E. change (m_maxQps (onMessageProcessed s)) with (m_maxQps s). lia.
  - rewrite IH; [lia|done|done|lia].
Qed.

(** The per-second limit is exact: of the messages that arrive within
    one window, the first [maxQps] are admitted and the others refused,
    provided every admitted message is reported with [onMessageProcessed]. *)
Lemma qps_window_exact maxConnections maxQps now ts :
  0 <= maxQps -> Forall (fun t => t - now < 1000) ts -> Z.of_nat (length ts) < 2 ^ 64 ->
  admitted_of ts (newOverload maxConnections maxQps now) = Z.min (Z.of_nat (length ts)) maxQps.
Proof.
  intros Hq HF Hlen. rewrite admit_window; simpl; [lia|done|lia|lia].
Qed.

(** Without [onMessageProcessed], as server_full.cpp calls the service, the
    limit never refuses anything. *)
Lemma unreported_messages_unlimited s now :
  m_messageCount s = 0 -> 0 < m_maxQps s ->
  (canProcessMessage now s).1 = true /\ m_messageCount (canProcessMessage now s).2 = 0.
Proof.
  intros Hc Hq. unfold canProcessMessage. destruct (1000 <=? _); simpl; rewrite ?Hc; split; try done;
    by apply Z.ltb_lt.
Qed.

(** The count wraps below zero: when a connection that was never counted
    is reported closed on an idle server, every later connection is refused,
    for every limit a [size_t] can hold. *)
Lemma unmatched_close_refuses_everyone maxConnections maxQps now ip t1 t2 :
  0 <= maxConnections < 2 ^ 64 ->
  let s := onConnectionClosed (newOverload maxConnections maxQps now) in
  m_currentConnections s = 2 ^ 64 - 1 /\ canAcceptConnectionFrom ip t1 t2 s = (false, s).
Proof.
  intros Hm s. assert (E : m_currentConnections s = 2 ^ 64 - 1) by done.
  split; [done|]. unfold canAcceptConnectionFrom, canAcceptConnection. rewrite E.
  change (m_maxConnections s) with maxConnections.
  by replace (2 ^ 64 - 1 <? maxConnections) with false by (symmetry; apply Z.ltb_ge; lia).
Qed.

End Overload.

Definition ex_events : list conn_event := [Arrive; Arrive; Arrive; Leave; Arrive; Leave].

Lemma connection_limit_holds_witness :
  0 <= m_currentConnections (fold_left conn_step ex_events (newOverload (H := binary64) 2 100 0)) <= 2.
Proof. apply (connection_limit_holds (H := binary64) 2 100 0 ex_events); [lia|reflexivity]. Defined.

Lemma qps_window_exact_witness :
  admitted_of [10; 20; 20; 999] (newOverload (H := binary64) 10 3 0) = Z.min (Z.of_nat 4) 3.
Proof.
  apply (qps_window_exact (H := binary64) 10 3 0 [10; 20; 20; 999]); [lia| |done].
  repeat constructor.
Defined.

End overload.
