(* ===== verification/Heartbeat.v ===== *)
(** * HeartbeatService: connection health and kicking
      (src/service/heartbeatService.h, src/service/heartbeatService.cpp)

    A connection is known to the service by [std::to_string(conn->fd())].  The
    calls into Redis (through the thread pool or directly) and the kick
    callback are the emitted events; clock readings are arguments. *)
From stdpp Require Import pretty.
From S2P Require Import Prelude.

Module heartbeat.

(** The connection object and its descriptor. *)
Record Conn := mkConn { conn_obj : ConnId; conn_fd : Z }.

Inductive ConnectionHealthState := New | AuthPending | Active | Idle | BackPressured | Closing.

#[export] Instance ConnectionHealthState_eq_dec : EqDecision ConnectionHealthState.
Proof. solve_decision. Defined.

Record ConnectionHealth := mkHealth {
  state : ConnectionHealthState;
  createdAtMs : Z;
  lastHeartbeatAtMs : Z;
  lastBlockedAtMs : Z;
  authenticated : bool;
}.

Definition newHealth : ConnectionHealth := mkHealth New 0 0 0 false.

Inductive event :=
| RedisSetex (key value : string) (ttl : Z)
| RedisDel (key : string)
| IncCounter (name : string)
| Kick (conn : ConnId) (reason : string).

Record HeartbeatService := mkHeartbeat {
  m_timeoutSeconds : Z;
  m_checkIntervalSeconds : Z;
  m_lastHeartbeatTime : gmap string Z;
  m_connections : gmap string ConnId;
  m_connToUser : gmap string string;
  m_connectionHealth : gmap string ConnectionHealth;
  m_useRedis : bool;
  m_nodeId : string;
  m_nodeAliveTtlSeconds : Z;
  m_authTimeoutSeconds : Z;
  m_idleTimeoutSeconds : Z;
  m_slowConsumerKickSeconds : Z;
  m_running : bool;
  m_kickCallback : bool;
}.

Definition newHeartbeat (timeoutSeconds checkIntervalSeconds : Z) : HeartbeatService :=
  mkHeartbeat timeoutSeconds checkIntervalSeconds ∅ ∅ ∅ ∅ false "single-node" 15 10 300 30 false false.

(** The four maps of a service, the rest kept. *)
Definition with_maps (last : gmap string Z) (conns : gmap string ConnId)
    (users : gmap string string) (health : gmap string ConnectionHealth)
    (s : HeartbeatService) : HeartbeatService :=
  mkHeartbeat (m_timeoutSeconds s) (m_checkIntervalSeconds s) last conns users health
    (m_useRedis s) (m_nodeId s) (m_nodeAliveTtlSeconds s) (m_authTimeoutSeconds s)
    (m_idleTimeoutSeconds s) (m_slowConsumerKickSeconds s) (m_running s) (m_kickCallback s).

Definition with_health (health : gmap string ConnectionHealth) (s : HeartbeatService) :=
  with_maps (m_lastHeartbeatTime s) (m_connections s) (m_connToUser s) health s.

Definition with_settings (node : string) (ttl auth idle slow : Z) (s : HeartbeatService)
    : HeartbeatService :=
  mkHeartbeat (m_timeoutSeconds s) (m_checkIntervalSeconds s) (m_lastHeartbeatTime s)
    (m_connections s) (m_connToUser s) (m_connectionHealth s) (m_useRedis s) node ttl auth idle slow
    (m_running s) (m_kickCallback s).

Definition with_running (b : bool) (s : HeartbeatService) : HeartbeatService :=
  mkHeartbeat (m_timeoutSeconds s) (m_checkIntervalSeconds s) (m_lastHeartbeatTime s)
    (m_connections s) (m_connToUser s) (m_connectionHealth s) (m_useRedis s) (m_nodeId s)
    (m_nodeAliveTtlSeconds s) (m_authTimeoutSeconds s) (m_idleTimeoutSeconds s)
    (m_slowConsumerKickSeconds s) b (m_kickCallback s).

Definition connIdOf (conn : Conn) : string := pretty (conn_fd conn).

(** [exchange]: the thread is launched, or the stop logged, on a change only. *)
Definition start (s : HeartbeatService) : bool * HeartbeatService :=
  (negb (m_running s), with_running true s).
Definition stop (s : HeartbeatService) : bool * HeartbeatService :=
  (m_running s, with_running false s).

Definition setNodeId (nodeId : string) (s : HeartbeatService) : HeartbeatService :=
  with_settings nodeId (m_nodeAliveTtlSeconds s) (m_authTimeoutSeconds s) (m_idleTimeoutSeconds s)
    (m_slowConsumerKickSeconds s) s.

Definition setNodeAliveTtlSeconds (ttl : Z) (s : HeartbeatService) : HeartbeatService :=
  with_settings (m_nodeId s) ttl (m_authTimeoutSeconds s) (m_idleTimeoutSeconds s)
    (m_slowConsumerKickSeconds s) s.

Definition setConnectionGovernance (auth idle slow : Z) (s : HeartbeatService) : HeartbeatService :=
  with_settings (m_nodeId s) (m_nodeAliveTtlSeconds s) auth idle slow s.

Definition onlineKey (userId : string) : string := "user:online:" +:+ userId.

Definition updateOnlineStatus (userId : string) (online : bool) (s : HeartbeatService) : list event :=
  if m_useRedis s then
    if online then [RedisSetex (onlineKey userId) "1" (m_timeoutSeconds s)]
    else [RedisDel (onlineKey userId)]
  else [].

Definition refreshOnlineStatus (userId : string) (s : HeartbeatService) : list event :=
  if m_useRedis s then [RedisSetex (onlineKey userId) "1" (m_timeoutSeconds s)] else [].

(** The asynchronous variants submit the same commands. *)
Definition updateOnlineStatusAsync (userId : string) (online : bool) (s : HeartbeatService)
    : list event := if m_useRedis s then updateOnlineStatus userId online s else [].

Definition refreshOnlineStatusAsync (userId : string) (s : HeartbeatService) : list event :=
  if m_useRedis s then refreshOnlineStatus userId s else [].

Definition reportNodeAlive (s : HeartbeatService) : list event :=
  if m_useRedis s then
    [RedisSetex ("node:alive:" +:+ m_nodeId s) "1" (m_nodeAliveTtlSeconds s);
     RedisSetex ("node:connections:" +:+ m_nodeId s)
       (pretty (Z.of_nat (size (m_connections s)))) (m_nodeAliveTtlSeconds s)]
  else [].

Definition set_state (st : ConnectionHealthState) (h : ConnectionHealth) : ConnectionHealth :=
  mkHealth st (createdAtMs h) (lastHeartbeatAtMs h) (lastBlockedAtMs h) (authenticated h).

Definition onHeartbeat (conn : Conn) (now1 now2 : Z) (s : HeartbeatService)
    : HeartbeatService * list event :=
  let connId := connIdOf conn in
  let touched h :=
    let h := mkHealth (state h) (createdAtMs h) now2 (lastBlockedAtMs h) (authenticated h) in
    if authenticated h && negb (bool_decide (state h = BackPressured)) then set_state Active h else h in
  let s' := with_maps (<[connId := now1]> (m_lastHeartbeatTime s)) (m_connections s) (m_connToUser s)
              (match m_connectionHealth s !! connId with
               | Some h => <[connId := touched h]> (m_connectionHealth s)
               | None => m_connectionHealth s
               end) s in
  let userId := default "" (m_connToUser s !! connId) in
  (s', if bool_decide (userId = "") then [] else refreshOnlineStatusAsync userId s').

Definition onConnection (conn : Conn) (connected : bool) (now1 now2 : Z) (s : HeartbeatService)
    : HeartbeatService * list event :=
  let connId := connIdOf conn in
  if connected then
    (with_maps (<[connId := now1]> (m_lastHeartbeatTime s)) (<[connId := conn_obj conn]> (m_connections s))
       (m_connToUser s) (<[connId := mkHealth AuthPending now2 now2 0 false]> (m_connectionHealth s)) s, [])
  else
    (with_maps (delete connId (m_lastHeartbeatTime s)) (delete connId (m_connections s))
       (delete connId (m_connToUser s)) (delete connId (m_connectionHealth s)) s,
     match m_connToUser s !! connId with
     | Some userId => updateOnlineStatusAsync userId false s
     | None => []
     end).

Definition registerUserId (connId userId : string) (s : HeartbeatService)
    : HeartbeatService * list event :=
  (with_maps (m_lastHeartbeatTime s) (m_connections s) (<[connId := userId]> (m_connToUser s))
     (m_connectionHealth s) s, updateOnlineStatusAsync userId true s).

Definition onAuthenticated (conn : Conn) (userId : string) (now1 now2 : Z) (s : HeartbeatService)
    : HeartbeatService * list event :=
  let connId := connIdOf conn in
  let h := default newHealth (m_connectionHealth s !! connId) in
  let created := if createdAtMs h =? 0 then now1 else createdAtMs h in
  let s' := with_maps (m_lastHeartbeatTime s) (m_connections s) (<[connId := userId]> (m_connToUser s))
    (<[connId := mkHealth Active created now2 (lastBlockedAtMs h) true]> (m_connectionHealth s)) s in
  (s', updateOnlineStatusAsync userId true s' ++ reportNodeAlive s').

Definition onWriteBlocked (conn : Conn) (now : Z) (s : HeartbeatService) : HeartbeatService :=
  let connId := connIdOf conn in
  match m_connectionHealth s !! connId with
  | Some h => with_health (<[connId := mkHealth BackPressured (createdAtMs h) (lastHeartbeatAtMs h)
                                         now (authenticated h)]> (m_connectionHealth s)) s
  | None => s
  end.

Definition onBackPressureRecovered (conn : Conn) (s : HeartbeatService) : HeartbeatService :=
  let connId := connIdOf conn in
  match m_connectionHealth s !! connId with
  | Some h => with_health
      (<[connId := mkHealth (if authenticated h then Active else AuthPending) (createdAtMs h)
                     (lastHeartbeatAtMs h) 0 (authenticated h)]> (m_connectionHealth s)) s
  | None => s
  end.

Definition unregisterUserId (connId : string) (s : HeartbeatService) : HeartbeatService * list event :=
  match m_connToUser s !! connId with
  | None => (s, [])
  | Some userId =>
    (with_maps (m_lastHeartbeatTime s) (m_connections s) (delete connId (m_connToUser s))
       (match m_connectionHealth s !! connId with
        | Some h => <[connId := mkHealth Closing (createdAtMs h) (lastHeartbeatAtMs h)
                                  (lastBlockedAtMs h) false]> (m_connectionHealth s)
        | None => m_connectionHealth s
        end) s,
     updateOnlineStatusAsync userId false s)
  end.

(** [redis_exists]: the answer of [m_redisClient->exists(key)]. *)
Definition isUserOnline (redis_exists : string -> bool) (userId : string) (s : HeartbeatService) : bool :=
  if m_useRedis s then redis_exists (onlineKey userId)
  else existsb (fun kv => bool_decide (kv.2 = userId)) (map_to_list (m_connToUser s)).

(** The reason to kick a connection of health [h]; empty for none. *)
Definition kick_reason (s : HeartbeatService) (now : Z) (h : ConnectionHealth) : string :=
  let heartbeatTimeoutMs := m_timeoutSeconds s * 1000 in
  let authTimeoutMs := m_authTimeoutSeconds s * 1000 in
  let idleTimeoutMs := m_idleTimeoutSeconds s * 1000 in
  let slowConsumerKickMs := m_slowConsumerKickSeconds s * 1000 in
  if negb (authenticated h) && (authTimeoutMs <? now - createdAtMs h) then "auth timeout"
  else if bool_decide (state h = BackPressured) && (0 <? lastBlockedAtMs h)
          && (slowConsumerKickMs <? now - lastBlockedAtMs h) then "slow consumer"
  else if heartbeatTimeoutMs <? now - lastHeartbeatAtMs h then "heartbeat timeout"
  else if authenticated h && (heartbeatTimeoutMs <? idleTimeoutMs)
          && (idleTimeoutMs <? now - lastHeartbeatAtMs h) then "idle timeout"
  else "".

(** An entry of [toKick]. *)
Record kicked := mkKicked { k_connId : string; k_conn : ConnId; k_user : string; k_reason : string }.

Definition to_kick (s : HeartbeatService) (now : Z) : list kicked :=
  omap (fun '(connId, conn) =>
    match m_connectionHealth s !! connId with
    | None => None
    | Some h =>
      let reason := kick_reason s now h in
      if bool_decide (reason = "") then None
      else Some (mkKicked connId conn (default "" (m_connToUser s !! connId)) reason)
    end) (map_to_list (m_connections s)).

Definition erase_kicked (s : HeartbeatService) (k : kicked) : HeartbeatService :=
  with_maps (delete (k_connId k) (m_lastHeartbeatTime s)) (delete (k_connId k) (m_connections s))
    (delete (k_connId k) (m_connToUser s)) (delete (k_connId k) (m_connectionHealth s)) s.

Definition kick_events (s : HeartbeatService) (k : kicked) : list event :=
  (if bool_decide (k_reason k = "heartbeat timeout") then [IncCounter "im_heartbeat_timeout_total"] else [])
  ++ (if bool_decide (k_user k = "") then [] else updateOnlineStatusAsync (k_user k) false s)
  ++ (if m_kickCallback s then [Kick (k_conn k) (k_reason k)] else []).

Definition checkHeartbeat (now : Z) (s : HeartbeatService) : HeartbeatService * list event :=
  let l := to_kick s now in
  let s' := foldl erase_kicked s l in
  (s', l ≫= kick_events s').

(** One round of the thread [start] launches. *)
Definition check_round (now : Z) (s : HeartbeatService) : HeartbeatService * list event :=
  if m_running s then
    let '(s', es) := checkHeartbeat now s in (s', reportNodeAlive s ++ es)
  else (s, []).

(** ** Properties *)
Inductive op :=
| OpHeartbeat (c : Conn) (t1 t2 : Z)
| OpConnection (c : Conn) (up : bool) (t1 t2 : Z)
| OpRegister (connId userId : string)
| OpAuthenticated (c : Conn) (userId : string) (t1 t2 : Z)
| OpBlocked (c : Conn) (t : Z)
| OpRecovered (c : Conn)
| OpUnregister (connId : string)
| OpCheck (t : Z).

Definition step (s : HeartbeatService) (o : op) : HeartbeatService :=
  match o with
  | OpHeartbeat c t1 t2 => (onHeartbeat c t1 t2 s).1
  | OpConnection c up t1 t2 => (onConnection c up t1 t2 s).1
  | OpRegister c u => (registerUserId c u s).1
  | OpAuthenticated c u t1 t2 => (onAuthenticated c u t1 t2 s).1
  | OpBlocked c t => onWriteBlocked c t s
  | OpRecovered c => onBackPressureRecovered c s
  | OpUnregister c => (unregisterUserId c s).1
  | OpCheck t => (checkHeartbeat t s).1
  end.

(** The settings no operation of a run changes. *)
Definition same_settings (s s' : HeartbeatService) : Prop :=
  m_timeoutSeconds s' = m_timeoutSeconds s /\ m_authTimeoutSeconds s' = m_authTimeoutSeconds s
  /\ m_idleTimeoutSeconds s' = m_idleTimeoutSeconds s
  /\ m_slowConsumerKickSeconds s' = m_slowConsumerKickSeconds s
  /\ m_kickCallback s' = m_kickCallback s.

(** The maps after a check: the kicked connections are gone from all of them. *)
Lemma foldl_erase l s :
  (forall c, m_connections (foldl erase_kicked s l) !! c
     = if decide (c ∈ k_connId <$> l) then None else m_connections s !! c)
  /\ (forall c, m_connectionHealth (foldl erase_kicked s l) !! c
     = if decide (c ∈ k_connId <$> l) then None else m_connectionHealth s !! c)
  /\ (forall c, m_connToUser (foldl erase_kicked s l) !! c
     = if decide (c ∈ k_connId <$> l) then None else m_connToUser s !! c)
  /\ (forall c, m_lastHeartbeatTime (foldl erase_kicked s l) !! c
     = if decide (c ∈ k_connId <$> l) then None else m_lastHeartbeatTime s !! c)
  /\ same_settings s (foldl erase_kicked s l).
Proof.
  revert s. induction l as [|k l IH]; intros s.
  { splits; try done; intros c; rewrite decide_False; try done; by apply not_elem_of_nil. }
  destruct (IH (erase_kicked s k)) as (I1 & I2 & I3 & I4 & I5). simpl foldl.
  assert (D : forall (A : Type) (m m' : gmap string A) (c : string),
    m' !! c = (if decide (c ∈ k_connId <$> l) then None else delete (k_connId k) m !! c) ->
    m' !! c = (if decide (c ∈ k_connId <$> k :: l) then None else m !! c)).
  { intros A m m' c ->. rewrite fmap_cons. destruct (decide (c ∈ k_connId <$> l)) as [Hin|Hni].
    - rewrite decide_True; [done|]. by right.
    - rewrite lookup_delete. case_decide as Hk.
      + rewrite decide_True; [done|]. subst. by left.
      + rewrite decide_False; [done|]. rewrite not_elem_of_cons. naive_solver. }
  splits; [intros c; apply D, I1|intros c; apply D, I2|intros c; apply D, I3|intros c; apply D, I4|exact I5].
Qed.

Lemma elem_of_to_kick s now c :
  c ∈ k_connId <$> to_kick s now <->
  exists x h, m_connections s !! c = Some x /\ m_connectionHealth s !! c = Some h
    /\ kick_reason s now h <> "".
Proof.
  unfold to_kick. rewrite list_elem_of_fmap. split.
  - intros (k & -> & ([c' x] & Hin & Hk)%list_elem_of_omap). apply elem_of_map_to_list in Hin.
    destruct (m_connectionHealth s !! c') as [h|] eqn:Eh; [|done].
    case_bool_decide as Hr; [done|]. injection Hk as <-. simpl. eauto.
  - intros (x & h & Hc & Hh & Hr). eexists. split.
    2:{ apply list_elem_of_omap. exists (c, x). split; [by apply elem_of_map_to_list|].
        rewrite Hh. rewrite bool_decide_eq_false_2 by done. reflexivity. }
    done.
Qed.

Lemma elem_of_kick_events s k x r : Kick x r ∈ kick_events s k <-> m_kickCallback s = true /\ x = k_conn k /\ r = k_reason k.
Proof.
  unfold kick_events, updateOnlineStatusAsync, updateOnlineStatus. rewrite !elem_of_app. split.
  - intros [Hin|[Hin|Hin]].
    + case_bool_decide; [|by apply elem_of_nil in Hin]. by apply list_elem_of_singleton in Hin.
    + repeat case_match; try (by apply elem_of_nil in Hin); by apply list_elem_of_singleton in Hin.
    + destruct (m_kickCallback s); [|by apply elem_of_nil in Hin].
      apply list_elem_of_singleton in Hin. by injection Hin as -> ->.
  - intros (-> & -> & ->). right. right. by left.
Qed.

Lemma kick_events_of s now x r :
  Kick x r ∈ (checkHeartbeat now s).2 <->
  exists c h, m_connections s !! c = Some x /\ m_connectionHealth s !! c = Some h
    /\ kick_reason s now h = r /\ r <> "" /\ m_kickCallback s = true.
Proof.
  destruct (foldl_erase (to_kick s now) s) as (_ & _ & _ & _ & _ & _ & _ & _ & Hcb).
  unfold checkHeartbeat. simpl. rewrite list_elem_of_bind. split.
  - intros (k & Hk & Hin). apply elem_of_kick_events in Hk as (Hc & -> & ->). rewrite Hcb in Hc.
    unfold to_kick in Hin. apply list_elem_of_omap in Hin as ([c x] & Hin & Hk).
    apply elem_of_map_to_list in Hin. destruct (m_connectionHealth s !! c) as [h|] eqn:Eh; [|done].
    case_bool_decide; [done|]. injection Hk as <-. simpl. eauto 10.
  - intros (c & h & Hx & Hh & Hr & Hne & Hc).
    exists (mkKicked c x (default "" (m_connToUser s !! c)) r). split.
    + apply elem_of_kick_events. simpl. by rewrite Hcb.
    + unfold to_kick. apply list_elem_of_omap. exists (c, x). split; [by apply elem_of_map_to_list|].
      rewrite Hh, Hr. by rewrite bool_decide_eq_false_2.
Qed.

(** *** When a connection is due to be kicked
    The specification reads the history of a descriptor, not the service's
    records: [since c ops] is the connection that last came up at descriptor
    [c], the time it did, and what was called from then on. *)
Definition life (c : string) (acc : option (Conn * Z * list op)) (o : op)
    : option (Conn * Z * list op) :=
  let next := (fun '(d, t0, l) => (d, t0, l ++ [o])) <$> acc in
  match o with
  | OpConnection d up _ t =>
    if decide (connIdOf d = c) then if up then Some (d, t, []) else None else next
  | _ => next
  end.

Definition since (c : string) (ops : list op) : option (Conn * Z * list op) :=
  fold_left (life c) ops None.

(** The last of the facts [f] finds in a history. *)
Definition latest {A} (f : op -> option A) (l : list op) : option A := last (omap f l).

(** The client logged in. *)
Definition login_at (c : string) (o : op) : option unit :=
  match o with
  | OpAuthenticated d _ _ _ => if decide (connIdOf d = c) then Some tt else None
  | _ => None
  end.

(** The client was heard: it logged in or sent a heartbeat. *)
Definition heard_at (c : string) (o : op) : option Z :=
  match o with
  | OpHeartbeat d _ t | OpAuthenticated d _ _ t => if decide (connIdOf d = c) then Some t else None
  | _ => None
  end.

(** The client's output blocked at a time, or no longer. *)
Definition pressure_at (c : string) (o : op) : option (option Z) :=
  match o with
  | OpBlocked d t => if decide (connIdOf d = c) then Some (Some t) else None
  | OpRecovered d | OpAuthenticated d _ _ _ => if decide (connIdOf d = c) then Some None else None
  | _ => None
  end.

Definition logged_in (c : string) (l : list op) : bool := bool_decide (is_Some (latest (login_at c) l)).
Definition last_heard (c : string) (t0 : Z) (l : list op) : Z := default t0 (latest (heard_at c) l).
Definition blocked_since (c : string) (l : list op) : option Z := mjoin (latest (pressure_at c) l).

Section due.
Context (s : HeartbeatService) (c : string) (t0 : Z) (l : list op) (now : Z).

Definition login_overdue : Prop :=
  logged_in c l = false /\ t0 + 1000 * m_authTimeoutSeconds s < now.
Definition output_stuck : Prop :=
  exists b, blocked_since c l = Some b /\ 0 < b /\ b + 1000 * m_slowConsumerKickSeconds s < now.
Definition silent_too_long : Prop := last_heard c t0 l + 1000 * m_timeoutSeconds s < now.

Inductive due : string -> Prop :=
| due_login : login_overdue -> due "auth timeout"
| due_stuck : ~ login_overdue -> output_stuck -> due "slow consumer"
| due_silent : ~ login_overdue -> ~ output_stuck -> silent_too_long -> due "heartbeat timeout".
End due.

(** No check of the history [l] found the connection due. *)
Definition spared (s : HeartbeatService) (c : string) (t0 : Z) (l : list op) : Prop :=
  forall pre t post r, l = pre ++ OpCheck t :: post -> ~ due s c t0 pre t r.

Lemma latest_snoc {A} (f : op -> option A) l o :
  latest f (l ++ [o]) = match f o with Some x => Some x | None => latest f l end.
Proof.
  unfold latest. rewrite omap_app. simpl. destruct (f o) as [x|]; [by rewrite last_snoc|].
  by rewrite app_nil_r.
Qed.

Lemma since_snoc c ops o : since c (ops ++ [o]) = life c (since c ops) o.
Proof. unfold since. by rewrite fold_left_app. Qed.

(** What the health record of a connection says of its history. *)
Definition facts (c : string) (t0 : Z) (l : list op) (h : ConnectionHealth) : Prop :=
  authenticated h = logged_in c l
  /\ (logged_in c l = false -> createdAtMs h = t0)
  /\ lastHeartbeatAtMs h = last_heard c t0 l
  /\ (forall b, blocked_since c l = Some b <-> state h = BackPressured /\ lastBlockedAtMs h = b).

Lemma kick_reason_due s0 s c t0 l now h r :
  same_settings s0 s -> facts c t0 l h ->
  (kick_reason s now h = r /\ r <> "") <-> due s0 c t0 l now r.
Proof.
  intros (S1 & S2 & S3 & S4 & _) (F1 & F2 & F3 & F4).
  assert (L : login_overdue s0 c t0 l now <->
    negb (authenticated h) && (m_authTimeoutSeconds s * 1000 <? now - createdAtMs h) = true).
  { unfold login_overdue. rewrite F1, S2, andb_true_iff, negb_true_iff, Z.ltb_lt.
    split; intros [Hl Ht]; specialize (F2 Hl); split; try done; lia. }
  assert (B : output_stuck s0 c l now <->
    bool_decide (state h = BackPressured) && (0 <? lastBlockedAtMs h)
      && (m_slowConsumerKickSeconds s * 1000 <? now - lastBlockedAtMs h) = true).
  { unfold output_stuck. rewrite S4, !andb_true_iff, bool_decide_eq_true, !Z.ltb_lt. split.
    - intros (b & [Hs Hb]%F4 & Hp & Ht). splits; [done|lia..].
    - intros [[Hs Hp] Ht]. exists (lastBlockedAtMs h). splits; [by apply F4|lia..]. }
  assert (Q : silent_too_long s0 c t0 l now <->
    (m_timeoutSeconds s * 1000 <? now - lastHeartbeatAtMs h) = true).
  { unfold silent_too_long. rewrite Z.ltb_lt. lia. }
  unfold kick_reason.
  destruct (negb (authenticated h) && _) eqn:E1.
  { split; [intros [<- _]; constructor; by apply L|].
    intros Hd. destruct Hd as [|Hn|Hn]; [done|exfalso; apply Hn; by apply L..]. }
  destruct (_ && (_ <? now - lastBlockedAtMs h)) eqn:E2.
  { split; [intros [<- _]; constructor; [rewrite L; congruence|by apply B]|].
    intros Hd. destruct Hd as [Hl|_ _|_ Hn _]; [exfalso; apply L in Hl; congruence|done|].
    exfalso. apply Hn. by apply B. }
  destruct (_ <? now - lastHeartbeatAtMs h) eqn:E3.
  { split; [intros [<- _]; constructor; [rewrite L; congruence|rewrite B; congruence|by apply Q]|].
    intros Hd. destruct Hd as [Hl|_ Hb|]; [exfalso; apply L in Hl; congruence
      |exfalso; apply B in Hb; congruence|done]. }
  split.
  - intros [Hr Hne]. exfalso. destruct (authenticated h && _ && _) eqn:E4; [b2p; lia|by subst].
  - intros Hd. exfalso. destruct Hd as [Hl|_ Hb|_ _ Hq];
      [apply L in Hl|apply B in Hb|apply Q in Hq]; congruence.
Qed.

(** A call that is no login, heartbeat or pressure report of [c] changes no fact. *)
Lemma facts_other c t0 l h o :
  facts c t0 l h -> login_at c o = None -> heard_at c o = None -> pressure_at c o = None ->
  facts c t0 (l ++ [o]) h.
Proof.
  intros Hf N1 N2 N3. unfold facts, logged_in, last_heard, blocked_since.
  by rewrite !latest_snoc, N1, N2, N3.
Qed.

(** The health record of a tracked connection follows its history. *)
Lemma step_facts s o c t0 l h :
  m_connectionHealth s !! c = Some h -> facts c t0 l h -> OpUnregister c <> o ->
  (forall d up t1 t2, o = OpConnection d up t1 t2 -> connIdOf d <> c) ->
  (forall t, o <> OpCheck t) ->
  exists h', m_connectionHealth (step s o) !! c = Some h' /\ facts c t0 (l ++ [o]) h'.
Proof.
  intros Hh Hf Hu Hc Hk. pose proof Hf as (F1 & F2 & F3 & F4).
  assert (Same : m_connectionHealth (step s o) !! c = Some h -> login_at c o = None ->
    heard_at c o = None -> pressure_at c o = None ->
    exists h', m_connectionHealth (step s o) !! c = Some h' /\ facts c t0 (l ++ [o]) h').
  { intros. exists h. split; [done|]. by apply facts_other. }
  destruct o as [d t1 t2|d up t1 t2|d u|d u t1 t2|d t|d|d|t]; try (by exfalso; eapply Hk).
  - destruct (decide (connIdOf d = c)) as [<-|Hne].
    + unfold step, onHeartbeat. cbn [m_connectionHealth with_maps fst]. rewrite Hh, lookup_insert_eq.
      eexists. split; [done|].
      unfold facts, logged_in, last_heard, blocked_since in *. rewrite !latest_snoc. simpl.
      rewrite !decide_True by done. simpl.
      case_match eqn:Ea; simpl; splits; try done.
      all: intros b; rewrite F4; simpl; b2p; naive_solver.
    + apply Same; simpl; [|by rewrite ?decide_False..]. destruct (m_connectionHealth s !! connIdOf d);
        [by rewrite lookup_insert_ne|done].
  - assert (Hne : connIdOf d <> c) by (by eapply Hc).
    apply Same; try done. simpl. destruct up; simpl; [by rewrite lookup_insert_ne|by rewrite lookup_delete_ne].
  - by apply Same.
  - destruct (decide (connIdOf d = c)) as [<-|Hne].
    + simpl. rewrite Hh, lookup_insert_eq. eexists. split; [done|].
      unfold facts, logged_in, last_heard, blocked_since. rewrite !latest_snoc. simpl.
      rewrite !decide_True by done. rewrite bool_decide_eq_true_2 by done.
      simpl. splits; try done. intros b; split; [done|by intros [? _]].
    + apply Same; simpl; [|by rewrite ?decide_False..]. by rewrite lookup_insert_ne.
  - destruct (decide (connIdOf d = c)) as [<-|Hne].
    + simpl. unfold onWriteBlocked. rewrite Hh. simpl. rewrite lookup_insert_eq. eexists. split; [done|].
      unfold facts, logged_in, last_heard, blocked_since in *. rewrite !latest_snoc. simpl.
      rewrite !decide_True by done. simpl. splits; try done. intros b; split; [by intros [= ->]|by intros [_ ->]].
    + apply Same; simpl; [|by rewrite ?decide_False..]. unfold onWriteBlocked.
      destruct (m_connectionHealth s !! connIdOf d); [|done]. simpl. by rewrite lookup_insert_ne.
  - destruct (decide (connIdOf d = c)) as [<-|Hne].
    + simpl. unfold onBackPressureRecovered. rewrite Hh. simpl. rewrite lookup_insert_eq. eexists. split; [done|].
      unfold facts, logged_in, last_heard, blocked_since in *. rewrite !latest_snoc. simpl.
      rewrite !decide_True by done. simpl. splits; try done.
      intros b; split; [done|]. intros [Hs _]. by destruct (authenticated h).
    + apply Same; simpl; [|by rewrite ?decide_False..]. unfold onBackPressureRecovered.
      destruct (m_connectionHealth s !! connIdOf d); [|done]. simpl. by rewrite lookup_insert_ne.
  - apply Same; try done. simpl. unfold unregisterUserId.
    destruct (m_connToUser s !! d); [|done]. simpl. destruct (m_connectionHealth s !! d); [|done].
    rewrite lookup_insert_ne; [done|]. congruence.
Qed.
Lemma same_settings_trans s s1 s2 :
  same_settings s s1 -> same_settings s1 s2 -> same_settings s s2.
Proof.
  intros (A1 & A2 & A3 & A4 & A5) (B1 & B2 & B3 & B4 & B5). unfold same_settings.
  by rewrite B1, B2, B3, B4, B5, A1, A2, A3, A4, A5.
Qed.

Lemma step_settings s o : same_settings s (step s o).
Proof.
  destruct o as [d t1 t2|d up t1 t2|d u|d u t1 t2|d t|d|d|t]; simpl; try done.
  - by destruct up.
  - unfold onWriteBlocked. by destruct (m_connectionHealth s !! connIdOf d).
  - unfold onBackPressureRecovered. by destruct (m_connectionHealth s !! connIdOf d).
  - unfold unregisterUserId. by destruct (m_connToUser s !! d).
  - unfold checkHeartbeat. simpl. apply foldl_erase.
Qed.

Lemma run_settings ops s : same_settings s (fold_left step ops s).
Proof.
  induction ops as [|o ops IH] using rev_ind; [done|]. rewrite fold_left_app. simpl.
  eapply same_settings_trans; [exact IH|apply step_settings].
Qed.

(** The connection a service tracks at [c], and its record, against the
    history of [c]. *)
Definition tracks (s0 s : HeartbeatService) (c : string) (e : option (Conn * Z * list op)) : Prop :=
  match e with
  | None => m_connections s !! c = None
  | Some (d, t0, l) =>
    (m_connections s !! c = None /\ ~ spared s0 c t0 l)
    \/ (m_connections s !! c = Some (conn_obj d) /\ spared s0 c t0 l
        /\ exists h, m_connectionHealth s !! c = Some h /\ facts c t0 l h)
  end.

Lemma spared_snoc s0 c t0 l o :
  spared s0 c t0 (l ++ [o]) <->
  spared s0 c t0 l /\ forall t r, o = OpCheck t -> ~ due s0 c t0 l t r.
Proof.
  split.
  - intros Hs. split.
    + intros pre t post r ->. eapply Hs. by rewrite <- app_assoc.
    + intros t r ->. by eapply (Hs l t []).
  - intros [Hs Ho] pre t post r Heq. destruct post as [|o' post _] using rev_ind.
    + apply app_inj_tail in Heq as [<- ->]. by apply Ho.
    + rewrite app_comm_cons, app_assoc in Heq. apply app_inj_tail in Heq as [-> ->]. by eapply Hs.
Qed.

Lemma step_conns s o c :
  (forall d up t1 t2, o = OpConnection d up t1 t2 -> connIdOf d <> c) ->
  (forall t, o <> OpCheck t) -> m_connections (step s o) !! c = m_connections s !! c.
Proof.
  intros Hc Hk. destruct o as [d t1 t2|d up t1 t2|d u|d u t1 t2|d t|d|d|t]; simpl; try done.
  - assert (connIdOf d <> c) by (by eapply Hc).
    destruct up; simpl; [by rewrite lookup_insert_ne|by rewrite lookup_delete_ne].
  - unfold onWriteBlocked. by destruct (m_connectionHealth s !! connIdOf d).
  - unfold onBackPressureRecovered. by destruct (m_connectionHealth s !! connIdOf d).
  - unfold unregisterUserId. by destruct (m_connToUser s !! d).
  - by destruct (Hk t).
Qed.

(** What a check does to the four entries of a tracked connection. *)
Lemma check_entries s now c x h :
  m_connections s !! c = Some x -> m_connectionHealth s !! c = Some h ->
  let s' := (checkHeartbeat now s).1 in
  if decide (kick_reason s now h = "")
  then m_connections s' !! c = Some x /\ m_connectionHealth s' !! c = Some h
       /\ m_connToUser s' !! c = m_connToUser s !! c
       /\ m_lastHeartbeatTime s' !! c = m_lastHeartbeatTime s !! c
  else m_connections s' !! c = None /\ m_connectionHealth s' !! c = None
       /\ m_connToUser s' !! c = None /\ m_lastHeartbeatTime s' !! c = None.
Proof.
  intros Hc Hh s'. destruct (foldl_erase (to_kick s now) s) as (F1 & F2 & F3 & F4 & _).
  unfold s', checkHeartbeat. simpl. rewrite F1, F2, F3, F4. case_decide as Hr.
  - rewrite !decide_False; [done|..]; rewrite elem_of_to_kick; intros (x' & h' & _ & Hh' & Hr');
      by assert (h' = h) as -> by congruence.
  - by rewrite !decide_True by (apply elem_of_to_kick; eauto).
Qed.

Lemma step_tracks s0 s c e o :
  same_settings s0 s -> tracks s0 s c e -> OpUnregister c <> o -> tracks s0 (step s o) c (life c e o).
Proof.
  intros Hset Ht Hu.
  assert (Next : (forall d up t1 t2, o = OpConnection d up t1 t2 -> connIdOf d <> c) ->
    (forall t, o <> OpCheck t) ->
    tracks s0 (step s o) c ((fun '(d, t0, l) => (d, t0, l ++ [o])) <$> e)).
  { intros Hc Hk. destruct e as [[[d t0] l]|]; simpl in *; rewrite step_conns by done; [|done].
    rewrite spared_snoc. destruct Ht as [[Hn Hs]|(Hx & Hs & h & Hh & Hf)].
    - left. naive_solver.
    - right. splits; [done|done|intros t r ->; by destruct (Hk t)|by eapply step_facts]. }
  destruct o as [d t1 t2|d up t1 t2|d u|d u t1 t2|d t|d|d|t]; simpl life; try (by apply Next).
  - case_decide as Hd; [|apply Next; naive_solver]. subst c. destruct up; simpl.
    + right. rewrite !lookup_insert_eq. splits; [done| |eexists; split; [done|]].
      * intros pre ???. by destruct pre.
      * unfold facts. splits; try done. intros b; split; [done|by intros [? _]].
    + by rewrite lookup_delete_eq.
  - destruct (foldl_erase (to_kick s t) s) as (F1 & _).
    destruct e as [[[d t0] l]|]; simpl in *.
    2:{ unfold checkHeartbeat. simpl. rewrite F1. by case_decide. }
    rewrite spared_snoc. destruct Ht as [[Hn Hs]|(Hx & Hs & h & Hh & Hf)].
    { left. split; [|naive_solver]. unfold checkHeartbeat. simpl. rewrite F1. by case_decide. }
    pose proof (kick_reason_due s0 s c t0 l t h) as Hdue.
    pose proof (check_entries s t c (conn_obj d) h Hx Hh) as Hent. simpl in Hent.
    case_decide as Hr; destruct Hent as (E1 & E2 & _).
    + right. splits; [done|done| |].
      * intros t' r [= <-] Hd. apply Hdue in Hd as [Hr' Hne]; [congruence|done..].
      * exists h. split; [done|]. by apply facts_other.
    + left. split; [done|]. intros [_ Hno]. eapply (Hno t (kick_reason s t h)); [done|].
      apply Hdue; done.
Qed.

Definition fresh (s : HeartbeatService) : Prop := m_connections s = ∅.

Lemma run_tracks ops s0 c :
  fresh s0 -> OpUnregister c ∉ ops -> tracks s0 (fold_left step ops s0) c (since c ops).
Proof.
  intros Hf. induction ops as [|o ops IH] using rev_ind; intros Hu.
  { simpl. rewrite Hf. apply lookup_empty. }
  rewrite since_snoc, fold_left_app. simpl. apply not_elem_of_app in Hu as [Hu Ho].
  apply step_tracks; [apply run_settings|by apply IH|]. intros <-. apply Ho. by left.
Qed.

(** C25: Who is kicked, read off the history alone.  In a service that started
    without connections, the descriptors tracked are exactly those where a
    connection came up, was not taken down, and no check since found it due; and a
    check kicks a tracked connection exactly when it is due: not logged in within
    the authentication timeout of coming up; else, its output blocked for longer
    than the slow-consumer limit with no recovery or login since; else, neither a
    heartbeat nor a login heard (nor the connection made) within the heartbeat
    timeout.  A kicked connection leaves all four maps and the kick callback gets
    it with that reason; the entries of every other tracked connection stay; and
    there is no other kick.  (The history holds no call of [unregisterUserId],
    which would make a connection wait for its login again; no code calls it.) *)
Theorem check_kicks_exactly_expired ops s0 now :
  fresh s0 -> (forall c, OpUnregister c ∉ ops) ->
  let s := fold_left step ops s0 in
  let s' := (checkHeartbeat now s).1 in
  let es := (checkHeartbeat now s).2 in
  (forall c x, m_connections s !! c = Some x <->
     exists d t0 l, since c ops = Some (d, t0, l) /\ x = conn_obj d /\ spared s0 c t0 l)
  /\ (forall c d t0 l x, since c ops = Some (d, t0, l) -> m_connections s !! c = Some x ->
       (forall r, due s0 c t0 l now r ->
          m_connections s' !! c = None /\ m_connectionHealth s' !! c = None
          /\ m_connToUser s' !! c = None /\ m_lastHeartbeatTime s' !! c = None
          /\ (m_kickCallback s0 = true -> Kick x r ∈ es))
       /\ ((forall r, ~ due s0 c t0 l now r) ->
          m_connections s' !! c = Some x
          /\ m_connectionHealth s' !! c = m_connectionHealth s !! c
          /\ m_connToUser s' !! c = m_connToUser s !! c
          /\ m_lastHeartbeatTime s' !! c = m_lastHeartbeatTime s !! c))
  /\ (forall x r, Kick x r ∈ es ->
       exists c d t0 l, since c ops = Some (d, t0, l) /\ m_connections s !! c = Some x
         /\ due s0 c t0 l now r).
Proof.
  intros Hf Hu s s' es.
  assert (Ht : forall c, tracks s0 s c (since c ops)) by (intros c; by apply run_tracks).
  pose proof (run_settings ops s0 : same_settings s0 s) as Hset.
  assert (Htr : forall c x, m_connections s !! c = Some x ->
    exists d t0 l h, since c ops = Some (d, t0, l) /\ x = conn_obj d /\ spared s0 c t0 l
      /\ m_connectionHealth s !! c = Some h /\ facts c t0 l h).
  { intros c x Hx. specialize (Ht c). destruct (since c ops) as [[[d t0] l]|]; simpl in Ht; [|congruence].
    destruct Ht as [[Hn _]|(Hx' & Hs & h & Hh & Hfa)]; [congruence|].
    exists d, t0, l, h. splits; try done. congruence. }
  splits.
  - intros c x. split; [intros Hx; destruct (Htr c x Hx) as (d & t0 & l & h & ? & ? & ? & _); eauto 10|].
    intros (d & t0 & l & Hsi & -> & Hsp). specialize (Ht c). rewrite Hsi in Ht.
    destruct Ht as [[_ Hn]|(Hx & _)]; [by destruct Hn|done].
  - intros c d t0 l x Hsi Hx. destruct (Htr c x Hx) as (d' & t0' & l' & h & Hsi' & -> & _ & Hh & Hfa).
    rewrite Hsi in Hsi'. injection Hsi' as <- <- <-.
    pose proof (check_entries s now c _ h Hx Hh) as Hent. simpl in Hent. fold s' in Hent.
    split.
    + intros r Hd. apply (kick_reason_due s0 s c t0 l now h r) in Hd as [Hr Hne]; [|done..].
      rewrite decide_False in Hent by congruence. destruct Hent as (E1 & E2 & E3 & E4). splits; try done.
      intros Hcb. apply kick_events_of. exists c, h. splits; try done.
      destruct Hset as (_ & _ & _ & _ & ->). done.
    + intros Hno. rewrite decide_True in Hent; [by rewrite Hh|].
      destruct (decide (kick_reason s now h = "")) as [|Hne]; [done|exfalso].
      eapply (Hno (kick_reason s now h)), kick_reason_due; done.
  - intros x r (c & h & Hx & Hh & Hr & Hne & _)%kick_events_of.
    destruct (Htr c x Hx) as (d & t0 & l & h' & Hsi & _ & _ & Hh' & Hfa).
    assert (h' = h) as -> by congruence. exists c, d, t0, l. splits; try done.
    by eapply kick_reason_due.
Qed.

(** A live client is not kicked: an authenticated connection without back
    pressure that sends a heartbeat survives every check of the following
    timeout period. *)
Lemma heartbeat_keeps_alive conn x h t1 t2 now s :
  m_connections s !! connIdOf conn = Some x -> m_connectionHealth s !! connIdOf conn = Some h ->
  authenticated h = true -> state h <> BackPressured -> now - t2 <= m_timeoutSeconds s * 1000 ->
  let s1 := (onHeartbeat conn t1 t2 s).1 in
  m_connections (checkHeartbeat now s1).1 !! connIdOf conn = Some x
  /\ (forall r, Kick x r ∈ (checkHeartbeat now s1).2 ->
        exists c, c <> connIdOf conn /\ m_connections s1 !! c = Some x).
Proof.
  intros Hc Hh Ha Hst Hnow s1.
  set (h1 := mkHealth Active (createdAtMs h) t2 (lastBlockedAtMs h) true).
  assert (Hc1 : m_connections s1 !! connIdOf conn = Some x) by done.
  assert (Hh1 : m_connectionHealth s1 !! connIdOf conn = Some h1).
  { unfold s1, onHeartbeat. simpl. rewrite Hh, lookup_insert_eq, Ha.
    rewrite bool_decide_eq_false_2 by done. done. }
  assert (Hr : kick_reason s1 now h1 = "").
  { unfold kick_reason, h1. simpl. rewrite (proj2 (Z.ltb_ge _ _)) by lia.
    destruct (m_timeoutSeconds s * 1000 <? m_idleTimeoutSeconds s * 1000) eqn:E; [|done].
    b2p. simpl. by rewrite (proj2 (Z.ltb_ge _ _)) by lia. }
  destruct (foldl_erase (to_kick s1 now) s1) as (F1 & _).
  assert (Hnk : connIdOf conn ∉ k_connId <$> to_kick s1 now).
  { rewrite elem_of_to_kick. intros (x' & h' & _ & Hh' & Hr').
    by assert (h' = h1) as -> by congruence. }
  split.
  - unfold checkHeartbeat. simpl. rewrite F1. by rewrite decide_False.
  - intros r Hin. unfold checkHeartbeat in Hin. simpl in Hin.
    apply list_elem_of_bind in Hin as (k & Hk & Hin). apply elem_of_kick_events in Hk as (_ & Hx & _).
    exists (k_connId k).
    assert (Hki : k_connId k ∈ k_connId <$> to_kick s1 now) by (by apply list_elem_of_fmap_2).
    split; [congruence|].
    unfold to_kick in Hin. apply list_elem_of_omap in Hin as ([c' x'] & Hin & Hk).
    apply elem_of_map_to_list in Hin. destruct (m_connectionHealth s1 !! c') as [h'|]; [|done].
    case_bool_decide; [done|]. injection Hk as <-. simpl in *. by subst.
Qed.

(** The reason "idle timeout" is never given: a connection silent for
    longer than the idle timeout, which must exceed the heartbeat timeout, was
    already caught as a heartbeat timeout. *)
Lemma idle_timeout_unreachable s now h : kick_reason s now h <> "idle timeout".
Proof.
  unfold kick_reason. repeat case_if; try done. b2p. lia.
Qed.

(** *** Witnesses *)
Definition ex_conn : Conn := mkConn 1%nat 7.
Definition ex_ops : list op :=
  [OpConnection ex_conn true 1000 1000; OpAuthenticated ex_conn "bob" 1500 1500;
   OpConnection (mkConn 2%nat 8) true 2000 2000].


Definition ex_service : HeartbeatService :=
  mkHeartbeat 30 10 ∅ ∅ ∅ ∅ false "single-node" 15 10 300 30 false true.

Lemma ex_ops_no_unregister c : OpUnregister c ∉ ex_ops.
Proof. unfold ex_ops. rewrite !not_elem_of_cons, elem_of_nil. naive_solver. Qed.

(** The second connection, up at 2000 and never logged in, is due at 20000
    and kicked; the first, logged in at 1500, is not. *)
Lemma check_kicks_exactly_expired_witness :
  let s := fold_left step ex_ops ex_service in
  Kick 2%nat "auth timeout" ∈ (checkHeartbeat 20000 s).2
  /\ m_connections (checkHeartbeat 20000 s).1 !! "8" = None
  /\ m_lastHeartbeatTime (checkHeartbeat 20000 s).1 !! "8" = None
  /\ m_connections (checkHeartbeat 20000 s).1 !! "7" = Some 1%nat.
Proof.
  intros s.
  destruct (check_kicks_exactly_expired ex_ops ex_service 20000 eq_refl ex_ops_no_unregister)
    as (_ & Hk & _).
  destruct (Hk "8" (mkConn 2%nat 8) 2000 [] 2%nat eq_refl) as [H8 _]; [vm_compute; reflexivity|].
  destruct (Hk "7" ex_conn 1000 (tail ex_ops) 1%nat eq_refl) as [_ H7]; [vm_compute; reflexivity|].
  destruct (H8 "auth timeout") as (E1 & _ & _ & E4 & E5).
  { constructor. split; [reflexivity|simpl; lia]. }
  splits; [exact (E5 eq_refl)|exact E1|exact E4|].
  apply H7. intros r Hd. destruct Hd as [[Hl _]|_ (b & Hb & _)|_ _ Hq].
  - vm_compute in Hl. discriminate Hl.
  - vm_compute in Hb. discriminate Hb.
  - vm_compute in Hq. discriminate Hq.
Defined.

Lemma heartbeat_keeps_alive_witness :
  m_connections (checkHeartbeat 50000
    (onHeartbeat ex_conn 25000 25000 (fold_left step ex_ops (newHeartbeat 30 10))).1).1 !! "7" = Some 1%nat.
Proof.
  refine (proj1 (heartbeat_keeps_alive ex_conn 1%nat (mkHealth Active 1000 1500 0 true) 25000 25000 50000
    (fold_left step ex_ops (newHeartbeat 30 10)) _ _ _ _ _)); try (vm_compute; reflexivity); done.
Defined.

End heartbeat.
