(* ===== verification/Auth.v ===== *)
(** * AuthService and RoutingService
      (src/service/authService.cpp, src/service/routingService.cpp,
       the interface of src/storage/sessionRepository.h)

    A [UserContext] is shared: both maps of the service hold the same pointer,
    and [bindSessionToNode] writes through it, so contexts live in a heap.
    Redis and the session table are reached through the interfaces [Redis] and
    [SessionRepository] over a state of their own.  [None] as the result of an
    operation is an exception (a context that the JSON library cannot dump). *)
From stdpp Require Import pretty.
From S2P Require Import Prelude Serializer Heartbeat.
Import serializer heartbeat.

Module auth.

Record SessionRecord := mkSessionRecord {
  sr_sessionId : string;
  sr_userId : string;
  sr_deviceId : string;
  sr_serverNodeId : string;
  sr_lastAckedSeq : Z;
  sr_createdAtMs : Z;
  sr_expiresAtMs : Z;
}.

(** The commands of the Redis client the services use. *)
Class Redis (R : Type) := {
  redis_isConnected : R -> bool;
  redis_get : string -> R -> string * R;
  redis_setex : string -> string -> Z -> R -> bool * R;
  redis_del : string -> R -> bool * R;
}.

(** [Some e]: the call failed with error [e]. *)
Class SessionRepository (P : Type) := {
  createSession : SessionRecord -> P -> option string * P;
  deleteSession : string -> P -> option string * P;
  findBySessionId : string -> P -> (option SessionRecord * string) * P;
}.

Record UserContext := mkContext {
  u_userId : string;
  u_sessionId : string;
  u_deviceId : string;
  u_nodeId : string;
  u_loginTime : Z;
  u_authenticated : bool;
}.

Definition newContext : UserContext := mkContext "" "" "" "" 0 false.

Definition set_node (node : string) (c : UserContext) : UserContext :=
  mkContext (u_userId c) (u_sessionId c) (u_deviceId c) node (u_loginTime c) (u_authenticated c).

Record AuthService := mkAuth {
  heap : gmap nat UserContext;
  next_ptr : nat;
  m_connToUser : gmap string nat;
  m_userToContext : gmap string nat;
  m_nodeId : string;
  m_sessionExpire : Z;
  m_useRedis : bool;
  m_hasSessionRepository : bool;
}.

Definition newAuth (useRedis hasRepo : bool) : AuthService :=
  mkAuth ∅ 0 ∅ ∅ "single-node" 86400 useRedis hasRepo.

Definition with_heap (h : gmap nat UserContext) (s : AuthService) : AuthService :=
  mkAuth h (next_ptr s) (m_connToUser s) (m_userToContext s) (m_nodeId s) (m_sessionExpire s)
    (m_useRedis s) (m_hasSessionRepository s).

Definition with_maps (conns users : gmap string nat) (s : AuthService) : AuthService :=
  mkAuth (heap s) (next_ptr s) conns users (m_nodeId s) (m_sessionExpire s)
    (m_useRedis s) (m_hasSessionRepository s).

Definition setNodeId (node : string) (s : AuthService) : AuthService :=
  mkAuth (heap s) (next_ptr s) (m_connToUser s) (m_userToContext s) node (m_sessionExpire s)
    (m_useRedis s) (m_hasSessionRepository s).

Definition setSessionExpire (seconds : Z) (s : AuthService) : AuthService :=
  mkAuth (heap s) (next_ptr s) (m_connToUser s) (m_userToContext s) (m_nodeId s) seconds
    (m_useRedis s) (m_hasSessionRepository s).

Definition validateToken (userId token : string) : bool :=
  if bool_decide (userId = "") || bool_decide (token = "") then false
  else bool_decide (token = "valid_token_" +:+ userId).

(** [std::hex]: digits of a non-negative number, most significant first. *)
Definition hex_digit (d : Z) : ascii := byte_of (if d <? 10 then 48 + d else 87 + d).
Fixpoint hex_digits (fuel : nat) (z : Z) (acc : bytes) : bytes :=
  match fuel with
  | O => acc
  | S f => let acc := hex_digit (z mod 16) :: acc in
           if z / 16 =? 0 then acc else hex_digits f (z / 16) acc
  end.
Definition hex (z : Z) : string := str (hex_digits 16 (u64 z) []).

(** [rand]: the number drawn from the generator. *)
Definition generateSessionId (rand timestamp : Z) : string := hex timestamp +:+ "-" +:+ hex rand.

Section Auth.
Context `{JsonLib} {R P : Type} `{Redis R} `{SessionRepository P}.

Record World := mkWorld { auth : AuthService; redis : R; repo : P }.

Definition serializeSession (context : UserContext) : option string :=
  dump (build [("userId", jstr (u_userId context)); ("sessionId", jstr (u_sessionId context));
               ("deviceId", jstr (u_deviceId context)); ("nodeId", jstr (u_nodeId context));
               ("loginTime", jint I64 (u_loginTime context));
               ("authenticated", jbool (u_authenticated context))]).

Definition deserializeSession (data : string) (c : UserContext) : outcome UserContext :=
  j <~ parse data or c ;;
  x <~ jvalue_string j "userId" "" or c ;;
  let c := mkContext x (u_sessionId c) (u_deviceId c) (u_nodeId c) (u_loginTime c) (u_authenticated c) in
  x <~ jvalue_string j "sessionId" "" or c ;;
  let c := mkContext (u_userId c) x (u_deviceId c) (u_nodeId c) (u_loginTime c) (u_authenticated c) in
  x <~ jvalue_string j "deviceId" "" or c ;;
  let c := mkContext (u_userId c) (u_sessionId c) x (u_nodeId c) (u_loginTime c) (u_authenticated c) in
  x <~ jvalue_string j "nodeId" "" or c ;;
  let c := mkContext (u_userId c) (u_sessionId c) (u_deviceId c) x (u_loginTime c) (u_authenticated c) in
  x <~ jvalue_int I64 j "loginTime" 0 or c ;;
  let c := mkContext (u_userId c) (u_sessionId c) (u_deviceId c) (u_nodeId c) x (u_authenticated c) in
  x <~ jvalue_bool j "authenticated" false or c ;;
  Done true (mkContext (u_userId c) (u_sessionId c) (u_deviceId c) (u_nodeId c) (u_loginTime c) x).

Definition with_auth (a : AuthService) (w : World) : World := mkWorld a (redis w) (repo w).
Definition with_redis (r : R) (w : World) : World := mkWorld (auth w) r (repo w).
Definition with_repo (p : P) (w : World) : World := mkWorld (auth w) (redis w) p.

Definition sessionKey (sessionId : string) : string := "session:" +:+ sessionId.
Definition userKey (userId : string) : string := "user:session:" +:+ userId.

(** The context a Redis session entry holds, if it is there and readable. *)
Definition redis_session (sessionId : string) (w : World) : option UserContext * World :=
  let '(data, r) := redis_get (sessionKey sessionId) (redis w) in
  let w := with_redis r w in
  if bool_decide (data = "") then (None, w)
  else match deserializeSession data newContext with
       | Done true c => (Some c, w)
       | _ => (None, w)
       end.

(** The pointer of the first connection whose context has the session. *)
Definition find_session (sessionId : string) (a : AuthService) : option nat :=
  head (filter (fun p => u_sessionId <$> heap a !! p = Some sessionId)
          (map_to_list (m_connToUser a)).*2).

Definition bind_local (sessionId node : string) (w : World) : option bool * World :=
  match find_session sessionId (auth w) with
  | Some p => (Some true, with_auth (with_heap (alter (set_node node) p (heap (auth w))) (auth w)) w)
  | None => (Some false, w)
  end.

Definition bindSessionToNode (sessionId node : string) (w : World) : option bool * World :=
  if m_useRedis (auth w) then
    let '(c, w) := redis_session sessionId w in
    match c with
    | Some c =>
      match serializeSession (set_node node c) with
      | None => (None, w)
      | Some data =>
        let '(ok, r) := redis_setex (sessionKey sessionId) data (m_sessionExpire (auth w)) (redis w) in
        (Some ok, with_redis r w)
      end
    | None => bind_local sessionId node w
    end
  else bind_local sessionId node w.

Definition getSessionNode (sessionId : string) (w : World) : option string * World :=
  let local (w : World) :=
    head (omap (fun p => c ← heap (auth w) !! p;
            if bool_decide (u_sessionId c = sessionId) && negb (bool_decide (u_nodeId c = ""))
            then Some (u_nodeId c) else None) (map_to_list (m_connToUser (auth w))).*2) in
  if m_useRedis (auth w) then
    let '(c, w) := redis_session sessionId w in
    match c with
    | Some c => if bool_decide (u_nodeId c = "") then (local w, w) else (Some (u_nodeId c), w)
    | None => (local w, w)
    end
  else (local w, w).

(** The arguments given to the callback: success, session id, error. *)
Definition login (conn : Conn) (userId token deviceId : string) (rand t1 t2 : Z) (w : World)
    : option (bool * string * string) * World :=
  if negb (validateToken userId token) then (Some (false, "", "Invalid token"), w)
  else
    let connId := connIdOf conn in
    let a := auth w in
    let context := mkContext userId (generateSessionId rand t1) deviceId (m_nodeId a) t2 true in
    let p := next_ptr a in
    let a := mkAuth (<[p := context]> (heap a)) (S p) (<[connId := p]> (m_connToUser a))
               (<[userId := p]> (m_userToContext a)) (m_nodeId a) (m_sessionExpire a)
               (m_useRedis a) (m_hasSessionRepository a) in
    let w := with_auth a w in
    let w :=
      if m_hasSessionRepository a then
        let record := mkSessionRecord (u_sessionId context) userId deviceId "single-node" 0 t2
                        (t2 + m_sessionExpire a * 1000) in
        with_repo (createSession record (repo w)).2 w
      else w in
    let stored :=
      if m_useRedis a then
        match serializeSession context with
        | None => (None, w)
        | Some data =>
          let '(_, r) := redis_setex (sessionKey (u_sessionId context)) data (m_sessionExpire a) (redis w) in
          let '(_, r) := redis_setex (userKey userId) (u_sessionId context) (m_sessionExpire a) r in
          (Some (), with_redis r w)
        end
      else (Some (), w) in
    match stored with
    | (None, w) => (None, w)
    | (Some _, w) =>
      match bindSessionToNode (u_sessionId context) (u_nodeId context) w with
      | (None, w) => (None, w)
      | (Some _, w) => (Some (true, u_sessionId context, ""), w)
      end
    end.

Definition logout (conn : Conn) (w : World) : World :=
  let connId := connIdOf conn in
  let a := auth w in
  match m_connToUser a !! connId with
  | None => w
  | Some p =>
    let c := default newContext (heap a !! p) in
    let w :=
      if m_useRedis a then
        let '(_, r) := redis_del (sessionKey (u_sessionId c)) (redis w) in
        let '(_, r) := redis_del (userKey (u_userId c)) r in
        with_redis r w
      else w in
    let w := if m_hasSessionRepository a
             then with_repo (deleteSession (u_sessionId c) (repo w)).2 w else w in
    with_auth (with_maps (delete connId (m_connToUser a)) (delete (u_userId c) (m_userToContext a)) a) w
  end.

Definition getUserContext (conn : Conn) (w : World) : option UserContext :=
  p ← m_connToUser (auth w) !! connIdOf conn; heap (auth w) !! p.

Definition isAuthenticated (conn : Conn) (w : World) : bool :=
  match getUserContext conn w with Some c => u_authenticated c | None => false end.

Definition getUserById (userId : string) (w : World) : option UserContext :=
  p ← m_userToContext (auth w) !! userId; heap (auth w) !! p.

(** The result and [outUserId] (unchanged when false). *)
Definition validateSession (sessionId outUserId : string) (w : World) : bool * string * World :=
  let '(found, w) :=
    if m_hasSessionRepository (auth w) then
      let '((record, _), p) := findBySessionId sessionId (repo w) in (record, with_repo p w)
    else (None, w) in
  match found with
  | Some record => (true, sr_userId record, w)
  | None =>
    if m_useRedis (auth w) then
      let '(c, w) := redis_session sessionId w in
      match c with
      | Some c => (true, u_userId c, w)
      | None => (false, outUserId, w)
      end
    else
      match find_session sessionId (auth w) with
      | Some p => (true, u_userId (default newContext (heap (auth w) !! p)), w)
      | None => (false, outUserId, w)
      end
  end.

(** ** Who is authenticated *)
Inductive auth_op :=
| OpLogin (conn : Conn) (userId token deviceId : string) (rand t1 t2 : Z)
| OpLogout (conn : Conn)
| OpBind (sessionId node : string).

Definition auth_step (w : World) (o : auth_op) : World :=
  match o with
  | OpLogin conn u tok d rand t1 t2 => (login conn u tok d rand t1 t2 w).2
  | OpLogout conn => logout conn w
  | OpBind sid node => (bindSessionToNode sid node w).2
  end.

(** The token of a user with a name. *)
Definition good_token (u tok : string) : Prop := u <> "" /\ tok = "valid_token_" +:+ u.

Lemma validateToken_good u tok : validateToken u tok = bool_decide (good_token u tok).
Proof.
  unfold validateToken, good_token. repeat case_bool_decide; cbn [orb]; try done; naive_solver.
Qed.

(** The contract: a descriptor belongs to the user of its last successful login
    unless it logged out since; an attempt with a bad token changes nothing. *)
Definition login_history (h : gmap string string) (o : auth_op) : gmap string string :=
  match o with
  | OpLogin conn u tok _ _ _ _ => if bool_decide (good_token u tok) then <[connIdOf conn := u]> h else h
  | OpLogout conn => delete (connIdOf conn) h
  | OpBind _ _ => h
  end.

Definition agrees (h : gmap string string) (a : AuthService) : Prop :=
  (forall p c, heap a !! p = Some c -> (p < next_ptr a)%nat /\ u_authenticated c = true)
  /\ (forall k, match m_connToUser a !! k with
                | Some p => exists c, heap a !! p = Some c /\ h !! k = Some (u_userId c)
                | None => h !! k = None
                end).

(** A session bound to a node changes the node of one context at most. *)
Definition rebound (a a' : AuthService) : Prop :=
  a' = a \/ exists p node, a' = with_heap (alter (set_node node) p (heap a)) a.

Lemma rebound_agrees h a a' : rebound a a' -> agrees h a -> agrees h a'.
Proof.
  intros [->|(p & node & ->)] [H1' H2']; [done|]. split; simpl.
  - intros q c. rewrite lookup_alter. case_decide; [|apply H1'].
    intros (c0 & Hc0 & ->)%fmap_Some. subst. by apply H1' in Hc0.
  - intros k. specialize (H2' k). destruct (m_connToUser a !! k) as [q|]; [|done].
    destruct H2' as (c & Hc & Hk). rewrite lookup_alter.
    case_decide; [|eauto]. subst p. rewrite Hc. eexists. split; [reflexivity|exact Hk].
Qed.

Lemma bind_local_rebound sid node w : rebound (auth w) (auth (bind_local sid node w).2).
Proof.
  unfold bind_local. destruct (find_session sid (auth w)) as [p|]; [right|left]; simpl; eauto.
Qed.

Lemma bind_rebound sid node w : rebound (auth w) (auth (bindSessionToNode sid node w).2).
Proof.
  unfold bindSessionToNode. destruct (m_useRedis (auth w)); [|apply bind_local_rebound].
  destruct (redis_session sid w) as [c w1] eqn:E.
  assert (Hw : auth w1 = auth w).
  { unfold redis_session in E. destruct (redis_get _ _). case_bool_decide.
    - by injection E as <- <-.
    - destruct (deserializeSession _ _) as [[] c0|]; by injection E as <- <-. }
  rewrite <- Hw. destruct c as [c|]; [|apply bind_local_rebound].
  destruct (serializeSession _); [|by left]. destruct (redis_setex _ _ _ _). by left.
Qed.

(** A valid login up to the binding of the session. *)
Definition logged_in (connId userId : string) (c : UserContext) (a : AuthService) : AuthService :=
  mkAuth (<[next_ptr a := c]> (heap a)) (S (next_ptr a)) (<[connId := next_ptr a]> (m_connToUser a))
    (<[userId := next_ptr a]> (m_userToContext a)) (m_nodeId a) (m_sessionExpire a) (m_useRedis a)
    (m_hasSessionRepository a).

Lemma login_auth conn u tok d rand t1 t2 w :
  validateToken u tok = true ->
  rebound (logged_in (connIdOf conn) u (mkContext u (generateSessionId rand t1) d (m_nodeId (auth w)) t2 true)
             (auth w)) (auth (login conn u tok d rand t1 t2 w).2).
Proof.
  intros Hv. unfold login. rewrite Hv. cbn [negb].
  set (c := mkContext _ _ _ _ _ _). fold (logged_in (connIdOf conn) u c (auth w)).
  set (a := logged_in (connIdOf conn) u c (auth w)).
  set (w1 := if m_hasSessionRepository a then _ else _).
  assert (Hw1 : auth w1 = a) by (unfold w1; by destruct (m_hasSessionRepository a)).
  destruct (m_useRedis a).
  - destruct (serializeSession c); [|left; done].
    destruct (redis_setex _ _ _ (redis w1)) as [b1 r1]. destruct (redis_setex _ _ _ r1) as [b2 r2].
    pose proof (bind_rebound (u_sessionId c) (u_nodeId c) (with_redis r2 w1)) as B.
    destruct (bindSessionToNode _ _ _) as [[]?]; simpl in *; by rewrite Hw1 in B.
  - pose proof (bind_rebound (u_sessionId c) (u_nodeId c) w1) as B.
    destruct (bindSessionToNode _ _ _) as [[]?]; simpl in *; by rewrite Hw1 in B.
Qed.

Lemma logout_auth conn w :
  auth (logout conn w) =
    match m_connToUser (auth w) !! connIdOf conn with
    | None => auth w
    | Some p => with_maps (delete (connIdOf conn) (m_connToUser (auth w)))
                  (delete (u_userId (default newContext (heap (auth w) !! p)))
                     (m_userToContext (auth w))) (auth w)
    end.
Proof. unfold logout. by destruct (m_connToUser (auth w) !! connIdOf conn). Qed.

Lemma step_agrees h w o :
  agrees h (auth w) -> agrees (login_history h o) (auth (auth_step w o)).
Proof.
  intros A. destruct o as [conn u tok d rand t1 t2|conn|sid node]; simpl.
  - rewrite <- validateToken_good. destruct (validateToken u tok) eqn:Hv.
    2:{ unfold login. by rewrite Hv. }
    eapply rebound_agrees; [by apply login_auth|]. destruct A as [A1 A2].
    assert (Hfresh : heap (auth w) !! next_ptr (auth w) = None).
    { destruct (heap (auth w) !! _) eqn:E; [|done]. apply A1 in E as [? _]. lia. }
    split; simpl.
    + intros p c [[<- <-]|[_ Hc]]%lookup_insert_Some; [split; [lia|done]|].
      apply A1 in Hc as [? ?]. split; [lia|done].
    + intros k. rewrite !lookup_insert. case_decide as Hk.
      * eexists. rewrite lookup_insert_eq. done.
      * specialize (A2 k). destruct (m_connToUser (auth w) !! k) as [p|]; [|done].
        destruct A2 as (c & Hc & Hh). exists c. split; [|done]. rewrite lookup_insert_ne; [done|].
        intros <-. congruence.
  - rewrite logout_auth. destruct A as [A1 A2].
    destruct (m_connToUser (auth w) !! connIdOf conn) as [p|] eqn:E.
    + split; simpl; [apply A1|]. intros k. rewrite !lookup_delete. case_decide; [done|apply A2].
    + split; [apply A1|]. intros k. specialize (A2 k). rewrite lookup_delete.
      case_decide; [subst; by rewrite E|done].
  - eapply rebound_agrees; [apply bind_rebound|done].
Qed.

(** C8: Authentication is sound and complete: after any sequence of logins,
    logouts and session bindings, with any behaviour of Redis and of the
    session table, a connection (by its descriptor) counts as authenticated
    exactly when it had a login with the user's token, "valid_token_" and the
    non-empty name, and did not log out since the last such login; its context
    names the user of that login.  A login with a bad token neither
    authenticates nor ends an earlier login. *)
Theorem authentication_by_last_valid_login ops useRedis hasRepo r p conn :
  let w := fold_left auth_step ops (mkWorld (newAuth useRedis hasRepo) r p) in
  let h := fold_left login_history ops ∅ in
  u_userId <$> getUserContext conn w = h !! connIdOf conn
  /\ isAuthenticated conn w = bool_decide (is_Some (h !! connIdOf conn)).
Proof.
  intros w h.
  assert (A : agrees h (auth w)).
  { unfold h, w. assert (A0 : agrees ∅ (newAuth useRedis hasRepo)).
    { split; simpl; [intros ? ? E; by rewrite lookup_empty in E|].
      intros k. by rewrite !lookup_empty. }
    change (newAuth useRedis hasRepo) with (auth (mkWorld (newAuth useRedis hasRepo) r p)) in A0.
    revert A0. generalize (mkWorld (newAuth useRedis hasRepo) r p).
    generalize (∅ : gmap string string). clear. induction ops as [|o ops IH]; intros h w A; [done|].
    apply IH. by apply step_agrees. }
  destruct A as [A1 A2]. specialize (A2 (connIdOf conn)). unfold isAuthenticated, getUserContext.
  destruct (m_connToUser (auth w) !! connIdOf conn) as [q|]; simpl.
  - destruct A2 as (c & Hc & ->). rewrite Hc. simpl. split; [done|].
    by destruct (A1 _ _ Hc) as [_ ->].
  - rewrite A2. split; [done|]. symmetry. apply bool_decide_eq_false_2. by intros [? ?].
Qed.

End Auth.

(** A session written to Redis is read back as it was. *)
Lemma session_roundtrip `{JsonLaws} c c0 data :
  fits I64 (u_loginTime c) = true -> serializeSession c = Some data ->
  deserializeSession data c0 = Done true c.
Proof.
  intros Ht Hs. destruct (parse_dump _ _ Hs) as (j & Hp & Hj). unfold deserializeSession.
  rewrite Hp. cbn [try_].
  pose proof (read_value_string _ _ Hj ltac:(vm_compute; reflexivity)) as S.
  rewrite !(S _ (u_userId c)) by set_solver. cbn [try_].
  rewrite !(S _ (u_sessionId c)) by set_solver. cbn [try_].
  rewrite !(S _ (u_deviceId c)) by set_solver. cbn [try_].
  rewrite !(S _ (u_nodeId c)) by set_solver. cbn [try_].
  rewrite (read_value_int _ _ Hj ltac:(vm_compute; reflexivity) _ _ (u_loginTime c)) by (done || set_solver).
  cbn [try_].
  rewrite (read_value_bool _ _ Hj ltac:(vm_compute; reflexivity) _ (u_authenticated c)) by set_solver.
  by destruct c.
Qed.

(** ** Concrete runs, without Redis and session table *)
#[local] Existing Instance toy_json.
#[local] Instance no_redis : Redis () := {
  redis_isConnected _ := false;
  redis_get _ r := ("", r); redis_setex _ _ _ r := (false, r); redis_del _ r := (false, r) }.
#[local] Instance no_sessions : SessionRepository () := {
  createSession _ p := (None, p); deleteSession _ p := (None, p); findBySessionId _ p := ((None, ""), p) }.

Definition ex_login (fd rand : Z) : auth_op :=
  OpLogin (mkConn (Z.to_nat fd) fd) "bob" "valid_token_bob" "d" rand 1000 1000.

(** Logging out an old connection forgets the new one: when a user logs
    in on a second connection and the first one is closed afterwards, the user
    is no longer found by name although the second connection is logged in. *)
Lemma stale_logout_forgets_user :
  let w := fold_left auth_step [ex_login 5 1; ex_login 6 2; OpLogout (mkConn 5%nat 5)]
             (mkWorld (newAuth false false) () ()) in
  isAuthenticated (mkConn 6%nat 6) w = true /\ getUserById "bob" w = None.
Proof. vm_compute. done. Qed.

(** ** RoutingService *)
Section Routing.
Context {R : Type} `{Redis R}.

(** [m_redisClient]: absent, or the client. *)
Record RoutingService := mkRouting {
  m_redisClient : option R;
  r_nodeId : string;
  m_routeTtlSeconds : Z;
  m_localRoutes : gmap string string;
}.

Definition makeRouteKey (userId : string) : string := "route:" +:+ userId.

(** [m_redisClient && m_redisClient->isConnected()]. *)
Definition connected_client (s : RoutingService) : option R :=
  r ← m_redisClient s; if redis_isConnected r then Some r else None.

Definition setRouteTtlSeconds (ttl : Z) (s : RoutingService) : RoutingService :=
  mkRouting (m_redisClient s) (r_nodeId s) ttl (m_localRoutes s).

Definition bindUserRoute (userId nodeId : string) (s : RoutingService) : bool * RoutingService :=
  let routes := <[userId := nodeId]> (m_localRoutes s) in
  match connected_client s with
  | Some r =>
    let '(ok, r) := redis_setex (makeRouteKey userId) nodeId (m_routeTtlSeconds s) r in
    (ok, mkRouting (Some r) (r_nodeId s) (m_routeTtlSeconds s) routes)
  | None => (true, mkRouting (m_redisClient s) (r_nodeId s) (m_routeTtlSeconds s) routes)
  end.

Definition unbindUserRoute (userId : string) (s : RoutingService) : bool * RoutingService :=
  let routes := delete userId (m_localRoutes s) in
  match connected_client s with
  | Some r =>
    let '(ok, r) := redis_del (makeRouteKey userId) r in
    (ok, mkRouting (Some r) (r_nodeId s) (m_routeTtlSeconds s) routes)
  | None => (true, mkRouting (m_redisClient s) (r_nodeId s) (m_routeTtlSeconds s) routes)
  end.

Definition lookupUserRoute (userId : string) (s : RoutingService) : option string * RoutingService :=
  match m_localRoutes s !! userId with
  | Some node => (Some node, s)
  | None =>
    match connected_client s with
    | Some r =>
      let '(route, r) := redis_get (makeRouteKey userId) r in
      if bool_decide (route = "")
      then (None, mkRouting (Some r) (r_nodeId s) (m_routeTtlSeconds s) (m_localRoutes s))
      else (Some route, mkRouting (Some r) (r_nodeId s) (m_routeTtlSeconds s)
                          (<[userId := route]> (m_localRoutes s)))
    | None => (None, s)
    end
  end.

(** A route bound on this node is found until it is unbound. *)
Lemma route_bound u node s : (lookupUserRoute u (bindUserRoute u node s).2).1 = Some node.
Proof.
  unfold bindUserRoute, lookupUserRoute.
  destruct (connected_client s) as [r|]; [destruct (redis_setex _ _ _ _)|];
    simpl; by rewrite lookup_insert_eq.
Qed.

(** A route found once is answered from the local copy for ever, whatever the
    shared table says later. *)
Lemma route_cached_forever u node s r' :
  (lookupUserRoute u s).1 = Some node ->
  let s1 := (lookupUserRoute u s).2 in
  (lookupUserRoute u (mkRouting (Some r') (r_nodeId s1) (m_routeTtlSeconds s1)
                        (m_localRoutes s1))).1 = Some node.
Proof.
  unfold lookupUserRoute. destruct (m_localRoutes s !! u) as [n|] eqn:E; simpl.
  - intros [= ->]. by rewrite E.
  - destruct (connected_client s) as [r|]; [|done].
    destruct (redis_get (makeRouteKey u) r) as [route r1]. case_bool_decide; [done|].
    simpl. intros [= ->]. by rewrite lookup_insert_eq.
Qed.

End Routing.

End auth.
