(* ===== verification/Poller.v ===== *)
(** * Channel and EpollPoller
      (src/net/channel.h, src/net/channel.cpp, src/net/epollPoller.cpp)

    A channel is an object the poller and its owner share, so channels live in
    a table; [m_channels] maps a descriptor to the channel that owns it.
    [kernel] is the interest set of the epoll instance as epoll_ctl(2) keeps
    it: ADD fails on a registered descriptor, MOD and DEL on one that is not,
    and the poller only logs such a failure ([ctl_errors]).  A failed [assert]
    is an error. *)
From S2P Require Import Prelude.

Module poller.

Definition POLLIN : Z := 1.
Definition POLLPRI : Z := 2.
Definition POLLOUT : Z := 4.
Definition POLLERR : Z := 8.
Definition POLLHUP : Z := 16.
Definition POLLNVAL : Z := 32.
Definition POLLRDHUP : Z := 8192.
Definition EPOLLET : Z := 2 ^ 31.

Definition kNoneEvent : Z := 0.
Definition kReadEvent : Z := Z.lor POLLIN POLLPRI.
Definition kWriteEvent : Z := POLLOUT.

(** The values of [index()]. *)
Inductive Index := kNew | kAdded | kDeleted.
#[export] Instance Index_eq_dec : EqDecision Index.
Proof. solve_decision. Defined.

Record Channel := mkChannel {
  m_fd : Z;
  m_events : Z;
  m_revents : Z;
  m_index : Index;
  m_addedToLoop : bool;
}.

Definition newChannel (fd : Z) : Channel := mkChannel fd 0 0 kNew false.

Definition set_events (ev : Z) (c : Channel) : Channel :=
  mkChannel (m_fd c) ev (m_revents c) (m_index c) (m_addedToLoop c).
Definition setRevents (revt : Z) (c : Channel) : Channel :=
  mkChannel (m_fd c) (m_events c) revt (m_index c) (m_addedToLoop c).
Definition setIndex (i : Index) (c : Channel) : Channel :=
  mkChannel (m_fd c) (m_events c) (m_revents c) i (m_addedToLoop c).
Definition set_added (b : bool) (c : Channel) : Channel :=
  mkChannel (m_fd c) (m_events c) (m_revents c) (m_index c) b.

Definition isNoneEvent (c : Channel) : bool := m_events c =? kNoneEvent.
Definition has_bits (x mask : Z) : bool := negb (Z.land x mask =? 0).
Definition isWriting (c : Channel) : bool := has_bits (m_events c) kWriteEvent.
Definition isReading (c : Channel) : bool := has_bits (m_events c) kReadEvent.

(** The callbacks [handleEvent] invokes, in order. *)
Inductive callback := CbClose | CbError | CbRead | CbWrite.

Definition handleEvent (c : Channel) : list callback :=
  let r := m_revents c in
  (if has_bits r POLLHUP && negb (has_bits r POLLIN) then [CbClose] else [])
  ++ (if has_bits r (Z.lor POLLERR POLLNVAL) then [CbError] else [])
  ++ (if has_bits r (Z.lor (Z.lor POLLIN POLLPRI) POLLRDHUP) then [CbRead] else [])
  ++ (if has_bits r POLLOUT then [CbWrite] else []).

(** ** EpollPoller *)
Inductive ctl_op := EPOLL_CTL_ADD | EPOLL_CTL_MOD | EPOLL_CTL_DEL.

Record EpollPoller := mkPoller {
  channels : gmap nat Channel;
  m_channels : gmap Z nat;
  kernel : gmap Z Z;
  m_useEdgeTrigger : bool;
  ctl_errors : nat;
}.

Definition newPoller (edge : bool) : EpollPoller := mkPoller ∅ ∅ ∅ edge 0.

Definition setUseEdgeTrigger (b : bool) (p : EpollPoller) : EpollPoller :=
  mkPoller (channels p) (m_channels p) (kernel p) b (ctl_errors p).

(** epoll_ctl(2): the new interest set and whether the call succeeded. *)
Definition epoll_ctl (op : ctl_op) (fd events : Z) (k : gmap Z Z) : bool * gmap Z Z :=
  match op, k !! fd with
  | EPOLL_CTL_ADD, None => (true, <[fd := events]> k)
  | EPOLL_CTL_MOD, Some _ => (true, <[fd := events]> k)
  | EPOLL_CTL_DEL, Some _ => (true, delete fd k)
  | _, _ => (false, k)
  end.

(** [event.events] of a channel for an operation that is not DEL. *)
Definition wanted_events (edge : bool) (ev : Z) : Z := if edge then Z.lor ev EPOLLET else ev.

Definition update (op : ctl_op) (c : Channel) (p : EpollPoller) : EpollPoller :=
  let ev := match op with
            | EPOLL_CTL_DEL => m_events c
            | _ => wanted_events (m_useEdgeTrigger p) (m_events c)
            end in
  let '(ok, k) := epoll_ctl op (m_fd c) ev (kernel p) in
  mkPoller (channels p) (m_channels p) k (m_useEdgeTrigger p)
    (if ok then ctl_errors p else S (ctl_errors p)).

Definition put_channel (id : nat) (c : Channel) (p : EpollPoller) : EpollPoller :=
  mkPoller (<[id := c]> (channels p)) (m_channels p) (kernel p) (m_useEdgeTrigger p) (ctl_errors p).

Definition with_map (m : gmap Z nat) (p : EpollPoller) : EpollPoller :=
  mkPoller (channels p) m (kernel p) (m_useEdgeTrigger p) (ctl_errors p).

(** [c] is the content of channel [id] at the call. *)
Definition updateChannel (id : nat) (c : Channel) (p : EpollPoller) : res EpollPoller :=
  let fd := m_fd c in
  match m_index c with
  | kNew =>
    _ <- assert_ (bool_decide (m_channels p !! fd = None)) ;;
    let p := with_map (<[fd := id]> (m_channels p)) p in
    let c := setIndex kAdded c in
    Ok (update EPOLL_CTL_ADD c (put_channel id c p))
  | kDeleted =>
    _ <- assert_ (bool_decide (is_Some (m_channels p !! fd))) ;;
    _ <- assert_ (bool_decide (m_channels p !! fd = Some id)) ;;
    let c := setIndex kAdded c in
    Ok (update EPOLL_CTL_ADD c (put_channel id c p))
  | kAdded =>
    _ <- assert_ (bool_decide (is_Some (m_channels p !! fd))) ;;
    _ <- assert_ (bool_decide (m_channels p !! fd = Some id)) ;;
    if isNoneEvent c then
      let p := update EPOLL_CTL_DEL c (put_channel id c p) in
      Ok (put_channel id (setIndex kDeleted c) p)
    else Ok (update EPOLL_CTL_MOD c (put_channel id c p))
  end.

Definition removeChannel (id : nat) (c : Channel) (p : EpollPoller) : res EpollPoller :=
  let fd := m_fd c in
  _ <- assert_ (bool_decide (is_Some (m_channels p !! fd))) ;;
  _ <- assert_ (bool_decide (m_channels p !! fd = Some id)) ;;
  _ <- assert_ (isNoneEvent c) ;;
  _ <- assert_ (bool_decide (m_index c = kAdded \/ m_index c = kDeleted)) ;;
  let p := with_map (delete fd (m_channels p)) p in
  let p := if bool_decide (m_index c = kAdded) then update EPOLL_CTL_DEL c p else p in
  Ok (put_channel id (setIndex kNew c) p).

(** The operations of [Channel] that go through the loop to the poller. *)
Definition channel_update (id : nat) (f : Z -> Z) (p : EpollPoller) : res EpollPoller :=
  match channels p !! id with
  | None => Ok p
  | Some c => updateChannel id (set_added true (set_events (f (m_events c)) c)) p
  end.

Definition enableReading (id : nat) : EpollPoller -> res EpollPoller :=
  channel_update id (fun ev => Z.lor ev kReadEvent).
Definition disableReading (id : nat) : EpollPoller -> res EpollPoller :=
  channel_update id (fun ev => Z.land ev (Z.lnot kReadEvent)).
Definition enableWriting (id : nat) : EpollPoller -> res EpollPoller :=
  channel_update id (fun ev => Z.lor ev kWriteEvent).
Definition disableWriting (id : nat) : EpollPoller -> res EpollPoller :=
  channel_update id (fun ev => Z.land ev (Z.lnot kWriteEvent)).
Definition disableAll (id : nat) : EpollPoller -> res EpollPoller :=
  channel_update id (fun _ => kNoneEvent).

Definition channel_remove (id : nat) (p : EpollPoller) : res EpollPoller :=
  match channels p !! id with
  | None => Ok p
  | Some c =>
    _ <- assert_ (isNoneEvent c) ;;
    removeChannel id (set_added false c) p
  end.

(** [epoll_wait] reported these descriptors with these events: the channels
    become active with them ([fillActiveChannels]). *)
Definition fillActiveChannels (ready : list (nat * Z)) (p : EpollPoller)
    : EpollPoller * list nat :=
  (foldl (fun p '(id, ev) =>
            match channels p !! id with
            | Some c => put_channel id (setRevents ev c) p
            | None => p
            end) p ready, ready.*1).

(** ** Invariant *)
Record poller_inv (p : EpollPoller) : Prop := {
  pi_distinct : forall i j c d, channels p !! i = Some c -> channels p !! j = Some d ->
    m_fd c = m_fd d -> i = j;
  pi_index : forall i c, channels p !! i = Some c ->
    match m_index c with
    | kNew => True
    | kAdded => m_channels p !! m_fd c = Some i
                /\ kernel p !! m_fd c = Some (wanted_events (m_useEdgeTrigger p) (m_events c))
    | kDeleted => m_channels p !! m_fd c = Some i /\ kernel p !! m_fd c = None
    end;
  pi_owner : forall fd i, m_channels p !! fd = Some i ->
    exists c, channels p !! i = Some c /\ m_fd c = fd /\ m_index c <> kNew;
  pi_kernel : forall fd ev, kernel p !! fd = Some ev ->
    exists i c, m_channels p !! fd = Some i /\ channels p !! i = Some c /\ m_index c = kAdded;
}.

Lemma newPoller_inv edge : poller_inv (newPoller edge).
Proof. split; cbn; intros *; by rewrite lookup_empty. Qed.

(** The descriptor of a channel that is not in the map is free. *)
Lemma new_fd_free p i c :
  poller_inv p -> channels p !! i = Some c -> m_index c = kNew ->
  m_channels p !! m_fd c = None /\ kernel p !! m_fd c = None.
Proof.
  intros I Hc Hn. assert (Hm : m_channels p !! m_fd c = None).
  { destruct (m_channels p !! m_fd c) as [j|] eqn:E; [|done].
    destruct (pi_owner p I _ _ E) as (d & Hd & Hfd & Hne).
    assert (i = j) as <- by (by eapply (pi_distinct p I)). congruence. }
  split; [done|]. destruct (kernel p !! m_fd c) eqn:E; [|done].
  destruct (pi_kernel p I _ _ E) as (j & d & Hj & _). congruence.
Qed.

(** Putting a channel at [i] with its descriptor, in a state of the map and of
    the kernel that agrees with its new index. *)
Lemma inv_put p i c c' m k n :
  poller_inv p -> channels p !! i = Some c -> m_fd c' = m_fd c ->
  (forall fd, fd <> m_fd c -> m !! fd = m_channels p !! fd /\ k !! fd = kernel p !! fd) ->
  match m_index c' with
  | kNew => m !! m_fd c = None /\ k !! m_fd c = None
  | kAdded => m !! m_fd c = Some i
              /\ k !! m_fd c = Some (wanted_events (m_useEdgeTrigger p) (m_events c'))
  | kDeleted => m !! m_fd c = Some i /\ k !! m_fd c = None
  end ->
  poller_inv (mkPoller (<[i := c']> (channels p)) m k (m_useEdgeTrigger p) n).
Proof.
  intros I Hc Hfd Hother Hidx.
  assert (L : forall j d, <[i := c']> (channels p) !! j = Some d ->
    exists d0, channels p !! j = Some d0 /\ m_fd d = m_fd d0 /\ (j <> i -> d = d0 /\ m_fd d <> m_fd c)).
  { intros j d [[<- <-]|[Hne Hj]]%lookup_insert_Some; [by exists c|]. exists d. splits; try done.
    intros _. split; [done|]. intros Heq. apply Hne. by eapply (pi_distinct p I). }
  split; simpl.
  - intros j l x y Hx Hy Heq. apply L in Hx as (x0 & Hx & Ex & _). apply L in Hy as (y0 & Hy & Ey & _).
    eapply (pi_distinct p I); eauto. congruence.
  - intros j d Hd. destruct (L j d Hd) as (d0 & Hd0 & Ed & Hne).
    destruct (decide (j = i)) as [->|Hji].
    + rewrite lookup_insert_eq in Hd. injection Hd as <-. rewrite Hfd. by destruct (m_index c').
    + destruct (Hne Hji) as [-> Hfd']. destruct (Hother _ Hfd') as [-> ->]. by apply (pi_index p I).
  - intros fd j Hj. destruct (decide (fd = m_fd c)) as [->|Hf].
    + destruct (m_index c') eqn:Ei; [destruct Hidx; congruence|..]; destruct Hidx as [Hm _];
        rewrite Hm in Hj; injection Hj as <-; exists c'; rewrite lookup_insert_eq, Ei; done.
    + destruct (Hother _ Hf) as [Hm _]. rewrite Hm in Hj. destruct (pi_owner p I _ _ Hj) as (d & Hd & Hfd' & Hn).
      exists d. rewrite lookup_insert_ne; [done|]. intros <-. congruence.
  - intros fd ev Hk. destruct (decide (fd = m_fd c)) as [->|Hf].
    + destruct (m_index c') eqn:Ei; [destruct Hidx; congruence| |destruct Hidx; congruence].
      exists i, c'. rewrite lookup_insert_eq. destruct Hidx. done.
    + destruct (Hother _ Hf) as [Hm Hk']. rewrite Hk' in Hk.
      destruct (pi_kernel p I _ _ Hk) as (j & d & Hj & Hd & Ha). exists j, d.
      rewrite Hm. rewrite lookup_insert_ne; [done|]. intros <-.
      destruct (pi_owner p I _ _ Hj) as (d' & Hd' & Hfd' & _). congruence.
Qed.

Lemma channel_update_ok i f p c :
  poller_inv p -> channels p !! i = Some c ->
  exists p', channel_update i f p = Ok p' /\ poller_inv p' /\ ctl_errors p' = ctl_errors p
    /\ m_useEdgeTrigger p' = m_useEdgeTrigger p
    /\ exists c', channels p' = <[i := c']> (channels p) /\ m_events c' = f (m_events c)
        /\ m_index c' <> kNew /\ m_fd c' = m_fd c.
Proof.
  intros I Hc. unfold channel_update. rewrite Hc. unfold updateChannel. simpl.
  pose proof (pi_index p I i c Hc) as Hi. destruct (m_index c) eqn:Ei.
  - destruct (new_fd_free p i c I Hc Ei) as [Hm Hk].
    rewrite bool_decide_eq_true_2 by done. unfold update. simpl. rewrite Hk.
    eexists. split; [reflexivity|]. splits; try done.
    + apply (inv_put p i c); [done|done|done| |simpl].
      * intros fd Hne. by rewrite !lookup_insert_ne.
      * by rewrite !lookup_insert_eq.
    + eexists. split; [reflexivity|]. done.
  - destruct Hi as [Hm Hk]. rewrite Hm. simpl. rewrite bool_decide_eq_true_2 by done. simpl.
    unfold isNoneEvent. simpl. destruct (f (m_events c) =? kNoneEvent) eqn:En; b2p.
    + unfold update. simpl. rewrite Hk. unfold put_channel. simpl. rewrite insert_insert_eq.
      eexists. split; [reflexivity|]. splits; try done.
      * apply (inv_put p i c); [done|done|done| |simpl].
        -- intros fd Hne. split; [done|]. by rewrite lookup_delete_ne.
        -- split; [done|]. by rewrite lookup_delete_eq.
      * eexists. split; [reflexivity|]. done.
    + unfold update. simpl. rewrite Hk. eexists. split; [reflexivity|]. splits; try done.
      * apply (inv_put p i c); [done|done|done| |simpl].
        -- intros fd Hne. split; [done|]. by rewrite lookup_insert_ne.
        -- rewrite Ei. split; [done|]. by rewrite lookup_insert_eq.
      * eexists. split; [reflexivity|]. simpl. rewrite Ei. done.
  - destruct Hi as [Hm Hk]. rewrite Hm. simpl. rewrite bool_decide_eq_true_2 by done. simpl.
    unfold update. simpl. rewrite Hk. eexists. split; [reflexivity|]. splits; try done.
    + apply (inv_put p i c); [done|done|done| |simpl].
      * intros fd Hne. split; [done|]. by rewrite lookup_insert_ne.
      * split; [done|]. by rewrite lookup_insert_eq.
    + eexists. split; [reflexivity|]. done.
Qed.

Lemma channel_remove_ok i p c :
  poller_inv p -> channels p !! i = Some c -> isNoneEvent c = true -> m_index c <> kNew ->
  exists p', channel_remove i p = Ok p' /\ poller_inv p' /\ ctl_errors p' = ctl_errors p
    /\ kernel p' !! m_fd c = None.
Proof.
  intros I Hc Hn Hnew. unfold channel_remove. rewrite Hc, Hn. simpl. unfold removeChannel. simpl.
  change (isNoneEvent (set_added false c)) with (isNoneEvent c). rewrite Hn. simpl.
  pose proof (pi_index p I i c Hc) as Hi. destruct (m_index c) eqn:Ei; [done|..];
    destruct Hi as [Hm Hk]; rewrite Hm; simpl; rewrite bool_decide_eq_true_2 by done; simpl.
  - unfold update. simpl. rewrite Hk. eexists. split; [reflexivity|]. splits; try done.
    + apply (inv_put p i c); [done|done|done| |simpl].
      * intros fd Hne. simpl. by rewrite !lookup_delete_ne.
      * simpl. by rewrite !lookup_delete_eq.
    + simpl. by rewrite lookup_delete_eq.
  - eexists. split; [reflexivity|]. splits; try done.
    apply (inv_put p i c); [done|done|done| |simpl].
    + intros fd Hne. simpl. split; [|done]. by rewrite lookup_delete_ne.
    + simpl. split; [|done]. by rewrite lookup_delete_eq.
Qed.

(** ** Sequences of channel operations *)
Inductive channel_op :=
| Create (id : nat) (fd : Z)
| EnableReading (id : nat) | DisableReading (id : nat)
| EnableWriting (id : nat) | DisableWriting (id : nat)
| DisableAll (id : nat)
| Remove (id : nat)
| Destroy (id : nat).

Definition channel_step (p : EpollPoller) (o : channel_op) : res EpollPoller :=
  match o with
  | Create id fd => Ok (put_channel id (newChannel fd) p)
  | EnableReading id => enableReading id p
  | DisableReading id => disableReading id p
  | EnableWriting id => enableWriting id p
  | DisableWriting id => disableWriting id p
  | DisableAll id => disableAll id p
  | Remove id => channel_remove id p
  | Destroy id => Ok (mkPoller (delete id (channels p)) (m_channels p) (kernel p)
                        (m_useEdgeTrigger p) (ctl_errors p))
  end.

(** What the owners of channels must respect: a new channel has a descriptor
    no other live channel has; a channel is removed when it is registered and
    wants no events, and destroyed after it was removed. *)
Definition legal (p : EpollPoller) (o : channel_op) : bool :=
  match o with
  | Create id fd => bool_decide (channels p !! id = None)
                    && bool_decide (map_Forall (fun _ c => m_fd c <> fd) (channels p))
  | EnableReading id | DisableReading id | EnableWriting id | DisableWriting id | DisableAll id =>
    bool_decide (is_Some (channels p !! id))
  | Remove id => match channels p !! id with
                 | Some c => isNoneEvent c && negb (bool_decide (m_index c = kNew))
                 | None => false
                 end
  | Destroy id => match channels p !! id with
                  | Some c => bool_decide (m_index c = kNew)
                  | None => false
                  end
  end.

Fixpoint run_legal (ops : list channel_op) (p : EpollPoller) : bool :=
  match ops with
  | [] => true
  | o :: ops => legal p o && match channel_step p o with Ok p' => run_legal ops p' | Err _ => true end
  end.

Fixpoint run_channels (ops : list channel_op) (p : EpollPoller) : res EpollPoller :=
  match ops with
  | [] => Ok p
  | o :: ops => p <- channel_step p o ;; run_channels ops p
  end.

Lemma create_inv p id fd :
  poller_inv p -> channels p !! id = None -> map_Forall (fun _ c => m_fd c <> fd) (channels p) ->
  poller_inv (put_channel id (newChannel fd) p).
Proof.
  intros I Hn Hf. split; simpl.
  - intros i j c d [[<- <-]|[Hi Hc]]%lookup_insert_Some [[<- <-]|[Hj Hd]]%lookup_insert_Some Heq; try done.
    + exfalso. by apply (Hf j d Hd).
    + exfalso. by apply (Hf i c Hc).
    + by eapply (pi_distinct p I).
  - intros i c [[<- <-]|[Hi Hc]]%lookup_insert_Some; [done|by apply (pi_index p I)].
  - intros g i Hg. destruct (pi_owner p I _ _ Hg) as (c & Hc & ?). exists c.
    rewrite lookup_insert_ne; [done|]. intros <-. congruence.
  - intros g ev Hg. destruct (pi_kernel p I _ _ Hg) as (i & c & Hi & Hc & ?). exists i, c.
    rewrite lookup_insert_ne; [done|]. intros <-. congruence.
Qed.

Lemma destroy_inv p id c n :
  poller_inv p -> channels p !! id = Some c -> m_index c = kNew ->
  poller_inv (mkPoller (delete id (channels p)) (m_channels p) (kernel p) (m_useEdgeTrigger p) n).
Proof.
  intros I Hc Hn. split; simpl.
  - intros i j x y [_ Hx]%lookup_delete_Some [_ Hy]%lookup_delete_Some. by apply (pi_distinct p I).
  - intros i x [_ Hx]%lookup_delete_Some. by apply (pi_index p I).
  - intros g i Hg. destruct (pi_owner p I _ _ Hg) as (x & Hx & ? & ?). exists x.
    rewrite lookup_delete_ne; [done|]. intros <-. congruence.
  - intros g ev Hg. destruct (pi_kernel p I _ _ Hg) as (i & x & Hi & Hx & ?). exists i, x.
    rewrite lookup_delete_ne; [done|]. intros <-. congruence.
Qed.

Lemma update_step_ok id f p :
  poller_inv p -> is_Some (channels p !! id) ->
  exists p', channel_update id f p = Ok p' /\ poller_inv p' /\ ctl_errors p' = ctl_errors p.
Proof.
  intros I [c Hc]. destruct (channel_update_ok id f p c I Hc) as (p' & E & ? & ? & _). eauto.
Qed.

Lemma channel_step_ok p o :
  poller_inv p -> legal p o = true ->
  exists p', channel_step p o = Ok p' /\ poller_inv p' /\ ctl_errors p' = ctl_errors p.
Proof.
  intros I Hl. destruct o; simpl in *; b2p.
  - eexists. split; [reflexivity|]. split; [by apply create_inv|done].
  - by apply update_step_ok.
  - by apply update_step_ok.
  - by apply update_step_ok.
  - by apply update_step_ok.
  - by apply update_step_ok.
  - destruct (channels p !! id) as [c|] eqn:Hc; [|done]. b2p.
    destruct (channel_remove_ok id p c I Hc) as (p' & E & ? & ? & _); eauto.
  - destruct (channels p !! id) as [c|] eqn:Hc; [|done]. b2p.
    eexists. split; [reflexivity|]. split; [by eapply destroy_inv|done].
Qed.

(** C26: The poller and the kernel agree: over any sequence of channel
    operations that respects the owners' obligations, no assertion fails, no
    epoll_ctl call fails, and the descriptors the kernel watches are exactly
    those of the channels marked as added, with the events they ask for. *)
Theorem poller_tracks_kernel ops edge :
  run_legal ops (newPoller edge) = true ->
  exists p, run_channels ops (newPoller edge) = Ok p /\ ctl_errors p = 0%nat
    /\ (forall fd ev, kernel p !! fd = Some ev <->
          exists i c, channels p !! i = Some c /\ m_fd c = fd /\ m_index c = kAdded
            /\ ev = wanted_events (m_useEdgeTrigger p) (m_events c)).
Proof.
  intros Hl.
  assert (G : forall ops p, poller_inv p -> run_legal ops p = true ->
    exists p', run_channels ops p = Ok p' /\ poller_inv p' /\ ctl_errors p' = ctl_errors p).
  { clear. induction ops as [|o ops IH]; intros p I Hl; simpl in *; [eauto|].
    apply andb_true_iff in Hl as [Ho Hl].
    destruct (channel_step_ok p o I Ho) as (p1 & E1 & I1 & C1). rewrite E1 in *. simpl.
    destruct (IH p1 I1 Hl) as (p2 & E2 & I2 & C2). exists p2. splits; [done|done|congruence]. }
  destruct (G ops (newPoller edge) (newPoller_inv edge) Hl) as (p & E & I & C).
  exists p. splits; [done|done|]. intros fd ev. split.
  - intros Hk. destruct (pi_kernel p I _ _ Hk) as (i & c & Hi & Hc & Ha).
    destruct (pi_owner p I _ _ Hi) as (c' & Hc' & Hfd & _). assert (c' = c) as -> by congruence.
    exists i, c. splits; try done. pose proof (pi_index p I i c Hc) as Hx. rewrite Ha in Hx.
    destruct Hx as [_ Hx]. rewrite Hfd in Hx. congruence.
  - intros (i & c & Hc & <- & Ha & ->). pose proof (pi_index p I i c Hc) as Hx. rewrite Ha in Hx.
    by destruct Hx.
Qed.

Definition ex_ops : list channel_op :=
  [Create 0 5; EnableReading 0; Create 1 6; EnableReading 1; EnableWriting 1; DisableWriting 1;
   DisableAll 1; Remove 1; Destroy 1; Create 2 6; EnableReading 2].

Lemma poller_tracks_kernel_witness :
  exists p, run_channels ex_ops (newPoller true) = Ok p /\ ctl_errors p = 0%nat.
Proof.
  destruct (poller_tracks_kernel ex_ops true) as (p & E & C & _); [by vm_compute|].
  exact (ex_intro _ p (conj E C)).
Defined.

End poller.
