(* ===== verification/TcpConnection.v ===== *)
(** * TcpConnection: reading, writing, back pressure and the connection states
      (src/net/tcpConnection.h, src/net/tcpConnection.cpp, and the functor queue
       of src/net/eventLoop.cpp that the connection runs on)

    The connection owns one channel of the poller and two buffers.  What the
    kernel answers to [readv] and [write] is the environment: a list of results
    for the loops, consumed call by call, [EAGAIN] when it is exhausted.
    [written] collects the bytes the kernel took, [evs] the callbacks invoked,
    [pendingFunctors] the closures handed to [queueInLoop]. *)
From S2P Require Import Prelude Buffer Poller.
Import buffer poller.

Module tcp.

Definition EAGAIN : Z := 11.
Definition EWOULDBLOCK : Z := 11.
Definition EPIPE : Z := 32.
Definition ECONNRESET : Z := 104.

(** [write]: the kernel has room for [k] bytes, or fails. *)
Inductive write_result := Wrote (k : nat) | WriteError (errno : Z).

Inductive State := kConnecting | kConnected | kDisconnecting | kDisconnected.
#[export] Instance State_eq_dec : EqDecision State.
Proof. solve_decision. Defined.

Inductive event :=
| EvConnection (s : State)
| EvMessage (data : bytes)
| EvClose
| EvWriteComplete
| EvHighWaterMark (size : Z)
| EvShutdownWrite.

Inductive functor :=
| SendInLoop (data : bytes)
| ShutdownInLoop
| ForceCloseInLoop
| ConnectEstablished
| ConnectDestroyed.

Record TcpConnection := mkConnection {
  m_state : State;
  m_channel : nat;
  m_inputBuffer : Buffer;
  m_outputBuffer : Buffer;
  m_highWaterMark : Z;
  m_lowWaterMark : Z;
  m_maxOutputBufferBytes : Z;
  m_backPressured : bool;
  m_connectionCallback : bool;
  m_messageCallback : bool;
  m_closeCallback : bool;
  m_writeCompleteCallback : bool;
  m_highWaterMarkCallback : bool;
}.

(** The constructor, with the callbacks [TcpServer] sets. *)
Definition newConnection (channel : nat) : TcpConnection :=
  mkConnection kConnecting channel newBuffer newBuffer (1024 * 1024) (256 * 1024) (4 * 1024 * 1024)
    false true true true false false.

Record World := mkWorld {
  conn : TcpConnection;
  loop_poller : EpollPoller;
  pendingFunctors : list functor;
  written : bytes;
  evs : list event;
}.

Definition with_state (s : State) (c : TcpConnection) : TcpConnection :=
  mkConnection s (m_channel c) (m_inputBuffer c) (m_outputBuffer c) (m_highWaterMark c)
    (m_lowWaterMark c) (m_maxOutputBufferBytes c) (m_backPressured c) (m_connectionCallback c)
    (m_messageCallback c) (m_closeCallback c) (m_writeCompleteCallback c) (m_highWaterMarkCallback c).
Definition with_input (b : Buffer) (c : TcpConnection) : TcpConnection :=
  mkConnection (m_state c) (m_channel c) b (m_outputBuffer c) (m_highWaterMark c)
    (m_lowWaterMark c) (m_maxOutputBufferBytes c) (m_backPressured c) (m_connectionCallback c)
    (m_messageCallback c) (m_closeCallback c) (m_writeCompleteCallback c) (m_highWaterMarkCallback c).
Definition with_output (b : Buffer) (pressed : bool) (c : TcpConnection) : TcpConnection :=
  mkConnection (m_state c) (m_channel c) (m_inputBuffer c) b (m_highWaterMark c)
    (m_lowWaterMark c) (m_maxOutputBufferBytes c) pressed (m_connectionCallback c)
    (m_messageCallback c) (m_closeCallback c) (m_writeCompleteCallback c) (m_highWaterMarkCallback c).

Definition put_conn (c : TcpConnection) (w : World) : World :=
  mkWorld c (loop_poller w) (pendingFunctors w) (written w) (evs w).
Definition put_poller (p : EpollPoller) (w : World) : World :=
  mkWorld (conn w) p (pendingFunctors w) (written w) (evs w).
Definition put_pending (fs : list functor) (w : World) : World :=
  mkWorld (conn w) (loop_poller w) fs (written w) (evs w).
Definition put_written (d : bytes) (w : World) : World :=
  mkWorld (conn w) (loop_poller w) (pendingFunctors w) (written w ++ d) (evs w).
Definition emit (e : event) (w : World) : World :=
  mkWorld (conn w) (loop_poller w) (pendingFunctors w) (written w) (evs w ++ [e]).
Definition emit_if (b : bool) (e : event) (w : World) : World := if b then emit e w else w.

Definition queueInLoop (f : functor) (w : World) : World := put_pending (pendingFunctors w ++ [f]) w.

Definition connected (w : World) : bool := bool_decide (m_state (conn w) = kConnected).
Definition outputBufferBytes (w : World) : Z := readableBytes (m_outputBuffer (conn w)).

(** [m_channel->isWriting()] and the operations on the channel. *)
Definition channel_writing (w : World) : bool :=
  match channels (loop_poller w) !! m_channel (conn w) with
  | Some c => isWriting c
  | None => false
  end.
Definition on_channel (op : nat -> EpollPoller -> res EpollPoller) (w : World) : res World :=
  p <- op (m_channel (conn w)) (loop_poller w) ;; Ok (put_poller p w).

Definition handleClose (w : World) : res World :=
  if bool_decide (m_state (conn w) = kConnected \/ m_state (conn w) = kDisconnecting) then
    w <- on_channel disableAll (put_conn (with_state kDisconnected (conn w)) w) ;;
    let w := emit_if (m_connectionCallback (conn w)) (EvConnection kDisconnected) w in
    Ok (emit_if (m_closeCallback (conn w)) EvClose w)
  else Ok w.

(** The loop of [handleRead]; [received] is [receivedData]. *)
Fixpoint read_loop (rs : list read_result) (received : bool) (w : World) : res World :=
  let finish w :=
    if received && m_messageCallback (conn w)
    then emit (EvMessage (content (m_inputBuffer (conn w)))) w else w in
  match rs with
  | [] => Ok (finish w)
  | r :: rs =>
    ' (n, e, b) <- readFd r (m_inputBuffer (conn w)) ;;
    let w := put_conn (with_input b (conn w)) w in
    if 0 <? n then read_loop rs true w
    else if n =? 0 then handleClose w
    else if bool_decide (e = Some EAGAIN) || bool_decide (e = Some EWOULDBLOCK) then Ok (finish w)
    else Ok w
  end.

Definition handleRead (rs : list read_result) (w : World) : res World := read_loop rs false w.

Definition shutdownInLoop (w : World) : World :=
  if negb (channel_writing w) then emit EvShutdownWrite w else w.

(** The loop of [handleWrite]. *)
Fixpoint write_loop (ws : list write_result) (w : World) : res World :=
  let out := m_outputBuffer (conn w) in
  if readableBytes out =? 0 then Ok w
  else match ws with
  | [] => Ok w
  | Wrote k :: ws =>
    let n := Z.min (Z.of_nat k) (readableBytes out) in
    if 0 <? n then
      let w := put_written (peek 0 n out) w in
      out' <- retrieve n out ;;
      let pressed := if m_backPressured (conn w) && (readableBytes out' <=? m_lowWaterMark (conn w))
                     then false else m_backPressured (conn w) in
      write_loop ws (put_conn (with_output out' pressed (conn w)) w)
    else Ok w
  | WriteError _ :: _ => Ok w
  end.

Definition handleWrite (ws : list write_result) (w : World) : res World :=
  if channel_writing w then
    w <- write_loop ws w ;;
    if readableBytes (m_outputBuffer (conn w)) =? 0 then
      w <- on_channel disableWriting w ;;
      let w := emit_if (m_writeCompleteCallback (conn w)) EvWriteComplete w in
      Ok (if bool_decide (m_state (conn w) = kDisconnecting) then shutdownInLoop w else w)
    else Ok w
  else Ok w.

(** The direct write at the start of [sendInLoop]: bytes taken, and whether
    the connection is broken. *)
Definition direct_write (data : bytes) (r : write_result) : nat * bool :=
  match r with
  | Wrote k => (Nat.min k (length data), false)
  | WriteError errno =>
    (0%nat, negb (errno =? EWOULDBLOCK) && ((errno =? EPIPE) || (errno =? ECONNRESET)))
  end.

(** The rest of [sendInLoop]: buffering what was not written. *)
Definition buffer_rest (rest : bytes) (w : World) : res World :=
  let c := conn w in
  let remaining := Z.of_nat (length rest) in
  let pendingBytes := u64 (readableBytes (m_outputBuffer c) + remaining) in
  if m_maxOutputBufferBytes c <? pendingBytes
  then Ok (put_conn (with_output (m_outputBuffer c) true c) w)
  else
    out <- append rest (m_outputBuffer c) ;;
    let high := negb (m_backPressured c) && (m_highWaterMark c <=? readableBytes out) in
    let w := put_conn (with_output out (m_backPressured c || high) c) w in
    let w := emit_if (high && m_highWaterMarkCallback c) (EvHighWaterMark (readableBytes out)) w in
    if negb (channel_writing w) then on_channel enableWriting w else Ok w.

Definition sendInLoop (data : bytes) (r : write_result) (w : World) : res World :=
  if bool_decide (m_state (conn w) = kDisconnected) then Ok w
  else
    let direct := negb (channel_writing w) && (readableBytes (m_outputBuffer (conn w)) =? 0) in
    let '(nwrote, fault) := if direct then direct_write data r else (0%nat, false) in
    let w := put_written (take nwrote data) w in
    let done_ := direct && match r with Wrote _ => bool_decide (nwrote = length data) | _ => false end in
    let w := emit_if (done_ && m_writeCompleteCallback (conn w)) EvWriteComplete w in
    let rest := drop nwrote data in
    if negb fault && (0 <? Z.of_nat (length rest)) then buffer_rest rest w else Ok w.

(** The public operations, called in the loop's thread or not. *)
Definition send (inLoop : bool) (data : bytes) (r : write_result) (w : World) : res World :=
  if bool_decide (m_state (conn w) = kConnected) then
    if inLoop then sendInLoop data r w else Ok (queueInLoop (SendInLoop data) w)
  else Ok w.

Definition shutdown (inLoop : bool) (w : World) : World :=
  if bool_decide (m_state (conn w) = kConnected) then
    let w := put_conn (with_state kDisconnecting (conn w)) w in
    if inLoop then shutdownInLoop w else queueInLoop ShutdownInLoop w
  else w.

Definition forceClose (w : World) : World :=
  if bool_decide (m_state (conn w) = kConnected \/ m_state (conn w) = kDisconnecting) then
    queueInLoop ForceCloseInLoop (put_conn (with_state kDisconnecting (conn w)) w)
  else w.

(** The delay is not used. *)
Definition forceCloseWithDelay (seconds : Z) (w : World) : World :=
  if bool_decide (m_state (conn w) = kConnected \/ m_state (conn w) = kDisconnecting) then
    queueInLoop ForceCloseInLoop (put_conn (with_state kDisconnecting (conn w)) w)
  else w.

Definition forceCloseInLoop (w : World) : res World :=
  if bool_decide (m_state (conn w) = kConnected \/ m_state (conn w) = kDisconnecting)
  then handleClose w else Ok w.

Definition connectEstablished (w : World) : res World :=
  if bool_decide (m_state (conn w) = kConnecting) then
    w <- on_channel enableReading (put_conn (with_state kConnected (conn w)) w) ;;
    Ok (emit_if (m_connectionCallback (conn w)) (EvConnection kConnected) w)
  else Ok w.

Definition connectDestroyed (w : World) : res World :=
  w <- (if bool_decide (m_state (conn w) = kConnected) then
          w <- on_channel disableAll (put_conn (with_state kDisconnected (conn w)) w) ;;
          Ok (emit_if (m_connectionCallback (conn w)) (EvConnection kDisconnected) w)
        else Ok w) ;;
  on_channel channel_remove w.

(** A functor run by the loop; [r] answers the write it may make. *)
Definition run_functor (f : functor) (r : write_result) (w : World) : res World :=
  match f with
  | SendInLoop data => sendInLoop data r w
  | ShutdownInLoop => Ok (shutdownInLoop w)
  | ForceCloseInLoop => forceCloseInLoop w
  | ConnectEstablished => connectEstablished w
  | ConnectDestroyed => connectDestroyed w
  end.

Fixpoint run_functors (fs : list functor) (rs : list write_result) (w : World) : res World :=
  match fs with
  | [] => Ok w
  | f :: fs => w <- run_functor f (hd (WriteError EAGAIN) rs) w ;; run_functors fs (tl rs) w
  end.

(** The queue is swapped out first: a functor queued meanwhile waits for the
    next round. *)
Definition doPendingFunctors (rs : list write_result) (w : World) : res World :=
  run_functors (pendingFunctors w) rs (put_pending [] w).

(** ** The byte stream *)
Notation out_of w := (m_outputBuffer (conn w)).

(** The connection's channel is known to the poller and its buffer is sound. *)
Record ready (w : World) : Prop := {
  rd_poller : poller_inv (loop_poller w);
  rd_channel : is_Some (channels (loop_poller w) !! m_channel (conn w));
  rd_out : wf (out_of w);
}.

(** Everything handed to the connection so far: what the kernel took and what
    waits in the buffer. *)
Definition stream (w : World) : bytes := written w ++ content (out_of w).

(** What an operation on the output side keeps. *)
Definition same_config (w w' : World) : Prop :=
  m_channel (conn w') = m_channel (conn w) /\ m_state (conn w') = m_state (conn w)
  /\ m_maxOutputBufferBytes (conn w') = m_maxOutputBufferBytes (conn w).

Lemma emit_if_fields b e w :
  conn (emit_if b e w) = conn w /\ loop_poller (emit_if b e w) = loop_poller w
  /\ written (emit_if b e w) = written w.
Proof. by destruct b. Qed.

Lemma on_channel_ok f w :
  poller_inv (loop_poller w) -> is_Some (channels (loop_poller w) !! m_channel (conn w)) ->
  exists p, on_channel (fun id => channel_update id f) w = Ok (put_poller p w) /\ poller_inv p
    /\ is_Some (channels p !! m_channel (conn w)).
Proof.
  intros I [c Hc]. unfold on_channel.
  destruct (channel_update_ok _ f _ _ I Hc) as (p & -> & I' & _ & _ & c' & Hp & _).
  exists p. splits; [done|done|]. rewrite Hp, lookup_insert_eq. by eexists.
Qed.

(** Does a send keep all its bytes? *)
Definition accepted (data : bytes) (r : write_result) (w : World) : bool :=
  negb (bool_decide (m_state (conn w) = kDisconnected)) &&
  let direct := negb (channel_writing w) && (readableBytes (out_of w) =? 0) in
  let '(n, fault) := if direct then direct_write data r else (0%nat, false) in
  negb fault && ((Z.of_nat (length (drop n data)) =? 0)
                 || (readableBytes (out_of w) + Z.of_nat (length (drop n data))
                     <=? m_maxOutputBufferBytes (conn w))).

Lemma buffer_rest_ok rest w :
  ready w -> m_writerIndex (out_of w) + blen rest <= max_size ->
  exists w' k, buffer_rest rest w = Ok w' /\ ready w' /\ same_config w w'
    /\ written w' = written w
    /\ content (out_of w') = content (out_of w) ++ take k rest
    /\ (readableBytes (out_of w) + blen rest <= m_maxOutputBufferBytes (conn w) -> k = length rest)
    /\ blen (content (out_of w')) <= Z.max (m_maxOutputBufferBytes (conn w)) (blen (content (out_of w)))
    /\ m_writerIndex (out_of w') <= m_writerIndex (out_of w) + blen rest.
Proof.
  intros R Hroom. pose proof R as [I Hch Hwf]. unfold buffer_rest.
  pose proof (readable_content _ Hwf) as Hrd. pose proof (content_length _ Hwf) as Hcl.
  assert (Hix := Hwf). destruct Hix as [Hi1 Hi2].
  rewrite u64_small by (unfold max_size, blen, kCheapPrepend in *; lia).
  fold (blen rest). destruct (m_maxOutputBufferBytes (conn w) <? _) eqn:El; b2p.
  - exists (put_conn (with_output (out_of w) true (conn w)) w), 0%nat. splits; try done.
    + by rewrite take_0, app_nil_r.
    + intros. lia.
    + simpl. lia.
    + simpl. unfold blen. lia.
  - destruct (append_spec rest (out_of w) Hwf Hroom) as (b & -> & Hwf' & Hc & Hi). simpl.
    set (high := negb (m_backPressured (conn w)) && (m_highWaterMark (conn w) <=? readableBytes b)).
    set (w1 := put_conn _ w).
    destruct (emit_if_fields (high && m_highWaterMarkCallback (conn w))
      (EvHighWaterMark (readableBytes b)) w1) as (Ec & Ep & Ew).
    set (w2 := emit_if _ _ w1) in *.
    assert (Hready2 : ready w2).
    { split; rewrite ?Ec, ?Ep; done. }
    assert (Hfin : forall p, poller_inv p -> is_Some (channels p !! m_channel (conn w2)) ->
      exists k, ready (put_poller p w2) /\ same_config w (put_poller p w2)
        /\ written (put_poller p w2) = written w
        /\ content (out_of (put_poller p w2)) = content (out_of w) ++ take k rest
        /\ (readableBytes (out_of w) + blen rest <= m_maxOutputBufferBytes (conn w) -> k = length rest)
        /\ blen (content (out_of (put_poller p w2)))
             <= Z.max (m_maxOutputBufferBytes (conn w)) (blen (content (out_of w)))
        /\ m_writerIndex (out_of (put_poller p w2)) <= m_writerIndex (out_of w) + blen rest).
    { intros p Ip Hp. exists (length rest). simpl. rewrite Ec. simpl.
      rewrite take_ge by done. splits; try done.
      - split; simpl; rewrite ?Ec; try done. by rewrite Ec in Hp.
      - unfold same_config. simpl. rewrite Ec. done.
      - rewrite Hc. unfold blen in *. rewrite length_app. lia. }
    destruct (channel_writing w2).
    + destruct (Hfin (loop_poller w2)) as (k & Hk); [apply Hready2|apply Hready2|].
      assert (Hid : put_poller (loop_poller w2) w2 = w2) by (generalize w2; by intros []).
      rewrite Hid in Hk. exists w2, k. split; [reflexivity|exact Hk].
    + destruct (on_channel_ok (fun ev => Z.lor ev kWriteEvent) w2) as (p & E & Ip & Hp);
        [apply Hready2|apply Hready2|].
      destruct (Hfin p Ip Hp) as (k & Hk). exists (put_poller p w2), k. split; [exact E|exact Hk].
Qed.

Lemma sendInLoop_stream data r w :
  ready w -> m_writerIndex (out_of w) + blen data <= max_size ->
  exists w' k, sendInLoop data r w = Ok w' /\ ready w' /\ same_config w w'
    /\ stream w' = stream w ++ take k data
    /\ (accepted data r w = true -> k = length data)
    /\ blen (content (out_of w')) <= Z.max (m_maxOutputBufferBytes (conn w)) (blen (content (out_of w)))
    /\ m_writerIndex (out_of w') <= m_writerIndex (out_of w) + blen data.
Proof.
  intros R Hroom. unfold sendInLoop, accepted, stream.
  case_bool_decide as Hs; simpl negb; cbn [andb].
  { exists w, 0%nat. splits; try done; [by rewrite take_0, app_nil_r|lia|unfold blen; lia]. }
  set (direct := negb (channel_writing w) && _).
  assert (Hempty : direct = true -> content (out_of w) = []).
  { unfold direct. intros Hd. b2p. rewrite (readable_content _ (rd_out _ R)) in *.
    unfold blen in *. destruct (content (out_of w)); [done|simpl in *; lia]. }
  destruct (if direct then direct_write data r else (0%nat, false)) as [n fault] eqn:En.
  assert (Hn : (n <= length data)%nat /\ (n <> 0%nat -> content (out_of w) = [])).
  { destruct direct; [|by injection En as <- <-; split; [lia|]].
    split; [|by intros; apply Hempty]. destruct r; injection En as <- <-; lia. }
  destruct Hn as [Hn1 Hn2].
  set (w1 := put_written (take n data) w).
  destruct (emit_if_fields (direct && match r with Wrote _ => bool_decide (n = length data) | _ => false end
     && m_writeCompleteCallback (conn w1)) EvWriteComplete w1) as (Ec & Ep & Ew).
  set (w2 := emit_if _ _ w1) in *.
  assert (R2 : ready w2) by (destruct R; split; by rewrite ?Ec, ?Ep).
  assert (Hsplit : written w2 ++ content (out_of w2) = (written w ++ content (out_of w)) ++ take n data).
  { rewrite Ew, Ec. simpl. destruct (decide (n = 0%nat)) as [->|Hne].
    - by rewrite take_0, !app_nil_r.
    - rewrite (Hn2 Hne). by rewrite !app_nil_r. }
  destruct (negb fault && (0 <? Z.of_nat (length (drop n data)))) eqn:Eb.
  - b2p. assert (Hlen : blen (drop n data) <= blen data) by (unfold blen; rewrite length_drop; lia).
    destruct (buffer_rest_ok (drop n data) w2 R2) as (w' & k & E & R' & SC & Hw & Hc & Hacc & Hle & Hi).
    { rewrite Ec. simpl. lia. }
    assert (SC' : same_config w w') by (unfold same_config in *; by rewrite Ec in SC).
    rewrite Ec in *. simpl in *.
    exists w', (n + k)%nat. splits; try done.
    + rewrite Hw, Hc, app_assoc. rewrite Ew in *. simpl in *. rewrite Hsplit.
      rewrite <- !app_assoc. do 2 f_equal.
      rewrite <- (take_drop n data) at 3. 
      rewrite take_app_ge by (rewrite length_take; lia). f_equal. f_equal. rewrite length_take. lia.
    + intros Ha. apply andb_true_iff in Ha as [_ Ha]. apply orb_true_iff in Ha as [Ha|Ha]; b2p; [lia|].
      fold (blen (drop n data)) in Ha. rewrite (Hacc Ha), length_drop. lia.
    + lia.
  - assert (SC' : same_config w w2) by (unfold same_config; by rewrite Ec).
    exists w2, n. rewrite Ec in *. simpl in *. splits; try done.
    + intros Ha. apply andb_true_iff in Ha as [Hf _]. rewrite Hf in Eb. simpl in Eb. b2p.
      rewrite length_drop in Eb. lia.
    + lia.
    + unfold blen. lia.
Qed.

Lemma write_loop_stream ws w :
  ready w ->
  exists w', write_loop ws w = Ok w' /\ ready w' /\ same_config w w' /\ stream w' = stream w
    /\ blen (content (out_of w')) <= blen (content (out_of w))
    /\ m_writerIndex (out_of w') <= m_writerIndex (out_of w) /\ loop_poller w' = loop_poller w.
Proof.
  revert w. induction ws as [|r ws IH]; intros w R; cbn [write_loop].
  { exists w. by destruct (readableBytes (out_of w) =? 0). }
  destruct (readableBytes (out_of w) =? 0) eqn:E0; [by exists w|].
  destruct r as [k|e]; [|by exists w].
  pose proof (readable_content _ (rd_out _ R)) as Hrd.
  destruct (0 <? _) eqn:En; [|by exists w]. b2p.
  set (n := Z.min (Z.of_nat k) (readableBytes (out_of w))) in *.
  destruct (retrieve_spec n (out_of w) (rd_out _ R)) as (b & E & Hwf & Hc & _ & Hi); [lia|].
  rewrite E. cbn [res_bind].
  match goal with |- context [write_loop ws ?x] => set (w1 := x) end.
  assert (R1 : ready w1) by (destruct R; by split).
  assert (Hs1 : stream w1 = stream w).
  { unfold stream. simpl. rewrite (peek_content 0 n) by (try apply R; lia).
    rewrite Hc, <- app_assoc. f_equal. simpl. rewrite ?drop_0. apply take_drop. }
  destruct (IH w1 R1) as (w' & E' & R' & SC & Hs & Hl & Hi' & Hp).
  exists w'. splits; try done.
  - by rewrite Hs.
  - assert (blen (content (out_of w1)) <= blen (content (out_of w))); [|lia].
    simpl. rewrite Hc. unfold blen. rewrite length_drop. lia.
  - simpl in Hi'. lia.
Qed.

Lemma handleWrite_stream ws w :
  ready w ->
  exists w', handleWrite ws w = Ok w' /\ ready w' /\ same_config w w' /\ stream w' = stream w
    /\ blen (content (out_of w')) <= blen (content (out_of w))
    /\ m_writerIndex (out_of w') <= m_writerIndex (out_of w).
Proof.
  intros R. unfold handleWrite. destruct (channel_writing w); [|by exists w].
  destruct (write_loop_stream ws w R) as (w1 & -> & R1 & SC & Hs & Hl & Hi & _). cbn [res_bind].
  destruct (readableBytes (out_of w1) =? 0); [|by exists w1].
  destruct (on_channel_ok (fun ev => Z.land ev (Z.lnot kWriteEvent)) w1) as (p & E & Ip & Hp);
    [apply R1|apply R1|].
  unfold disableWriting. rewrite E. cbn [res_bind].
  set (w2 := put_poller p w1).
  assert (R2 : ready w2) by (destruct R1; by split).
  destruct (emit_if_fields (m_writeCompleteCallback (conn w2)) EvWriteComplete w2) as (Ec & Ep & Ew).
  set (w3 := emit_if _ _ w2) in *.
  assert (G : forall b e, let w4 := emit_if b e w3 in
    ready w4 /\ same_config w w4 /\ stream w4 = stream w
    /\ blen (content (out_of w4)) <= blen (content (out_of w))
    /\ m_writerIndex (out_of w4) <= m_writerIndex (out_of w)).
  { intros b e w4. destruct (emit_if_fields b e w3) as (Ec' & Ep' & Ew'). fold w4 in Ec', Ep', Ew'.
    rewrite Ec in Ec'. rewrite Ep in Ep'. rewrite Ew in Ew'.
    unfold same_config, stream. rewrite Ec', Ew'. splits; try done; try apply SC.
    destruct R2; split; by rewrite ?Ec', ?Ep'. }
  destruct (bool_decide _); [|by exists w3; specialize (G false EvClose)].
  unfold shutdownInLoop. destruct (negb (channel_writing w3)).
  - exists (emit EvShutdownWrite w3). split; [done|]. apply (G true).
  - exists w3. split; [done|]. apply (G false EvClose).
Qed.

Inductive output_op := Send (data : bytes) (r : write_result) | Writable (ws : list write_result).

Definition output_step (o : output_op) (w : World) : res World :=
  match o with Send data r => sendInLoop data r w | Writable ws => handleWrite ws w end.

Fixpoint run_output (os : list output_op) (w : World) : res World :=
  match os with [] => Ok w | o :: os => w <- output_step o w ;; run_output os w end.

(** No send of the sequence is refused. *)
Fixpoint all_accepted (os : list output_op) (w : World) : bool :=
  match os with
  | [] => true
  | o :: os =>
    match o with Send data r => accepted data r w | Writable _ => true end
    && match output_step o w with Ok w' => all_accepted os w' | Err _ => true end
  end.

Definition sent_by (o : output_op) : bytes := match o with Send data _ => data | Writable _ => [] end.

Lemma run_output_stream os w :
  ready w -> m_writerIndex (out_of w) + blen (os ≫= sent_by) <= max_size ->
  blen (content (out_of w)) <= m_maxOutputBufferBytes (conn w) ->
  exists w', run_output os w = Ok w' /\ ready w'
    /\ blen (content (out_of w')) <= m_maxOutputBufferBytes (conn w)
    /\ (all_accepted os w = true -> stream w' = stream w ++ (os ≫= sent_by)).
Proof.
  revert w. induction os as [|o os IH]; intros w R Hroom Hmax.
  { exists w. splits; try done. intros _. by rewrite app_nil_r. }
  cbn [run_output all_accepted]. rewrite bind_cons in Hroom. unfold blen in Hroom. rewrite length_app in Hroom.
  assert (S : exists w1 k, output_step o w = Ok w1 /\ ready w1 /\ same_config w w1
    /\ stream w1 = stream w ++ take k (sent_by o)
    /\ (match o with Send data r => accepted data r w | Writable _ => true end = true ->
         k = length (sent_by o))
    /\ blen (content (out_of w1)) <= m_maxOutputBufferBytes (conn w)
    /\ m_writerIndex (out_of w1) <= m_writerIndex (out_of w) + blen (sent_by o)).
  { destruct o as [data r|ws]; simpl.
    - destruct (sendInLoop_stream data r w R) as (w1 & k & ? & ? & ? & ? & ? & ? & ?).
      { unfold blen. simpl in Hroom. lia. }
      exists w1, k. splits; try done. lia.
    - destruct (handleWrite_stream ws w R) as (w1 & ? & ? & ? & Hs & ? & ?).
      exists w1, 0%nat. splits; try done; [by rewrite app_nil_r|lia|unfold blen; simpl; lia]. }
  destruct S as (w1 & k & E1 & R1 & (SC1 & SC2 & SC3) & Hs1 & Hk & Hm1 & Hi1). rewrite E1. cbn [res_bind].
  destruct (IH w1 R1) as (w' & E' & R' & Hm' & Hs').
  { unfold blen in *. lia. }
  { by rewrite SC3. }
  rewrite SC3 in Hm'. exists w'. splits; try done. intros Ha. apply andb_true_iff in Ha as [Ha1 Ha2].
  rewrite (Hs' Ha2), Hs1, (Hk Ha1), firstn_all, bind_cons. by rewrite <- app_assoc.
Qed.

(** C6: The connection is a faithful pipe: over any sequence of sends and
    writable events, with any partial writes of the kernel, every operation
    returns, the buffered bytes never exceed the configured maximum, and when
    no send was refused the bytes given to the kernel followed by the buffered
    ones are exactly the bytes sent, in order. *)
Theorem output_is_faithful_pipe os w :
  ready w -> content (out_of w) = [] -> written w = [] -> 0 <= m_maxOutputBufferBytes (conn w) ->
  m_writerIndex (out_of w) + blen (os ≫= sent_by) <= max_size ->
  exists w', run_output os w = Ok w'
    /\ blen (content (out_of w')) <= m_maxOutputBufferBytes (conn w)
    /\ (all_accepted os w = true -> written w' ++ content (out_of w') = os ≫= sent_by).
Proof.
  intros R Hc Hw Hm Hroom.
  destruct (run_output_stream os w R Hroom) as (w' & E & _ & Hle & Hs); [by rewrite Hc|].
  exists w'. splits; try done. intros Ha. specialize (Hs Ha). unfold stream in Hs.
  by rewrite Hc, Hw in Hs.
Qed.

(** ** The life of a connection *)
Definition rank (s : State) : Z :=
  match s with kConnecting => 0 | kConnected => 1 | kDisconnecting => 2 | kDisconnected => 3 end.

Definition is_up (e : event) : bool := match e with EvConnection kConnected => true | _ => false end.
Definition is_down (e : event) : bool := match e with EvConnection kDisconnected => true | _ => false end.
Definition is_close (e : event) : bool := match e with EvClose => true | _ => false end.
Definition neutral (e : event) : bool := negb (is_up e || is_down e || is_close e).

(** The calls of the connection and close callbacks, in order. *)
Definition milestones (es : list event) : list event := filter (fun e => neutral e = false) es.

(** What they are in each state.  A connection that the server's destructor
    destroys while it is connected has no close callback. *)
Definition milestones_of (s : State) (es : list event) : Prop :=
  match s with
  | kConnecting => es = []
  | kConnected | kDisconnecting => es = [EvConnection kConnected]
  | kDisconnected =>
    es = [EvConnection kConnected; EvConnection kDisconnected; EvClose]
    \/ es = [EvConnection kConnected; EvConnection kDisconnected]
  end.

Definition has_callbacks (c : TcpConnection) : Prop :=
  m_connectionCallback c = true /\ m_closeCallback c = true.

Definition life_inv (w : World) : Prop :=
  has_callbacks (conn w) /\ milestones_of (m_state (conn w)) (milestones (evs w)).

Definition advance (w w' : World) : Prop :=
  rank (m_state (conn w)) <= rank (m_state (conn w')) /\ (life_inv w -> life_inv w').

Lemma milestones_app l l' : milestones (l ++ l') = milestones l ++ milestones l'.
Proof. apply filter_app. Qed.

Lemma milestones_neutral es : forallb neutral es = true -> milestones es = [].
Proof.
  induction es as [|e es IH]; simpl; [done|]. intros [He Hes]%andb_true_iff.
  unfold milestones. rewrite filter_cons, decide_False by congruence. by apply IH.
Qed.

Lemma advance_refl w : advance w w.
Proof. split; [lia|done]. Qed.

Lemma advance_trans w1 w2 w3 : advance w1 w2 -> advance w2 w3 -> advance w1 w3.
Proof. intros [? ?] [? ?]. split; [lia|auto]. Qed.

(** Same state and callbacks, neutral events only. *)
Definition same_life (c c' : TcpConnection) : Prop :=
  m_state c' = m_state c /\ m_connectionCallback c' = m_connectionCallback c
  /\ m_closeCallback c' = m_closeCallback c.

Definition quiet (w w' : World) : Prop :=
  same_life (conn w) (conn w')
  /\ exists es, evs w' = evs w ++ es /\ forallb neutral es = true.

Lemma quiet_refl w : quiet w w.
Proof. split; [done|]. exists []. by rewrite app_nil_r. Qed.

Lemma quiet_trans w1 w2 w3 : quiet w1 w2 -> quiet w2 w3 -> quiet w1 w3.
Proof.
  intros [(A1 & A2 & A3) (e1 & E1 & N1)] [(B1 & B2 & B3) (e2 & E2 & N2)].
  split; [unfold same_life; by rewrite B1, B2, B3|].
  exists (e1 ++ e2). rewrite E2, E1, app_assoc. split; [done|]. rewrite forallb_app. by rewrite N1, N2.
Qed.

Lemma quiet_same w w' : same_life (conn w) (conn w') -> evs w' = evs w -> quiet w w'.
Proof. intros Hs He. split; [done|]. exists []. by rewrite app_nil_r. Qed.

Lemma quiet_emit_if b e w : neutral e = true -> quiet w (emit_if b e w).
Proof.
  intros Hn. destruct b; [|apply quiet_refl]. split; [done|]. exists [e]. split; [done|]. simpl. by rewrite Hn.
Qed.

Lemma quiet_advance w w' : quiet w w' -> advance w w'.
Proof.
  intros [(Hs & H1 & H2) (es & He & Hn%milestones_neutral)].
  split; [rewrite Hs; lia|]. unfold life_inv, has_callbacks.
  by rewrite Hs, H1, H2, He, milestones_app, Hn, app_nil_r.
Qed.

Lemma on_channel_same op w w' :
  on_channel op w = Ok w' -> conn w' = conn w /\ evs w' = evs w.
Proof. unfold on_channel. destruct (op _ _); simpl; intros; res_inv; by simplify_eq. Qed.

Lemma quiet_on_channel op w w' : on_channel op w = Ok w' -> quiet w w'.
Proof. intros [Hc He]%on_channel_same. apply quiet_same; [by rewrite Hc|done]. Qed.

Lemma write_loop_quiet ws w w' : write_loop ws w = Ok w' -> quiet w w'.
Proof.
  revert w. induction ws as [|r ws IH]; intros w; cbn [write_loop].
  { case_if; intros; res_inv; apply quiet_refl. }
  case_if; [intros; res_inv; apply quiet_refl|].
  destruct r as [k|e]; [|intros; res_inv; apply quiet_refl].
  case_if; [|intros; res_inv; apply quiet_refl].
  destruct (retrieve _ _); cbn [res_bind]; [|done].
  intros Hr. apply IH in Hr. eapply quiet_trans; [|exact Hr]. by apply quiet_same.
Qed.

Lemma handleWrite_quiet ws w w' : handleWrite ws w = Ok w' -> quiet w w'.
Proof.
  unfold handleWrite. case_if; [|intros; res_inv; apply quiet_refl].
  destruct (write_loop ws w) as [w1|] eqn:E1; cbn [res_bind]; [|done]. apply write_loop_quiet in E1.
  case_if; [|intros; res_inv; done].
  destruct (on_channel disableWriting w1) as [w2|] eqn:E2; cbn [res_bind]; [|done].
  apply quiet_on_channel in E2. intros H. injection H as <-.
  pose proof (quiet_emit_if (m_writeCompleteCallback (conn w2)) EvWriteComplete w2 eq_refl) as Q3.
  pose proof (quiet_trans _ _ _ (quiet_trans _ _ _ E1 E2) Q3) as Q.
  case_bool_decide; [|exact Q]. unfold shutdownInLoop. case_if; [|exact Q].
  eapply quiet_trans; [exact Q|]. apply (quiet_emit_if true EvShutdownWrite). done.
Qed.

Lemma sendInLoop_quiet data r w w' : sendInLoop data r w = Ok w' -> quiet w w'.
Proof.
  unfold sendInLoop. case_bool_decide; [intros; res_inv; apply quiet_refl|].
  destruct (if _ && _ then direct_write data r else (0%nat, false)) as [n fault].
  set (w1 := put_written (take n data) w).
  match goal with |- context [emit_if ?b EvWriteComplete w1] => set (w2 := emit_if b EvWriteComplete w1) end.
  assert (Q2 : quiet w w2).
  { eapply quiet_trans; [|by apply quiet_emit_if]. by apply quiet_same. }
  case_if; [|intros; by res_inv]. unfold buffer_rest.
  case_if; [intros; res_inv; eapply quiet_trans; [exact Q2|by apply quiet_same]|].
  destruct (append _ _) as [out|]; cbn [res_bind]; [|done].
  match goal with |- context [emit_if ?b ?e ?x] =>
    assert (Q3 : quiet w2 (emit_if b e x)) by
      (eapply quiet_trans; [|by apply (quiet_emit_if b e x)]; by apply quiet_same) end.
  case_if; intros Hr; [|res_inv; by eapply quiet_trans].
  apply quiet_on_channel in Hr. eapply quiet_trans; [exact Q2|]. by eapply quiet_trans.
Qed.

(** From one state to the next, with the callbacks of a connection that has
    both of them. *)
Lemma advance_by w w' es :
  rank (m_state (conn w)) <= rank (m_state (conn w')) ->
  m_connectionCallback (conn w') = m_connectionCallback (conn w) ->
  m_closeCallback (conn w') = m_closeCallback (conn w) ->
  (has_callbacks (conn w) -> evs w' = evs w ++ es) ->
  (forall ms, milestones_of (m_state (conn w)) ms ->
     milestones_of (m_state (conn w')) (ms ++ milestones es)) ->
  advance w w'.
Proof.
  intros Hr H1 H2 He Hm. split; [done|]. intros [Hcb Hms]. split.
  - unfold has_callbacks. by rewrite H1, H2.
  - rewrite (He Hcb), milestones_app. by apply Hm.
Qed.

Lemma handleClose_advance w w' : handleClose w = Ok w' -> advance w w'.
Proof.
  unfold handleClose. case_bool_decide as Hs; [|intros; res_inv; apply advance_refl].
  destruct (on_channel _ _) as [w1|] eqn:E1; cbn [res_bind]; [|done].
  apply on_channel_same in E1 as [Ec Ee]. simpl in Ec, Ee. intros H. injection H as <-.
  set (b1 := m_connectionCallback (conn w1)).
  destruct (emit_if_fields b1 (EvConnection kDisconnected) w1) as (C1 & _).
  set (w2 := emit_if b1 _ w1) in *.
  destruct (emit_if_fields (m_closeCallback (conn w2)) EvClose w2) as (C2 & _).
  eapply (advance_by w _ [EvConnection kDisconnected; EvClose]); rewrite ?C2, ?C1, ?Ec; simpl.
  - destruct Hs as [-> | ->]; simpl; lia.
  - done.
  - done.
  - intros [H1 H2]. rewrite H2. unfold w2, b1. rewrite Ec. simpl. rewrite H1. simpl.
    rewrite Ee. by rewrite <- app_assoc.
  - intros ms Hms. left. destruct Hs as [Hs|Hs]; rewrite Hs in Hms; by rewrite Hms.
Qed.

Lemma read_loop_advance rs received w w' : read_loop rs received w = Ok w' -> advance w w'.
Proof.
  revert received w. induction rs as [|r rs IH]; intros received w; cbn [read_loop].
  { intros H. injection H as <-. apply quiet_advance.
    case_if; [|apply quiet_refl]. apply (quiet_emit_if true (EvMessage _)). done. }
  destruct (readFd r _) as [[[n e] b]|] eqn:E; cbn [res_bind]; [|done].
  set (w1 := put_conn (with_input b (conn w)) w).
  assert (Q1 : quiet w w1) by (by apply quiet_same).
  case_if; [intros H; apply IH in H; eapply advance_trans; [by apply quiet_advance|exact H]|].
  case_if; [intros H; apply handleClose_advance in H; eapply advance_trans; [by apply quiet_advance|exact H]|].
  case_if; intros H; injection H as <-; apply quiet_advance; [|done].
  eapply quiet_trans; [exact Q1|]. case_if; [|apply quiet_refl].
  apply (quiet_emit_if true (EvMessage _)). done.
Qed.

Lemma advance_leaving w fs :
  m_state (conn w) = kConnected \/ m_state (conn w) = kDisconnecting ->
  advance w (put_pending fs (put_conn (with_state kDisconnecting (conn w)) w)).
Proof.
  intros Hs. split; [destruct Hs as [-> | ->]; simpl; lia|].
  unfold life_inv, has_callbacks. simpl. destruct Hs as [-> | ->]; simpl; done.
Qed.

Lemma shutdownInLoop_advance w : advance w (shutdownInLoop w).
Proof.
  unfold shutdownInLoop. case_if; [|apply advance_refl]. apply quiet_advance.
  apply (quiet_emit_if true EvShutdownWrite). done.
Qed.

Lemma run_functor_advance f r w w' : run_functor f r w = Ok w' -> advance w w'.
Proof.
  destruct f; simpl.
  - intros H. by apply quiet_advance, (sendInLoop_quiet data r).
  - intros H. injection H as <-. apply shutdownInLoop_advance.
  - unfold forceCloseInLoop. case_bool_decide; [apply handleClose_advance|].
    intros; res_inv; apply advance_refl.
  - unfold connectEstablished. case_bool_decide as Hs; [|intros; res_inv; apply advance_refl].
    destruct (on_channel _ _) as [w1|] eqn:E1; cbn [res_bind]; [|done].
    apply on_channel_same in E1 as [Ec Ee]. simpl in Ec, Ee. intros H. injection H as <-.
    destruct (emit_if_fields (m_connectionCallback (conn w1)) (EvConnection kConnected) w1) as (C1 & _).
    eapply (advance_by w _ [EvConnection kConnected]); rewrite ?C1, ?Ec, ?Hs; simpl; try done.
    + intros [H1 _]. rewrite H1. simpl. by rewrite Ee.
    + by intros ms ->.
  - unfold connectDestroyed. case_bool_decide as Hs.
    + destruct (on_channel disableAll _) as [w1|] eqn:E1; cbn [res_bind]; [|done].
      apply on_channel_same in E1 as [Ec Ee]. simpl in Ec, Ee. intros H2.
      apply quiet_on_channel in H2. eapply advance_trans; [|by apply quiet_advance].
      destruct (emit_if_fields (m_connectionCallback (conn w1)) (EvConnection kDisconnected) w1) as (C1 & _).
      eapply (advance_by w _ [EvConnection kDisconnected]); rewrite ?C1, ?Ec, ?Hs; simpl; try done.
      * intros [H1 _]. rewrite H1. simpl. by rewrite Ee.
      * intros ms ->. by right.
    + cbn [res_bind]. intros H. by apply quiet_advance, (quiet_on_channel channel_remove).
Qed.

Lemma run_functors_advance fs rs w w' : run_functors fs rs w = Ok w' -> advance w w'.
Proof.
  revert rs w. induction fs as [|f fs IH]; intros rs w; cbn [run_functors].
  { intros; res_inv; apply advance_refl. }
  destruct (run_functor f _ w) as [w1|] eqn:E; cbn [res_bind]; [|done].
  intros H. apply IH in H. apply run_functor_advance in E. by eapply advance_trans.
Qed.

(** What can happen to a connection: an event of its channel, a call of its
    public operations from any thread, a round of queued functors, or the
    server queueing one. *)
Inductive step : World -> World -> Prop :=
| step_read rs w w' : handleRead rs w = Ok w' -> step w w'
| step_write ws w w' : handleWrite ws w = Ok w' -> step w w'
| step_close w w' : handleClose w = Ok w' -> step w w'
| step_send inLoop data r w w' : send inLoop data r w = Ok w' -> step w w'
| step_shutdown inLoop w : step w (shutdown inLoop w)
| step_force_close w : step w (forceClose w)
| step_force_close_delay t w : step w (forceCloseWithDelay t w)
| step_pending rs w w' : doPendingFunctors rs w = Ok w' -> step w w'
| step_queue f w : step w (queueInLoop f w).

Lemma step_advance w w' : step w w' -> advance w w'.
Proof.
  destruct 1 as [rs w w' H|ws w w' H|w w' H|inLoop data r w w' H|inLoop w|w|t w|rs w w' H|f w].
  - by eapply read_loop_advance.
  - by eapply quiet_advance, handleWrite_quiet.
  - by apply handleClose_advance.
  - unfold send in H. case_bool_decide; [|res_inv; apply advance_refl].
    destruct inLoop; [by eapply quiet_advance, sendInLoop_quiet|].
    injection H as <-. apply quiet_advance. by apply quiet_same.
  - unfold shutdown. case_bool_decide as Hs; [|apply advance_refl].
    assert (A : advance w (put_conn (with_state kDisconnecting (conn w)) w)).
    { eapply advance_trans; [apply (advance_leaving w (pendingFunctors w)); by left|].
      apply quiet_advance. by apply quiet_same. }
    destruct inLoop.
    + eapply advance_trans; [exact A|apply shutdownInLoop_advance].
    + eapply advance_trans; [exact A|]. apply quiet_advance. by apply quiet_same.
  - unfold forceClose. case_bool_decide; [|apply advance_refl]. by apply advance_leaving.
  - unfold forceCloseWithDelay. case_bool_decide; [|apply advance_refl]. by apply advance_leaving.
  - unfold doPendingFunctors in H. eapply advance_trans; [|by eapply run_functors_advance].
    apply quiet_advance. by apply quiet_same.
  - apply quiet_advance. by apply quiet_same.
Qed.

Lemma steps_advance w w' : rtc step w w' -> advance w w'.
Proof.
  induction 1 as [w|w w1 w' H1 _ IH]; [apply advance_refl|].
  eapply advance_trans; [by apply step_advance|done].
Qed.


(** ** Concrete runs *)
Definition ex_poller : EpollPoller := put_channel 0 (newChannel 5) (newPoller false).

(** A connection with small marks, established. *)
Definition ex_start : World :=
  mkWorld (mkConnection kConnecting 0 newBuffer newBuffer 8 4 10 false true true true true true)
    ex_poller [ConnectEstablished] [] [].

Definition established : World :=
  match doPendingFunctors [] ex_start with Ok w => w | Err _ => ex_start end.

Definition msg (n : nat) (c : ascii) : bytes := replicate n c.

(** A refused send can cut a message: the kernel takes three bytes of a
    twenty-byte message, the rest exceeds the buffer limit and is dropped, and
    the next message follows the three bytes on the wire. *)
Lemma over_limit_send_truncates_stream :
  match sendInLoop (msg 20 "a") (Wrote 3) established with
  | Ok w1 => match sendInLoop (msg 5 "b") (Wrote 5) w1 with
             | Ok w2 => m_state (conn w2) = kConnected /\ stream w2 = msg 3 "a" ++ msg 5 "b"
             | Err _ => False
             end
  | Err _ => False
  end.
Proof. by vm_compute. Qed.

(** Bytes that arrive together with the end of the stream are lost: when
    the peer sends data and closes before the read event is handled, the
    connection is closed without handing the data to the message callback. *)
Lemma data_before_close_is_lost :
  match handleRead [ReadData (msg 3 "x"); ReadData []] established with
  | Ok w => m_state (conn w) = kDisconnected
            /\ evs w = [EvConnection kConnected; EvConnection kDisconnected; EvClose]
            /\ content (m_inputBuffer (conn w)) = msg 3 "x"
  | Err _ => False
  end.
Proof. by vm_compute. Qed.

Lemma ex_start_ready : ready ex_start.
Proof.
  split.
  - apply (create_inv (newPoller false) 0 5); [apply newPoller_inv|done|].
    apply map_Forall_empty.
  - by eexists.
  - apply newBuffer_wf.
Qed.

Definition ex_output : list output_op :=
  [Send (msg 6 "a") (Wrote 2); Send (msg 3 "b") (Wrote 0); Writable [Wrote 3; Wrote 1];
   Send (msg 4 "c") (Wrote 9); Writable [Wrote 50]].

Lemma output_is_faithful_pipe_witness :
  exists w', run_output ex_output ex_start = Ok w'
    /\ blen (content (out_of w')) <= 10
    /\ written w' ++ content (out_of w') = ex_output ≫= sent_by.
Proof.
  destruct (output_is_faithful_pipe ex_output ex_start ex_start_ready) as (w' & E & Hle & Hs).
  - reflexivity.
  - reflexivity.
  - vm_compute. done.
  - vm_compute. done.
  - refine (ex_intro _ w' (conj E (conj Hle (Hs _)))). vm_compute. reflexivity.
Defined.

(** The peer sends data, and the connection is closed by the next read. *)
Definition disconnected : World :=
  match handleRead [ReadData (msg 3 "x")] established with
  | Ok w => match handleRead [ReadData []] w with Ok w' => w' | Err _ => w end
  | Err _ => established
  end.


End tcp.
