(* ===== verification/ThreadPool.v ===== *)
(** * ThreadPool and BlockingQueue
      (src/base/threadpool.h, src/base/threadpool.cpp, src/base/blockingQueue.h)

    The pool is the one component whose own code is a concurrent algorithm, so
    it is modelled at the grain of its shared accesses: each locked operation
    of the queue and each access of the atomic flag is one step, and the steps
    of the callers of [submit], of the workers and of the thread in [stop]
    interleave freely.  A task is the number of a packaged task or the empty
    function [stop] wakes the workers with.  The fields after [m_maxQueueSize]
    are the threads' positions in the code and the history the theorems speak
    about. *)
From S2P Require Import Prelude.

Module pool.

(** ** BlockingQueue *)
Section BlockingQueue.
  Context {A : Type}.
  Implicit Types q : list A.

Definition put (t : A) (q : list A) : list A := q ++ [t].

(** [take(task, timeoutMs)]: the wait ends with an element or, when there is
    none until the timeout, with [false]. *)
Definition take_for (q : list A) : option (A * list A) :=
  match q with [] => None | t :: q' => Some (t, q') end.

Definition queue_size (q : list A) : Z := Z.of_nat (length q).
Definition queue_empty (q : list A) : bool := match q with [] => true | _ => false end.
Definition clear (q : list A) : list A := [].
End BlockingQueue.

(** ** The pool *)
Inductive task := Task (n : nat) | Wake.

(** Positions of [workerThread]: the two reads of the loop condition, the
    [take] and the call of the task. *)
Inductive worker := WFlag | WEmpty | WTake | WRun (t : task) | WExit.

(** Positions of [submit]. *)
Inductive caller := Idle | Checked (n : nat) | Passed (n : nat).

(** Positions of [stop]. *)
Inductive stopper := Outside | Clearing | Waking (k : nat) | Joining.

#[export] Instance worker_eq_dec : EqDecision worker.
Proof. unfold EqDecision, Decision. decide equality; decide equality; apply Nat.eq_dec. Defined.
#[export] Instance caller_eq_dec : EqDecision caller.
Proof. solve_decision. Defined.

Record ThreadPool := mkPool {
  m_threadCount : nat;
  m_workers : list worker;
  m_taskQueue : list task;
  m_runningFlag : bool;
  m_maxQueueSize : Z;
  callers : list caller;
  stopping : stopper;
  late : bool;           (** some caller was inside [submit] when [stop] began *)
  accepted : list nat;   (** tasks put, in order *)
  removed : list nat;    (** tasks that left the queue, in order *)
  finished : list nat;
  discarded : list nat;  (** by [clear] *)
  rejected : list nat;   (** queue full: callback and exception *)
  dropped : list nat;    (** the pool was not running: no exception, no task *)
}.

Definition newPool (threadCount nCallers : nat) (maxQueueSize : Z) : ThreadPool :=
  mkPool threadCount [] [] false maxQueueSize (replicate nCallers Idle) Outside false [] [] [] [] [] [].

Definition with_callers (cs : list caller) (p : ThreadPool) : ThreadPool :=
  mkPool (m_threadCount p) (m_workers p) (m_taskQueue p) (m_runningFlag p) (m_maxQueueSize p) cs
    (stopping p) (late p) (accepted p) (removed p) (finished p) (discarded p) (rejected p) (dropped p).
Definition with_workers (ws : list worker) (p : ThreadPool) : ThreadPool :=
  mkPool (m_threadCount p) ws (m_taskQueue p) (m_runningFlag p) (m_maxQueueSize p) (callers p)
    (stopping p) (late p) (accepted p) (removed p) (finished p) (discarded p) (rejected p) (dropped p).
Definition with_stop (running : bool) (st : stopper) (l : bool) (p : ThreadPool) : ThreadPool :=
  mkPool (m_threadCount p) (m_workers p) (m_taskQueue p) running (m_maxQueueSize p) (callers p)
    st l (accepted p) (removed p) (finished p) (discarded p) (rejected p) (dropped p).
Definition with_queue (q : list task) (p : ThreadPool) : ThreadPool :=
  mkPool (m_threadCount p) (m_workers p) q (m_runningFlag p) (m_maxQueueSize p) (callers p)
    (stopping p) (late p) (accepted p) (removed p) (finished p) (discarded p) (rejected p) (dropped p).
Definition with_history (acc rem fin dis rej dro : list nat) (p : ThreadPool) : ThreadPool :=
  mkPool (m_threadCount p) (m_workers p) (m_taskQueue p) (m_runningFlag p) (m_maxQueueSize p) (callers p)
    (stopping p) (late p) acc rem fin dis rej dro.

Definition task_ids (q : list task) : list nat :=
  omap (fun t => match t with Task n => Some n | Wake => None end) q.

(** ** submit *)
Definition submit_flag (i n : nat) (p : ThreadPool) : ThreadPool :=
  if m_runningFlag p then with_callers (<[i := Checked n]> (callers p)) p
  else with_history (accepted p) (removed p) (finished p) (discarded p) (rejected p) (dropped p ++ [n]) p.

Definition submit_size (i n : nat) (p : ThreadPool) : ThreadPool :=
  if (0 <? m_maxQueueSize p) && (m_maxQueueSize p <=? queue_size (m_taskQueue p))
  then with_callers (<[i := Idle]> (callers p))
         (with_history (accepted p) (removed p) (finished p) (discarded p) (rejected p ++ [n]) (dropped p) p)
  else with_callers (<[i := Passed n]> (callers p)) p.

Definition submit_put (i n : nat) (p : ThreadPool) : ThreadPool :=
  with_callers (<[i := Idle]> (callers p))
    (with_queue (put (Task n) (m_taskQueue p))
      (with_history (accepted p ++ [n]) (removed p) (finished p) (discarded p) (rejected p) (dropped p) p)).

(** One step of caller [i]; [n] is the task a new call brings. *)
Definition caller_step (i n : nat) (p : ThreadPool) : option ThreadPool :=
  match callers p !! i with
  | None => None
  | Some Idle => Some (submit_flag i n p)
  | Some (Checked m) => Some (submit_size i m p)
  | Some (Passed m) => Some (submit_put i m p)
  end.

(** ** start, stop and workerThread *)
Definition start (p : ThreadPool) : ThreadPool :=
  if m_runningFlag p then p
  else with_workers (m_workers p ++ replicate (m_threadCount p) WFlag) (with_stop true (stopping p) (late p) p).

Definition stop_begin (drain : bool) (p : ThreadPool) : ThreadPool :=
  if negb (m_runningFlag p) then p
  else with_stop false (if drain then Waking (length (m_workers p)) else Clearing)
         (existsb (fun c => negb (bool_decide (c = Idle))) (callers p)) p.

Definition stop_step (p : ThreadPool) : option ThreadPool :=
  match stopping p with
  | Outside => None
  | Clearing =>
    Some (with_stop (m_runningFlag p) (Waking (length (m_workers p))) (late p)
           (with_queue (clear (m_taskQueue p))
             (with_history (accepted p) (removed p ++ task_ids (m_taskQueue p)) (finished p)
                (discarded p ++ task_ids (m_taskQueue p)) (rejected p) (dropped p) p)))
  | Waking (S k) =>
    Some (with_stop (m_runningFlag p) (Waking k) (late p) (with_queue (put Wake (m_taskQueue p)) p))
  | Waking O => Some (with_stop (m_runningFlag p) Joining (late p) p)
  | Joining =>
    if forallb (fun w => bool_decide (w = WExit)) (m_workers p)
    then Some (with_workers [] (with_stop (m_runningFlag p) Outside (late p) p))
    else None
  end.

Definition worker_move (j : nat) (w : worker) (p : ThreadPool) : ThreadPool :=
  with_workers (<[j := w]> (m_workers p)) p.

Definition worker_step (j : nat) (p : ThreadPool) : option ThreadPool :=
  match m_workers p !! j with
  | None | Some WExit => None
  | Some WFlag => Some (worker_move j (if m_runningFlag p then WTake else WEmpty) p)
  | Some WEmpty => Some (worker_move j (if queue_empty (m_taskQueue p) then WExit else WTake) p)
  | Some WTake =>
    match take_for (m_taskQueue p) with
    | None => Some (worker_move j WFlag p)
    | Some (t, q) =>
      Some (worker_move j (WRun t) (with_queue q
        (with_history (accepted p) (removed p ++ task_ids [t]) (finished p) (discarded p)
           (rejected p) (dropped p) p)))
    end
  | Some (WRun t) =>
    Some (worker_move j WFlag
      (with_history (accepted p) (removed p) (finished p ++ task_ids [t]) (discarded p)
         (rejected p) (dropped p) p))
  end.

(** One step of some thread.  The main thread calls [start] and [stop], so
    [start] does not run inside [stop]. *)
Inductive act := ACaller (i n : nat) | AWorker (j : nat) | AStart | AStop (drain : bool) | AStopStep.

Definition exec (a : act) (p : ThreadPool) : option ThreadPool :=
  match a with
  | ACaller i n => caller_step i n p
  | AWorker j => worker_step j p
  | AStart => match stopping p with Outside => Some (start p) | _ => None end
  | AStop drain => Some (stop_begin drain p)
  | AStopStep => stop_step p
  end.

Fixpoint run (acts : list act) (p : ThreadPool) : option ThreadPool :=
  match acts with
  | [] => Some p
  | a :: acts => match exec a p with Some p' => run acts p' | None => None end
  end.

(** [submit] without interleaving, as a client sees it. *)
Definition submit (n : nat) (p : ThreadPool) : option bool * ThreadPool :=
  if m_runningFlag p then
    if (0 <? m_maxQueueSize p) && (m_maxQueueSize p <=? queue_size (m_taskQueue p))
    then (None, with_history (accepted p) (removed p) (finished p) (discarded p) (rejected p ++ [n]) (dropped p) p)
    else (Some true, with_queue (put (Task n) (m_taskQueue p))
           (with_history (accepted p ++ [n]) (removed p) (finished p) (discarded p) (rejected p) (dropped p) p))
  else (Some false, with_history (accepted p) (removed p) (finished p) (discarded p) (rejected p) (dropped p ++ [n]) p).


(** ** Invariant *)
Definition run_of (w : worker) : list nat :=
  match w with WRun t => task_ids [t] | _ => [] end.
Definition running (p : ThreadPool) : list nat := m_workers p ≫= run_of.
Definition holds_slot (c : caller) : nat := match c with Passed _ => 1 | _ => 0 end.

Record pool_inv (p : ThreadPool) : Prop := {
  inv_order : accepted p = removed p ++ task_ids (m_taskQueue p);
  inv_place : removed p ≡ₚ finished p ++ running p ++ discarded p;
  inv_outside : stopping p = Outside -> m_runningFlag p = false -> m_workers p = [];
  inv_stopping : stopping p <> Outside -> m_runningFlag p = false /\ length (m_workers p) = m_threadCount p;
  inv_running : m_runningFlag p = true -> length (m_workers p) = m_threadCount p;
  inv_callers : m_runningFlag p = false -> late p = false -> Forall (eq Idle) (callers p);
  inv_leaving : WEmpty ∈ m_workers p \/ WExit ∈ m_workers p -> m_runningFlag p = false;
  inv_exited : WExit ∈ m_workers p -> late p = false -> task_ids (m_taskQueue p) = [];
  inv_bound : 0 < m_maxQueueSize p ->
    Z.of_nat (length (task_ids (m_taskQueue p)) + sum_list_with holds_slot (callers p))
      <= m_maxQueueSize p - 1 + Z.of_nat (length (callers p));
}.

Lemma sum_list_insert {A} (f : A -> nat) l i x y :
  l !! i = Some y -> (sum_list_with f (<[i := x]> l) + f y = sum_list_with f l + f x)%nat.
Proof.
  revert i. induction l as [|a l IH]; intros [|i] H; simplify_eq/=; [lia|].
  specialize (IH i H). lia.
Qed.

Lemma sum_list_le {A} (f : A -> nat) k l :
  (forall x, (f x <= k)%nat) -> (sum_list_with f l <= k * length l)%nat.
Proof. intros Hf. induction l as [|a l IH]; simpl; [lia|]. specialize (Hf a). lia. Qed.

Lemma bind_insert {A B} (f : A -> list B) l i x y :
  l !! i = Some y -> f y ++ (<[i := x]> l ≫= f) ≡ₚ f x ++ (l ≫= f).
Proof.
  revert i. induction l as [|a l IH]; intros [|i] H; simplify_eq/=; [by rewrite Permutation_app_swap_app|].
  rewrite Permutation_app_swap_app, (IH i H), Permutation_app_swap_app. done.
Qed.

Lemma task_ids_app q r : task_ids (q ++ r) = task_ids q ++ task_ids r.
Proof. apply omap_app. Qed.

Lemma newPool_inv tc n mx : pool_inv (newPool tc n mx).
Proof.
  constructor; simpl; try done.
  - intros _ _. by apply Forall_replicate.
  - intros Hm. rewrite length_replicate.
    enough (sum_list_with holds_slot (replicate n Idle) = 0)%nat by lia. by induction n.
Qed.

Lemma length_insert_worker j w p : length (<[j := w]> (m_workers p)) = length (m_workers p).
Proof. apply length_insert. Qed.

Lemma caller_busy p i c :
  pool_inv p -> callers p !! i = Some c -> c <> Idle -> m_runningFlag p = false -> late p = true.
Proof.
  intros I Hi Hc Hf. destruct (late p) eqn:L; [done|].
  pose proof (inv_callers p I Hf L) as Ha. rewrite Forall_lookup in Ha. by specialize (Ha i c Hi).
Qed.

Lemma caller_step_inv i n p p' : pool_inv p -> caller_step i n p = Some p' -> pool_inv p'.
Proof.
  intros I E. unfold caller_step in E.
  destruct (callers p !! i) as [c|] eqn:Hi; [|done].
  assert (B : forall c', holds_slot c = 0%nat -> holds_slot c' = 0%nat -> 0 < m_maxQueueSize p ->
    Z.of_nat (length (task_ids (m_taskQueue p)) + sum_list_with holds_slot (<[i:=c']> (callers p)))
      <= m_maxQueueSize p - 1 + Z.of_nat (length (<[i:=c']> (callers p)))).
  { intros c' H0 H1 Hm. pose proof (sum_list_insert holds_slot _ _ c' _ Hi).
    pose proof (inv_bound p I Hm). rewrite length_insert. lia. }
  assert (L : forall c', c <> Idle -> m_runningFlag p = false -> late p = false ->
    Forall (eq Idle) (<[i:=c']> (callers p))).
  { intros c' Hc Hf Hl. pose proof (caller_busy p i c I Hi Hc Hf). congruence. }
  destruct c as [|m|m]; simplify_eq/=.
  - unfold submit_flag. destruct (m_runningFlag p) eqn:F; [|destruct I; by constructor].
    pose proof (B (Checked n)). destruct I; constructor; simpl; try done; try congruence; auto.
  - unfold submit_size. case_if.
    + pose proof (B Idle). pose proof (L Idle). destruct I; constructor; simpl; try done; auto.
    + pose proof (L (Passed m)). pose proof (sum_list_insert holds_slot _ _ (Passed m) _ Hi) as Hs.
      pose proof (sum_list_le holds_slot 1 (<[i:=Passed m]> (callers p))
        ltac:(by intros [|?|?]; simpl; lia)) as Hu.
      destruct I; constructor; simpl; try done; auto.
      intros Hm. rewrite length_insert in *. b2p. simpl in Hs.
      assert (Hq : queue_size (m_taskQueue p) < m_maxQueueSize p).
      { apply andb_false_iff in E as [E|E]; b2p; lia. }
      unfold queue_size in Hq. pose proof (length_omap (fun t => match t with Task n => Some n | Wake => None end)
        (m_taskQueue p)). fold (task_ids (m_taskQueue p)) in *. lia.
  - unfold submit_put. pose proof (L Idle) as L'.
    pose proof (sum_list_insert holds_slot _ _ Idle _ Hi) as Hs. simpl in Hs.
    pose proof (caller_busy p i _ I Hi ltac:(done)) as Hbusy.
    destruct I; constructor; simpl; unfold put; rewrite ?task_ids_app; simpl; try done; auto.
    + by rewrite inv_order0, app_assoc.
    + intros Hx Hl. rewrite Hbusy in Hl; [done|]. by apply inv_leaving0; right.
    + intros Hm. rewrite length_app, length_insert. simpl. specialize (inv_bound0 Hm). lia.
Qed.

Lemma elem_of_insert_worker j w x (ws : list worker) :
  x ∈ <[j := w]> ws -> x = w \/ x ∈ ws.
Proof.
  intros [i Hi]%list_elem_of_lookup. destruct (decide (i = j)) as [->|Hne].
  - destruct (decide (j < length ws)%nat) as [Hl|Hl].
    + rewrite list_lookup_insert_eq in Hi by done. left. congruence.
    + rewrite list_insert_ge in Hi by lia. right. by eapply list_elem_of_lookup_2.
  - rewrite list_lookup_insert_ne in Hi by done. right. by eapply list_elem_of_lookup_2.
Qed.

(** A worker moves to a position that is not the exit. *)
Lemma worker_move_inv j w w' p :
  pool_inv p -> m_workers p !! j = Some w -> run_of w = [] -> run_of w' = [] ->
  (w' = WEmpty \/ w' = WExit -> m_runningFlag p = false) ->
  (w' = WExit -> task_ids (m_taskQueue p) = []) ->
  pool_inv (worker_move j w' p).
Proof.
  intros I Hj H0 H1 Hf He. pose proof (bind_insert run_of _ _ w' _ Hj) as Hr.
  rewrite H0, H1 in Hr. simpl in Hr.
  assert (Hin : forall x, x ∈ <[j:=w']> (m_workers p) -> x = w' \/ x ∈ m_workers p)
    by (intros; by eapply elem_of_insert_worker).
  destruct I; constructor; simpl; rewrite ?length_insert; try done.
  - unfold running in *. simpl. by rewrite Hr.
  - intros Ho Hn. specialize (inv_outside0 Ho Hn). by rewrite inv_outside0 in Hj.
  - intros [H|H]; apply Hin in H as [<-|H]; auto.
  - intros H Hl. apply Hin in H as [<-|H]; auto.
Qed.

Lemma worker_step_inv j p p' : pool_inv p -> worker_step j p = Some p' -> pool_inv p'.
Proof.
  intros I E. unfold worker_step in E. destruct (m_workers p !! j) as [w|] eqn:Hj; [|done].
  assert (Hne : m_workers p <> []) by (intros H0; by rewrite H0 in Hj).
  destruct w as [| | |t|]; simplify_eq/=.
  - eapply worker_move_inv; eauto; destruct (m_runningFlag p) eqn:F; naive_solver.
  - assert (Hf : m_runningFlag p = false).
    { apply (inv_leaving p I). left. by eapply list_elem_of_lookup_2. }
    eapply worker_move_inv; eauto; destruct (m_taskQueue p); naive_solver.
  - destruct (m_taskQueue p) as [|t q] eqn:Q; simplify_eq/=.
    { eapply worker_move_inv; eauto; naive_solver. }
    pose proof (bind_insert run_of _ _ (WRun t) _ Hj) as Hr. simpl in Hr.
    assert (Hin : forall x, x ∈ <[j:=WRun t]> (m_workers p) -> x <> WRun t -> x ∈ m_workers p).
    { intros x Hx Hn. by apply elem_of_insert_worker in Hx as [?|?]. }
    assert (Ht : task_ids (t :: q) = task_ids [t] ++ task_ids q) by apply (task_ids_app [t] q).
    destruct I; constructor; simpl; rewrite ?length_insert; try done.
    + by rewrite inv_order0, Q, Ht, app_assoc.
    + unfold running in *. simpl. rewrite Hr. rewrite inv_place0, <- !app_assoc.
      f_equiv. rewrite (Permutation_app_comm (discarded p)), !app_assoc.
      f_equiv. apply Permutation_app_comm.
    + intros Ho Hn. by specialize (inv_outside0 Ho Hn).
    + intros [H|H]; apply Hin in H; auto.
    + intros H Hl. apply Hin in H; [|done]. specialize (inv_exited0 H Hl).
      rewrite Q, Ht in inv_exited0. by apply app_eq_nil in inv_exited0 as [_ ?].
    + intros Hm. specialize (inv_bound0 Hm). rewrite Q, Ht, length_app in inv_bound0. lia.
  - pose proof (bind_insert run_of _ _ WFlag _ Hj) as Hr. simpl in Hr.
    assert (Hin : forall x, x ∈ <[j:=WFlag]> (m_workers p) -> x <> WFlag -> x ∈ m_workers p).
    { intros x Hx Hn. by apply elem_of_insert_worker in Hx as [?|?]. }
    destruct I; constructor; simpl; rewrite ?length_insert; try done.
    + unfold running in *. simpl. rewrite inv_place0, <- Hr, <- !app_assoc. done.
    + intros Ho Hn. by specialize (inv_outside0 Ho Hn).
    + intros [H|H]; apply Hin in H; auto.
    + intros H Hl. apply Hin in H; auto.
Qed.

Lemma no_busy_caller cs :
  existsb (fun c => negb (bool_decide (c = Idle))) cs = false -> Forall (eq Idle) cs.
Proof.
  induction cs as [|c cs IH]; simpl; [constructor|]. intros [H1 H2]%orb_false_iff.
  b2p. constructor; auto.
Qed.

Lemma start_inv p : pool_inv p -> stopping p = Outside -> pool_inv (start p).
Proof.
  intros I Ho. unfold start. destruct (m_runningFlag p) eqn:F; [done|].
  pose proof (inv_outside p I Ho F) as Hw. rewrite Hw. simpl.
  assert (Hr : replicate (m_threadCount p) WFlag ≫= run_of = []) by (by induction (m_threadCount p)).
  assert (Hn : forall x, x ∈ replicate (m_threadCount p) WFlag -> x = WFlag)
    by (intros x Hx; by apply elem_of_replicate in Hx as [-> _]).
  destruct I; constructor; simpl; try done; rewrite ?length_replicate; try done.
  - unfold running in *. simpl. by rewrite Hr, inv_place0, Hw.
  - intros [H|H]; by apply Hn in H.
  - intros H. by apply Hn in H.
Qed.

Lemma stop_begin_inv drain p : pool_inv p -> pool_inv (stop_begin drain p).
Proof.
  intros I. unfold stop_begin. destruct (m_runningFlag p) eqn:F; simpl; [|done].
  destruct I; constructor; simpl; try done; auto.
  - by destruct drain.
  - intros _. apply no_busy_caller.
  - intros H. exfalso. specialize (inv_leaving0 (or_intror H)). congruence.
Qed.

Lemma stop_step_inv p p' : pool_inv p -> stop_step p = Some p' -> pool_inv p'.
Proof.
  intros I E. unfold stop_step in E.
  assert (Hst : stopping p <> Outside -> m_runningFlag p = false /\ length (m_workers p) = m_threadCount p)
    by apply I.
  destruct (stopping p) as [| |[|k]|] eqn:St; simplify_eq/=.
  - destruct I; constructor; simpl; try done; auto.
    + by rewrite app_nil_r.
    + unfold running in *. simpl. by rewrite inv_place0, <- !app_assoc.
    + intros Hm. specialize (inv_bound0 Hm). lia.
  - destruct I; constructor; simpl; try done; auto.
  - destruct I; constructor; simpl; unfold put; rewrite ?task_ids_app; simpl; rewrite ?app_nil_r; try done; auto.
  - destruct (forallb _ _) eqn:Ha; simplify_eq/=.
    assert (Hr : m_workers p ≫= run_of = []).
    { rewrite forallb_forall in Ha. clear -Ha. induction (m_workers p) as [|w ws IH]; [done|]. simpl.
      pose proof (Ha w (or_introl eq_refl)) as Hw. b2p. subst w. simpl. apply IH.
      intros x Hx. apply Ha. by right. }
    destruct (Hst ltac:(done)) as [Hf _].
    destruct I; constructor; simpl; try done; rewrite ?Hf; try done; auto.
    { unfold running in *. simpl. by rewrite Hr in inv_place0. }
    intros H. by apply not_elem_of_nil in H.
Qed.

Lemma exec_inv a p p' : pool_inv p -> exec a p = Some p' -> pool_inv p'.
Proof.
  intros I E. destruct a; simpl in E.
  - by eapply caller_step_inv.
  - by eapply worker_step_inv.
  - destruct (stopping p) eqn:S; simplify_eq/=. by apply start_inv.
  - simplify_eq/=. by apply stop_begin_inv.
  - by eapply stop_step_inv.
Qed.

Lemma run_inv acts p p' : pool_inv p -> run acts p = Some p' -> pool_inv p'.
Proof.
  revert p. induction acts as [|a acts IH]; intros p I E; simplify_eq/=; [done|].
  destruct (exec a p) as [p1|] eqn:E1; [|done]. eapply IH; [|done]. by eapply exec_inv.
Qed.

(** ** Properties *)

(** C9: Tasks start in the order in which they were accepted and none runs
    twice: whatever the interleaving of callers, workers and [stop], the
    accepted tasks are the ones that left the queue followed by the queued
    ones, and each one that left is in exactly one place: finished, running on
    one worker, or discarded by a stop without draining. *)
Theorem tasks_in_order_once acts threadCount nCallers maxQueueSize p :
  run acts (newPool threadCount nCallers maxQueueSize) = Some p ->
  accepted p = removed p ++ task_ids (m_taskQueue p)
  /\ removed p ≡ₚ finished p ++ running p ++ discarded p.
Proof.
  intros E. pose proof (run_inv _ _ _ (newPool_inv _ _ _) E) as I.
  split; [apply (inv_order p I)|apply (inv_place p I)].
Qed.

Lemma all_exited_idle ws :
  forallb (fun w => bool_decide (w = WExit)) ws = true -> ws ≫= run_of = [] /\ (ws = [] \/ WExit ∈ ws).
Proof.
  induction ws as [|w ws IH]; simpl; [by auto|]. intros [H1 H2]%andb_true_iff. b2p. subst w.
  destruct (IH H2) as [Hn _]. split; [exact Hn|]. right. by left.
Qed.

Lemma run_config acts p p' : run acts p = Some p' ->
  m_threadCount p' = m_threadCount p /\ m_maxQueueSize p' = m_maxQueueSize p
  /\ length (callers p') = length (callers p).
Proof.
  revert p. induction acts as [|a acts IH]; intros p E; simplify_eq/=; [done|].
  destruct (exec a p) as [p1|] eqn:E1; [|done]. destruct (IH _ E) as (-> & -> & ->). clear -E1.
  destruct a; simpl in E1; unfold caller_step, worker_step, stop_step, submit_flag, submit_size, submit_put,
    start, stop_begin in E1; repeat case_match; simplify_eq/=; by rewrite ?length_insert.
Qed.

(** C30: In a pool with at least one worker a draining stop loses nothing: when
    [stop] returns and no caller was inside [submit] when it began, every accepted
    task has finished, except those an explicit clear discarded. *)
Theorem drained_stop_finishes_all acts threadCount nCallers maxQueueSize p p' :
  (0 < threadCount)%nat ->
  run acts (newPool threadCount nCallers maxQueueSize) = Some p ->
  stopping p = Joining -> late p = false -> stop_step p = Some p' ->
  accepted p' ≡ₚ finished p' ++ discarded p'.
Proof.
  intros Htc E St Hl Es. pose proof (run_inv _ _ _ (newPool_inv _ _ _) E) as I.
  unfold stop_step in Es. rewrite St in Es.
  destruct (forallb _ _) eqn:Ha; simplify_eq/=.
  destruct (all_exited_idle _ Ha) as [Hr Hx].
  destruct (inv_stopping p I) as [Hf Hlen]; [congruence|].
  rewrite (proj1 (run_config _ _ _ E)) in Hlen. simpl in Hlen.
  assert (Hin : WExit ∈ m_workers p).
  { destruct Hx as [Hx|Hx]; [|done]. rewrite Hx in Hlen. simpl in Hlen. lia. }
  rewrite (inv_order p I), (inv_exited p I Hin Hl), app_nil_r, (inv_place p I).
  unfold running. by rewrite Hr.
Qed.

(** The queue limit holds up to the callers: the size test and the put
    are separate, so with [k] concurrent callers at most [k - 1] tasks more
    than the configured maximum are queued, and with one caller none. *)
Lemma queue_bound acts threadCount nCallers maxQueueSize p :
  0 < maxQueueSize -> run acts (newPool threadCount nCallers maxQueueSize) = Some p ->
  Z.of_nat (length (task_ids (m_taskQueue p))) <= maxQueueSize - 1 + Z.of_nat nCallers.
Proof.
  intros Hm E. pose proof (run_inv _ _ _ (newPool_inv _ _ _) E) as I.
  destruct (run_config _ _ _ E) as (_ & Hs & Hc). simpl in Hs, Hc. rewrite length_replicate in Hc.
  pose proof (inv_bound p I ltac:(by rewrite Hs)) as B. rewrite Hs in B. lia.
Qed.

(** ** Termination of stop *)
Definition weight (empty : bool) (w : worker) : nat :=
  match w, empty with
  | WExit, _ => 0
  | WRun _, _ => 4
  | WFlag, false => 3 | WEmpty, false => 2 | WTake, false => 1
  | WTake, true => 3 | WFlag, true => 2 | WEmpty, true => 1
  end.

Definition stop_weight (n : nat) (st : stopper) : nat :=
  match st with
  | Outside => 0
  | Joining => 1
  | Waking k => k * (10 * n + 10) + 2
  | Clearing => n * (10 * n + 10) + 3
  end.

(** Steps the workers and the stopping thread can still take. *)
Definition work (p : ThreadPool) : nat :=
  length (m_taskQueue p) * (5 * length (m_workers p) + 5)
  + stop_weight (length (m_workers p)) (stopping p)
  + sum_list_with (weight (queue_empty (m_taskQueue p))) (m_workers p).

Definition stop_act (a : act) : Prop := match a with AWorker _ | AStopStep => True | _ => False end.

Lemma weight_le e w : (weight e w <= 4)%nat.
Proof. destruct e, w; simpl; lia. Qed.

Lemma worker_step_work j p p' :
  m_runningFlag p = false -> worker_step j p = Some p' -> (work p' < work p)%nat.
Proof.
  intros F E. unfold worker_step in E. destruct (m_workers p !! j) as [w|] eqn:Hj; [|done].
  assert (Hs : forall e w', (sum_list_with (weight e) (<[j:=w']> (m_workers p)) + weight e w
    = sum_list_with (weight e) (m_workers p) + weight e w')%nat) by (intros; by apply sum_list_insert).
  assert (Hu : forall e w', (sum_list_with (weight e) (<[j:=w']> (m_workers p)) <= 4 * length (m_workers p))%nat).
  { intros e w'. rewrite <- (length_insert (m_workers p) j w'). apply sum_list_le. apply weight_le. }
  unfold work.
  destruct w as [| | |t|]; simplify_eq/=; rewrite ?length_insert.
  - rewrite F. specialize (Hs (queue_empty (m_taskQueue p)) WEmpty).
    destruct (queue_empty _); simpl in *; lia.
  - specialize (Hs (queue_empty (m_taskQueue p)) (if queue_empty (m_taskQueue p) then WExit else WTake)).
    destruct (queue_empty _); simpl in *; lia.
  - destruct (m_taskQueue p) as [|t q] eqn:Q; simplify_eq/=; rewrite ?length_insert; simpl.
    + rewrite Q. specialize (Hs true WFlag). simpl in *. lia.
    + specialize (Hu (queue_empty q) (WRun t)). lia.
  - specialize (Hs (queue_empty (m_taskQueue p)) WFlag). destruct (queue_empty _); simpl in *; lia.
Qed.

Lemma stop_step_work p p' : stop_step p = Some p' -> (work p' < work p)%nat.
Proof.
  intros E. unfold stop_step in E.
  assert (Hu : forall e, (sum_list_with (weight e) (m_workers p) <= 4 * length (m_workers p))%nat).
  { intros e. apply sum_list_le. apply weight_le. }
  unfold work. destruct (stopping p) as [| |[|k]|]; simplify_eq/=.
  - pose proof (Hu true). destruct (m_taskQueue p); simpl in *; lia.
  - lia.
  - unfold put. rewrite length_app. simpl. specialize (Hu (queue_empty (m_taskQueue p ++ [Wake]))). lia.
  - case_match; simplify_eq/=. lia.
Qed.

Lemma stop_keeps_flag a p p' :
  stop_act a -> exec a p = Some p' -> m_runningFlag p' = m_runningFlag p.
Proof.
  intros Ha E. destruct a; simpl in *; try done; unfold worker_step, stop_step in E;
    repeat case_match; by simplify_eq/=.
Qed.

Lemma stop_can_step p :
  stopping p <> Outside -> exists a, stop_act a /\ is_Some (exec a p).
Proof.
  intros Hs. destruct (stopping p) as [| |[|k]|] eqn:St; try done;
    try by (exists AStopStep; split; [done|]; simpl; unfold stop_step; rewrite St).
  destruct (forallb (fun w => bool_decide (w = WExit)) (m_workers p)) eqn:Ha.
  { exists AStopStep. split; [done|]. simpl. unfold stop_step. rewrite St, Ha. done. }
  assert (exists j w, m_workers p !! j = Some w /\ w <> WExit) as (j & w & Hj & Hw).
  { clear -Ha. induction (m_workers p) as [|w ws IH]; [done|]. simpl in Ha.
    apply andb_false_iff in Ha as [Ha|Ha]; b2p; [by exists 0%nat, w|].
    destruct (IH Ha) as (j & w' & Hj & Hw). by exists (S j), w'. }
  exists (AWorker j). split; [done|]. simpl. unfold worker_step. rewrite Hj.
  destruct w as [| | |t|]; try done. destruct (take_for _) as [[]|]; done.
Qed.

(** C31: [stop] returns: once it has begun, any schedule of its thread and the
    workers has at most [work] steps, and until [stop] has returned there is
    a step to take (tasks themselves are assumed to return). *)
Theorem stop_terminates acts threadCount nCallers maxQueueSize p js p' :
  run acts (newPool threadCount nCallers maxQueueSize) = Some p -> stopping p <> Outside ->
  Forall stop_act js -> run js p = Some p' ->
  (length js <= work p)%nat
  /\ (stopping p' = Outside \/ exists a, stop_act a /\ is_Some (exec a p')).
Proof.
  intros E St Hjs Ej. split.
  - destruct (inv_stopping p) as [F _]; [by eapply run_inv; [apply newPool_inv|]|done|].
    clear E St. revert p F Ej. induction Hjs as [|a js Ha Hjs IH]; intros p F Ej; simpl in *; [lia|].
    destruct (exec a p) as [p1|] eqn:E1; [|done].
    specialize (IH p1 ltac:(by rewrite (stop_keeps_flag _ _ _ Ha E1)) Ej).
    assert (work p1 < work p)%nat; [|lia].
    destruct a; simpl in Ha, E1; try done; [by eapply worker_step_work|by eapply stop_step_work].
  - destruct (stopping p') eqn:S; [by left|right..]; apply stop_can_step; congruence.
Qed.

(** ** The client's view *)
Lemma run_app acts acts' p p' : run acts p = Some p' -> run (acts ++ acts') p = run acts' p'.
Proof.
  revert p. induction acts as [|a acts IH]; intros p E; simplify_eq/=; [done|].
  destruct (exec a p); [by apply IH|done].
Qed.

(** An undisturbed call of a caller behaves as [submit]: refused with an
    exception ([None]), accepted, or dropped in silence. *)
Lemma submit_is_call i n p :
  callers p !! i = Some Idle ->
  exists k, run (replicate k (ACaller i n)) p = Some (submit n p).2.
Proof.
  intros Hi.
  assert (Hlt : (i < length (callers p))%nat) by (by eapply lookup_lt_Some).
  unfold submit. destruct (m_runningFlag p) eqn:F.
  2:{ exists 1%nat. simpl. unfold caller_step. rewrite Hi. unfold submit_flag. by rewrite F. }
  destruct ((0 <? m_maxQueueSize p) && _) eqn:M.
  - exists 2%nat. simpl. unfold caller_step at 1. rewrite Hi. unfold submit_flag. rewrite F.
    unfold caller_step. simpl. rewrite list_lookup_insert_eq by done.
    unfold submit_size. simpl. rewrite M. simpl. f_equal.
    rewrite list_insert_insert_eq, list_insert_id by done. by destruct p.
  - exists 3%nat. simpl. unfold caller_step at 1. rewrite Hi. unfold submit_flag. rewrite F.
    unfold caller_step at 1. simpl. rewrite list_lookup_insert_eq by done.
    unfold submit_size. simpl. rewrite M. unfold caller_step. simpl.
    rewrite list_insert_insert_eq, list_lookup_insert_eq by done. simpl. f_equal.
    unfold submit_put. simpl. rewrite list_insert_insert_eq, list_insert_id by done. by destruct p.
Qed.

(** A caller that passed the flag test before [stop] began can put its task
    after the last worker has left: the task is accepted and never runs. *)
Definition ex_late : list act :=
  [AStart; ACaller 0 7; ACaller 0 7; AStop true; AWorker 0; AWorker 0; AStopStep; AStopStep;
   ACaller 0 7; AStopStep].

Lemma late_task_is_lost :
  (fun p => (stopping p, accepted p, finished p, m_workers p)) <$> run ex_late (newPool 1 1 0)
  = Some (Outside, [7%nat], [], []).
Proof. vm_compute. reflexivity. Qed.

(** A pool made for no threads, which the configuration allows, accepts tasks
    and never runs one. *)
Lemma no_workers_nothing_runs acts nCallers maxQueueSize p :
  run acts (newPool 0 nCallers maxQueueSize) = Some p -> m_workers p = [] /\ finished p = [].
Proof.
  assert (G : forall p0, m_threadCount p0 = 0%nat -> m_workers p0 = [] -> finished p0 = [] ->
    run acts p0 = Some p -> m_workers p = [] /\ finished p = []); [|by apply G].
  induction acts as [|a acts IH]; intros p0 T W F; simpl; [by intros [= <-]|].
  destruct (exec a p0) as [p1|] eqn:E; [|done].
  assert (m_threadCount p1 = 0%nat /\ m_workers p1 = [] /\ finished p1 = []) as (? & ? & ?);
    [|by apply IH].
  destruct a as [i n|j| |drain|]; simpl in E.
  - unfold caller_step, submit_flag, submit_size, submit_put in E. repeat case_match; by simplify_eq/=.
  - unfold worker_step in E. by rewrite W in E.
  - destruct (stopping p0); simplify_eq. unfold start. destruct (m_runningFlag p0); [done|]. simpl.
    by rewrite W, T.
  - simplify_eq. unfold stop_begin. by case_match.
  - unfold stop_step in E. repeat case_match; by simplify_eq/=.
Qed.

Definition ex_unmanned : list act :=
  [AStart; ACaller 0 7; ACaller 0 7; ACaller 0 7; AStop true; AStopStep; AStopStep].

Lemma unmanned_pool_loses_task :
  (fun p => (stopping p, accepted p, finished p, discarded p)) <$> run ex_unmanned (newPool 0 1 0)
  = Some (Outside, [7%nat], [], []).
Proof. vm_compute. reflexivity. Qed.

(** ** Witnesses *)
Definition ex_acts : list act :=
  [AStart; ACaller 0 7; ACaller 0 7; ACaller 0 7; AWorker 0; AStop true; AStopStep; AWorker 0; AWorker 0;
   AWorker 0; AWorker 0; AWorker 0; AWorker 0; AWorker 0; AWorker 0; AStopStep].

Definition ex_pool : ThreadPool := default (newPool 1 1 2) (run ex_acts (newPool 1 1 2)).
Definition ex_early : ThreadPool := default (newPool 1 1 2) (run (take 6 ex_acts) (newPool 1 1 2)).

Lemma tasks_in_order_once_witness :
  run ex_acts (newPool 1 1 2) = Some ex_pool
  /\ accepted ex_pool = removed ex_pool ++ task_ids (m_taskQueue ex_pool)
  /\ removed ex_pool ≡ₚ finished ex_pool ++ running ex_pool ++ discarded ex_pool.
Proof.
  split; [vm_compute; reflexivity|]. apply (tasks_in_order_once ex_acts 1 1 2). vm_compute. reflexivity.
Defined.

Lemma drained_stop_finishes_all_witness :
  exists p', stop_step ex_pool = Some p' /\ accepted p' = [7%nat]
    /\ accepted p' ≡ₚ finished p' ++ discarded p'.
Proof.
  exists (with_workers [] (with_stop false Outside false ex_pool)).
  split; [vm_compute; reflexivity|]. split; [vm_compute; reflexivity|].
  apply (drained_stop_finishes_all ex_acts 1 1 2 ex_pool); [lia|vm_compute; reflexivity..].
Defined.

Lemma queue_bound_witness :
  Z.of_nat (length (task_ids (m_taskQueue ex_early))) = 1
  /\ Z.of_nat (length (task_ids (m_taskQueue ex_early))) <= 2 - 1 + Z.of_nat 1.
Proof.
  split; [vm_compute; reflexivity|]. apply (queue_bound (take 6 ex_acts) 1 1 2); [lia|vm_compute; reflexivity].
Defined.

Lemma stop_terminates_witness :
  (length (drop 6 ex_acts) <= work ex_early)%nat
  /\ (stopping ex_pool = Outside \/ exists a, stop_act a /\ is_Some (exec a ex_pool)).
Proof.
  apply (stop_terminates (take 6 ex_acts) 1 1 2 ex_early (drop 6 ex_acts) ex_pool).
  - vm_compute. reflexivity.
  - vm_compute. discriminate.
  - repeat constructor.
  - vm_compute. reflexivity.
Defined.
End pool.
