(* ===== verification/Server.v ===== *)
(** * The full server (src/server_full.cpp)

    The callbacks [main] installs, composed from the components: the packet
    handler with one branch per command, the tasks it hands to the thread
    pool, and the connection and kick callbacks.  The state is the record of
    the components [main] creates; a captured closure is a value of [Task],
    kept in a table under the number the pool knows it by.  Handlers run in a
    state monad where [None] is an exception.  Trace contexts only reach the
    log and are in Logging.v.  The protobuf code is generated: [ProtoLib] lists
    its parsers and printers, and a build without protobuf has none. *)
From S2P Require Import Prelude Protocol Buffer Codec MessageStore Serializer MessageService.
From S2P Require Import Infra Overload Heartbeat Auth ThreadPool.
Import protocol serializer storage.

Module server.

Notation Conn := heartbeat.Conn.
Notation conn_obj := heartbeat.conn_obj.

(** [pb.ParseFromString] followed by the copies of the fields, and
    [pb.SerializeToString]; [None] when they return false. *)
Record ProtoLib := mkProto {
  pb_LoginReq : string -> option LoginReq;
  pb_P2PMsgReq : string -> option P2PMsgReq;
  pb_MessageAckReq : string -> option MessageAckReq;
  pb_PullOfflineReq : string -> option PullOfflineReq;
  pb_BroadcastMsgReq : string -> option BroadcastMsgReq;
  pb_KickUserReq : string -> option KickUserReq;
  pb_LoginResp : LoginResp -> option string;
  pb_HeartbeatResp : HeartbeatResp -> option string;
  pb_P2PMsgResp : P2PMsgResp -> option string;
  pb_P2PMsgNotify : P2PMsgNotify -> option string;
  pb_MessageAckResp : MessageAckResp -> option string;
  pb_PullOfflineResp : PullOfflineResp -> option string;
  pb_BroadcastMsgNotify : BroadcastMsgNotify -> option string;
  pb_KickUserResp : KickUserResp -> option string;
}.

(** The settings the callbacks capture. *)
Record Settings := mkSettings {
  payloadFormat : PayloadFormat;
  compatibleJson : bool;
  protobuf : option ProtoLib;
  clusterEnabled : bool;
  nodeId : string;
}.

(** The closures given to [submitBusinessTask], by what they capture. *)
Inductive Task :=
| LoginTask (conn : Conn) (requestId : Z) (req : LoginReq)
| P2PTask (conn : Conn) (requestId : Z) (req : P2PMsgReq) (fromUserId : string)
| AckTask (conn : Conn) (requestId : Z) (req : MessageAckReq) (userId : string)
| PullTask (conn : Conn) (requestId : Z) (req : PullOfflineReq) (userId : string)
| BroadcastTask (req : BroadcastMsgReq) (fromUserId : string)
| LogoutTask (conn : Conn).

Section Server.
Context `{JsonLib} `{infra.Double} {St R P : Type}
  `{IMessageStore St} `{auth.Redis R} `{auth.SessionRepository P}.
Variable cfg : Settings.
(** Clock, [connected()] and the random device. *)
Variable env : message.Env.
Variable rand_at : nat -> Z.

Record Server := mkServer {
  s_auth : auth.World (R := R) (P := P);
  s_msg : message.World (St := St);
  s_heartbeat : heartbeat.HeartbeatService;
  s_overload : overload.OverloadProtectService;
  s_routing : auth.RoutingService (R := R);
  s_breaker : infra.CircuitBreaker;
  s_metrics : infra.MetricsRegistry;
  s_pool : pool.ThreadPool;
  s_tasks : gmap nat Task;
  s_hbevents : list heartbeat.event;
  s_forced : list ConnId;                 (* conn->forceClose() *)
}.

Definition with_auth a s := mkServer a (s_msg s) (s_heartbeat s) (s_overload s) (s_routing s)
  (s_breaker s) (s_metrics s) (s_pool s) (s_tasks s) (s_hbevents s) (s_forced s).
Definition with_msg m s := mkServer (s_auth s) m (s_heartbeat s) (s_overload s) (s_routing s)
  (s_breaker s) (s_metrics s) (s_pool s) (s_tasks s) (s_hbevents s) (s_forced s).
Definition with_heartbeat h es s := mkServer (s_auth s) (s_msg s) h (s_overload s) (s_routing s)
  (s_breaker s) (s_metrics s) (s_pool s) (s_tasks s) (s_hbevents s ++ es) (s_forced s).
Definition with_overload o s := mkServer (s_auth s) (s_msg s) (s_heartbeat s) o (s_routing s)
  (s_breaker s) (s_metrics s) (s_pool s) (s_tasks s) (s_hbevents s) (s_forced s).
Definition with_routing a r s := mkServer a (s_msg s) (s_heartbeat s) (s_overload s) r
  (s_breaker s) (s_metrics s) (s_pool s) (s_tasks s) (s_hbevents s) (s_forced s).
Definition with_breaker b s := mkServer (s_auth s) (s_msg s) (s_heartbeat s) (s_overload s) (s_routing s)
  b (s_metrics s) (s_pool s) (s_tasks s) (s_hbevents s) (s_forced s).
Definition with_metrics m s := mkServer (s_auth s) (s_msg s) (s_heartbeat s) (s_overload s) (s_routing s)
  (s_breaker s) m (s_pool s) (s_tasks s) (s_hbevents s) (s_forced s).
Definition with_pool p ts s := mkServer (s_auth s) (s_msg s) (s_heartbeat s) (s_overload s) (s_routing s)
  (s_breaker s) (s_metrics s) p ts (s_hbevents s) (s_forced s).
Definition with_forced f s := mkServer (s_auth s) (s_msg s) (s_heartbeat s) (s_overload s) (s_routing s)
  (s_breaker s) (s_metrics s) (s_pool s) (s_tasks s) (s_hbevents s) f.

(** ** Monad *)
Definition M (A : Type) : Type := Server -> option A * Server.
Definition ret {A} (a : A) : M A := fun s => (Some a, s).
Definition throw {A} : M A := fun s => (None, s).
Definition bind {A B} (m : M A) (k : A -> M B) : M B := fun s =>
  match m s with
  | (Some a, s') => k a s'
  | (None, s') => (None, s')
  end.

Local Notation "'let!' x := m 'in' k" := (bind m (fun x => k))
  (at level 200, x pattern, m at level 100, k at level 200).
Local Notation "m1 ;; m2" := (bind m1 (fun _ => m2)) (at level 100, right associativity).

Definition get : M Server := fun s => (Some s, s).
Definition update (f : Server -> Server) : M () := fun s => (Some (), f s).

(** Calls into the components. *)
Definition on_msg {A} (m : message.M A) : M A := fun s =>
  let '(r, w) := m (s_msg s) in (r, with_msg w s).
Definition on_svc (f : message.MessageService -> message.MessageService) : M () :=
  on_msg (fun w => (Some (), message.mkWorld (f (message.svc w)) (message.tick w) (message.outs w))).
Definition now : M Z := on_msg (message.GetTimestampMs env).
Definition random : M Z := fun s => (Some (rand_at (message.tick (s_msg s))), s).
Definition on_heartbeat (f : heartbeat.HeartbeatService -> heartbeat.HeartbeatService * list heartbeat.event)
    : M () := fun s => let '(h, es) := f (s_heartbeat s) in (Some (), with_heartbeat h es s).
Definition on_overload {A} (f : overload.OverloadProtectService -> A * overload.OverloadProtectService)
    : M A := fun s => let '(a, o) := f (s_overload s) in (Some a, with_overload o s).
Definition on_auth {A} (f : auth.World -> option A * auth.World) : M A := fun s =>
  let '(r, w) := f (s_auth s) in (r, with_auth w s).
Definition set_metric (f : infra.MetricsRegistry -> infra.MetricsRegistry) : M () :=
  update (fun s => with_metrics (f (s_metrics s)) s).

(** The routing service talks to the same Redis as the auth service. *)
Definition on_routing {A} (f : auth.RoutingService -> A * auth.RoutingService) : M A := fun s =>
  let r := s_routing s in
  let '(a, r') := f (auth.mkRouting ((fun _ => auth.redis (s_auth s)) <$> auth.m_redisClient r) (auth.r_nodeId r)
                       (auth.m_routeTtlSeconds r) (auth.m_localRoutes r)) in
  let redis' := default (auth.redis (s_auth s)) (auth.m_redisClient r') in
  (Some a, with_routing (auth.with_redis redis' (s_auth s)) r' s).

(** ** Payload formats *)
Definition decoded {A} (pb : ProtoLib -> string -> option A) (deser : string -> A -> outcome A)
    (data : string) (init : A) : option (bool * A) :=
  let json := match deser data init with Done ok m => Some (ok, m) | Undefined => None end in
  if bool_decide (payloadFormat cfg = Json) then json
  else match lib ← protobuf cfg; pb lib data with
       | Some m => Some (true, m)
       | None => if compatibleJson cfg then json else Some (false, init)
       end.

Definition decode {A} (pb : ProtoLib -> string -> option A) (deser : string -> A -> outcome A)
    (data : string) (init : A) : M (bool * A) := fun s => (decoded pb deser data init, s).

(** The text, or an exception of the JSON printer. *)
Definition encode {A} (pb : ProtoLib -> A -> option string) (ser : A -> option string) (msg : A)
    : option string :=
  if bool_decide (payloadFormat cfg = Json) then ser msg
  else match lib ← protobuf cfg; pb lib msg with Some s => Some s | None => ser msg end.

Definition decodeLoginReq d := decode pb_LoginReq Deserialize_LoginReq d (mkLoginReq "" "" "").
Definition decodeP2PReq d := decode pb_P2PMsgReq Deserialize_P2PMsgReq d (mkP2PMsgReq "" "" "" "").
Definition decodeAckReq d := decode pb_MessageAckReq Deserialize_MessageAckReq d (mkMessageAckReq 0 0 0).
Definition decodePullReq d := decode pb_PullOfflineReq Deserialize_PullOfflineReq d (mkPullOfflineReq "" 0 0).
Definition decodeBroadcastReq d :=
  decode pb_BroadcastMsgReq Deserialize_BroadcastMsgReq d (mkBroadcastMsgReq "" "").
Definition decodeKickReq d := decode pb_KickUserReq Deserialize_KickUserReq d (mkKickUserReq "" "").

Definition encodeLoginResp := encode pb_LoginResp Serialize_LoginResp.
Definition encodeHeartbeatResp := encode pb_HeartbeatResp Serialize_HeartbeatResp.
Definition encodeP2PResp := encode pb_P2PMsgResp Serialize_P2PMsgResp.
Definition encodeP2PNotify := encode pb_P2PMsgNotify Serialize_P2PMsgNotify.
Definition encodeAckResp := encode pb_MessageAckResp Serialize_MessageAckResp.
Definition encodePullResp := encode pb_PullOfflineResp Serialize_PullOfflineResp.
Definition encodeBroadcastNotify := encode pb_BroadcastMsgNotify Serialize_BroadcastMsgNotify.
Definition encodeKickResp := encode pb_KickUserResp Serialize_KickUserResp.

(** [sendPacket(conn, command, requestId, encode(msg), flags, clientSeq, serverSeq, errorCode)] *)
Definition packet_header (command requestId flags clientSeq serverSeq errorCode : Z) : PacketHeader :=
  mkPacketHeader kMagicNumber kProtocolVersionV1 kHeaderSize kHeaderSize command
    (if flags =? 0 then GuessFlagsFromCommand command else flags)
    requestId clientSeq serverSeq errorCode 0.

Definition sendPacket (conn : Conn) (command requestId : Z) (payload : option string)
    (flags clientSeq serverSeq errorCode : Z) : M () :=
  match payload with
  | None => throw
  | Some data =>
    on_msg (message.pack_send (conn_obj conn)
      (packet_header command requestId flags clientSeq serverSeq errorCode) data)
  end.

(** ** submitBusinessTask *)
Definition queue_gauge : M () :=
  let! s := get in
  set_metric (infra.setGauge "im_threadpool_queue_size"
    (infra.dint (pool.queue_size (pool.m_taskQueue (s_pool s)))) "Current thread pool queue size").

(** The number of the next packaged task. *)
Definition next_id (p : pool.ThreadPool) : nat :=
  length (pool.accepted p) + length (pool.rejected p) + length (pool.dropped p).

Definition submitBusinessTask (taskName : string) (task : Task) : M bool :=
  let! t := now in
  let! s := get in
  let '(ok, breaker) := infra.allowRequest t (s_breaker s) in
  update (with_breaker breaker) ;;
  if negb ok && negb (bool_decide (taskName = "login")) && negb (bool_decide (taskName = "ack"))
  then ret false
  else
    let! s := get in
    let id := next_id (s_pool s) in
    match pool.submit id (s_pool s) with
    | (Some queued, p) =>
      update (with_pool p (if queued then <[id := task]> (s_tasks s) else s_tasks s)) ;;
      queue_gauge ;;
      update (fun s => with_breaker (infra.recordSuccess (s_breaker s)) s) ;;
      ret true
    | (None, p) =>
      update (with_pool p (s_tasks s)) ;;
      queue_gauge ;; queue_gauge ;;
      let! t := now in
      update (fun s => with_breaker (infra.recordFailure t (s_breaker s)) s) ;;
      ret false
    end.

(** ** The tasks *)
Definition run_login (conn : Conn) (requestId : Z) (req : LoginReq) : M () :=
  let! rand := random in
  let! t1 := now in
  let! t2 := now in
  let! r := on_auth (auth.login conn (lreq_userId req) (lreq_token req) (lreq_deviceId req) rand t1 t2) in
  let '(success, sessionId, errorMsg) := r in
  sendPacket conn CmdLoginResp requestId
    (encodeLoginResp (mkLoginResp (if (success : bool) then 0 else 1)
                        (if success then "success" else errorMsg) sessionId))
    kFlagResponse 0 0 (if success then ErrOk else ErrAuthFailed) ;;
  if success then
    let! _ := on_auth (auth.bindSessionToNode sessionId (nodeId cfg)) in
    on_svc (message.registerConnection (lreq_userId req) (Some (conn_obj conn))) ;;
    on_msg (message.deliverPendingMessages env (lreq_userId req)) ;;
    let! t1 := now in
    let! t2 := now in
    on_heartbeat (heartbeat.onAuthenticated conn (lreq_userId req) t1 t2) ;;
    if clusterEnabled cfg
    then let! _ := on_routing (auth.bindUserRoute (lreq_userId req) (nodeId cfg)) in ret ()
    else ret ()
  else ret ().

(** The part of the p2p task behind the route test. *)
Definition run_p2p_local (conn : Conn) (requestId : Z) (req : P2PMsgReq) (fromUserId : string) : M () :=
  let! r := on_msg (message.sendReliableP2PMessage env fromUserId (preq_toUserId req)
                      (preq_clientMsgId req) (preq_content req) 0 0) in
  let '(success, msgId, serverSeq, resultMsg) := r in
  sendPacket conn CmdP2pMsgResp requestId
    (encodeP2PResp (mkP2PMsgResp (if (success : bool) then 0 else 1) resultMsg msgId serverSeq))
    kFlagResponse msgId serverSeq (if success then ErrOk else ErrInvalidPacket).

Definition run_p2p (conn : Conn) (requestId : Z) (req : P2PMsgReq) (fromUserId : string) : M () :=
  let! route := (if clusterEnabled cfg then on_routing (auth.lookupUserRoute (preq_toUserId req))
                 else ret None) in
  match route with
  | Some node =>
    if negb (bool_decide (node = nodeId cfg)) then
      sendPacket conn CmdP2pMsgResp requestId
        (encodeP2PResp (mkP2PMsgResp 1 "remote forwarding not enabled" 0 0))
        kFlagResponse 0 0 ErrServerBusy
    else run_p2p_local conn requestId req fromUserId
  | None => run_p2p_local conn requestId req fromUserId
  end.

Definition run_ack (conn : Conn) (requestId : Z) (req : MessageAckReq) (userId : string) : M () :=
  let! r := on_msg (message.processAck env userId (areq_msgId req) (areq_serverSeq req) (areq_ackCode req)) in
  let '(success, lastAckedSeq, errorMsg) := r in
  sendPacket conn CmdMessageAckResp requestId
    (encodeAckResp (mkMessageAckResp (if (success : bool) then 0 else 1)
                      (if success then "success" else errorMsg) lastAckedSeq))
    (Z.lor kFlagResponse kFlagAck) (areq_msgId req) lastAckedSeq
    (if success then ErrOk else ErrInvalidPacket).

Definition run_pull (conn : Conn) (requestId : Z) (req : PullOfflineReq) (userId : string) : M () :=
  let! s := get in
  let limit := if oreq_limit req =? 0 then 100 else oreq_limit req in
  let limit := if infra.isOpen (s_breaker s) then Z.min limit 20 else limit in
  let! r := on_msg (message.pullOfflineMessages userId (oreq_lastAckedSeq req) limit) in
  let '(messages, nextBeginSeq) := r in
  sendPacket conn CmdPullOfflineResp requestId
    (encodePullResp (mkPullOfflineResp 0 "success" nextBeginSeq messages))
    kFlagResponse 0 nextBeginSeq ErrOk.

Definition run_task (t : Task) : M () :=
  match t with
  | LoginTask conn requestId req => run_login conn requestId req
  | P2PTask conn requestId req fromUserId => run_p2p conn requestId req fromUserId
  | AckTask conn requestId req userId => run_ack conn requestId req userId
  | PullTask conn requestId req userId => run_pull conn requestId req userId
  | BroadcastTask req fromUserId => on_msg (message.broadcastMessage env fromUserId (breq_content req))
  | LogoutTask conn => on_auth (fun w => (Some (), auth.logout conn w))
  end.

(** ** The packet callback, one definition per command *)
Definition handle_login (conn : Conn) (requestId : Z) (data : string) : M () :=
  let refuse text code :=
    sendPacket conn CmdLoginResp requestId (encodeLoginResp (mkLoginResp 1 text "")) kFlagResponse 0 0 code in
  let! r := decodeLoginReq data in
  let '(parsed, req) := r in
  if negb parsed then refuse "invalid login payload" ErrInvalidPacket
  else
    set_metric (infra.incCounter "im_login_qps" (infra.dint 1) "Inbound login request count") ;;
    let! ok := submitBusinessTask "login" (LoginTask conn requestId req) in
    if (ok : bool) then ret () else refuse "server busy" ErrServerBusy.

Definition handle_heartbeat (conn : Conn) (requestId : Z) : M () :=
  let! t1 := now in
  let! t2 := now in
  on_heartbeat (heartbeat.onHeartbeat conn t1 t2) ;;
  let! t := now in
  sendPacket conn CmdHeartbeatResp requestId (encodeHeartbeatResp (mkHeartbeatResp t)) kFlagResponse 0 0 ErrOk.

Definition handle_p2p (conn : Conn) (requestId : Z) (data : string) : M () :=
  let refuse text code :=
    sendPacket conn CmdP2pMsgResp requestId (encodeP2PResp (mkP2PMsgResp 1 text 0 0)) kFlagResponse 0 0 code in
  let! r := decodeP2PReq data in
  let '(parsed, req) := r in
  let! s := get in
  let userContext := auth.getUserContext conn (s_auth s) in
  set_metric (infra.incCounter "im_p2p_qps" (infra.dint 1) "Inbound p2p request count") ;;
  if negb parsed then refuse "invalid p2p payload" ErrInvalidPacket
  else match userContext with
  | None => refuse "unauthenticated" ErrInvalidPacket
  | Some c =>
    let! t1 := now in
    let! t2 := now in
    let! may := on_overload (overload.canSendMessage (auth.u_userId c) t1 t2) in
    if negb may then refuse "user send rate limited" ErrServerBusy
    else
      let! ok := submitBusinessTask "p2p" (P2PTask conn requestId req (auth.u_userId c)) in
      if (ok : bool) then ret () else refuse "server busy" ErrServerBusy
  end.

Definition handle_ack (conn : Conn) (requestId : Z) (data : string) : M () :=
  let! r := decodeAckReq data in
  let '(parsed, req) := r in
  let refuse text code :=
    sendPacket conn CmdMessageAckResp requestId (encodeAckResp (mkMessageAckResp 1 text 0))
      (Z.lor kFlagResponse kFlagAck) (areq_msgId req) 0 code in
  let! s := get in
  if negb parsed then refuse "invalid ack payload" ErrInvalidPacket
  else match auth.getUserContext conn (s_auth s) with
  | None => refuse "unauthenticated" ErrInvalidPacket
  | Some c =>
    let! ok := submitBusinessTask "ack" (AckTask conn requestId req (auth.u_userId c)) in
    if (ok : bool) then ret () else refuse "server busy" ErrServerBusy
  end.

Definition handle_pull (conn : Conn) (requestId : Z) (data : string) : M () :=
  let refuse text code :=
    sendPacket conn CmdPullOfflineResp requestId (encodePullResp (mkPullOfflineResp 1 text 0 []))
      kFlagResponse 0 0 code in
  let! r := decodePullReq data in
  let '(parsed, req) := r in
  let! s := get in
  if negb parsed then refuse "invalid pull payload" ErrInvalidPacket
  else match auth.getUserContext conn (s_auth s) with
  | None => refuse "unauthenticated" ErrInvalidPacket
  | Some c =>
    let! ok := submitBusinessTask "pull_offline" (PullTask conn requestId req (auth.u_userId c)) in
    if (ok : bool) then ret () else refuse "server busy" ErrServerBusy
  end.

Definition handle_broadcast (conn : Conn) (data : string) : M () :=
  let! r := decodeBroadcastReq data in
  let '(parsed, req) := r in
  let! s := get in
  match auth.getUserContext conn (s_auth s) with
  | Some c =>
    if negb parsed then ret ()
    else let! _ := submitBusinessTask "broadcast" (BroadcastTask req (auth.u_userId c)) in ret ()
  | None => ret ()
  end.

Definition handle_kick (conn : Conn) (requestId : Z) (data : string) : M () :=
  let! r := decodeKickReq data in
  let '(parsed, _) := r in
  if negb parsed then
    sendPacket conn CmdKickUserResp requestId (encodeKickResp (mkKickUserResp 1 "invalid kick payload"))
      kFlagResponse 0 0 ErrInvalidPacket
  else
    sendPacket conn CmdKickUserResp requestId (encodeKickResp (mkKickUserResp 0 "success"))
      kFlagResponse 0 0 ErrOk.

(** What a command gets when the rate limiter rejects it. *)
Definition rate_limited (conn : Conn) (command requestId : Z) : M () :=
  if command =? CmdLoginReq then
    sendPacket conn CmdLoginResp requestId (encodeLoginResp (mkLoginResp 1 "rate limited" ""))
      kFlagResponse 0 0 ErrServerBusy
  else if command =? CmdP2pMsgReq then
    sendPacket conn CmdP2pMsgResp requestId (encodeP2PResp (mkP2PMsgResp 1 "rate limited" 0 0))
      kFlagResponse 0 0 ErrServerBusy
  else ret ().

Definition onPacket (conn : Conn) (packet : codec.DecodedPacket) : M () :=
  let command := command (codec.header packet) in
  let requestId := requestId (codec.header packet) in
  let data := str (codec.payload packet) in
  let limited := (command =? CmdLoginReq) || (command =? CmdP2pMsgReq) || (command =? CmdBroadcastMsgReq) in
  let! ok := (if limited then
                let! t1 := now in
                let! t2 := now in
                on_overload (overload.canProcessCommand command t1 t2)
              else ret true) in
  if negb ok then rate_limited conn command requestId
  else if command =? CmdLoginReq then handle_login conn requestId data
  else if command =? CmdHeartbeatReq then handle_heartbeat conn requestId
  else if command =? CmdP2pMsgReq then handle_p2p conn requestId data
  else if command =? CmdMessageAckReq then handle_ack conn requestId data
  else if command =? CmdPullOfflineReq then handle_pull conn requestId data
  else if command =? CmdBroadcastMsgReq then handle_broadcast conn data
  else if command =? CmdKickUserReq then handle_kick conn requestId data
  else ret ().

(** ** The other callbacks *)
Definition forceClose (conn : ConnId) : M () := update (fun s => with_forced (s_forced s ++ [conn]) s).

Definition connections_gauge : M () :=
  let! s := get in
  set_metric (infra.setGauge "im_online_connections"
    (infra.dint (overload.m_currentConnections (s_overload s))) "Current accepted connections").

Definition onConnectionUp (conn : Conn) (ip : string) : M () :=
  let! t1 := now in
  let! t2 := now in
  let! ok := on_overload (overload.canAcceptConnectionFrom ip t1 t2) in
  if negb ok then forceClose (conn_obj conn)
  else
    on_overload (fun o => ((), overload.onConnectionAccepted o)) ;;
    connections_gauge ;;
    let! t1 := now in
    let! t2 := now in
    on_heartbeat (heartbeat.onConnection conn true t1 t2).

Definition onConnectionDown (conn : Conn) : M () :=
  on_overload (fun o => ((), overload.onConnectionClosed o)) ;;
  connections_gauge ;;
  let! t1 := now in
  let! t2 := now in
  on_heartbeat (heartbeat.onConnection conn false t1 t2) ;;
  let! s := get in
  (match auth.getUserContext conn (s_auth s) with
   | Some c =>
     on_svc (message.unregisterConnection (auth.u_userId c)) ;;
     if clusterEnabled cfg
     then let! _ := on_routing (auth.unbindUserRoute (auth.u_userId c)) in ret ()
     else ret ()
   | None => ret ()
   end) ;;
  let! _ := submitBusinessTask "logout" (LogoutTask conn) in
  ret ().

Definition buffer_gauge (bytes : Z) : M () :=
  set_metric (infra.setGauge "im_output_buffer_bytes" (infra.dint bytes)
    "Latest observed connection output buffer bytes").

Definition onHighWaterMark (conn : Conn) (bytes : Z) : M () :=
  buffer_gauge bytes ;;
  let! t := now in
  on_heartbeat (fun h => (heartbeat.onWriteBlocked conn t h, [])).

Definition onWriteComplete (conn : Conn) (bytes : Z) : M () :=
  buffer_gauge bytes ;;
  on_heartbeat (fun h => (heartbeat.onBackPressureRecovered conn h, [])).

(** The kick callback. *)
Fixpoint kick_all (es : list heartbeat.event) : M () :=
  match es with
  | [] => ret ()
  | heartbeat.Kick conn _ :: es => forceClose conn ;; kick_all es
  | _ :: es => kick_all es
  end.

Definition onCheck : M () :=
  let! t := now in
  let! s := get in
  let es := (heartbeat.check_round t (s_heartbeat s)).2 in
  on_heartbeat (heartbeat.check_round t) ;;
  kick_all es.

(** A worker of the pool; the body of a task runs with the step that ends it,
    and an exception of the body stays in its future. *)
Definition onWorker (j : nat) : M () :=
  let! s := get in
  let! _ := (match pool.m_workers (s_pool s) !! j with
             | Some (pool.WRun (pool.Task n)) =>
               match s_tasks s !! n with
               | Some t => fun s => (Some (), (run_task t s).2)
               | None => ret ()
               end
             | _ => ret ()
             end) in
  update (fun s => with_pool (default (s_pool s) (pool.worker_step j (s_pool s))) (s_tasks s) s).

(** ** Runs of the server *)
Inductive input :=
| InPacket (conn : Conn) (packet : codec.DecodedPacket)
| InUp (conn : Conn) (ip : string)
| InDown (conn : Conn)
| InHighWater (conn : Conn) (bytes : Z)
| InWriteComplete (conn : Conn) (bytes : Z)
| InCheck
| InRetry
| InWorker (j : nat).

Definition handle (i : input) : M () :=
  match i with
  | InPacket conn packet => onPacket conn packet
  | InUp conn ip => onConnectionUp conn ip
  | InDown conn => onConnectionDown conn
  | InHighWater conn bytes => onHighWaterMark conn bytes
  | InWriteComplete conn bytes => onWriteComplete conn bytes
  | InCheck => onCheck
  | InRetry => on_msg (message.retry_round env)
  | InWorker j => onWorker j
  end.

Definition server_step (s : Server) (i : input) : Server := (handle i s).2.


(** ** What the message service emits *)

(** No answer to a request: metrics, session updates and notifications. *)
Definition unsolicited (o : message.out) : Prop :=
  match o with
  | message.Sent _ h _ => command h = CmdP2pMsgNotify \/ command h = CmdBroadcastMsgNotify
  | _ => True
  end.

Definition only_notifies {A} (m : message.M (St := St) A) : Prop :=
  forall w, exists os, message.outs (m w).2 = message.outs w ++ os /\ Forall unsolicited os.

Lemma notifies_silent {A} (m : message.M (St := St) A) :
  (forall w, message.outs (m w).2 = message.outs w) -> only_notifies m.
Proof. intros E w. exists []. rewrite E, app_nil_r. done. Qed.

Lemma notifies_ret {A} (a : A) : only_notifies (message.ret (St := St) a).
Proof. by apply notifies_silent. Qed.

Lemma notifies_throw {A} : only_notifies (message.throw (St := St) (A := A)).
Proof. by apply notifies_silent. Qed.

Lemma notifies_bind {A B} (m : message.M (St := St) A) (k : A -> message.M (St := St) B) :
  only_notifies m -> (forall a, only_notifies (k a)) -> only_notifies (message.bind m k).
Proof.
  intros Hm Hk w. unfold message.bind. destruct (Hm w) as (os & E & F).
  destruct (m w) as [[a|] w1]; simpl in *; [|by exists os].
  destruct (Hk a w1) as (os' & E' & F'). exists (os ++ os').
  rewrite E', E, app_assoc. split; [done|]. by apply Forall_app.
Qed.

Lemma notifies_emit o : unsolicited o -> only_notifies (message.emit (St := St) o).
Proof. intros Ho w. exists [o]. simpl. auto. Qed.

Lemma notifies_get : only_notifies (message.get_svc (St := St)).
Proof. by apply notifies_silent. Qed.

Lemma notifies_store {A} st (op : St -> A * St) : only_notifies (message.on_store st op).
Proof. apply notifies_silent. intros w. unfold message.on_store. by destruct (op st). Qed.

Lemma notifies_now : only_notifies (message.GetTimestampMs (St := St) env).
Proof. by apply notifies_silent. Qed.

Lemma notifies_online c : only_notifies (message.online (St := St) env c).
Proof. apply notifies_silent. by destruct c. Qed.

Lemma notifies_encode {A} e ser (x : A) : only_notifies (message.encode_with (St := St) e ser x).
Proof. unfold message.encode_with. destruct (default ser e x); [apply notifies_ret|apply notifies_throw]. Qed.

Lemma notifies_pack c h d :
  command h = CmdP2pMsgNotify \/ command h = CmdBroadcastMsgNotify -> only_notifies (message.pack_send (St := St) c h d).
Proof.
  intros Hh. unfold message.pack_send. destruct (codec.pack h (chars d) buffer.newBuffer);
    [by apply notifies_emit|apply notifies_throw].
Qed.

#[local] Hint Resolve notifies_ret notifies_throw notifies_get notifies_store notifies_now notifies_online
  notifies_encode notifies_pack notifies_emit : core.

Ltac notify :=
  repeat match goal with
  | |- only_notifies (message.bind _ _) => apply notifies_bind; [|intros ?]
  | |- only_notifies (match ?x with _ => _ end) => destruct x
  | |- only_notifies (let '(_, _) := ?x in _) => destruct x
  | |- _ => progress cbv beta zeta
  | |- _ => solve [auto | apply notifies_emit; done | apply notifies_pack; by auto]
  end.

Lemma notifies_deliver c m : only_notifies (message.deliverLocked (St := St) env c m).
Proof. unfold message.deliverLocked. notify. Qed.
#[local] Hint Resolve notifies_deliver : core.

Lemma notifies_send f t c d a b : only_notifies (message.sendReliableP2PMessage (St := St) env f t c d a b).
Proof. unfold message.sendReliableP2PMessage. notify. Qed.

Lemma notifies_processAck u i q c : only_notifies (message.processAck (St := St) env u i q c).
Proof. unfold message.processAck. notify. Qed.

Lemma notifies_pull u l n : only_notifies (message.pullOfflineMessages (St := St) u l n).
Proof. unfold message.pullOfflineMessages. notify. Qed.

Lemma notifies_retry_all c n ms : only_notifies (message.retry_all (St := St) env c n ms).
Proof.
  induction ms as [|m ms IH]; simpl; [apply notifies_ret|].
  apply notifies_bind; [|intros _; exact IH]. unfold message.retry_message. notify.
Qed.
#[local] Hint Resolve notifies_retry_all : core.

Lemma notifies_deliverPending u : only_notifies (message.deliverPendingMessages (St := St) env u).
Proof. unfold message.deliverPendingMessages. notify. Qed.

Lemma notifies_broadcast u c : only_notifies (message.broadcastMessage (St := St) env u c).
Proof.
  unfold message.broadcastMessage. notify.
  generalize (message.m_userToConn a). intros cs. induction (map_to_list cs) as [|[? conn] l IH]; simpl; [auto|].
  notify; apply IH.
Qed.

Lemma notifies_retry : only_notifies (message.retry_round (St := St) env).
Proof.
  unfold message.retry_round. apply notifies_bind; [apply notifies_get|]. intros s.
  apply notifies_bind.
  - induction (map_to_list (message.m_userToConn s)) as [|[u c] l IH]; simpl; [auto|]. notify.
  - intros us. induction us as [|u us IH]; simpl; [auto|].
    apply notifies_bind; [apply notifies_deliverPending|]. intros _. exact IH.
Qed.

(** ** Requests and answers *)

(** The command that answers a request. *)
Definition response_of (command : Z) : option Z :=
  if command =? CmdLoginReq then Some CmdLoginResp
  else if command =? CmdHeartbeatReq then Some CmdHeartbeatResp
  else if command =? CmdP2pMsgReq then Some CmdP2pMsgResp
  else if command =? CmdMessageAckReq then Some CmdMessageAckResp
  else if command =? CmdPullOfflineReq then Some CmdPullOfflineResp
  else if command =? CmdKickUserReq then Some CmdKickUserResp
  else None.

(** The answer a task owes: connection, command and request number. *)
Definition task_answer (t : Task) : option (ConnId * Z * Z) :=
  match t with
  | LoginTask conn rid _ => Some (conn_obj conn, CmdLoginResp, rid)
  | P2PTask conn rid _ _ => Some (conn_obj conn, CmdP2pMsgResp, rid)
  | AckTask conn rid _ _ => Some (conn_obj conn, CmdMessageAckResp, rid)
  | PullTask conn rid _ _ => Some (conn_obj conn, CmdPullOfflineResp, rid)
  | BroadcastTask _ _ | LogoutTask _ => None
  end.

(** The tasks that wait in the queue or run on a worker. *)
Definition pending_ids (p : pool.ThreadPool) : list nat :=
  pool.task_ids (pool.m_taskQueue p) ++ pool.running p.

Section Counting.
(** One connection, one kind of request and one request number. *)
Variables (c : ConnId) (q rid : Z).

Definition owed (conn : ConnId) (command requestId : Z) : nat :=
  if bool_decide ((conn, Some command, requestId) = (c, response_of q, rid)) then 1 else 0.
Definition owed_by (t : Task) : nat :=
  match task_answer t with Some (conn, command, requestId) => owed conn command requestId | None => 0 end.
Definition owed_out (o : message.out) : nat :=
  match o with message.Sent conn h _ => owed conn (command h) (requestId h) | _ => 0 end.

Definition responses (s : Server) : nat := sum_list_with owed_out (message.outs (s_msg s)).
Definition pending (s : Server) : nat :=
  sum_list_with (fun id => match s_tasks s !! id with Some t => owed_by t | None => 0%nat end)
    (pending_ids (s_pool s)).

Definition is_request (i : input) : nat :=
  match i with
  | InPacket conn packet =>
    if bool_decide ((conn_obj conn, command (codec.header packet), requestId (codec.header packet)) = (c, q, rid))
    then 1 else 0
  | _ => 0
  end.

(** Whether the handling of an input, or the task a worker runs, throws. *)
Definition fault (s : Server) (i : input) : nat :=
  match i with
  | InWorker j =>
    match pool.m_workers (s_pool s) !! j with
    | Some (pool.WRun (pool.Task n)) =>
      match s_tasks s !! n with
      | Some t => match (run_task t s).1 with Some _ => 0 | None => 1 end
      | None => 0
      end
    | _ => 0
    end
  | _ => match (handle i s).1 with Some _ => 0 | None => 1 end
  end.

Fixpoint faults (s : Server) (ins : list input) : nat :=
  match ins with [] => 0 | i :: ins => fault s i + faults (server_step s i) ins end.

(** The pool runs, and the numbers of its tasks were given out. *)
Definition pool_wf (s : Server) : Prop :=
  pool.m_runningFlag (s_pool s) = true
  /\ Forall (fun id => (id < next_id (s_pool s))%nat) (pending_ids (s_pool s)).

(** [m] sends or queues [n] of the counted answers, or throws before the last. *)
Definition adds {A} (m : M A) (n : nat) : Prop :=
  forall s, pool_wf s -> pool_wf (m s).2
    /\ match (m s).1 with
       | Some _ => (responses (m s).2 + pending (m s).2 = responses s + pending s + n)%nat
       | None => (responses s + pending s <= responses (m s).2 + pending (m s).2
                    <= responses s + pending s + n)%nat
       end.

(** Nothing an answer or a task depends on changes. *)
Definition same_traffic (s s' : Server) : Prop :=
  message.outs (s_msg s') = message.outs (s_msg s) /\ s_tasks s' = s_tasks s /\ s_pool s' = s_pool s.

Lemma adds_silent {A} (m : M A) : (forall s, same_traffic s (m s).2) -> adds m 0.
Proof.
  intros Hm s Hw. destruct (Hm s) as (Ho & Ht & Hp).
  unfold pool_wf, responses, pending in *. rewrite Ho, Ht, Hp. split; [done|]. destruct (m s).1; lia.
Qed.

Lemma adds_bind {A B} (m : M A) (k : A -> M B) n1 n2 n :
  adds m n1 -> (forall a, adds (k a) n2) -> n = (n1 + n2)%nat -> adds (bind m k) n.
Proof.
  intros Hm Hk -> s Hw. unfold bind. destruct (Hm s Hw) as [Hw1 Hn1].
  destruct (m s) as [[a|] s1]; simpl in *; [|split; [done|lia]].
  destruct (Hk a s1 Hw1) as [Hw2 Hn2]. split; [done|]. destruct (k a s1).1; lia.
Qed.

Lemma adds_bind0 {A B} (m : M A) (k : A -> M B) n :
  adds m 0 -> (forall a, adds (k a) n) -> adds (bind m k) n.
Proof. intros Hm Hk. by eapply adds_bind. Qed.

Lemma adds_ret {A} (a : A) : adds (ret a) 0.
Proof. by apply adds_silent. Qed.

Lemma adds_get : adds get 0.
Proof. by apply adds_silent. Qed.

Lemma adds_throw {A} n : adds (throw (A := A)) n.
Proof. intros s Hw. split; [done|]. simpl. lia. Qed.

Hypothesis Hq : is_Some (response_of q).

Lemma owed_unsolicited o : unsolicited o -> owed_out o = 0%nat.
Proof.
  destruct o as [conn h d| | |]; try done. simpl. intros Ho. unfold owed.
  case_bool_decide as E; [|done]. exfalso. injection E as _ E _. revert E Ho.
  unfold response_of. repeat case_match; intros [= ->] [Ho|Ho]; by vm_compute in Ho.
Qed.

Lemma adds_on_msg {A} (m : message.M A) : only_notifies m -> adds (on_msg m) 0.
Proof.
  intros Hm s Hw. unfold on_msg. destruct (Hm (s_msg s)) as (os & E & F).
  destruct (m (s_msg s)) as [r w]; simpl in *. split; [done|].
  assert (responses (with_msg w s) = responses s).
  { unfold responses. simpl. rewrite E, sum_list_with_app.
    enough (sum_list_with owed_out os = 0%nat) by lia. clear E.
    induction F as [|o os Ho F IH]; simpl; [done|]. by rewrite owed_unsolicited. }
  unfold pending. simpl. destruct r; lia.
Qed.

Lemma adds_send conn cmd r payload fl cs ss ec :
  adds (sendPacket conn cmd r payload fl cs ss ec) (owed (conn_obj conn) cmd r).
Proof.
  unfold sendPacket. destruct payload as [d|]; [|apply adds_throw].
  intros s Hw. unfold on_msg, message.pack_send.
  destruct (codec.pack _ _ _); simpl; [|split; [done|unfold responses, pending; simpl; lia]].
  split; [done|]. unfold responses, pending. simpl. rewrite sum_list_with_app. simpl. lia.
Qed.

Lemma adds_now : adds now 0.
Proof. apply adds_on_msg, notifies_now. Qed.
Lemma adds_random : adds random 0.
Proof. by apply adds_silent. Qed.
Lemma adds_on_svc f : adds (on_svc f) 0.
Proof. by apply adds_silent. Qed.
Lemma adds_on_heartbeat f : adds (on_heartbeat f) 0.
Proof. apply adds_silent. intros s. unfold on_heartbeat. by destruct (f (s_heartbeat s)). Qed.
Lemma adds_on_overload {A} (f : _ -> A * _) : adds (on_overload f) 0.
Proof. apply adds_silent. intros s. unfold on_overload. by destruct (f (s_overload s)). Qed.
Lemma adds_on_auth {A} (f : _ -> option A * _) : adds (on_auth f) 0.
Proof. apply adds_silent. intros s. unfold on_auth. by destruct (f (s_auth s)). Qed.
Lemma adds_on_routing {A} (f : _ -> A * _) : adds (on_routing f) 0.
Proof. apply adds_silent. intros s. unfold on_routing. by destruct (f _). Qed.
Lemma adds_metric f : adds (set_metric f) 0.
Proof. by apply adds_silent. Qed.
Lemma adds_breaker f : adds (update (fun s => with_breaker (f s) s)) 0.
Proof. by apply adds_silent. Qed.
Lemma adds_queue_gauge : adds queue_gauge 0.
Proof. by apply adds_silent. Qed.
Lemma adds_decode {A} pb de d (i : A) : adds (decode pb de d i) 0.
Proof. by apply adds_silent. Qed.
Lemma adds_forceClose x : adds (forceClose x) 0.
Proof. by apply adds_silent. Qed.
#[local] Hint Resolve adds_ret adds_get adds_throw adds_send adds_now adds_random adds_on_svc adds_on_heartbeat
  adds_on_overload adds_on_auth adds_on_routing adds_metric adds_breaker adds_queue_gauge adds_decode
  adds_forceClose : core.

Ltac adds :=
  repeat match goal with
  | |- adds (bind _ _) _ => apply adds_bind0; [|intros ?]
  | |- adds (match ?x with _ => _ end) _ => destruct x
  | |- _ => progress cbv beta zeta
  | |- _ => solve [auto]
  end.

Lemma adds_connections_gauge : adds connections_gauge 0.
Proof. by apply adds_silent. Qed.
#[local] Hint Resolve adds_connections_gauge : core.

(** A packaged task enters the queue under a fresh number. *)
Lemma next_id_submit id p : next_id (pool.submit id p).2 = S (next_id p).
Proof.
  unfold pool.submit, next_id. repeat case_match; simpl; rewrite length_app; simpl; lia.
Qed.

(** The state after the breaker was asked. *)
Lemma submit_run name t s :
  exists s2, same_traffic s s2 /\
   (submitBusinessTask name t s = (Some false, s2)
    \/ exists n, submitBusinessTask name t s
        = match pool.submit (next_id (s_pool s2)) (s_pool s2) with
          | (Some queued, p) => (Some true, n (with_pool p
              (if queued then <[next_id (s_pool s2) := t]> (s_tasks s2) else s_tasks s2) s2))
          | (None, p) => (Some false, n (with_pool p (s_tasks s2) s2))
          end
        /\ forall s, same_traffic s (n s)).
Proof.
  remember (submitBusinessTask name t s) as rs eqn:E. unfold submitBusinessTask in E.
  assert (Hnow : exists v, now s = (Some v, with_msg (message.mkWorld (message.svc (s_msg s))
    (S (message.tick (s_msg s))) (message.outs (s_msg s))) s)) by (eexists; reflexivity).
  destruct Hnow as [v Hnow]. unfold bind at 1 in E. rewrite Hnow in E.
  unfold bind at 1, get at 1 in E. cbn [s_breaker with_msg] in E.
  destruct (infra.allowRequest v (s_breaker s)) as [ok b].
  unfold bind at 1, update at 1 in E. set (s2 := with_breaker b _) in E. exists s2. split; [done|].
  destruct (negb ok && _ && _); [by left|]. right. unfold bind at 1, get at 1 in E. cbv zeta in E.
  destruct (pool.submit _ _) as [[queued|] p].
  - exists (fun s => ((update (fun _ => s) ;; queue_gauge ;;
      update (fun s => with_breaker (infra.recordSuccess (s_breaker s)) s) ;; ret true) s).2).
    split; [exact E|]. intros ?. repeat split; reflexivity.
  - exists (fun s => ((update (fun _ => s) ;; queue_gauge ;; queue_gauge ;; let! t := now in
      update (fun s => with_breaker (infra.recordFailure t (s_breaker s)) s) ;; ret false) s).2).
    split; [exact E|]. intros ?. repeat split; reflexivity.
Qed.

(** A put task is one more pending number. *)
Lemma pending_put id p :
  pending_ids (pool.submit id p).2
  ≡ₚ (match (pool.submit id p).1 with Some true => [id] | _ => [] end) ++ pending_ids p.
Proof.
  unfold pool.submit, pending_ids. repeat case_match; simpl; try done.
  unfold pool.put. rewrite pool.task_ids_app. simpl. rewrite <- app_assoc. simpl.
  symmetry. apply Permutation_middle.
Qed.

Lemma sum_fresh (f g : nat -> nat) (n : nat) l :
  (forall i, i <> n -> f i = g i) -> Forall (fun i => (i < n)%nat) l -> sum_list_with f l = sum_list_with g l.
Proof.
  intros Hfg Hl. induction Hl as [|i l Hi Hl IH]; simpl; [done|]. rewrite IH, Hfg by lia. done.
Qed.

Lemma adds_submit name t s :
  pool_wf s ->
  exists b s', submitBusinessTask name t s = (Some b, s') /\ pool_wf s'
    /\ (responses s' + pending s' = responses s + pending s + if b then owed_by t else 0)%nat.
Proof.
  intros [Hf Hw]. destruct (submit_run name t s) as (s2 & (Ho & Ht & Hp) & [E|(n & E & Hn)]).
  { exists false, s2. unfold pool_wf, responses, pending. rewrite Ho, Ht, Hp. split; [done|]. split; [done|lia]. }
  rewrite Hp, Ht in E.
  pose proof (next_id_submit (next_id (s_pool s)) (s_pool s)) as Hid.
  pose proof (pending_put (next_id (s_pool s)) (s_pool s)) as Hpend.
  assert (Hf' : pool.m_runningFlag (pool.submit (next_id (s_pool s)) (s_pool s)).2 = true)
    by (unfold pool.submit; rewrite Hf; by case_if).
  assert (Hq' : (pool.submit (next_id (s_pool s)) (s_pool s)).1 <> Some false)
    by (unfold pool.submit; rewrite Hf; by case_if).
  destruct (pool.submit _ _) as [[queued|] p]; simpl in *.
  - destruct queued; [|done]. eexists true, _. split; [exact E|].
    destruct (Hn (with_pool p (<[next_id (s_pool s):=t]> (s_tasks s)) s2)) as (Hno & Hnt & Hnp). simpl in *.
    unfold pool_wf, responses, pending. rewrite Hno, Hnt, Hnp, Ho. split; [split; [done|]|].
    + rewrite Hpend. constructor; [lia|]. eapply Forall_impl; [exact Hw|]. simpl. lia.
    + rewrite Hpend. simpl. rewrite lookup_insert_eq.
      rewrite (sum_fresh _ (fun id => match s_tasks s !! id with Some t => owed_by t | None => 0%nat end)
        (next_id (s_pool s)) (pending_ids (s_pool s))); [lia| |done].
      intros i Hi. by rewrite lookup_insert_ne.
  - eexists false, _. split; [exact E|].
    destruct (Hn (with_pool p (s_tasks s) s2)) as (Hno & Hnt & Hnp). simpl in *.
    unfold pool_wf, responses, pending. rewrite Hno, Hnt, Hnp, Ho. split; [split; [done|]|].
    + rewrite Hpend. eapply Forall_impl; [exact Hw|]. simpl. lia.
    + rewrite Hpend. lia.
Qed.

(** Submit the task that owes the answer, or answer at once. *)
Lemma adds_submit_or name t n (k : M ()) :
  owed_by t = n -> adds k n ->
  adds (let! ok := submitBusinessTask name t in if (ok : bool) then ret () else k) n.
Proof.
  intros Ht Hk s Hw. unfold bind. destruct (adds_submit name t s Hw) as (b & s' & -> & Hw' & Hn).
  destruct b; simpl.
  - split; [done|]. lia.
  - destruct (Hk s' Hw') as [Hw2 Hn2]. split; [done|]. destruct (k s').1; lia.
Qed.

Lemma adds_submit_other name t : owed_by t = 0%nat -> adds (let! _ := submitBusinessTask name t in ret ()) 0.
Proof.
  intros Ht s Hw. unfold bind. destruct (adds_submit name t s Hw) as (b & s' & -> & Hw' & Hn).
  split; [done|]. simpl. destruct b; lia.
Qed.

(** ** The handlers *)
Definition request_weight (x : ConnId) (command requestId : Z) : nat :=
  if bool_decide ((x, command, requestId) = (c, q, rid)) then 1 else 0.

Lemma owed_request x cmd resp r :
  response_of cmd = Some resp -> owed x resp r = request_weight x cmd r.
Proof.
  intros E. unfold owed, request_weight.
  assert (I : Some resp = response_of q <-> cmd = q).
  2:{ assert (E2 : (x, Some resp, r) = (c, response_of q, rid) <-> (x, cmd, r) = (c, q, rid)).
      { split; intros Ep; injection Ep; intros E1 E2 E3; subst x r; f_equal; f_equal; by apply I. }
      by rewrite (bool_decide_ext _ _ E2). }
  split; [|by intros <-]. rewrite <- E. clear E. destruct Hq as [x0 Hx]. intros E. rewrite Hx in E.
  revert Hx E. unfold response_of. repeat case_match; b2p; intros Hx E; rewrite <- E in Hx;
    first [discriminate Hx | congruence].
Qed.

Lemma no_response_weight x cmd r : response_of cmd = None -> request_weight x cmd r = 0%nat.
Proof.
  intros E. unfold request_weight. case_bool_decide as Heq; [|done].
  injection Heq as _ -> _. rewrite E in Hq. by destruct Hq.
Qed.

Lemma adds_login conn r d : adds (handle_login conn r d) (owed (conn_obj conn) CmdLoginResp r).
Proof.
  unfold handle_login, decodeLoginReq. apply adds_bind0; [auto|]. intros [parsed req].
  destruct (negb parsed); [auto|]. apply adds_bind0; [auto|]. intros _. by apply adds_submit_or.
Qed.

Lemma adds_heartbeat conn r : adds (handle_heartbeat conn r) (owed (conn_obj conn) CmdHeartbeatResp r).
Proof. unfold handle_heartbeat. adds. Qed.

Lemma adds_p2p conn r d : adds (handle_p2p conn r d) (owed (conn_obj conn) CmdP2pMsgResp r).
Proof.
  unfold handle_p2p, decodeP2PReq. apply adds_bind0; [auto|]. intros [parsed req].
  apply adds_bind0; [auto|]. intros s. apply adds_bind0; [auto|]. intros _.
  destruct (negb parsed); [auto|]. destruct (auth.getUserContext _ _) as [u|]; [|auto].
  apply adds_bind0; [auto|]. intros t1. apply adds_bind0; [auto|]. intros t2.
  apply adds_bind0; [auto|]. intros may. destruct (negb may); [auto|]. by apply adds_submit_or.
Qed.

Lemma adds_ack conn r d : adds (handle_ack conn r d) (owed (conn_obj conn) CmdMessageAckResp r).
Proof.
  unfold handle_ack, decodeAckReq. apply adds_bind0; [auto|]. intros [parsed req].
  apply adds_bind0; [auto|]. intros s.
  destruct (negb parsed); [auto|]. destruct (auth.getUserContext _ _) as [u|]; [|auto].
  by apply adds_submit_or.
Qed.

Lemma adds_pull conn r d : adds (handle_pull conn r d) (owed (conn_obj conn) CmdPullOfflineResp r).
Proof.
  unfold handle_pull, decodePullReq. apply adds_bind0; [auto|]. intros [parsed req].
  apply adds_bind0; [auto|]. intros s.
  destruct (negb parsed); [auto|]. destruct (auth.getUserContext _ _) as [u|]; [|auto].
  by apply adds_submit_or.
Qed.

Lemma adds_broadcast conn d : adds (handle_broadcast conn d) 0.
Proof.
  unfold handle_broadcast, decodeBroadcastReq. apply adds_bind0; [auto|]. intros [parsed req].
  apply adds_bind0; [auto|]. intros s. destruct (auth.getUserContext _ _) as [u|]; [|auto].
  destruct (negb parsed); [auto|]. by apply adds_submit_other.
Qed.

Lemma adds_kick conn r d : adds (handle_kick conn r d) (owed (conn_obj conn) CmdKickUserResp r).
Proof. unfold handle_kick, decodeKickReq. apply adds_bind0; [auto|]. intros [parsed req]. adds. Qed.

Ltac answers E l := b2p; rewrite E; erewrite <- owed_request; [apply l|reflexivity].

Lemma adds_onPacket conn packet : adds (onPacket conn packet) (is_request (InPacket conn packet)).
Proof.
  unfold onPacket, is_request.
  set (cmd := command (codec.header packet)). set (r := requestId (codec.header packet)).
  change (if bool_decide _ then 1%nat else 0%nat) with (request_weight (conn_obj conn) cmd r).
  assert (G : adds
    (if cmd =? CmdLoginReq then handle_login conn r (str (codec.payload packet))
     else if cmd =? CmdHeartbeatReq then handle_heartbeat conn r
     else if cmd =? CmdP2pMsgReq then handle_p2p conn r (str (codec.payload packet))
     else if cmd =? CmdMessageAckReq then handle_ack conn r (str (codec.payload packet))
     else if cmd =? CmdPullOfflineReq then handle_pull conn r (str (codec.payload packet))
     else if cmd =? CmdBroadcastMsgReq then handle_broadcast conn (str (codec.payload packet))
     else if cmd =? CmdKickUserReq then handle_kick conn r (str (codec.payload packet))
     else ret ()) (request_weight (conn_obj conn) cmd r)).
  { clearbody cmd r.
    destruct (cmd =? CmdLoginReq) eqn:E1; [answers E1 adds_login|].
    destruct (cmd =? CmdHeartbeatReq) eqn:E2; [answers E2 adds_heartbeat|].
    destruct (cmd =? CmdP2pMsgReq) eqn:E3; [answers E3 adds_p2p|].
    destruct (cmd =? CmdMessageAckReq) eqn:E4; [answers E4 adds_ack|].
    destruct (cmd =? CmdPullOfflineReq) eqn:E5; [answers E5 adds_pull|].
    destruct (cmd =? CmdBroadcastMsgReq) eqn:E6.
    { b2p. rewrite E6, no_response_weight by done. apply adds_broadcast. }
    destruct (cmd =? CmdKickUserReq) eqn:E7; [answers E7 adds_kick|].
    rewrite no_response_weight; [auto|]. unfold response_of. by rewrite E1, E2, E3, E4, E5, E7. }
  cbv zeta. destruct (_ || _) eqn:Elim; [|exact G].
  apply adds_bind0; [adds|]. intros ok. destruct (negb ok); [|exact G].
  unfold rate_limited. clear G.
  destruct (cmd =? CmdLoginReq) eqn:E1; [answers E1 adds_send|].
  destruct (cmd =? CmdP2pMsgReq) eqn:E2; [answers E2 adds_send|].
  simpl in Elim. b2p. rewrite Elim, no_response_weight by done. auto.
Qed.

Lemma adds_run_task t : adds (run_task t) (owed_by t).
Proof.
  assert (Hlocal : forall conn r req u, adds (run_p2p_local conn r req u) (owed (conn_obj conn) CmdP2pMsgResp r)).
  { intros. unfold run_p2p_local. apply adds_bind0; [apply adds_on_msg, notifies_send|].
    intros [[[success id] seq] text]. auto. }
  destruct t as [conn r req|conn r req u|conn r req u|conn r req u|req u|conn]; unfold owed_by; simpl.
  - unfold run_login. do 4 (apply adds_bind0; [auto|intros ?]). destruct a2 as [[success sid] e].
    eapply adds_bind; [auto| |by rewrite Nat.add_0_r]. intros _.
    destruct success; [|auto]. do 2 (apply adds_bind0; [auto|intros ?]).
    apply adds_bind0; [apply adds_on_msg, notifies_deliverPending|]. intros _. adds.
  - unfold run_p2p. apply adds_bind0; [destruct (clusterEnabled cfg); auto|].
    intros [node|]; [|auto]. case_if; auto.
  - unfold run_ack. apply adds_bind0; [apply adds_on_msg, notifies_processAck|].
    intros [[success l] e]. auto.
  - unfold run_pull. apply adds_bind0; [auto|]. intros s.
    apply adds_bind0; [apply adds_on_msg, notifies_pull|]. intros [ms nx]. auto.
  - apply adds_on_msg, notifies_broadcast.
  - auto.
Qed.

Lemma adds_up conn ip : adds (onConnectionUp conn ip) 0.
Proof. unfold onConnectionUp. adds. Qed.

Lemma adds_down conn : adds (onConnectionDown conn) 0.
Proof.
  unfold onConnectionDown. do 6 (apply adds_bind0; [auto|intros ?]).
  apply adds_bind0; [adds|]. intros _. by apply adds_submit_other.
Qed.

Lemma adds_kick_all es : adds (kick_all es) 0.
Proof. induction es as [|e es IH]; simpl; [auto|]. destruct e; try done. apply adds_bind0; auto. Qed.

Lemma adds_check : adds onCheck 0.
Proof.
  unfold onCheck. do 3 (apply adds_bind0; [auto|intros ?]). apply adds_kick_all.
Qed.

(** Tasks do not touch the pool. *)
Definition keeps_pool {A} (m : M A) : Prop :=
  forall s, s_tasks (m s).2 = s_tasks s /\ s_pool (m s).2 = s_pool s.

Lemma keeps_bind {A B} (m : M A) (k : A -> M B) :
  keeps_pool m -> (forall a, keeps_pool (k a)) -> keeps_pool (bind m k).
Proof.
  intros Hm Hk s. unfold bind. destruct (Hm s) as [E1 E2]. destruct (m s) as [[a|] s1]; [|done].
  destruct (Hk a s1) as [E3 E4]. by rewrite E3, E4.
Qed.

Lemma keeps_on_msg {A} (m : message.M A) : keeps_pool (on_msg m).
Proof. intros s. unfold on_msg. by destruct (m (s_msg s)). Qed.
Lemma keeps_on_auth {A} (f : _ -> option A * _) : keeps_pool (on_auth f).
Proof. intros s. unfold on_auth. by destruct (f (s_auth s)). Qed.
Lemma keeps_on_routing {A} (f : _ -> A * _) : keeps_pool (on_routing f).
Proof. intros s. unfold on_routing. by destruct (f _). Qed.
Lemma keeps_on_heartbeat f : keeps_pool (on_heartbeat f).
Proof. intros s. unfold on_heartbeat. by destruct (f (s_heartbeat s)). Qed.
Lemma keeps_send conn cmd r payload fl cs ss ec : keeps_pool (sendPacket conn cmd r payload fl cs ss ec).
Proof. unfold sendPacket. destruct payload; [apply keeps_on_msg|done]. Qed.
#[local] Hint Resolve keeps_on_msg keeps_on_auth keeps_on_routing keeps_on_heartbeat keeps_send : core.

Lemma keeps_run_task t : keeps_pool (run_task t).
Proof.
  destruct t; simpl; unfold run_login, run_p2p, run_p2p_local, run_ack, run_pull, on_svc, now;
    repeat match goal with
    | |- keeps_pool (bind _ _) => apply keeps_bind; [|intros ?]
    | |- keeps_pool (match ?x with _ => _ end) => destruct x
    | |- _ => progress cbv beta zeta
    | |- _ => solve [auto | done]
    end.
Qed.

(** A worker's step keeps the pending tasks, but for the one it finishes. *)
Lemma worker_pending j p p' w :
  pool.m_workers p !! j = Some w -> pool.worker_step j p = Some p' ->
  pending_ids p ≡ₚ pool.run_of w ++ pending_ids p'
  /\ next_id p' = next_id p /\ pool.m_runningFlag p' = pool.m_runningFlag p.
Proof.
  intros Hj E. unfold pool.worker_step in E. rewrite Hj in E. unfold pending_ids, pool.running.
  pose proof (fun w' => pool.bind_insert pool.run_of _ _ w' _ Hj) as Hr.
  destruct w as [| | |t|]; simplify_eq/=.
  - specialize (Hr (if pool.m_runningFlag p then pool.WTake else pool.WEmpty)). split; [|done].
    destruct (pool.m_runningFlag p); simpl in Hr; by rewrite Hr.
  - specialize (Hr (if pool.queue_empty (pool.m_taskQueue p) then pool.WExit else pool.WTake)). split; [|done].
    destruct (pool.queue_empty _); simpl in Hr; by rewrite Hr.
  - destruct (pool.m_taskQueue p) as [|t ts] eqn:Q; simplify_eq/=.
    + specialize (Hr pool.WFlag). simpl in Hr. rewrite Q. split; [|done]. by rewrite Hr.
    + specialize (Hr (pool.WRun t)). simpl in Hr. split; [|done]. rewrite Hr.
      destruct t as [n|]; simpl; [apply Permutation_middle|done].
  - specialize (Hr pool.WFlag). simpl in Hr. split; [|done]. rewrite <- Hr.
    by rewrite Permutation_app_swap_app.
Qed.

Lemma owed_le x cmd r : (owed x cmd r <= 1)%nat.
Proof. unfold owed. case_bool_decide; lia. Qed.

Lemma owed_by_le t : (owed_by t <= 1)%nat.
Proof. unfold owed_by. destruct (task_answer t) as [[[x cmd] r]|]; [apply owed_le|lia]. Qed.

Definition weigh (ts : gmap nat Task) (id : nat) : nat :=
  match ts !! id with Some t => owed_by t | None => 0 end.

(** The step of worker [j] on the pool. *)
Lemma worker_update j s :
  pool_wf s ->
  let s' := with_pool (default (s_pool s) (pool.worker_step j (s_pool s))) (s_tasks s) s in
  pool_wf s' /\ responses s' = responses s
  /\ pending s = (match pool.m_workers (s_pool s) !! j with
                  | Some (pool.WRun (pool.Task n)) => weigh (s_tasks s) n
                  | _ => 0
                  end + pending s')%nat.
Proof.
  intros [Hf Hw] s'. destruct (pool.worker_step j (s_pool s)) as [p'|] eqn:E.
  2:{ split; [done|]. split; [done|]. unfold pending at 2. simpl.
      unfold pool.worker_step in E. destruct (pool.m_workers (s_pool s) !! j) as [[| | |t|]|] eqn:Hj; try done. }
  destruct (pool.m_workers (s_pool s) !! j) as [w|] eqn:Hj.
  2:{ unfold pool.worker_step in E. by rewrite Hj in E. }
  destruct (worker_pending j _ _ w Hj E) as (Hp & Hn & Hr). unfold s'. simpl.
  split; [split; [simpl; congruence|]|split; [done|]].
  - simpl. rewrite Hn. rewrite Hp in Hw. by apply Forall_app in Hw as [_ Hw].
  - unfold pending. simpl. rewrite Hp, sum_list_with_app.
    destruct w as [| | |[n|]|]; simpl; unfold weigh; lia.
Qed.

(** The task whose body worker [j] is about to end. *)
Definition worker_task (j : nat) (s : Server) : option Task :=
  match pool.m_workers (s_pool s) !! j with
  | Some (pool.WRun (pool.Task n)) => s_tasks s !! n
  | _ => None
  end.

Lemma worker_step_eq j s :
  server_step s (InWorker j)
  = (let s1 := match worker_task j s with Some t => (run_task t s).2 | None => s end in
     with_pool (default (s_pool s1) (pool.worker_step j (s_pool s1))) (s_tasks s1) s1)
  /\ fault s (InWorker j)
     = match worker_task j s with
       | Some t => match (run_task t s).1 with Some _ => 0%nat | None => 1%nat end
       | None => 0%nat
       end.
Proof.
  unfold server_step, handle, onWorker, fault, worker_task, bind, get, update, ret.
  destruct (pool.m_workers (s_pool s) !! j) as [[| | |[n|]|]|]; try done.
  by destruct (s_tasks s !! n).
Qed.

Lemma worker_balance j s :
  pool_wf s ->
  let s' := server_step s (InWorker j) in
  pool_wf s' /\ (responses s' + pending s' <= responses s + pending s
                   <= responses s' + pending s' + fault s (InWorker j))%nat.
Proof.
  intros Hw. destruct (worker_step_eq j s) as [-> ->]. cbv zeta.
  destruct (worker_task j s) as [t|] eqn:Ht.
  - destruct (adds_run_task t s Hw) as [Hw1 Hn]. destruct (keeps_run_task t s) as [K1 K2].
    pose proof (owed_by_le t) as Hle. destruct (run_task t s) as [r s1]. simpl in *.
    destruct (worker_update j s1 Hw1) as (W1 & W2 & W3). rewrite K2 in W3 at 1.
    unfold worker_task in Ht. destruct (pool.m_workers (s_pool s) !! j) as [[| | |[n|]|]|]; try done.
    rewrite <- K1 in Ht. unfold weigh in W3. rewrite Ht in W3. split; [exact W1|]. destruct r; lia.
  - destruct (worker_update j s Hw) as (W1 & W2 & W3). split; [exact W1|]. unfold worker_task, weigh in *.
    destruct (pool.m_workers (s_pool s) !! j) as [[| | |[n|]|]|]; try rewrite Ht in W3; lia.
Qed.

Lemma adds_balance {A} (m : M A) n s :
  adds m n -> (n <= 1)%nat -> pool_wf s ->
  pool_wf (m s).2 /\ (responses (m s).2 + pending (m s).2 <= responses s + pending s + n
    <= responses (m s).2 + pending (m s).2 + match (m s).1 with Some _ => 0 | None => 1 end)%nat.
Proof. intros Hm Hn Hw. destruct (Hm s Hw) as [Hw' Hr]. split; [done|]. destruct (m s).1; lia. Qed.

Lemma is_request_le i : (is_request i <= 1)%nat.
Proof. destruct i; simpl; try lia. case_bool_decide; lia. Qed.

Lemma adds_handle i : (forall j, i <> InWorker j) -> adds (handle i) (is_request i).
Proof.
  intros Hi. destruct i as [conn packet|conn ip|conn|conn n|conn n| | |j].
  - apply adds_onPacket.
  - apply adds_up.
  - apply adds_down.
  - change (is_request _) with 0%nat. simpl handle. unfold onHighWaterMark, buffer_gauge. adds.
  - change (is_request _) with 0%nat. simpl handle. unfold onWriteComplete, buffer_gauge. adds.
  - apply adds_check.
  - apply adds_on_msg, notifies_retry.
  - by destruct (Hi j).
Qed.

Lemma step_balance i s :
  pool_wf s ->
  pool_wf (server_step s i)
  /\ (responses (server_step s i) + pending (server_step s i) <= responses s + pending s + is_request i
        <= responses (server_step s i) + pending (server_step s i) + fault s i)%nat.
Proof.
  intros Hw. assert (Hd : (exists j, i = InWorker j) \/ forall j, i <> InWorker j)
    by (destruct i; [right; by intros ? ?..|left; by eexists]).
  destruct Hd as [[j ->]|Hi].
  - destruct (worker_balance j s Hw) as [W1 W2]. split; [exact W1|].
    change (is_request (InWorker j)) with 0%nat. lia.
  - assert (Ef : fault s i = match (handle i s).1 with Some _ => 0%nat | None => 1%nat end)
      by (destruct i; try reflexivity; by destruct (Hi j)).
    rewrite Ef. unfold server_step. apply adds_balance; [by apply adds_handle|apply is_request_le|done].
Qed.

Lemma run_balance ins s :
  pool_wf s ->
  (responses (fold_left server_step ins s) + pending (fold_left server_step ins s)
     <= responses s + pending s + sum_list_with is_request ins
     <= responses (fold_left server_step ins s) + pending (fold_left server_step ins s) + faults s ins)%nat.
Proof.
  revert s. induction ins as [|i ins IH]; intros s Hw; cbn [fold_left sum_list_with faults]; [lia|].
  destruct (step_balance i s Hw) as [Hw' B]. specialize (IH _ Hw'). lia.
Qed.

(** Every request is answered once: over any run of the server, with any
    interleaving of connections, timers and worker threads, the answers with a
    request's number and command sent on its connection, together with the
    queued tasks that owe one, are never more than the requests received, and
    fall short of them by at most the number of exceptions thrown. *)
Lemma requests_answered_once ins s :
  pool_wf s -> message.outs (s_msg s) = [] -> pending_ids (s_pool s) = [] ->
  (responses (fold_left server_step ins s) + pending (fold_left server_step ins s)
     <= sum_list_with is_request ins
     <= responses (fold_left server_step ins s) + pending (fold_left server_step ins s) + faults s ins)%nat.
Proof.
  intros Hw Ho Hp. pose proof (run_balance ins s Hw) as B.
  assert (responses s = 0%nat) as R0 by (unfold responses; by rewrite Ho).
  assert (pending s = 0%nat) as P0 by (unfold pending; by rewrite Hp).
  rewrite R0, P0 in B. exact B.
Qed.
End Counting.

(** ** Nobody acts for a user without the user's token *)
Section Impersonation.
Context `{!MessageSenders St}.
Variable u : string.

(** The task acts in the name of [u]. *)
Definition acts_for (t : Task) : Prop :=
  match t with
  | LoginTask _ _ req => lreq_userId req = u /\ auth.validateToken u (lreq_token req) = true
  | P2PTask _ _ _ x | AckTask _ _ _ x | PullTask _ _ _ x | BroadcastTask _ x => x = u
  | LogoutTask _ => False
  end.

(** The input is a login packet with the token of [u]. *)
Definition presents_token (i : input) : Prop :=
  match i with
  | InPacket conn packet =>
    command (codec.header packet) = CmdLoginReq
    /\ exists req, decoded pb_LoginReq Deserialize_LoginReq (str (codec.payload packet)) (mkLoginReq "" "" "")
                     = Some (true, req)
         /\ lreq_userId req = u /\ auth.validateToken u (lreq_token req) = true
  | _ => False
  end.

Definition msg_without (w : message.World) : Prop :=
  forall st, message.m_messageStore (message.svc w) = Some st -> ~ sender st u.

(** No task, no session and no stored message of [u]. *)
Record without (s : Server) : Prop := {
  wo_tasks : forall id t, s_tasks s !! id = Some t -> ~ acts_for t;
  wo_heap : forall p x, auth.heap (auth.auth (s_auth s)) !! p = Some x -> auth.u_userId x <> u;
  wo_msg : msg_without (s_msg s);
}.

(** *** The message service *)
Definition msg_keeps {A} (m : message.M (St := St) A) : Prop := forall w, msg_without w -> msg_without (m w).2.

Lemma msg_keeps_bind {A B} (m : message.M (St := St) A) (k : A -> message.M (St := St) B) :
  msg_keeps m -> (forall a, msg_keeps (k a)) -> msg_keeps (message.bind m k).
Proof.
  intros Hm Hk w Hw. unfold message.bind. specialize (Hm w Hw).
  destruct (m w) as [[a|] w1]; [by apply Hk|done].
Qed.

Lemma msg_keeps_get {A} (k : message.MessageService -> message.M (St := St) A) :
  (forall s0, (forall st, message.m_messageStore s0 = Some st -> ~ sender st u) -> msg_keeps (k s0)) ->
  msg_keeps (message.bind message.get_svc k).
Proof. intros Hk w Hw. unfold message.bind, message.get_svc. by apply Hk. Qed.

Lemma msg_keeps_store {A} st (op : St -> A * St) :
  ~ sender st u -> (~ sender st u -> ~ sender (op st).2 u) -> msg_keeps (message.on_store st op).
Proof.
  intros Hst Hop w Hw. unfold message.on_store. destruct (op st) as [a st'] eqn:E. simpl.
  intros st0 [= <-]. by apply Hop.
Qed.

Lemma msg_keeps_same {A} (m : message.M (St := St) A) :
  (forall w, message.svc (m w).2 = message.svc w) -> msg_keeps m.
Proof. intros E w Hw. unfold msg_without. by rewrite E. Qed.

Lemma msg_keeps_online c : msg_keeps (message.online env c).
Proof. apply msg_keeps_same. by destruct c. Qed.
Lemma msg_keeps_encode {A} e ser (x : A) : msg_keeps (message.encode_with e ser x).
Proof. apply msg_keeps_same. intros w. unfold message.encode_with. by destruct (default ser e x). Qed.
Lemma msg_keeps_pack c h d : msg_keeps (message.pack_send c h d).
Proof. apply msg_keeps_same. intros w. unfold message.pack_send. by destruct (codec.pack _ _ _). Qed.
Lemma msg_keeps_ret {A} (a : A) : msg_keeps (message.ret a).
Proof. by apply msg_keeps_same. Qed.
Lemma msg_keeps_emit o : msg_keeps (message.emit o).
Proof. by apply msg_keeps_same. Qed.
Lemma msg_keeps_now : msg_keeps (message.GetTimestampMs env).
Proof. by apply msg_keeps_same. Qed.
#[local] Hint Resolve msg_keeps_online msg_keeps_encode msg_keeps_pack msg_keeps_ret msg_keeps_emit msg_keeps_now : core.
#[local] Hint Resolve sender_mark sender_acked sender_load sender_last : core.

Ltac msg_keeps :=
  repeat match goal with
  | |- msg_keeps (message.bind message.get_svc _) => apply msg_keeps_get; intros ? ?
  | |- msg_keeps (message.bind _ _) => apply msg_keeps_bind; [|intros ?]
  | |- msg_keeps (message.on_store _ _) => apply msg_keeps_store; [by auto|eauto]
  | |- msg_keeps (match ?x with _ => _ end) => destruct x eqn:?
  | |- _ => progress cbv beta zeta
  | |- _ => solve [auto]
  end.

Lemma msg_keeps_deliver c m : msg_keeps (message.deliverLocked env c m).
Proof. unfold message.deliverLocked. msg_keeps. Qed.
#[local] Hint Resolve msg_keeps_deliver : core.

Lemma msg_keeps_send f t c d x y :
  f <> u -> msg_keeps (message.sendReliableP2PMessage env f t c d x y).
Proof.
  intros Hf. unfold message.sendReliableP2PMessage. apply msg_keeps_get. intros s0 Hs0.
  destruct (message.m_messageStore s0) as [st|] eqn:Est; [|auto].
  apply msg_keeps_bind; [auto|]. intros now0. apply msg_keeps_bind; [|intros r; msg_keeps].
  apply msg_keeps_store; [auto|]. intros Hn [Hs|Hs]%sender_save; [done|]. simpl in Hs. congruence.
Qed.

Lemma msg_keeps_ack x i q c : msg_keeps (message.processAck env x i q c).
Proof. unfold message.processAck. msg_keeps. Qed.

Lemma msg_keeps_pull x l n : msg_keeps (message.pullOfflineMessages x l n).
Proof. unfold message.pullOfflineMessages. msg_keeps. Qed.

Lemma msg_keeps_retry_all c n ms : msg_keeps (message.retry_all env c n ms).
Proof.
  induction ms as [|m ms IH]; simpl; [auto|]. apply msg_keeps_bind; [|intros _; exact IH].
  unfold message.retry_message. msg_keeps.
Qed.
#[local] Hint Resolve msg_keeps_retry_all : core.

Lemma msg_keeps_pending x : msg_keeps (message.deliverPendingMessages env x).
Proof. unfold message.deliverPendingMessages. msg_keeps. Qed.

Lemma msg_keeps_broadcast x c : msg_keeps (message.broadcastMessage env x c).
Proof.
  unfold message.broadcastMessage. msg_keeps.
  induction (map_to_list _) as [|[? conn] l IH]; simpl; [auto|]. msg_keeps.
Qed.

Lemma msg_keeps_retry : msg_keeps (message.retry_round env).
Proof.
  unfold message.retry_round. apply msg_keeps_get. intros s _. apply msg_keeps_bind.
  - induction (map_to_list (message.m_userToConn s)) as [|[x c] l IH]; simpl; [auto|]. msg_keeps.
  - intros us. induction us as [|x us IH]; simpl; [auto|].
    apply msg_keeps_bind; [apply msg_keeps_pending|]. intros _. exact IH.
Qed.

(** *** The server *)
Definition keeps {A} (m : M A) : Prop := forall s, without s -> without (m s).2.

Lemma keeps_seq {A B} (m : M A) (k : A -> M B) : keeps m -> (forall a, keeps (k a)) -> keeps (bind m k).
Proof.
  intros Hm Hk s Hs. unfold bind. specialize (Hm s Hs). destruct (m s) as [[a|] s1]; [by apply Hk|done].
Qed.

Lemma keeps_get {A} (k : Server -> M A) : (forall s0, without s0 -> keeps (k s0)) -> keeps (bind get k).
Proof. intros Hk s Hs. unfold bind, get. by apply Hk. Qed.

Lemma keeps_decode {A B} pb de d (i : A) (k : bool * A -> M B) :
  (forall x, decoded pb de d i = Some x -> keeps (k x)) -> keeps (bind (decode pb de d i) k).
Proof.
  intros Hk s Hs. unfold bind, decode. destruct (decoded pb de d i) as [x|]; [by apply Hk|done].
Qed.

(** Nothing a claim about [u] depends on changes. *)
Lemma keeps_same {A} (m : M A) :
  (forall s, s_tasks (m s).2 = s_tasks s /\ auth.auth (s_auth (m s).2) = auth.auth (s_auth s)
     /\ message.m_messageStore (message.svc (s_msg (m s).2)) = message.m_messageStore (message.svc (s_msg s))) ->
  keeps m.
Proof.
  intros E s [H1' H2' H3']. destruct (E s) as (E1 & E2 & E3).
  split; [by rewrite E1|by rewrite E2|]. unfold msg_without. by rewrite E3.
Qed.

Lemma keeps_msg {A} (m : message.M A) : msg_keeps m -> keeps (on_msg m).
Proof.
  intros Hm s [H1' H2' H3']. unfold on_msg. specialize (Hm _ H3'). destruct (m (s_msg s)) as [r w]. by split.
Qed.

Lemma keeps_ret {A} (a : A) : keeps (ret a).
Proof. by apply keeps_same. Qed.
Lemma keeps_throw {A} : keeps (throw (A := A)).
Proof. by apply keeps_same. Qed.
Lemma keeps_now : keeps now.
Proof. apply keeps_msg, msg_keeps_now. Qed.
Lemma keeps_random : keeps random.
Proof. by apply keeps_same. Qed.
Lemma keeps_heartbeat f : keeps (on_heartbeat f).
Proof. apply keeps_same. intros s. unfold on_heartbeat. by destruct (f (s_heartbeat s)). Qed.
Lemma keeps_overload {A} (f : _ -> A * _) : keeps (on_overload f).
Proof. apply keeps_same. intros s. unfold on_overload. by destruct (f (s_overload s)). Qed.
Lemma keeps_routing {A} (f : _ -> A * _) : keeps (on_routing f).
Proof. apply keeps_same. intros s. unfold on_routing. by destruct (f _). Qed.
Lemma keeps_metric f : keeps (set_metric f).
Proof. by apply keeps_same. Qed.
Lemma keeps_connections_gauge : keeps connections_gauge.
Proof. by apply keeps_same. Qed.
Lemma keeps_forceClose x : keeps (forceClose x).
Proof. by apply keeps_same. Qed.
Lemma keeps_sendPacket conn cmd r payload fl cs ss ec : keeps (sendPacket conn cmd r payload fl cs ss ec).
Proof. unfold sendPacket. destruct payload; [apply keeps_msg, msg_keeps_pack|apply keeps_throw]. Qed.
Lemma keeps_register x c : keeps (on_svc (message.registerConnection x c)).
Proof. by apply keeps_same. Qed.
Lemma keeps_unregister x : keeps (on_svc (message.unregisterConnection x)).
Proof. by apply keeps_same. Qed.
#[local] Hint Resolve keeps_ret keeps_throw keeps_now keeps_random keeps_heartbeat keeps_overload keeps_routing
  keeps_metric keeps_connections_gauge keeps_forceClose keeps_sendPacket keeps_register keeps_unregister : core.

Lemma keeps_tasks p ts : (forall id t, ts !! id = Some t -> ~ acts_for t) -> keeps (update (with_pool p ts)).
Proof. intros Ht s [H1' H2' H3']. by split. Qed.

Lemma keeps_breaker f : keeps (update (fun s => with_breaker (f s) s)).
Proof. by apply keeps_same. Qed.

Lemma keeps_queue_gauge : keeps queue_gauge.
Proof. by apply keeps_same. Qed.
#[local] Hint Resolve keeps_queue_gauge : core.

Lemma keeps_submit name t : ~ acts_for t -> keeps (submitBusinessTask name t).
Proof.
  intros Ht. unfold submitBusinessTask. apply keeps_seq; [auto|]. intros t0.
  apply keeps_get. intros s0 _. destruct (infra.allowRequest t0 (s_breaker s0)) as [ok b].
  apply keeps_seq; [apply (keeps_breaker (fun _ => b))|]. intros _. case_if; [auto|].
  apply keeps_get. intros s1 Hs1. cbv zeta. destruct (pool.submit _ _) as [[queued|] p].
  - apply keeps_seq; [apply keeps_tasks|].
    + intros id t1. destruct queued; [|apply Hs1].
      intros [[_ <-]|[_ Hid]]%lookup_insert_Some; [done|]. by eapply wo_tasks.
    + intros _. apply keeps_seq; [auto|]. intros _. apply keeps_seq; [|auto].
      apply (keeps_breaker (fun s => infra.recordSuccess (s_breaker s))).
  - apply keeps_seq; [apply keeps_tasks, Hs1|]. intros _.
    apply keeps_seq; [auto|]. intros _. apply keeps_seq; [auto|]. intros _. apply keeps_seq; [auto|]. intros t1.
    apply keeps_seq; [|auto]. apply (keeps_breaker (fun s => infra.recordFailure t1 (s_breaker s))).
Qed.

(** The authentication service learns [u] from a valid token of [u] only. *)
Lemma keeps_auth {A} (f : auth.World -> option A * auth.World) :
  (forall w, (forall p x, auth.heap (auth.auth w) !! p = Some x -> auth.u_userId x <> u) ->
     forall p x, auth.heap (auth.auth (f w).2) !! p = Some x -> auth.u_userId x <> u) ->
  keeps (on_auth f).
Proof.
  intros Hf s [H1' H2' H3']. unfold on_auth. specialize (Hf _ H2'). destruct (f (s_auth s)) as [r w]. by split.
Qed.

Lemma rebound_users a a' :
  auth.rebound a a' -> (forall p x, auth.heap a !! p = Some x -> auth.u_userId x <> u) ->
  forall p x, auth.heap a' !! p = Some x -> auth.u_userId x <> u.
Proof.
  intros [->|(p0 & node & ->)] Ha; [done|]. intros p x. simpl. rewrite lookup_alter.
  case_decide; [|apply Ha]. intros (y & Hy & ->)%fmap_Some. subst. simpl. by eapply Ha.
Qed.

Lemma keeps_login conn x tok d r t1 t2 :
  ~ (x = u /\ auth.validateToken u tok = true) -> keeps (on_auth (auth.login conn x tok d r t1 t2)).
Proof.
  intros Hn. apply keeps_auth. intros w Hw. destruct (auth.validateToken x tok) eqn:Hv.
  - eapply rebound_users; [by apply auth.login_auth|]. simpl.
    intros p y [[_ <-]|[_ Hy]]%lookup_insert_Some; [|by eapply Hw]. simpl. intros ->. by apply Hn.
  - unfold auth.login. by rewrite Hv.
Qed.

Lemma keeps_bindSession sid node : keeps (on_auth (auth.bindSessionToNode sid node)).
Proof. apply keeps_auth. intros w Hw. eapply rebound_users; [apply auth.bind_rebound|done]. Qed.

Lemma keeps_logout conn : keeps (on_auth (fun w => (Some (), auth.logout conn w))).
Proof.
  apply keeps_auth. intros w Hw. simpl. rewrite auth.logout_auth.
  by destruct (auth.m_connToUser (auth.auth w) !! _).
Qed.

Ltac keeps :=
  repeat match goal with
  | |- keeps (bind get _) => apply keeps_get; intros ? ?
  | |- keeps (bind _ _) => apply keeps_seq; [|intros ?]
  | |- keeps (match ?x with _ => _ end) => destruct x
  | |- _ => progress cbv beta zeta
  | |- _ => solve [auto]
  end.

Lemma keeps_task t : ~ acts_for t -> keeps (run_task t).
Proof.
  assert (Hlocal : forall conn r req x, x <> u -> keeps (run_p2p_local conn r req x)).
  { intros. unfold run_p2p_local. apply keeps_seq; [by apply keeps_msg, msg_keeps_send|]. intros ?. keeps. }
  intros Ht. destruct t as [conn r req|conn r req x|conn r req x|conn r req x|req x|conn]; simpl in *.
  - unfold run_login. do 3 (apply keeps_seq; [auto|intros ?]).
    apply keeps_seq; [apply keeps_login; intros [? Hv]; by apply Ht|].
    intros [[success sid] e]. apply keeps_seq; [auto|]. intros _. destruct success; [|auto].
    apply keeps_seq; [apply keeps_bindSession|]. intros _. apply keeps_seq; [auto|]. intros _.
    apply keeps_seq; [apply keeps_msg, msg_keeps_pending|]. intros _. keeps.
  - unfold run_p2p. apply keeps_seq; [destruct (clusterEnabled cfg); auto|].
    intros [node|]; [|auto]. case_if; auto.
  - unfold run_ack. apply keeps_seq; [apply keeps_msg, msg_keeps_ack|]. intros ?. keeps.
  - unfold run_pull. apply keeps_get. intros s0 _.
    apply keeps_seq; [apply keeps_msg, msg_keeps_pull|]. intros ?. keeps.
  - apply keeps_msg, msg_keeps_broadcast.
  - apply keeps_logout.
Qed.

(** The context of a connection is a session of the heap. *)
Lemma context_other s conn x : without s -> auth.getUserContext conn (s_auth s) = Some x -> auth.u_userId x <> u.
Proof.
  intros Hs E. unfold auth.getUserContext in E.
  destruct (auth.m_connToUser _ !! _) as [p|]; [|done]. by eapply wo_heap.
Qed.

Lemma keeps_packet conn packet : ~ presents_token (InPacket conn packet) -> keeps (onPacket conn packet).
Proof.
  intros Hn. unfold onPacket. cbv zeta. apply keeps_seq.
  { destruct (_ || _); keeps. }
  intros ok. destruct (negb ok); [unfold rate_limited; keeps|].
  case_if; [b2p|case_if; [|case_if; [|case_if; [|case_if; [|case_if; [|case_if; [|auto]]]]]]].
  - unfold handle_login, decodeLoginReq. apply keeps_decode. intros [parsed req] Hd.
    destruct parsed; simpl; [|auto]. apply keeps_seq; [auto|]. intros _.
    apply keeps_seq; [|intros []; auto]. apply keeps_submit. simpl. intros [Hu Hv].
    apply Hn. simpl. split; [done|]. by exists req.
  - unfold handle_heartbeat. keeps.
  - unfold handle_p2p, decodeP2PReq. apply keeps_decode. intros [parsed req] _. apply keeps_get. intros s0 Hs0.
    apply keeps_seq; [auto|]. intros _. destruct (negb parsed); [auto|].
    destruct (auth.getUserContext conn (s_auth s0)) as [x|] eqn:Ex; [|auto].
    do 3 (apply keeps_seq; [auto|intros ?]). case_if; [auto|].
    apply keeps_seq; [|intros []; auto]. apply keeps_submit. simpl. by eapply context_other.
  - unfold handle_ack, decodeAckReq. apply keeps_decode. intros [parsed req] _. apply keeps_get. intros s0 Hs0.
    destruct (negb parsed); [auto|]. destruct (auth.getUserContext conn (s_auth s0)) as [x|] eqn:Ex; [|auto].
    apply keeps_seq; [|intros []; auto]. apply keeps_submit. simpl. by eapply context_other.
  - unfold handle_pull, decodePullReq. apply keeps_decode. intros [parsed req] _. apply keeps_get. intros s0 Hs0.
    destruct (negb parsed); [auto|]. destruct (auth.getUserContext conn (s_auth s0)) as [x|] eqn:Ex; [|auto].
    apply keeps_seq; [|intros []; auto]. apply keeps_submit. simpl. by eapply context_other.
  - unfold handle_broadcast, decodeBroadcastReq. apply keeps_decode. intros [parsed req] _.
    apply keeps_get. intros s0 Hs0. destruct (auth.getUserContext conn (s_auth s0)) as [x|] eqn:Ex; [|auto].
    destruct (negb parsed); [auto|].
    apply keeps_seq; [|auto]. apply keeps_submit. simpl. by eapply context_other.
  - unfold handle_kick, decodeKickReq. apply keeps_decode. intros [parsed req] _. keeps.
Qed.

Lemma keeps_down conn : keeps (onConnectionDown conn).
Proof.
  unfold onConnectionDown. do 5 (apply keeps_seq; [auto|intros ?]). apply keeps_get. intros s0 _.
  apply keeps_seq; [keeps|]. intros _. apply keeps_seq; [|auto]. apply keeps_submit. by intros [].
Qed.

Lemma keeps_kick_all es : keeps (kick_all es).
Proof. induction es as [|e es IH]; simpl; [auto|]. destruct e; try done. apply keeps_seq; auto. Qed.

Lemma keeps_worker j s : without s -> without (server_step s (InWorker j)).
Proof.
  intros Hs. destruct (worker_step_eq j s) as [-> _]. cbv zeta.
  assert (Hs1 : without (match worker_task j s with Some t => (run_task t s).2 | None => s end)).
  { destruct (worker_task j s) as [t|] eqn:Ht; [|done]. apply keeps_task; [|done].
    unfold worker_task in Ht. destruct (pool.m_workers _ !! j) as [[| | |[n|]|]|]; try done.
    by eapply wo_tasks. }
  destruct Hs1 as [W1 W2 W3]. by split.
Qed.

Lemma step_without i s : ~ presents_token i -> without s -> without (server_step s i).
Proof.
  intros Hi Hs. destruct i as [conn packet|conn ip|conn|conn n|conn n| | |j].
  - by apply keeps_packet.
  - revert Hs. apply (fun H => H : keeps (onConnectionUp conn ip)). unfold onConnectionUp. keeps.
  - by apply keeps_down.
  - unfold server_step, handle, onHighWaterMark, buffer_gauge. revert s Hs. change (keeps (onHighWaterMark conn n)).
    unfold onHighWaterMark, buffer_gauge. keeps.
  - revert s Hs. change (keeps (onWriteComplete conn n)). unfold onWriteComplete, buffer_gauge. keeps.
  - revert s Hs. change (keeps onCheck). unfold onCheck. apply keeps_seq; [auto|]. intros t.
    apply keeps_get. intros s0 _. apply keeps_seq; [auto|]. intros _. apply keeps_kick_all.
  - by apply keeps_msg; [apply msg_keeps_retry|].
  - by apply keeps_worker.
Qed.

Lemma run_without ins s :
  without s -> Forall (fun i => ~ presents_token i) ins -> without (fold_left server_step ins s).
Proof.
  intros Hs Hi. revert s Hs. induction Hi as [|i ins Hi Hins IH]; intros s Hs; simpl; [done|].
  apply IH. by apply step_without.
Qed.

(** C4: No impersonation: in any run in which nobody logs in with the token of
    a user, no task ever acts for that user, no connection is authenticated as
    that user and no message is stored in that user's name, whatever sender
    the requests claim. *)
Theorem no_impersonation ins s :
  without s -> Forall (fun i => ~ presents_token i) ins ->
  let s' := fold_left server_step ins s in
  (forall id t, s_tasks s' !! id = Some t -> ~ acts_for t)
  /\ (forall conn x, auth.getUserContext conn (s_auth s') = Some x -> auth.u_userId x <> u)
  /\ (forall st, message.m_messageStore (message.svc (s_msg s')) = Some st -> ~ sender st u).
Proof.
  intros Hs Hi. pose proof (run_without ins s Hs Hi) as W.
  cbv zeta. split; [apply W|split; [|apply W]]. intros conn x. by apply context_other.
Qed.
End Impersonation.

(** ** Connections that go away *)

(** The parts the theorems of this section observe. *)
Definition core (s : Server) := (s_overload s, auth.auth (s_auth s), message.svc (s_msg s)).

(** [m] returns and leaves them alone. *)
Definition inert {A} (m : M A) : Prop := forall s, exists a s', m s = (Some a, s') /\ core s' = core s.

Lemma inert_bind {A B} (m : M A) (k : A -> M B) s :
  inert m -> exists a s', bind m k s = k a s' /\ core s' = core s.
Proof. intros Hm. destruct (Hm s) as (a & s' & E & Hc). exists a, s'. unfold bind. by rewrite E. Qed.

Lemma inert_seq {A B} (m : M A) (k : A -> M B) : inert m -> (forall a, inert (k a)) -> inert (bind m k).
Proof.
  intros Hm Hk s. destruct (inert_bind m k s Hm) as (a & s1 & -> & Hc).
  destruct (Hk a s1) as (b & s2 & -> & Hc2). exists b, s2. split; [done|congruence].
Qed.

Lemma inert_now : inert now.
Proof. intros s. by eexists _, _. Qed.
Lemma inert_ret {A} (a : A) : inert (ret a).
Proof. intros s. by eexists _, _. Qed.
Lemma inert_get : inert get.
Proof. intros s. by eexists _, _. Qed.
Lemma inert_connections_gauge : inert connections_gauge.
Proof. intros s. by eexists _, _. Qed.
Lemma inert_heartbeat f : inert (on_heartbeat f).
Proof. intros s. unfold on_heartbeat. destruct (f (s_heartbeat s)). by eexists _, _. Qed.
Lemma inert_routing {A} (f : _ -> A * _) : inert (on_routing f).
Proof. intros s. unfold on_routing. destruct (f _). by eexists _, _. Qed.
Lemma inert_pool p ts : inert (update (with_pool p ts)).
Proof. intros s. by eexists _, _. Qed.
Lemma inert_breaker f : inert (update (fun s => with_breaker (f s) s)).
Proof. intros s. by eexists _, _. Qed.
Lemma inert_queue_gauge : inert queue_gauge.
Proof. intros s. by eexists _, _. Qed.
#[local] Hint Resolve inert_now inert_ret inert_get inert_connections_gauge inert_heartbeat inert_routing
  inert_pool inert_queue_gauge : core.

Lemma inert_submit name t : inert (submitBusinessTask name t).
Proof.
  unfold submitBusinessTask. apply inert_seq; [auto|]. intros t0. apply inert_seq; [auto|]. intros s0.
  destruct (infra.allowRequest t0 (s_breaker s0)) as [ok b].
  apply inert_seq; [apply (inert_breaker (fun _ => b))|]. intros _.
  case_if; [auto|]. apply inert_seq; [auto|]. intros s1. cbv zeta.
  destruct (pool.submit _ _) as [[queued|] p].
  - do 2 (apply inert_seq; [auto|intros _]). apply inert_seq; [|auto].
    apply (inert_breaker (fun s => infra.recordSuccess (s_breaker s))).
  - do 3 (apply inert_seq; [auto|intros _]). apply inert_seq; [auto|]. intros t1. apply inert_seq; [|auto].
    apply (inert_breaker (fun s => infra.recordFailure t1 (s_breaker s))).
Qed.

(** A disconnect counts the connection out and unregisters its user. *)
Lemma down_core conn s :
  core (onConnectionDown conn s).2
  = (overload.onConnectionClosed (s_overload s), auth.auth (s_auth s),
     match auth.getUserContext conn (s_auth s) with
     | Some x => message.unregisterConnection (auth.u_userId x) (message.svc (s_msg s))
     | None => message.svc (s_msg s)
     end).
Proof.
  unfold onConnectionDown. unfold bind at 1, on_overload at 1. set (s0 := with_overload _ s).
  match goal with |- context [bind _ ?k s0] => destruct (inert_bind connections_gauge k s0) as (x1 & s1 & -> & C1); [auto|] end.
  match goal with |- context [bind _ ?k s1] => destruct (inert_bind now k s1) as (t1 & s2 & -> & C2); [auto|] end.
  match goal with |- context [bind _ ?k s2] => destruct (inert_bind now k s2) as (t2 & s3 & -> & C3); [auto|] end.
  match goal with |- context [bind (on_heartbeat ?f) ?k s3] => destruct (inert_bind (on_heartbeat f) k s3) as (x4 & s4 & -> & C4); [auto|] end.
  unfold bind at 1, get at 1.
  assert (C : core s4 = core s0) by congruence. clear C1 C2 C3 C4.
  assert (Ex : auth.getUserContext conn (s_auth s4) = auth.getUserContext conn (s_auth s)).
  { unfold auth.getUserContext. injection C as _ -> _. done. }
  assert (T : forall sx, core (bind (submitBusinessTask "logout" (LogoutTask conn)) (fun _ => ret ()) sx).2 = core sx).
  { intros sx. destruct (inert_seq (submitBusinessTask "logout" (LogoutTask conn)) (fun _ => ret ())
      (inert_submit _ _) (fun _ => inert_ret _) sx) as (y & sy & -> & Hy). done. }
  rewrite Ex. injection C as Co Ca Cm.
  match goal with |- core (bind ?blk ?k s4).2 = ?rhs =>
    assert (B : exists y s6, blk s4 = (Some y, s6) /\ core s6 = rhs);
    [|destruct B as (y & s6 & E & <-); unfold bind at 1; rewrite E; apply T] end.
  destruct (auth.getUserContext conn (s_auth s)) as [x|].
  - unfold bind at 1, on_svc at 1, on_msg at 1. simpl. set (s5 := with_msg _ s4).
    assert (C5 : core s5 = (overload.onConnectionClosed (s_overload s), auth.auth (s_auth s),
      message.unregisterConnection (auth.u_userId x) (message.svc (s_msg s)))).
    { unfold s5, core. simpl. by rewrite Co, Ca, Cm. }
    rewrite <- C5. destruct (clusterEnabled cfg); [|by eexists _, _].
    apply (inert_seq (on_routing (auth.unbindUserRoute (auth.u_userId x)))); auto.
  - eexists _, _. split; [reflexivity|]. unfold core. by rewrite Co, Ca, Cm.
Qed.

Lemma down_overload conn s :
  s_overload (onConnectionDown conn s).2 = overload.onConnectionClosed (s_overload s).
Proof. exact (f_equal (fun x => x.1.1) (down_core conn s)). Qed.

Lemma accept_keeps_count ip t1 t2 o :
  overload.m_currentConnections (overload.canAcceptConnectionFrom ip t1 t2 o).2 = overload.m_currentConnections o.
Proof.
  unfold overload.canAcceptConnectionFrom, overload.allow_in_pool. repeat case_match; by simplify_eq/=.
Qed.

Lemma up_count conn ip s :
  exists ok : bool,
    s_forced (onConnectionUp conn ip s).2 = s_forced s ++ (if ok then [] else [conn_obj conn])
    /\ overload.m_currentConnections (s_overload (onConnectionUp conn ip s).2)
       = (if ok then u64 (overload.m_currentConnections (s_overload s) + 1)
          else overload.m_currentConnections (s_overload s)).
Proof.
  unfold onConnectionUp, bind, now, on_msg, message.GetTimestampMs, on_overload. simpl.
  pose proof (accept_keeps_count ip (message.now_at env (message.tick (s_msg s)))
    (message.now_at env (S (message.tick (s_msg s)))) (s_overload s)) as Hc.
  destruct (overload.canAcceptConnectionFrom _ _ _ _) as [ok o]. simpl in Hc.
  exists ok. destruct ok; simpl.
  - split; [by rewrite app_nil_r|]. unfold overload.onConnectionAccepted. simpl. by rewrite Hc.
  - by rewrite Hc.
Qed.

(** A refused connection frees a slot that it never took: when a
    connection comes up and goes down, an accepted one leaves the number of
    connections as it was, but one that was closed for overload leaves it one
    lower (wrapping to the largest number from zero). *)
Lemma refused_connection_frees_slot conn ip s :
  0 <= overload.m_currentConnections (s_overload s) < 2 ^ 64 - 1 ->
  let s1 := (onConnectionUp conn ip s).2 in
  let s2 := (onConnectionDown conn s1).2 in
  overload.m_currentConnections (s_overload s2)
  = if bool_decide (s_forced s1 = s_forced s)
    then overload.m_currentConnections (s_overload s)
    else u64 (overload.m_currentConnections (s_overload s) - 1).
Proof.
  intros Hc s1 s2. unfold s2. rewrite down_overload. simpl.
  destruct (up_count conn ip s) as (ok & Hf & Hn). fold s1 in Hf, Hn. rewrite Hf, Hn. destruct ok.
  - rewrite app_nil_r, bool_decide_true by done. rewrite !u64_small by (rewrite ?u64_small; lia). lia.
  - rewrite bool_decide_false; [done|]. intros E. apply (f_equal length) in E.
    rewrite length_app in E. simpl in E. lia.
Qed.

(** The end of an old connection silences the user's new one: when two
    connections are logged in as the same user and one goes down, the user is
    unregistered, so that nothing is delivered to the other connection,
    although it is still logged in. *)
Lemma stale_close_silences_user conn1 conn2 x1 x2 s :
  auth.getUserContext conn1 (s_auth s) = Some x1 -> auth.getUserContext conn2 (s_auth s) = Some x2 ->
  auth.u_userId x1 = auth.u_userId x2 ->
  let s' := (onConnectionDown conn1 s).2 in
  message.find_conn (auth.u_userId x2) (message.svc (s_msg s')) = None
  /\ auth.getUserContext conn2 (s_auth s') = Some x2.
Proof.
  intros E1 E2 Hu s'. pose proof (down_core conn1 s) as D. fold s' in D. rewrite E1 in D.
  injection D as _ Da Dm. split.
  - rewrite Dm, <- Hu. unfold message.find_conn. simpl. by rewrite lookup_delete_eq.
  - unfold auth.getUserContext in *. by rewrite Da.
Qed.
End Server.

(** ** A concrete server: JSON, the in-memory store, no Redis, no MySQL *)
#[local] Existing Instance toy_json.
#[local] Existing Instance infra.binary64.
#[local] Existing Instance auth.no_redis.
#[local] Existing Instance auth.no_sessions.

Definition ex_cfg : Settings := mkSettings Json true None false "node-1".
Definition ex_env : message.Env := message.mkEnv (fun n => 1000 + Z.of_nat n) (fun _ _ => true).

Notation MemServer := (Server (St := InMemoryMessageStore) (R := ()) (P := ())).

Definition ex_server (maxConnections : Z) : MemServer :=
  mkServer (auth.mkWorld (auth.newAuth false false) () ())
    (message.mkWorld (message.setMessageStore (Some newMem) message.newService) 0 [])
    (heartbeat.newHeartbeat 30 10) (overload.newOverload maxConnections 100 0)
    (auth.mkRouting None "single-node" 30 ∅) (infra.newBreaker true 10 5000)
    (infra.mkRegistry false ∅ ∅ ∅) (pool.start (pool.newPool 1 1 0)) ∅ [] [].

Definition ex_conn (n : nat) : Conn := heartbeat.mkConn n (Z.of_nat n + 10).

Definition ex_packet (command requestId : Z) (data : option string) : codec.DecodedPacket :=
  codec.mkDecodedPacket (packet_header command requestId 0 0 0 0) (chars (default "" data)).

Definition login_as (n : nat) (user : string) : list input :=
  [InPacket (ex_conn n) (ex_packet CmdLoginReq 7
     (Serialize_LoginReq (mkLoginReq user ("valid_token_" +:+ user) "d")));
   InWorker 0; InWorker 0; InWorker 0].

Definition ex_step : MemServer -> input -> MemServer := server_step ex_cfg ex_env (fun _ => 42).
Definition ex_run (ins : list input) (s : MemServer) : MemServer := fold_left ex_step ins s.

(** Bob logs in and sends a message that claims to be from Alice. *)
Definition ex_inputs : list input :=
  InUp (ex_conn 1) "10.0.0.1" :: login_as 1 "bob"
  ++ [InPacket (ex_conn 1) (ex_packet CmdP2pMsgReq 8 (Serialize_P2PMsgReq (mkP2PMsgReq "alice" "carol" "k" "hi")));
      InWorker 0; InWorker 0; InWorker 0].

Lemma ex_server_wf n : pool_wf (ex_server n).
Proof. split; [reflexivity|constructor]. Qed.

Lemma requests_answered_once_witness :
  responses 1%nat CmdP2pMsgReq 8 (ex_run ex_inputs (ex_server 10)) = 1%nat
  /\ (responses 1%nat CmdP2pMsgReq 8 (ex_run ex_inputs (ex_server 10))
      + pending 1%nat CmdP2pMsgReq 8 (ex_run ex_inputs (ex_server 10))
     <= sum_list_with (is_request 1%nat CmdP2pMsgReq 8) ex_inputs)%nat.
Proof.
  split; [vm_compute; reflexivity|].
  assert (Hq : is_Some (response_of CmdP2pMsgReq)) by (eexists; reflexivity).
  exact (proj1 (requests_answered_once ex_cfg ex_env (fun _ => 42) 1%nat CmdP2pMsgReq 8 Hq
    ex_inputs (ex_server 10) (ex_server_wf 10) eq_refl eq_refl)).
Defined.

Lemma ex_server_without u n : without u (ex_server n).
Proof.
  split.
  - intros id t E. cbn in E. by rewrite lookup_empty in E.
  - intros p x E. cbn in E. by rewrite lookup_empty in E.
  - intros st E (id & m & Hm & _). cbn in E. injection E as <-. cbn in Hm. by rewrite lookup_empty in Hm.
Qed.

Lemma ex_inputs_no_alice : Forall (fun i => ~ presents_token ex_cfg "alice" i) ex_inputs.
Proof.
  repeat constructor; try (intros []; done).
  intros (_ & req & Hd & Hu & _). vm_compute in Hd. injection Hd as <-. done.
Qed.

Lemma no_impersonation_witness :
  (exists st id m, message.m_messageStore (message.svc (s_msg (ex_run ex_inputs (ex_server 10)))) = Some st
     /\ m_messages st !! id = Some m /\ n_fromUserId (notify m) = "bob")
  /\ (forall st, message.m_messageStore (message.svc (s_msg (ex_run ex_inputs (ex_server 10)))) = Some st ->
        ~ sender st "alice").
Proof.
  split.
  - assert (E : exists st, message.m_messageStore (message.svc (s_msg (ex_run ex_inputs (ex_server 10)))) = Some st
      /\ (fun m => n_fromUserId (notify m)) <$> m_messages st !! 1 = Some "bob")
      by (eexists; split; vm_compute; reflexivity).
    destruct E as (st & Hst & Hm). apply fmap_Some in Hm as (m & Hm & Hf). exists st, 1, m.
    exact (conj Hst (conj Hm (eq_sym Hf))).
  - exact (proj2 (proj2 (no_impersonation ex_cfg ex_env (fun _ => 42) "alice" ex_inputs (ex_server 10)
      (ex_server_without _ _) ex_inputs_no_alice))).
Defined.

(** A server with room for one connection, which is taken. *)
Definition ex_full : MemServer := ex_run [InUp (ex_conn 1) "10.0.0.1"] (ex_server 1).

Lemma refused_connection_frees_slot_witness :
  overload.m_currentConnections (s_overload ex_full) = 1
  /\ overload.m_currentConnections (s_overload
       (onConnectionDown ex_cfg ex_env (ex_conn 2)
          (onConnectionUp ex_env (ex_conn 2) "10.0.0.2" ex_full).2).2) = 0.
Proof.
  split; [vm_compute; reflexivity|].
  rewrite (refused_connection_frees_slot ex_cfg ex_env (ex_conn 2) "10.0.0.2" ex_full) by (vm_compute; split; congruence).
  vm_compute. reflexivity.
Defined.

(** Bob logs in on two connections, and the first one goes down. *)
Definition ex_twice : MemServer := ex_run (login_as 1 "bob" ++ login_as 2 "bob") (ex_server 10).

Lemma stale_close_silences_user_witness :
  message.find_conn "bob" (message.svc (s_msg ex_twice)) = Some 2%nat
  /\ message.find_conn "bob" (message.svc (s_msg (onConnectionDown ex_cfg ex_env (ex_conn 1) ex_twice).2)) = None.
Proof.
  split; [vm_compute; reflexivity|].
  assert (E : exists x1 x2, auth.getUserContext (ex_conn 1) (s_auth ex_twice) = Some x1
    /\ auth.getUserContext (ex_conn 2) (s_auth ex_twice) = Some x2
    /\ auth.u_userId x1 = "bob" /\ auth.u_userId x2 = "bob")
    by (eexists _, _; split; [|split; [|split]]; vm_compute; reflexivity).
  destruct E as (x1 & x2 & E1 & E2 & U1 & U2). rewrite <- U2 at 1.
  apply (stale_close_silences_user ex_cfg ex_env (ex_conn 1) (ex_conn 2) x1 x2 ex_twice E1 E2). congruence.
Defined.
End server.
