(* ===== verification/Wire.v ===== *)
(** * Wire: from the bytes of a client to the bytes it gets back
      (the message callback of src/server_full.cpp, lines 1225-1229, over the
       codec and the packet callback)

    A client packs requests and sends the bytes; they arrive in any pieces, and
    between the pieces the server does anything else.  The server's codec cuts
    them into packets, the packet callback and the worker threads answer, and
    the answers are packed and sent through the connection, which writes them
    in pieces as the kernel takes them.  The client's codec reads them from any
    pieces.  The composition of what is proved on the codec, on the server and
    on the connection shows that the client counts one answer per request. *)
From S2P Require Import Prelude Protocol Buffer Codec MessageStore Serializer MessageService.
From S2P Require Import Infra Overload Heartbeat Auth Poller TcpConnection ThreadPool Server.
Import protocol buffer serializer storage heartbeat server.

Module wire_server.

(** ** The message callback *)
(** The packets a call of [Codec::onMessage] hands to the packet callback; the
    other callbacks are not set. *)
Definition packet_inputs (conn : Conn) (evs : list codec.event) : list input :=
  omap (fun e => match e with codec.PacketEv _ p => Some (InPacket conn p) | _ => None end) evs.

(** [codec.onMessage(conn, buffer, receiveTime)] after bytes were appended to
    the connection's buffer. *)
Definition onBytes (conn : Conn) (d : bytes) (c : codec.Codec) (b : Buffer)
    : res (codec.Codec * Buffer * list input) :=
  b1 <- append d b;;
  '(c2, b2, evs) <- codec.onMessage (conn_obj conn) c b1;;
  Ok (c2, b2, packet_inputs conn evs).

(** What happens to the server of one client: bytes of the client arrive, or
    anything else that is not a packet. *)
Inductive wire_input := FromClient (d : bytes) | Other (i : input).

(** The inputs the server handles, in their order. *)
Fixpoint deliver (conn : Conn) (c : codec.Codec) (b : Buffer) (ws : list wire_input) : res (list input) :=
  match ws with
  | [] => Ok []
  | Other i :: ws => ins <- deliver conn c b ws;; Ok (i :: ins)
  | FromClient d :: ws =>
    '(c', b', ps) <- onBytes conn d c b;;
    ins <- deliver conn c' b' ws;; Ok (ps ++ ins)
  end.

Definition client_bytes (ws : list wire_input) : list bytes :=
  omap (fun w => match w with FromClient d => Some d | Other _ => None end) ws.

Definition is_packet (i : input) : bool := match i with InPacket _ _ => true | _ => false end.
Definition quiet (w : wire_input) : Prop := match w with FromClient _ => True | Other i => is_packet i = false end.

(** ** Counting *)
Lemma mjoin_cons {A} (x : list A) (l : list (list A)) : mjoin (x :: l) = x ++ mjoin l.
Proof. done. Qed.

Section Counting.
Variables (q rid : Z).

(** The requests among the frames a client packs, and the answers among the
    packets it decodes. *)
Definition requests (ps : list (PacketHeader * bytes)) : nat :=
  sum_list_with (fun p => if bool_decide ((command p.1, requestId p.1) = (q, rid)) then 1%nat else 0%nat) ps.

Definition answers (evs : list codec.event) : nat :=
  sum_list_with (fun e => match e with
    | codec.PacketEv _ p =>
      if bool_decide ((Some (command (codec.header p)), requestId (codec.header p)) = (response_of q, rid)) then 1%nat else 0%nat
    | _ => 0%nat
    end) evs.

Lemma delivered_packets conn ws : forall c b c' b' evs,
  codec.feed (conn_obj conn) c b (client_bytes ws) = Ok (c', b', evs) -> Forall quiet ws ->
  exists ins, deliver conn c b ws = Ok ins
    /\ sum_list_with (is_request (conn_obj conn) q rid) ins
       = sum_list_with (is_request (conn_obj conn) q rid) (packet_inputs conn evs).
Proof.
  induction ws as [|w ws IH]; intros c b c' b' evs Hf Hq.
  { cbn in Hf. injection Hf as <- <- <-. by exists []. }
  apply Forall_cons in Hq as [Hw Hq]. destruct w as [d|i].
  - cbn [client_bytes omap list_omap codec.feed] in Hf. cbn [deliver]. unfold onBytes.
    destruct (append d b) as [b1|]; [|done]. cbn [res_bind] in Hf |- *.
    destruct (codec.onMessage (conn_obj conn) c b1) as [[[c2 b2] evs1]|]; [|done]. cbn [res_bind] in Hf |- *.
    fold (client_bytes ws) in Hf.
    destruct (codec.feed (conn_obj conn) c2 b2 (client_bytes ws)) as [[[c3 b3] evs2]|] eqn:E; [|done].
    cbn [res_bind] in Hf. injection Hf as <- <- <-.
    destruct (IH _ _ _ _ _ E Hq) as (ins & Ed & Es). rewrite Ed. eexists. split; [reflexivity|].
    unfold packet_inputs. by rewrite omap_app, !sum_list_with_app, Es.
  - cbn [client_bytes omap list_omap] in Hf. cbn [deliver].
    destruct (IH _ _ _ _ _ Hf Hq) as (ins & Ed & Es). rewrite Ed. eexists. split; [reflexivity|].
    cbn [sum_list_with]. rewrite Es. by destruct i.
Qed.

(** The packets of well-formed frames are the requests packed. *)
Lemma packets_of_frames conn ps :
  sum_list_with (is_request (conn_obj conn) q rid)
    (packet_inputs conn (mjoin (codec.frame_events (conn_obj conn) (codec.newCodec false true false) <$> ps)))
  = requests ps.
Proof.
  induction ps as [|p ps IH]; [done|]. rewrite fmap_cons. unfold packet_inputs in *.
  rewrite mjoin_cons, omap_app, sum_list_with_app, IH. cbn. rewrite Nat.add_0_r. f_equal.
  destruct p as [h m]. cbn. apply (f_equal (fun b : bool => if b then 1%nat else 0%nat)), bool_decide_ext. split; congruence.
Qed.

(** The answers a client decodes are the packets sent to it. *)
Definition sent_to (conn : ConnId) (os : list message.out) : list (PacketHeader * bytes) :=
  omap (fun o => match o with
                 | message.Sent c h d => if bool_decide (c = conn) then Some (h, d) else None
                 | _ => None
                 end) os.

Lemma answers_of_frames conn os :
  answers (mjoin (codec.frame_events conn (codec.newCodec false true false) <$> sent_to conn os))
  = sum_list_with (owed_out conn q rid) os.
Proof.
  unfold answers. induction os as [|o os IH]; [done|]. cbn [sum_list_with sent_to omap list_omap].
  rewrite <- IH. clear IH. fold (sent_to conn os).
  destruct o as [c h d| | |]; try done. cbn [owed_out]. unfold owed.
  case_bool_decide as Hc.
  - subst c. rewrite fmap_cons, mjoin_cons, sum_list_with_app. f_equal. cbn. rewrite Nat.add_0_r.
    apply (f_equal (fun b : bool => if b then 1%nat else 0%nat)), bool_decide_ext. split; congruence.
  - rewrite bool_decide_eq_false_2 by congruence. done.
Qed.

End Counting.

(** ** From request bytes to answer bytes *)
(** A fresh codec and buffer read the packed frames from any pieces. *)
Lemma feed_frames conn ps chunks :
  forallb codec.frame_ok ps = true -> kCheapPrepend + blen (codec.stream ps) <= max_size ->
  mjoin chunks = codec.stream ps ->
  exists c b, codec.feed conn (codec.newCodec false true false) newBuffer chunks
    = Ok (c, b, mjoin (codec.frame_events conn (codec.newCodec false true false) <$> ps)).
Proof.
  intros Hok Hroom Hch.
  destruct (codec.feed_stream conn chunks (codec.newCodec false true false) newBuffer ps)
    as (c & b & E & _); [apply newBuffer_wf|done|done| | |done|by eauto].
  - unfold has_room. by rewrite Hch.
  - intros p ps' ->. split; [by left|]. unfold codec.wire. rewrite codec.blen_app.
    unfold blen. rewrite codec.length_header_wire. change (length (content newBuffer)) with 0%nat. lia.
Qed.

(** [codec.pack] into a new buffer, whose bytes [conn->send(&buf)] takes. *)
Definition packed (p : PacketHeader * bytes) : bytes :=
  match codec.pack p.1 p.2 newBuffer with Ok b => content b | Err _ => [] end.

Lemma packed_wire p : kCheapPrepend + kHeaderSize + blen p.2 <= max_size -> packed p = codec.wire p.
Proof.
  intros Hroom. unfold packed.
  destruct (codec.pack_spec p.1 p.2 newBuffer newBuffer_wf) as (b & -> & _ & Hc & _); [unfold has_room; cbn; lia|].
  rewrite Hc. by destruct p.
Qed.

Lemma frame_room p : codec.frame_ok p = true -> kCheapPrepend + kHeaderSize + blen p.2 <= max_size.
Proof.
  unfold codec.frame_ok. intros H. b2p. assert (kCheapPrepend + kMaxMessageSize <= max_size) by (by apply Z.leb_le). lia.
Qed.

Lemma packed_stream ps : forallb codec.frame_ok ps = true -> mjoin (packed <$> ps) = codec.stream ps.
Proof.
  unfold codec.stream. induction ps as [|p ps IH]; [done|]. cbn [forallb]. intros H. b2p.
  rewrite !fmap_cons, !mjoin_cons, packed_wire, IH by (try apply frame_room; done). done.
Qed.

(** The bytes the connection is asked to send, call by call. *)
Definition sends (os : list tcp.output_op) : list bytes :=
  omap (fun o => match o with tcp.Send data _ => Some data | tcp.Writable _ => None end) os.

Lemma sends_bytes os : os ≫= tcp.sent_by = mjoin (sends os).
Proof.
  induction os as [|[data r|ws] os IH]; [done|..]; rewrite bind_cons, IH; [by rewrite <- mjoin_cons|done].
Qed.

(** What a connection writes of packed answers, with any partial writes, is read
    back by the client's codec from any pieces. *)
Lemma answers_read_back x os w (outs : list message.out) :
  let sent := sent_to x outs in
  forallb codec.frame_ok sent = true -> kCheapPrepend + blen (codec.stream sent) <= max_size ->
  sends os = packed <$> sent ->
  tcp.ready w -> content (tcp.m_outputBuffer (tcp.conn w)) = [] -> tcp.written w = [] ->
  0 <= tcp.m_maxOutputBufferBytes (tcp.conn w) ->
  m_writerIndex (tcp.m_outputBuffer (tcp.conn w)) + blen (codec.stream sent) <= max_size ->
  exists w', tcp.run_output os w = Ok w' /\
  (tcp.all_accepted os w = true -> content (tcp.m_outputBuffer (tcp.conn w')) = [] ->
   forall chunks, mjoin chunks = tcp.written w' ->
   exists c b evs, codec.feed x (codec.newCodec false true false) newBuffer chunks = Ok (c, b, evs) /\
   forall q rid, answers q rid evs = sum_list_with (owed_out x q rid) outs).
Proof.
  intros sent Hok' Hroom' Hs Hr Hc0 Hw0 Hm0 Hroom0.
  assert (Eb : os ≫= tcp.sent_by = codec.stream sent) by (by rewrite sends_bytes, Hs, packed_stream).
  destruct (tcp.run_output_stream os w Hr) as (w' & Er & _ & _ & Hst); [by rewrite Eb|by rewrite Hc0|].
  exists w'. split; [exact Er|]. intros Ha Hempty chunks Hch. specialize (Hst Ha). unfold tcp.stream in Hst.
  rewrite Hc0, Hw0, Eb, Hempty, app_nil_r in Hst. cbn [app] in Hst. rewrite Hst in Hch.
  destruct (feed_frames x sent chunks Hok' Hroom' Hch) as (c' & b' & Hf').
  do 3 eexists. split; [exact Hf'|]. intros q rid. exact (answers_of_frames q rid x outs).
Qed.

Section EndToEnd.
Context `{JsonLib} `{infra.Double} {St R P : Type}
  `{IMessageStore St} `{auth.Redis R} `{auth.SessionRepository P}.
Variable cfg : Settings.
Variable env : message.Env.
Variable rand_at : nat -> Z.
Notation server_step := (server_step cfg env rand_at).
Notation faults := (faults cfg env rand_at).

(** C1: One answer per request, from bytes to bytes.  One client is the only one
    that sends: it packs any list of requests and its bytes reach the server in
    any pieces, between which the server accepts and closes connections, runs
    timers and worker threads, but gets no packet of another client (the codec is
    shared: see [shared_codec_drops_valid_frame]).  The server's codec delivers; whatever it has sent to this client by then is
    packed and goes through the connection, with any partial writes; once no
    send was refused and the output buffer is empty, what the kernel got, cut
    into any pieces again, is decoded by the client, and for every kind of
    request and every request number the answers the client counts, together
    with the tasks that still owe one, are never more than the requests it
    packed, and fall short of them by at most the number of exceptions thrown
    on the way. *)
Theorem wire_requests_answered conn ps ws (s : Server) :
  forallb codec.frame_ok ps = true -> kCheapPrepend + blen (codec.stream ps) <= max_size ->
  Forall quiet ws -> mjoin (client_bytes ws) = codec.stream ps ->
  pool_wf s -> message.outs (s_msg s) = [] -> pending_ids (s_pool s) = [] ->
  exists ins, deliver conn (codec.newCodec false true false) newBuffer ws = Ok ins /\
  let s' := fold_left server_step ins s in
  let sent := sent_to (conn_obj conn) (message.outs (s_msg s')) in
  forallb codec.frame_ok sent = true -> kCheapPrepend + blen (codec.stream sent) <= max_size ->
  forall os w, sends os = packed <$> sent ->
  tcp.ready w -> content (tcp.m_outputBuffer (tcp.conn w)) = [] -> tcp.written w = [] ->
  0 <= tcp.m_maxOutputBufferBytes (tcp.conn w) ->
  m_writerIndex (tcp.m_outputBuffer (tcp.conn w)) + blen (codec.stream sent) <= max_size ->
  exists w', tcp.run_output os w = Ok w' /\
  (tcp.all_accepted os w = true -> content (tcp.m_outputBuffer (tcp.conn w')) = [] ->
   forall chunks, mjoin chunks = tcp.written w' ->
   exists c b evs, codec.feed (conn_obj conn) (codec.newCodec false true false) newBuffer chunks = Ok (c, b, evs) /\
   forall q rid, is_Some (response_of q) ->
     (answers q rid evs + pending (conn_obj conn) q rid s' <= requests q rid ps
        <= answers q rid evs + pending (conn_obj conn) q rid s' + faults s ins)%nat).
Proof.
  intros Hok Hroom Hq Hjoin Hw Ho Hp.
  destruct (feed_frames (conn_obj conn) ps (client_bytes ws) Hok Hroom Hjoin) as (c & b & Hf).
  destruct (delivered_packets 0 0 conn ws _ _ _ _ _ Hf Hq) as (ins & Ed & _).
  exists ins. split; [exact Ed|]. intros s' sent Hok' Hroom' os w Hs Hr Hc0 Hw0 Hm0 Hroom0.
  destruct (answers_read_back (conn_obj conn) os w _ Hok' Hroom' Hs Hr Hc0 Hw0 Hm0 Hroom0) as (w' & Er & Hread).
  exists w'. split; [exact Er|]. intros Ha Hempty chunks Hch.
  destruct (Hread Ha Hempty chunks Hch) as (c' & b' & evs & Hf' & Hcount). do 3 eexists. split; [exact Hf'|]. intros q rid Hres.
  destruct (delivered_packets q rid conn ws _ _ _ _ _ Hf Hq) as (ins' & Ed' & Ereq).
  rewrite Ed in Ed'. injection Ed' as <-. rewrite (packets_of_frames q rid conn ps) in Ereq.
  pose proof (run_balance cfg env rand_at (conn_obj conn) q rid Hres ins s Hw) as B.
  unfold responses in B. rewrite Ereq, Ho in B.
  assert (pending (conn_obj conn) q rid s = 0%nat) as P0 by (unfold pending; by rewrite Hp).
  rewrite Hcount, P0 in *. exact B.
Qed.

End EndToEnd.

#[local] Existing Instance infra.binary64.
#[local] Existing Instance auth.no_redis.
#[local] Existing Instance auth.no_sessions.

(** Bob packs a login and a heartbeat; the bytes arrive in two pieces with a
    worker between them. *)
Definition ex_frames : list (PacketHeader * bytes) :=
  [(packet_header CmdLoginReq 7 0 0 0 0,
    chars (default "" (Serialize_LoginReq (mkLoginReq "bob" "valid_token_bob" "d"))));
   (packet_header CmdHeartbeatReq 8 0 0 0 0, [])].

Definition ex_wire : list wire_input :=
  let d := codec.stream ex_frames in
  [Other (InUp (ex_conn 1) "10.0.0.1"); FromClient (take 100 d); Other (InWorker 0);
   FromClient (drop 100 d); Other (InWorker 0); Other (InWorker 0); Other (InWorker 0)].

Definition ex_ins : list input :=
  match deliver (ex_conn 1) (codec.newCodec false true false) newBuffer ex_wire with Ok ins => ins | Err _ => [] end.

Definition ex_end : Server (St := InMemoryMessageStore) (R := ()) (P := ()) :=
  fold_left (server_step ex_cfg ex_env (fun _ => 42)) ex_ins (ex_server 10).

Lemma squeeze (a p r f : nat) : p = 0%nat -> f = 0%nat -> (a + p <= r <= a + p + f)%nat -> a = r.
Proof. lia. Qed.

(** The connection takes twenty bytes of each answer at once and the rest when
    it is writable. *)
Definition ex_sent : list (PacketHeader * bytes) := sent_to (conn_obj (ex_conn 1)) (message.outs (s_msg ex_end)).
Definition ex_os : list tcp.output_op :=
  map (fun p => tcp.Send (packed p) (tcp.Wrote 20)) ex_sent ++ [tcp.Writable [tcp.Wrote 100; tcp.Wrote 10000]].
Definition ex_connection : tcp.World :=
  tcp.mkWorld (tcp.with_state tcp.kConnected (tcp.newConnection 0))
    (poller.put_channel 0 (poller.newChannel 5) (poller.newPoller false)) [] [] [].

Lemma ex_connection_ready : tcp.ready ex_connection.
Proof.
  split.
  - apply (poller.create_inv (poller.newPoller false) 0 5); [apply poller.newPoller_inv|done|apply map_Forall_empty].
  - by eexists.
  - apply newBuffer_wf.
Qed.

Lemma wire_requests_answered_witness :
  requests CmdLoginReq 7 ex_frames = 1%nat /\
  exists w', tcp.run_output ex_os ex_connection = Ok w' /\
  exists c b evs,
    codec.feed (conn_obj (ex_conn 1)) (codec.newCodec false true false) newBuffer [tcp.written w'] = Ok (c, b, evs)
    /\ answers CmdLoginReq 7 evs = requests CmdLoginReq 7 ex_frames
    /\ answers CmdHeartbeatReq 8 evs = requests CmdHeartbeatReq 8 ex_frames.
Proof.
  split; [vm_compute; reflexivity|].
  assert (Ed : deliver (ex_conn 1) (codec.newCodec false true false) newBuffer ex_wire = Ok ex_ins)
    by (vm_compute; reflexivity).
  destruct (wire_requests_answered ex_cfg ex_env (fun _ => 42) (ex_conn 1) ex_frames ex_wire (ex_server 10))
    as (ins & Ed' & R);
    [vm_compute; reflexivity|vm_compute; discriminate|repeat constructor|vm_compute; reflexivity
    |apply ex_server_wf|reflexivity|reflexivity|].
  assert (ins = ex_ins) as -> by congruence.
  destruct (R ltac:(vm_compute; reflexivity) ltac:(vm_compute; discriminate) ex_os ex_connection) as (w' & Er & R');
    [vm_compute; reflexivity|apply ex_connection_ready|reflexivity|reflexivity|vm_compute; discriminate|vm_compute; discriminate|].
  exists w'. split; [exact Er|].
  assert (Hempty : match tcp.run_output ex_os ex_connection with
                   | Ok w => content (tcp.m_outputBuffer (tcp.conn w)) | Err _ => [] end = [])
    by (vm_compute; reflexivity).
  rewrite Er in Hempty.
  destruct (R' ltac:(vm_compute; reflexivity) Hempty [tcp.written w'] (app_nil_r _)) as (c & b & evs & Ef & A).
  exists c, b, evs. split; [exact Ef|].
  split; [eapply squeeze; [| |apply (A CmdLoginReq 7); eexists; reflexivity]
         |eapply squeeze; [| |apply (A CmdHeartbeatReq 8); eexists; reflexivity]]; vm_compute; reflexivity.
Defined.

End wire_server.
