(* ===== verification/WireMany.v ===== *)
(** * WireMany: many clients behind the one codec of the server
      (the [Codec] of src/server_full.cpp, line 343, and its message callback)

    The server runs the input buffers of all connections through one [Codec],
    which remembers a parsed header between two calls.  Codec.v shows that this
    loses frames.  Here is the other side: as long as no read event leaves a
    connection with a complete header and an incomplete payload, the codec is
    always in its header state and every client's requests reach the server. *)
From S2P Require Import Prelude Protocol Buffer Codec MessageStore Serializer MessageService.
From S2P Require Import Infra Overload Heartbeat Auth Poller TcpConnection ThreadPool Server Wire.
Import protocol buffer serializer storage heartbeat server wire_server.

Module wire_many.

(** ** The header state *)
(** The codec waits for a payload only while the header is in the buffer. *)
Definition holds_header (c : codec.Codec) (b : Buffer) : Prop :=
  codec.m_state c = codec.kExpectPayload -> kHeaderSize <= readableBytes b.

Lemma parseHeader_holds c b go c' b' evs :
  codec.parseHeader c b = Ok (go, c', b', evs) -> kHeaderSize <= readableBytes b -> holds_header c' b'.
Proof.
  intros E Hb. unfold holds_header, codec.parseHeader in *. destruct (read_at 0 kHeaderSize b) as [d|]; [|done].
  cbn [res_bind] in E. revert E. repeat case_if; by intros [= <- <- <- <-].
Qed.

Lemma parsePayload_header conn c b go c' b' evs :
  codec.parsePayload conn c b = Ok (go, c', b', evs) -> codec.m_state c' = codec.kExpectHeader.
Proof.
  unfold codec.parsePayload. destruct (read_at _ _ b) as [d|]; [|done]. cbn [res_bind].
  destruct (retrieve _ b) as [b1|]; [|done]. cbn [res_bind].
  destruct (negb _); by intros [= <- <- <- <-].
Qed.

Lemma round_holds conn c b go c' b' evs :
  codec.onMessage_round conn c b = Ok (go, c', b', evs) -> holds_header c b -> holds_header c' b'.
Proof.
  unfold codec.onMessage_round. intros E Hh.
  assert (G : forall go1 c1 b1 evs1, holds_header c1 b1 ->
    (if negb go1 then Ok (false, c1, b1, evs1)
     else match codec.m_state c1 with
          | codec.kExpectHeader => Ok (true, c1, b1, evs1)
          | codec.kExpectPayload =>
            if readableBytes b1 <? codec.m_expectedLength c1 then Ok (false, c1, b1, evs1)
            else '(go2, c2, b2, evs2) <- codec.parsePayload conn c1 b1 ;; Ok (go2, c2, b2, evs1 ++ evs2)
          end) = Ok (go, c', b', evs) -> holds_header c' b').
  { clear E. intros go1 c1 b1 evs1 H1. destruct (negb go1); [by intros [= <- <- <- <-]|].
    destruct (codec.m_state c1) eqn:Es; [by intros [= <- <- <- <-]|].
    destruct (_ <? _); [by intros [= <- <- <- <-]|].
    destruct (codec.parsePayload conn c1 b1) as [[[[go2 c2] b2] evs2]|] eqn:Ep; [|done].
    cbn [res_bind]. intros [= <- <- <- <-] Hst. rewrite (parsePayload_header _ _ _ _ _ _ _ Ep) in Hst. done. }
  destruct (codec.m_state c) eqn:Es.
  - destruct (Z.ltb_spec (readableBytes b) kHeaderSize) as [Hlt|Hge].
    + cbn [negb res_bind] in E. by injection E as <- <- <- <-.
    + destruct (codec.parseHeader c b) as [[[[go1 c1] b1] evs1]|] eqn:Ep; [|done]. cbn [res_bind] in E.
      apply (G go1 c1 b1 evs1); [|exact E]. exact (parseHeader_holds _ _ _ _ _ _ Ep Hge).
  - exact (G true c b [] Hh E).
Qed.

Lemma loop_holds fuel conn : forall c b c' b' evs,
  codec.onMessage_loop fuel conn c b = Ok (c', b', evs) -> holds_header c b -> holds_header c' b'.
Proof.
  induction fuel as [|fuel IH]; intros c b c' b' evs E Hh; [done|]. cbn [codec.onMessage_loop] in E.
  destruct (codec.onMessage_round conn c b) as [[[[go c1] b1] evs1]|] eqn:Er; [|done]. cbn [res_bind] in E.
  pose proof (round_holds _ _ _ _ _ _ _ Er Hh) as H1. destruct go; [|by injection E as <- <- <-].
  destruct (codec.onMessage_loop fuel conn c1 b1) as [[[c2 b2] evs2]|] eqn:El; [|done]. cbn [res_bind] in E.
  injection E as <- <- <-. by apply (IH _ _ _ _ _ El).
Qed.

(** ** Where the streams are cut *)
(** The bytes received so far end inside no payload: whole frames and less than
    a header more. *)
Definition at_boundary (ps : list (PacketHeader * bytes)) (r : bytes) : Prop :=
  exists done_ rest part, ps = done_ ++ rest /\ r = codec.stream done_ ++ part /\ blen part < kHeaderSize.

Lemma stream_app ps qs : codec.stream (ps ++ qs) = codec.stream ps ++ codec.stream qs.
Proof. unfold codec.stream. by rewrite fmap_app, join_app. Qed.

Lemma wire_long p : kHeaderSize <= blen (codec.wire p).
Proof. unfold codec.wire, blen. rewrite length_app, codec.length_header_wire. unfold kHeaderSize. lia. Qed.

Lemma boundary_drop ps qs r : at_boundary (ps ++ qs) (codec.stream ps ++ r) -> at_boundary qs r.
Proof.
  intros (d & rest & part & E & Er & Hp). apply app_eq_inv in E as [(k & -> & ->)|(k & -> & ->)].
  - destruct k as [|p k].
    + exists [], qs, part. rewrite app_nil_r in Er. by apply app_inv_head in Er as ->.
    + exfalso. rewrite stream_app, <- app_assoc in Er. apply app_inv_head in Er.
      rewrite codec.stream_cons in Er. rewrite <- Er, !codec.blen_app in Hp.
      pose proof (wire_long p). pose proof (codec.blen_nonneg (codec.stream k)). pose proof (codec.blen_nonneg r). lia.
  - exists k, rest, part. rewrite stream_app, <- app_assoc in Er. by apply app_inv_head in Er as ->.
Qed.

(** A short remainder of the stream is what is left after the whole frames. *)
Lemma boundary_short ps r :
  at_boundary ps r -> (forall p ps', ps = p :: ps' -> blen r < blen (codec.wire p)) -> blen r < kHeaderSize.
Proof.
  intros ([|p d] & rest & part & -> & -> & Hp) Hs; [exact Hp|]. exfalso.
  specialize (Hs p (d ++ rest) eq_refl). rewrite codec.stream_cons, !codec.blen_app in Hs.
  pose proof (codec.blen_nonneg (codec.stream d)). pose proof (codec.blen_nonneg part). lia.
Qed.

Lemma short_stream ps : blen (codec.stream ps) < kHeaderSize -> ps = [].
Proof.
  destruct ps as [|p ps]; [done|]. rewrite codec.stream_cons, codec.blen_app.
  pose proof (wire_long p). pose proof (codec.blen_nonneg (codec.stream ps)). lia.
Qed.

(** ** The codec *)
Notation bytes_of := codec.bytes_of.
Notation bytes_of_cons := codec.bytes_of_cons.

(** The events of one connection. *)
Definition event_of (x : ConnId) (e : codec.event) : Prop :=
  match e with
  | codec.PacketEv y _ | codec.MessageEv y _ _ _ => y = x
  | codec.ErrorEv y _ => y = Some x
  end.
#[global] Instance event_of_dec x e : Decision (event_of x e).
Proof. destruct e; cbn; apply _. Defined.

Lemma frame_events_of x y c ps :
  filter (event_of x) (mjoin (codec.frame_events y c <$> ps))
  = if bool_decide (y = x) then mjoin (codec.frame_events y c <$> ps) else [].
Proof.
  induction ps as [|p ps IH]; [by case_bool_decide|]. rewrite fmap_cons, mjoin_cons, filter_app, IH. clear IH.
  unfold codec.frame_events. destruct (codec.m_packetCallback c), (codec.m_messageCallback c);
    case_bool_decide; cbn [app]; rewrite ?filter_cons; cbn [event_of];
    by rewrite ?decide_True, ?decide_False by done.
Qed.

(** What a connection has received and not yet delivered, and what is to come. *)
Record conn_ok (chunks : list (ConnId * bytes)) (x : ConnId) (b : Buffer) (ps : list (PacketHeader * bytes)) : Prop := {
  co_wf : wf b;
  co_frames : forallb codec.frame_ok ps = true;
  co_bytes : content b ++ bytes_of x chunks = codec.stream ps;
  co_room : has_room (blen (bytes_of x chunks)) b;
  co_short : blen (content b) < kHeaderSize;
  co_cut : forall pre post, chunks = pre ++ post -> at_boundary ps (content b ++ bytes_of x pre);
}.

(** Another connection's bytes. *)
Lemma conn_ok_other x y d chunks b ps :
  x <> y -> conn_ok ((y, d) :: chunks) x b ps -> conn_ok chunks x b ps.
Proof.
  intros Hne [H1 H2 H3 H4 H5 H6]. rewrite bytes_of_cons, bool_decide_eq_false_2 in H3, H4 by (cbn; congruence).
  split; [done..|]. intros pre post ->. specialize (H6 ((y, d) :: pre) post eq_refl).
  by rewrite bytes_of_cons, bool_decide_eq_false_2 in H6 by (cbn; congruence).
Qed.

(** One read event of a connection. *)
Lemma conn_ok_read x d chunks b ps c :
  conn_ok ((x, d) :: chunks) x b ps -> codec.m_state c = codec.kExpectHeader ->
  exists b1 c2 b2 ps1 ps2, append d b = Ok b1 /\ ps = ps1 ++ ps2
    /\ codec.onMessage x c b1 = Ok (c2, b2, mjoin (codec.frame_events x c <$> ps1))
    /\ codec.m_state c2 = codec.kExpectHeader /\ codec.same_callbacks c c2
    /\ conn_ok chunks x b2 ps2.
Proof.
  intros [H1 H2 H3 H4 H5 H6] Hst. rewrite bytes_of_cons, bool_decide_eq_true_2 in H3, H4 by done. cbn [snd] in H3, H4.
  unfold has_room in H4. rewrite codec.blen_app in H4. pose proof (codec.blen_nonneg (bytes_of x chunks)).
  destruct (append_spec d b H1) as (b1 & E1 & Hw1 & Hc1 & Hi1); [unfold has_room; lia|].
  destruct (codec.onMessage_loop_stream (S (Z.to_nat (readableBytes b1))) x c b1 ps (bytes_of x chunks))
    as (ps1 & ps2 & c2 & b2 & -> & E2 & Hw2 & Hcb & Hi2 & Hs2 & Hsy2 & Hn2); [done|done| |by left|done| |].
  { by rewrite Hc1, <- app_assoc. }
  { rewrite readable_content by done. pose proof (codec.blen_nonneg (content b1)). lia. }
  assert (Hsp : content b1 = codec.stream ps1 ++ content b2).
  { apply (app_inv_tail (bytes_of x chunks)). rewrite <- app_assoc, Hs2, <- stream_app, <- H3, Hc1. by rewrite app_assoc. }
  assert (Hcut : forall pre post, chunks = pre ++ post -> at_boundary ps2 (content b2 ++ bytes_of x pre)).
  { intros pre post ->. specialize (H6 ((x, d) :: pre) post eq_refl).
    rewrite bytes_of_cons, bool_decide_eq_true_2, app_assoc in H6 by done. cbn [snd] in H6.
    rewrite <- Hc1, Hsp, <- app_assoc in H6. exact (boundary_drop _ _ _ H6). }
  assert (Hsh : blen (content b2) < kHeaderSize).
  { pose proof (Hcut [] chunks eq_refl) as Hb. cbn in Hb. rewrite app_nil_r in Hb.
    apply (boundary_short ps2); [exact Hb|]. intros p ps' Hp. by destruct (Hsy2 p ps' Hp). }
  exists b1, c2, b2, ps1, ps2. rewrite forallb_app in H2. apply andb_true_iff in H2 as [_ H2].
  split_and!; [done|done|exact E2| |done|split; [done..| |done|done]; unfold has_room; lia].
  destruct (codec.m_state c2) eqn:E; [done|]. exfalso.
  assert (Hh : holds_header c b1) by (unfold holds_header; congruence).
  pose proof (loop_holds _ _ _ _ _ _ _ E2 Hh E) as Hl. rewrite readable_content in Hl by done. unfold blen in *. lia.
Qed.

Lemma feed_shared_frames chunks : forall c bufs (ps : ConnId -> list (PacketHeader * bytes)),
  codec.m_state c = codec.kExpectHeader ->
  (forall x, conn_ok chunks x (default newBuffer (bufs !! x)) (ps x)) ->
  exists c' bufs' evs, codec.feed_shared c bufs chunks = Ok (c', bufs', evs)
    /\ forall x, filter (event_of x) evs = mjoin (codec.frame_events x c <$> ps x).
Proof.
  induction chunks as [|[y d] chunks IH]; intros c bufs ps Hst Hok.
  { exists c, bufs, []. split; [done|]. intros x. destruct (Hok x) as [_ _ H3 _ H5 _].
    cbn in H3. rewrite app_nil_r in H3. rewrite H3 in H5. by rewrite (short_stream _ H5). }
  destruct (conn_ok_read _ _ _ _ _ _ (Hok y) Hst) as (b1 & c2 & b2 & ps1 & ps2 & E1 & Eps & E2 & Hst2 & Hcb & Hok2).
  destruct (IH c2 (<[y := b2]> bufs) (fun x => if bool_decide (x = y) then ps2 else ps x)) as (c' & bufs' & evs & E3 & Hev).
  { done. }
  { intros x. case_bool_decide as Hx; [subst x; by rewrite lookup_insert_eq|].
    rewrite lookup_insert_ne by congruence. by apply (conn_ok_other x y d). }
  cbn [codec.feed_shared]. rewrite E1. cbn [res_bind]. rewrite E2. cbn [res_bind]. rewrite E3. cbn [res_bind].
  eexists _, _, _. split; [reflexivity|]. intros x. rewrite filter_app, frame_events_of, Hev.
  rewrite (list_fmap_ext (codec.frame_events x c2) (codec.frame_events x c)) by (intros; by apply codec.frame_events_callbacks).
  case_bool_decide as Hx.
  - subst x. by rewrite bool_decide_eq_true_2, Eps, fmap_app, join_app by done.
  - by rewrite bool_decide_eq_false_2 by congruence.
Qed.

(** ** The server *)
(** Bytes of a client arrive, or anything else that is not a packet. *)
Inductive many_input := FromConn (conn : Conn) (d : bytes) | Otherwise (i : input).

(** The inputs the server handles, in their order: the message callback runs
    each connection's own buffer through the one codec. *)
Fixpoint deliver_many (c : codec.Codec) (bufs : gmap ConnId Buffer) (ws : list many_input) : res (list input) :=
  match ws with
  | [] => Ok []
  | Otherwise i :: ws => ins <- deliver_many c bufs ws;; Ok (i :: ins)
  | FromConn conn d :: ws =>
    '(c', b', ps) <- onBytes conn d c (default newBuffer (bufs !! conn_obj conn));;
    ins <- deliver_many c' (<[conn_obj conn := b']> bufs) ws;; Ok (ps ++ ins)
  end.

Definition reads (ws : list many_input) : list (ConnId * bytes) :=
  omap (fun w => match w with FromConn conn d => Some (conn_obj conn, d) | Otherwise _ => None end) ws.

Definition quiet_many (w : many_input) : Prop :=
  match w with FromConn _ _ => True | Otherwise i => is_packet i = false end.

(** The requests of a connection among the events of the codec. *)
Definition asked (x : ConnId) (q rid : Z) (evs : list codec.event) : nat :=
  sum_list_with (fun e => match e with
    | codec.PacketEv y p =>
      if bool_decide ((y, command (codec.header p), requestId (codec.header p)) = (x, q, rid)) then 1%nat else 0%nat
    | _ => 0%nat
    end) evs.

Lemma asked_of x q rid evs : asked x q rid (filter (event_of x) evs) = asked x q rid evs.
Proof.
  unfold asked. induction evs as [|e evs IH]; [done|]. rewrite filter_cons. cbn [sum_list_with].
  destruct (decide (event_of x e)) as [Hd|Hd]; cbn [sum_list_with]; rewrite IH; [done|].
  destruct e as [y p| |]; [|done..]. cbn in Hd. by rewrite bool_decide_eq_false_2 by congruence.
Qed.

Lemma asked_frames x q rid ps :
  asked x q rid (mjoin (codec.frame_events x (codec.newCodec false true false) <$> ps)) = requests q rid ps.
Proof.
  unfold asked, requests. induction ps as [|p ps IH]; [done|].
  rewrite fmap_cons, mjoin_cons, sum_list_with_app, IH. cbn. rewrite Nat.add_0_r. f_equal.
  apply (f_equal (fun b : bool => if b then 1%nat else 0%nat)), bool_decide_ext. split; congruence.
Qed.

(** The packets of a call are those of its connection. *)
Definition packet_of (x : ConnId) (e : codec.event) : Prop :=
  match e with codec.PacketEv y _ => y = x | _ => True end.

Lemma emit_error_of x c y code : Forall (packet_of x) (codec.emit_error c y code).
Proof. unfold codec.emit_error. destruct (codec.m_errorCallback c); by repeat constructor. Qed.

Lemma parsePayload_of x c b go c' b' evs :
  codec.parsePayload x c b = Ok (go, c', b', evs) -> Forall (packet_of x) evs.
Proof.
  unfold codec.parsePayload. destruct (read_at _ _ b) as [d|]; [|done]. cbn [res_bind].
  destruct (retrieve _ b) as [b1|]; [|done]. cbn [res_bind].
  destruct (negb _); intros [= <- <- <- <-]; [apply emit_error_of|].
  destruct (codec.m_packetCallback c), (codec.m_messageCallback c); by repeat constructor.
Qed.

Lemma parseHeader_of x c b go c' b' evs :
  codec.parseHeader c b = Ok (go, c', b', evs) -> Forall (packet_of x) evs.
Proof.
  unfold codec.parseHeader. destruct (read_at 0 kHeaderSize b) as [d|]; [|done]. cbn [res_bind].
  repeat case_if; intros [= <- <- <- <-]; (apply emit_error_of || by constructor).
Qed.

Lemma round_of x c b go c' b' evs :
  codec.onMessage_round x c b = Ok (go, c', b', evs) -> Forall (packet_of x) evs.
Proof.
  unfold codec.onMessage_round.
  destruct (match codec.m_state c with codec.kExpectHeader => _ | codec.kExpectPayload => _ end)
    as [[[[go1 c1] b1] evs1]|] eqn:E1; [|done]. cbn [res_bind].
  assert (H1 : Forall (packet_of x) evs1).
  { destruct (codec.m_state c); [|by injection E1 as <- <- <- <-].
    destruct (_ <? _); [by injection E1 as <- <- <- <-|].
    exact (parseHeader_of _ _ _ _ _ _ _ E1). }
  destruct (negb go1); [by intros [= <- <- <- <-]|]. destruct (codec.m_state c1); [by intros [= <- <- <- <-]|].
  destruct (readableBytes b1 <? codec.m_expectedLength c1); [by intros [= <- <- <- <-]|].
  destruct (codec.parsePayload x c1 b1) as [[[[go2 c2] b2] evs2]|] eqn:Ep; [|done]. cbn [res_bind].
  intros [= <- <- <- <-]. apply Forall_app. split; [done|]. by apply (parsePayload_of _ _ _ _ _ _ _ Ep).
Qed.

Lemma loop_of fuel x : forall c b c' b' evs,
  codec.onMessage_loop fuel x c b = Ok (c', b', evs) -> Forall (packet_of x) evs.
Proof.
  induction fuel as [|fuel IH]; intros c b c' b' evs E; [done|]. cbn [codec.onMessage_loop] in E.
  destruct (codec.onMessage_round x c b) as [[[[go c1] b1] evs1]|] eqn:Er; [|done]. cbn [res_bind] in E.
  pose proof (round_of _ _ _ _ _ _ _ Er) as H1. destruct go; [|by injection E as <- <- <-].
  destruct (codec.onMessage_loop fuel x c1 b1) as [[[c2 b2] evs2]|] eqn:El; [|done]. cbn [res_bind] in E.
  injection E as <- <- <-. apply Forall_app. split; [done|]. by apply (IH _ _ _ _ _ El).
Qed.

Lemma asked_inputs x q rid conn evs :
  Forall (packet_of (conn_obj conn)) evs ->
  sum_list_with (is_request x q rid) (packet_inputs conn evs) = asked x q rid evs.
Proof.
  unfold asked, packet_inputs. induction 1 as [|e evs He _ IH]; [done|]. cbn [omap list_omap sum_list_with].
  rewrite <- IH. destruct e as [y p| |]; cbn [sum_list_with]; [|done..]. cbn in He. by subst y.
Qed.

Lemma delivered_many ws : forall c bufs c' bufs' evs,
  codec.feed_shared c bufs (reads ws) = Ok (c', bufs', evs) -> Forall quiet_many ws ->
  exists ins, deliver_many c bufs ws = Ok ins
    /\ forall x q rid, sum_list_with (is_request x q rid) ins = asked x q rid evs.
Proof.
  induction ws as [|w ws IH]; intros c bufs c' bufs' evs Hf Hq.
  { cbn in Hf. injection Hf as <- <- <-. by exists []. }
  apply Forall_cons in Hq as [Hw Hq]. destruct w as [conn d|i].
  - cbn [reads omap list_omap codec.feed_shared] in Hf. cbn [deliver_many]. unfold onBytes.
    destruct (append d _) as [b1|]; [|done]. cbn [res_bind] in Hf |- *.
    destruct (codec.onMessage (conn_obj conn) c b1) as [[[c2 b2] evs1]|] eqn:Em; [|done]. cbn [res_bind] in Hf |- *.
    fold (reads ws) in Hf.
    destruct (codec.feed_shared c2 _ (reads ws)) as [[[c3 bufs3] evs2]|] eqn:E; [|done].
    cbn [res_bind] in Hf. injection Hf as <- <- <-.
    destruct (IH _ _ _ _ _ E Hq) as (ins & Ed & Es). rewrite Ed. eexists. split; [reflexivity|].
    intros x q rid. unfold asked. rewrite !sum_list_with_app, Es. f_equal.
    apply asked_inputs. exact (loop_of _ _ _ _ _ _ _ Em).
  - cbn [reads omap list_omap] in Hf. cbn [deliver_many].
    destruct (IH _ _ _ _ _ Hf Hq) as (ins & Ed & Es). rewrite Ed. eexists. split; [reflexivity|].
    intros x q rid. cbn [sum_list_with]. rewrite Es. by destruct i.
Qed.

Section ManyClients.
Context `{JsonLib} `{infra.Double} {St R P : Type}
  `{IMessageStore St} `{auth.Redis R} `{auth.SessionRepository P}.
Variable cfg : Settings.
Variable env : message.Env.
Variable rand_at : nat -> Z.
Notation server_step := (server_step cfg env rand_at).
Notation faults := (faults cfg env rand_at).

(** C2: Every client is served through the one codec.  Any number of clients
    send nothing but packed requests that fit the limits, whole, and the bytes
    arrive in pieces in any interleaving, between which the server accepts and
    closes connections, runs timers and worker threads; no read event leaves a
    connection inside a payload.  Then the codec delivers, and for each client,
    once what was sent to it has gone through its connection (with any partial
    writes; no send refused, the output buffer empty at the end) and is decoded
    from any pieces, the answers it counts to each kind and number of
    request, with the tasks that still owe one, are never more than the
    requests that client packed and fall short of them by at most the number
    of exceptions thrown on the way. *)
Theorem wire_many_answered (ps : ConnId -> list (PacketHeader * bytes)) ws (s : Server) :
  (forall x, forallb codec.frame_ok (ps x) = true) ->
  (forall x, kCheapPrepend + blen (codec.stream (ps x)) <= max_size) ->
  Forall quiet_many ws -> (forall x, bytes_of x (reads ws) = codec.stream (ps x)) ->
  (forall x pre post, reads ws = pre ++ post -> at_boundary (ps x) (bytes_of x pre)) ->
  pool_wf s -> message.outs (s_msg s) = [] -> pending_ids (s_pool s) = [] ->
  exists ins, deliver_many (codec.newCodec false true false) ∅ ws = Ok ins /\
  let s' := fold_left server_step ins s in
  forall x, let sent := sent_to x (message.outs (s_msg s')) in
  forallb codec.frame_ok sent = true -> kCheapPrepend + blen (codec.stream sent) <= max_size ->
  forall os w, sends os = packed <$> sent ->
  tcp.ready w -> content (tcp.m_outputBuffer (tcp.conn w)) = [] -> tcp.written w = [] ->
  0 <= tcp.m_maxOutputBufferBytes (tcp.conn w) ->
  m_writerIndex (tcp.m_outputBuffer (tcp.conn w)) + blen (codec.stream sent) <= max_size ->
  exists w', tcp.run_output os w = Ok w' /\
  (tcp.all_accepted os w = true -> content (tcp.m_outputBuffer (tcp.conn w')) = [] ->
   forall chunks, mjoin chunks = tcp.written w' ->
   exists c b evs, codec.feed x (codec.newCodec false true false) newBuffer chunks = Ok (c, b, evs) /\
   forall q rid, is_Some (response_of q) ->
     (answers q rid evs + pending x q rid s' <= requests q rid (ps x)
        <= answers q rid evs + pending x q rid s' + faults s ins)%nat).
Proof.
  intros Hok Hroom Hq Hb Hcut Hw Ho Hp.
  destruct (feed_shared_frames (reads ws) (codec.newCodec false true false) ∅ ps) as (c & bufs & evs & Hf & Hev); [done| |].
  { intros x. rewrite lookup_empty. cbn [default]. split; [apply newBuffer_wf|apply Hok|apply Hb| |done|apply Hcut].
    unfold has_room. rewrite Hb. apply Hroom. }
  destruct (delivered_many ws _ _ _ _ _ Hf Hq) as (ins & Ed & Ereq).
  exists ins. split; [exact Ed|]. intros s' x sent Hok' Hroom' os w Hs Hr Hc0 Hw0 Hm0 Hroom0.
  destruct (answers_read_back x os w _ Hok' Hroom' Hs Hr Hc0 Hw0 Hm0 Hroom0) as (w' & Er & Hread).
  exists w'. split; [exact Er|]. intros Ha Hempty chunks Hch.
  destruct (Hread Ha Hempty chunks Hch) as (c' & b' & evs' & Hf' & Hcount).
  do 3 eexists. split; [exact Hf'|]. intros q rid Hres.
  specialize (Ereq x q rid). rewrite <- asked_of, Hev, asked_frames in Ereq.
  pose proof (run_balance cfg env rand_at x q rid Hres ins s Hw) as B.
  unfold responses in B. rewrite Ereq, Ho in B.
  assert (pending x q rid s = 0%nat) as P0 by (unfold pending; by rewrite Hp).
  rewrite Hcount, P0 in *. exact B.
Qed.

End ManyClients.

(** ** Two clients *)
#[local] Existing Instance infra.binary64.
#[local] Existing Instance auth.no_redis.
#[local] Existing Instance auth.no_sessions.

(** [at_boundary], evaluated. *)
Definition cut_ok (ps : list (PacketHeader * bytes)) (r : bytes) : bool :=
  existsb (fun n => let d := codec.stream (take n ps) in
    bool_decide (take (length d) r = d) && (blen (drop (length d) r) <? kHeaderSize)) (seq 0 (S (length ps))).

Lemma cut_ok_sound ps r : cut_ok ps r = true -> at_boundary ps r.
Proof.
  unfold cut_ok. rewrite existsb_exists. intros (n & _ & Hn). b2p.
  exists (take n ps), (drop n ps), (drop (length (codec.stream (take n ps))) r).
  split; [by rewrite take_drop|]. split; [|done].
  match goal with H : take _ r = _ |- _ => rewrite <- H at 1 end. by rewrite take_drop.
Qed.

Lemma cuts_ok_sound ps x chunks :
  forallb (fun n => cut_ok ps (bytes_of x (take n chunks))) (seq 0 (S (length chunks))) = true ->
  forall pre post, chunks = pre ++ post -> at_boundary ps (bytes_of x pre).
Proof.
  intros Hf pre post ->. rewrite forallb_forall in Hf. apply cut_ok_sound.
  specialize (Hf (length pre)). rewrite take_app_length in Hf. apply Hf, in_seq. rewrite length_app. lia.
Qed.

(** Bob's bytes arrive in two pieces, the first inside the header, with alice's
    frame between them. *)
Definition ex_alice : list (PacketHeader * bytes) := [(packet_header CmdHeartbeatReq 9 0 0 0 0, [])].
Definition ex_clients (x : ConnId) : list (PacketHeader * bytes) :=
  if bool_decide (x = conn_obj (ex_conn 1)) then ex_frames
  else if bool_decide (x = conn_obj (ex_conn 2)) then ex_alice else [].

Definition ex_many : list many_input :=
  let d := codec.stream ex_frames in
  [Otherwise (InUp (ex_conn 1) "10.0.0.1"); Otherwise (InUp (ex_conn 2) "10.0.0.2");
   FromConn (ex_conn 1) (take 20 d); FromConn (ex_conn 2) (codec.stream ex_alice);
   FromConn (ex_conn 1) (drop 20 d);
   Otherwise (InWorker 0); Otherwise (InWorker 0); Otherwise (InWorker 0); Otherwise (InWorker 0)].

Lemma ex_clients_cases (Pr : ConnId -> list (PacketHeader * bytes) -> Prop) :
  Pr (conn_obj (ex_conn 1)) ex_frames -> Pr (conn_obj (ex_conn 2)) ex_alice ->
  (forall x, x <> conn_obj (ex_conn 1) -> x <> conn_obj (ex_conn 2) -> Pr x []) ->
  forall x, Pr x (ex_clients x).
Proof. intros H1 H2 H3 x. unfold ex_clients. repeat case_bool_decide; subst; auto. Qed.

Lemma ex_no_bytes x n :
  x <> conn_obj (ex_conn 1) -> x <> conn_obj (ex_conn 2) -> bytes_of x (take n (reads ex_many)) = [].
Proof.
  intros H1 H2. unfold ex_many. set (d := codec.stream ex_frames). set (e := codec.stream ex_alice).
  cbn [reads omap list_omap].
  do 4 (destruct n as [|n]; [cbn [take]; repeat (rewrite bytes_of_cons, bool_decide_eq_false_2 by (cbn [fst]; congruence)); reflexivity|]).
  cbn [take]. repeat (rewrite bytes_of_cons, bool_decide_eq_false_2 by (cbn [fst]; congruence)). by destruct n.
Qed.

Lemma ex_no_cuts x :
  x <> conn_obj (ex_conn 1) -> x <> conn_obj (ex_conn 2) ->
  forall pre post, reads ex_many = pre ++ post -> at_boundary [] (bytes_of x pre).
Proof.
  intros H1 H2 pre post E. assert (exists n, pre = take n (reads ex_many)) as [n ->].
  { exists (length pre). by rewrite E, take_app_length. }
  exists [], [], []. by rewrite ex_no_bytes.
Qed.

Definition many_ins : list input :=
  match deliver_many (codec.newCodec false true false) ∅ ex_many with Ok ins => ins | Err _ => [] end.

Definition many_end : Server (St := InMemoryMessageStore) (R := ()) (P := ()) :=
  fold_left (server_step ex_cfg ex_env (fun _ => 42)) many_ins (ex_server 10).

Definition alice_sent : list (PacketHeader * bytes) := sent_to (conn_obj (ex_conn 2)) (message.outs (s_msg many_end)).
Definition alice_os : list tcp.output_op :=
  map (fun p => tcp.Send (packed p) (tcp.Wrote 20)) alice_sent ++ [tcp.Writable [tcp.Wrote 100; tcp.Wrote 10000]].

Lemma wire_many_answered_witness :
  requests CmdHeartbeatReq 9 ex_alice = 1%nat /\
  exists w', tcp.run_output alice_os ex_connection = Ok w' /\
  exists c b evs,
    codec.feed (conn_obj (ex_conn 2)) (codec.newCodec false true false) newBuffer [tcp.written w'] = Ok (c, b, evs)
    /\ answers CmdHeartbeatReq 9 evs = requests CmdHeartbeatReq 9 (ex_clients (conn_obj (ex_conn 2))).
Proof.
  split; [vm_compute; reflexivity|].
  assert (Ed : deliver_many (codec.newCodec false true false) ∅ ex_many = Ok many_ins) by (vm_compute; reflexivity).
  destruct (wire_many_answered ex_cfg ex_env (fun _ => 42) ex_clients ex_many (ex_server 10)) as (ins & Ed' & Hmany).
  { apply (ex_clients_cases (fun _ ps => forallb codec.frame_ok ps = true)); intros; vm_compute; reflexivity. }
  { apply (ex_clients_cases (fun _ ps => kCheapPrepend + blen (codec.stream ps) <= max_size)); intros; vm_compute; discriminate. }
  { repeat constructor. }
  { apply (ex_clients_cases (fun x ps => bytes_of x (reads ex_many) = codec.stream ps));
      [vm_compute; reflexivity|vm_compute; reflexivity|intros x H1 H2; apply (ex_no_bytes x 4 H1 H2)]. }
  { apply (ex_clients_cases (fun x ps => forall pre post, reads ex_many = pre ++ post -> at_boundary ps (bytes_of x pre)));
      [apply cuts_ok_sound; vm_compute; reflexivity|apply cuts_ok_sound; vm_compute; reflexivity|exact ex_no_cuts]. }
  { apply ex_server_wf. } { reflexivity. } { reflexivity. }
  assert (ins = many_ins) as -> by congruence.
  destruct (Hmany (conn_obj (ex_conn 2)) ltac:(vm_compute; reflexivity) ltac:(vm_compute; discriminate) alice_os ex_connection)
    as (w' & Er & R');
    [vm_compute; reflexivity|apply ex_connection_ready|reflexivity|reflexivity|vm_compute; discriminate|vm_compute; discriminate|].
  exists w'. split; [exact Er|].
  assert (Hempty : match tcp.run_output alice_os ex_connection with
                   | Ok w => content (tcp.m_outputBuffer (tcp.conn w)) | Err _ => [] end = [])
    by (vm_compute; reflexivity).
  rewrite Er in Hempty.
  destruct (R' ltac:(vm_compute; reflexivity) Hempty [tcp.written w'] (app_nil_r _)) as (c & b & evs & Ef & A).
  exists c, b, evs. split; [exact Ef|].
  eapply squeeze; [| |apply (A CmdHeartbeatReq 9); eexists; reflexivity]; vm_compute; reflexivity.
Defined.

End wire_many.
