(* ===== verification/Text.v ===== *)
(** * Text: integers as decimal text

    What the sources use of the C++ standard library to write and read decimal
    numbers: [operator<<] of an [ostream] for integers, and [std::stoull],
    [std::stoul], [std::stoll] and [std::stoi] (base 10, on a host whose [long]
    has 64 bits), with the exceptions they throw.  The main fact is that every
    integer of the right width that is written is read back. *)
From S2P Require Import Prelude.

Module text.

(** ** Writing: [ostream << n] *)
Definition digit (d : Z) : ascii := byte_of (48 + d).

(** The decimal digits of [n], most significant first; [fuel] bounds their
    number (a 64-bit integer has at most 20). *)
Fixpoint dec_digits (fuel : nat) (n : Z) : bytes :=
  match fuel with
  | O => []
  | S f => (if n <? 10 then [] else dec_digits f (n / 10)) ++ [digit (n mod 10)]
  end.

Definition dec (z : Z) : string :=
  str ((if z <? 0 then ["-"%char] else []) ++ dec_digits 20 (Z.abs z)).

(** ** Reading: the [strtol] family *)

(** [std::isspace] in the C locale. *)
Definition isspace (c : ascii) : bool :=
  let v := byte_val c in (v =? 32) || ((9 <=? v) && (v <=? 13)).

Definition is_digit (c : ascii) : bool := (48 <=? byte_val c) && (byte_val c <=? 57).

Fixpoint skip_space (s : bytes) : bytes :=
  match s with
  | c :: s' => if isspace c then skip_space s' else s
  | [] => []
  end.

Definition read_sign (s : bytes) : bool * bytes :=
  match s with
  | c :: s' => if bool_decide (c = "-"%char) then (true, s')
               else if bool_decide (c = "+"%char) then (false, s') else (false, s)
  | [] => (false, [])
  end.

(** The longest run of digits and its value; [None] when there is no digit. *)
Fixpoint read_digits (acc : option Z) (s : bytes) : option Z :=
  match s with
  | c :: s' =>
    if is_digit c then read_digits (Some (10 * default 0 acc + (byte_val c - 48))) s' else acc
  | [] => acc
  end.

(** Sign and magnitude of the number at the start of [s]. *)
Definition strto (s : string) : option (bool * Z) :=
  let '(neg, s') := read_sign (skip_space (chars s)) in
  (fun v => (neg, v)) <$> read_digits None s'.

(** A magnitude above [2 ^ 64 - 1] is out of range; a minus sign negates the
    value in the unsigned type. *)
Definition stoull (s : string) : res Z :=
  match strto s with
  | None => Err InvalidArgument
  | Some (neg, v) => if 2 ^ 64 <=? v then Err OutOfRange else Ok (u64 (if neg then - v else v))
  end.

Definition stoul (s : string) : res Z := stoull s.

Definition stoll (s : string) : res Z :=
  match strto s with
  | None => Err InvalidArgument
  | Some (neg, v) =>
    let z := if neg then - v else v in
    if (- 2 ^ 63 <=? z) && (z <? 2 ^ 63) then Ok z else Err OutOfRange
  end.

Definition stoi (s : string) : res Z :=
  z <- stoll s;; if (- 2 ^ 31 <=? z) && (z <? 2 ^ 31) then Ok z else Err OutOfRange.

(** ** C strings *)
Definition nul : ascii := "000"%char.

(** The C string a [std::string] is passed as. *)
Fixpoint c_str (s : string) : string :=
  match s with
  | EmptyString => ""
  | String c s' => if bool_decide (c = nul) then "" else String c (c_str s')
  end.

(** ** Lemmas *)
Lemma byte_val_digit d : 0 <= d < 10 -> byte_val (digit d) = 48 + d.
Proof. intros H. unfold digit. rewrite byte_val_of. apply Z.mod_small. lia. Qed.

Lemma is_digit_digit d : 0 <= d < 10 -> is_digit (digit d) = true.
Proof.
  intros H. unfold is_digit. rewrite byte_val_digit by done.
  by rewrite !(proj2 (Z.leb_le _ _)) by lia.
Qed.

Lemma dec_digits_digits fuel n : 0 <= n ->
  Forall (fun c => is_digit c = true) (dec_digits fuel n).
Proof.
  revert n; induction fuel as [|f IH]; intros n Hn; simpl; [constructor|].
  apply Forall_app. split.
  - case_if; [constructor|]. apply IH. apply Z.div_pos; lia.
  - constructor; [|constructor]. apply is_digit_digit, Z.mod_pos_bound. lia.
Qed.

Lemma dec_digits_nonempty fuel n : (0 < fuel)%nat -> dec_digits fuel n <> [].
Proof. destruct fuel; simpl; [lia|]. intros _ E. by apply app_nil in E as [_ E]. Qed.

Lemma read_digits_app acc s t :
  Forall (fun c => is_digit c = true) s ->
  read_digits acc (s ++ t) = read_digits (read_digits acc s) t.
Proof.
  intros H. revert acc; induction H as [|c s Hc _ IH]; intros acc; simpl; [done|].
  rewrite Hc. apply IH.
Qed.

Lemma read_digits_dec fuel n :
  0 <= n < 10 ^ Z.of_nat fuel -> (0 < fuel)%nat -> read_digits None (dec_digits fuel n) = Some n.
Proof.
  revert n; induction fuel as [|f IH]; intros n Hn Hf; [lia|].
  assert (Hm : 0 <= n mod 10 < 10) by (apply Z.mod_pos_bound; lia).
  assert (L : forall acc, read_digits acc [digit (n mod 10)] = Some (10 * default 0 acc + n mod 10)).
  { intros acc. simpl. rewrite is_digit_digit, byte_val_digit by done. do 2 f_equal. lia. }
  simpl dec_digits. destruct (Z.ltb_spec n 10) as [H|H]; simpl app.
  - rewrite L. simpl. rewrite Z.mod_small by lia. done.
  - destruct f as [|f']; [simpl in Hn; lia|].
    assert (Hd : 0 <= n / 10 < 10 ^ Z.of_nat (S f')).
    { split; [apply Z.div_pos; lia|]. apply Z.div_lt_upper_bound; [lia|].
      rewrite Nat2Z.inj_succ, Z.pow_succ_r in Hn by lia. lia. }
    rewrite read_digits_app by (apply dec_digits_digits; lia).
    rewrite IH by (done || lia). rewrite L. simpl.
    f_equal. pose proof (Z.div_mod n 10). lia.
Qed.

Lemma length_dec_digits fuel m n :
  0 <= n < 10 ^ Z.of_nat m -> (1 <= m)%nat -> (length (dec_digits fuel n) <= m)%nat.
Proof.
  revert m n. induction fuel as [|f IH]; intros m n Hn Hm; simpl; [lia|]. rewrite length_app. simpl.
  destruct (Z.ltb_spec n 10) as [H|H]; simpl; [lia|].
  destruct m as [|m]; [lia|]. rewrite Nat2Z.inj_succ, Z.pow_succ_r in Hn by lia.
  destruct m as [|m]; [simpl in Hn; lia|].
  assert (Hd : (length (dec_digits f (n / 10)) <= S m)%nat).
  { apply IH; [|lia]. split; [apply Z.div_pos; lia|]. apply Z.div_lt_upper_bound; lia. }
  lia.
Qed.

Lemma skip_space_id c s : isspace c = false -> skip_space (c :: s) = c :: s.
Proof. intros H. simpl. by rewrite H. Qed.

Lemma digit_not_space c : is_digit c = true -> isspace c = false /\ c <> "-"%char /\ c <> "+"%char.
Proof.
  intros H. unfold is_digit in H. b2p. unfold isspace. splits.
  - rewrite orb_false_iff, andb_false_iff, Z.eqb_neq, !Z.leb_gt. lia.
  - intros ->. vm_compute in H. done.
  - intros ->. vm_compute in H. done.
Qed.

(** A written number is read back as its sign and magnitude. *)
(** A number is read up to the first character that is no digit. *)
Definition no_digit (t : string) : Prop := match t with EmptyString => True | String c _ => is_digit c = false end.

Lemma strto_dec_tail z t : Z.abs z < 10 ^ 20 -> no_digit t -> strto (dec z +:+ t) = Some (z <? 0, Z.abs z).
Proof.
  intros Hz Ht. unfold strto, dec. rewrite chars_app, chars_str.
  pose proof (read_digits_dec 20 (Z.abs z) ltac:(simpl; lia) ltac:(lia)) as R.
  pose proof (dec_digits_digits 20 (Z.abs z) ltac:(lia)) as D.
  pose proof (dec_digits_nonempty 20 (Z.abs z) ltac:(lia)) as N.
  remember (dec_digits 20 (Z.abs z)) as ds eqn:E. clear E.
  assert (Rt : read_digits None (ds ++ chars t) = Some (Z.abs z)).
  { rewrite read_digits_app, R by done. destruct t as [|c t]; [done|]. simpl in Ht |- *. by rewrite Ht. }
  rewrite <- app_assoc. destruct (z <? 0); simpl app.
  - rewrite skip_space_id by done. simpl. by rewrite Rt.
  - destruct ds as [|c ds]; [done|]. inversion D as [|? ? Hc _]; subst.
    destruct (digit_not_space c Hc) as (S & M & P). cbn [app] in Rt |- *.
    rewrite skip_space_id by done. unfold read_sign.
    rewrite !bool_decide_eq_false_2 by done. by rewrite Rt.
Qed.

Lemma strto_dec z : Z.abs z < 10 ^ 20 -> strto (dec z) = Some (z <? 0, Z.abs z).
Proof.
  intros Hz. rewrite <- (strto_dec_tail z "" Hz I). f_equal. rewrite <- (str_chars (dec z +:+ "")), chars_app.
  cbn [chars]. by rewrite app_nil_r, str_chars.
Qed.

Lemma pow_64_digits : 2 ^ 64 < 10 ^ 20.
Proof. reflexivity. Qed.

Lemma stoull_dec z : 0 <= z < 2 ^ 64 -> stoull (dec z) = Ok z.
Proof.
  intros Hz. pose proof pow_64_digits. unfold stoull. rewrite strto_dec by lia.
  rewrite (proj2 (Z.ltb_ge _ _)), Z.abs_eq, (proj2 (Z.leb_gt _ _)) by lia.
  by rewrite u64_small.
Qed.

Lemma stoll_dec z : - 2 ^ 63 <= z < 2 ^ 63 -> stoll (dec z) = Ok z.
Proof.
  intros Hz. pose proof pow_64_digits. unfold stoll. rewrite strto_dec by lia.
  replace (if z <? 0 then - Z.abs z else Z.abs z) with z by (destruct (Z.ltb_spec z 0); lia).
  by rewrite (proj2 (Z.leb_le _ _)), (proj2 (Z.ltb_lt _ _)) by lia.
Qed.

Lemma stoi_dec z : - 2 ^ 31 <= z < 2 ^ 31 -> stoi (dec z) = Ok z.
Proof.
  intros Hz. unfold stoi. rewrite stoll_dec by lia. simpl.
  by rewrite (proj2 (Z.leb_le _ _)), (proj2 (Z.ltb_lt _ _)) by lia.
Qed.

Lemma dec_nonempty z : dec z <> "".
Proof.
  intros H. apply (f_equal (fun s => chars s)) in H. unfold dec in H. rewrite chars_str in H.
  apply app_nil in H as [_ H]. by apply dec_digits_nonempty in H; [|lia].
Qed.

Lemma str_app_assoc a b c : (a +:+ b) +:+ c = a +:+ (b +:+ c).
Proof.
  induction a as [|x a IH]; [done|].
  change (String x ((a +:+ b) +:+ c) = String x (a +:+ (b +:+ c))). by rewrite IH.
Qed.

End text.
