(* ===== verification/Address.v ===== *)
(** * Address: IPv4 addresses (src/net/inetAddress.h)

    [sockaddr_in] keeps the address as four bytes and the port in network byte
    order.  [inet_pton] and [inet_ntop] are those of the C library: the first
    takes four decimal numbers of at most 255 without leading zeros, separated
    by points, and leaves its target alone when it refuses the text. *)
From S2P Require Import Prelude Util Text.
Import util text.

Module address.

(** ** The C library *)
Definition point : ascii := "."%char.

(** The loop of [inet_pton]: the octets that are complete, the current one and
    whether it has a digit. *)
Fixpoint pton_loop (src : bytes) (octets : list Z) (tp : Z) (saw_digit : bool) : option (list Z) :=
  match src with
  | [] => if saw_digit && (length octets =? 3)%nat then Some (octets ++ [tp]) else None
  | ch :: src =>
    if is_digit ch then
      let new := tp * 10 + (byte_val ch - 48) in
      if saw_digit && (tp =? 0) then None
      else if 255 <? new then None
      else if negb saw_digit && (4 <=? length octets)%nat then None
      else pton_loop src octets new true
    else if bool_decide (ch = point) && saw_digit then
      if (3 <=? length octets)%nat then None else pton_loop src (octets ++ [tp]) 0 false
    else None
  end.

Definition inet_pton (src : bytes) : option (list Z) := pton_loop src [] 0 false.

(** [inet_ntop]: "%u.%u.%u.%u". *)
Fixpoint join_points (ts : list bytes) : bytes :=
  match ts with
  | [] => []
  | [t] => t
  | t :: ts => t ++ point :: join_points ts
  end.

Definition octet_text (o : Z) : bytes := chars (dec o).
Definition inet_ntop (sin_addr : list Z) : string := str (join_points (map octet_text sin_addr)).

(** ** InetAddress *)
Record InetAddress := mkAddress { sin_addr : list Z; sin_port : Z }.

Definition any : list Z := [0; 0; 0; 0].

(** [InetAddress(uint16_t port)]; the argument is converted to 16 bits. *)
Definition listenOn (port : Z) : InetAddress := mkAddress any (htons (u16 port)).

(** [InetAddress(ip, port)]: the answer of [inet_pton] is not looked at. *)
Definition ofIpPort (ip : string) (port : Z) : InetAddress :=
  mkAddress (default any (inet_pton (chars (c_str ip)))) (htons (u16 port)).

Definition setSockAddrInet (addr : InetAddress) (a : InetAddress) : InetAddress := addr.

Definition toIp (a : InetAddress) : string := inet_ntop (sin_addr a).
Definition port (a : InetAddress) : Z := htons (sin_port a).

(** [snprintf] into 128 bytes, which the text never fills. *)
Definition toIpPort (a : InetAddress) : string := inet_ntop (sin_addr a) +:+ ":" +:+ dec (port a).

(** ** Decimal octets *)
Definition octet (o : Z) : Prop := 0 <= o <= 255.

Lemma dec_chars o : 0 <= o -> chars (dec o) = dec_digits 20 o.
Proof.
  intros Ho. unfold dec. rewrite chars_str, (proj2 (Z.ltb_ge o 0)) by lia. by rewrite Z.abs_eq.
Qed.

Lemma dec_digits_fuel f g n : 0 <= n < 10 ^ Z.of_nat f -> 0 <= n < 10 ^ Z.of_nat g -> (0 < f)%nat -> (0 < g)%nat ->
  dec_digits f n = dec_digits g n.
Proof.
  revert g n. induction f as [|f IH]; intros g n Hf Hg H0 H1; [lia|]. destruct g as [|g]; [lia|]. simpl.
  destruct (Z.ltb_spec n 10) as [H|H]; [done|]. f_equal.
  destruct f as [|f]; [simpl in Hf; lia|]. destruct g as [|g]; [simpl in Hg; lia|].
  rewrite Nat2Z.inj_succ, Z.pow_succ_r in Hf by lia. rewrite (Nat2Z.inj_succ (S g)), Z.pow_succ_r in Hg by lia.
  apply IH; try lia; (split; [apply Z.div_pos; lia|apply Z.div_lt_upper_bound; lia]).
Qed.

(** One more digit. *)
Lemma dec_digits_step f n d :
  0 < n -> 0 <= d < 10 -> dec_digits (S f) (n * 10 + d) = dec_digits f n ++ [digit d].
Proof.
  intros Hn Hd. simpl. rewrite (proj2 (Z.ltb_ge _ 10)) by lia.
  rewrite <- (Z.div_unique_pos (n * 10 + d) 10 n d) by lia.
  by rewrite <- (Z.mod_unique_pos (n * 10 + d) 10 n d) by lia.
Qed.

Lemma dec_digits_snoc n d :
  0 < n < 10 ^ 18 -> 0 <= d < 10 -> dec_digits 20 (n * 10 + d) = dec_digits 20 n ++ [digit d].
Proof.
  intros Hn Hd. rewrite dec_digits_step by lia. apply (f_equal (fun l => l ++ [digit d])).
  apply dec_digits_fuel; [| |lia|lia].
  - split; [lia|]. apply (Z.lt_le_trans _ (10 ^ 18)); [lia|]. by apply Z.leb_le.
  - split; [lia|]. apply (Z.lt_le_trans _ (10 ^ 18)); [lia|]. by apply Z.leb_le.
Qed.

Lemma dec_digits_one d : 0 <= d < 10 -> dec_digits 20 d = [digit d].
Proof. intros Hd. simpl. rewrite (proj2 (Z.ltb_lt d 10)) by lia. by rewrite Z.mod_small by lia. Qed.

Lemma digit_of_char ch : is_digit ch = true -> exists d, 0 <= d < 10 /\ ch = digit d /\ byte_val ch - 48 = d.
Proof.
  unfold is_digit. intros H. b2p. exists (byte_val ch - 48). split; [lia|]. split; [|done].
  unfold digit. replace (48 + (byte_val ch - 48)) with (byte_val ch) by lia. symmetry. apply byte_of_val.
Qed.

(** ** Reading what was written *)
Lemma pton_digit d src octets tp (saw : bool) :
  0 <= d < 10 -> (if saw then 0 < tp else (length octets < 4)%nat) -> tp * 10 + d <= 255 ->
  pton_loop (digit d :: src) octets tp saw = pton_loop src octets (tp * 10 + d) true.
Proof.
  intros Hd Hs Hn. cbn [pton_loop]. rewrite is_digit_digit, byte_val_digit by done.
  replace (48 + d - 48) with d by lia. rewrite (proj2 (Z.ltb_ge 255 _)) by lia. destruct saw; cbn [negb andb].
  - by rewrite (proj2 (Z.eqb_neq tp 0)) by lia.
  - by rewrite (proj2 (Nat.leb_gt 4 (length octets))) by lia.
Qed.

Lemma pton_octet o src octets :
  octet o -> (length octets < 4)%nat -> pton_loop (octet_text o ++ src) octets 0 false = pton_loop src octets o true.
Proof.
  unfold octet, octet_text. intros Ho Hl. rewrite dec_chars by lia.
  assert (D : forall n, 0 <= n mod 10 < 10 /\ n = n / 10 * 10 + n mod 10)
    by (intros n; pose proof (Z.mod_pos_bound n 10 ltac:(lia)); pose proof (Z.div_mod n 10); lia).
  destruct (Z.ltb_spec o 10) as [H1|H1].
  { rewrite dec_digits_one by lia. simpl app. by rewrite pton_digit by (done || lia). }
  destruct (D o) as [M1 E1]. destruct (Z.ltb_spec o 100) as [H2|H2].
  { rewrite E1, dec_digits_snoc, dec_digits_one by lia. simpl app.
    rewrite pton_digit by (done || lia). rewrite pton_digit by lia. f_equal; lia. }
  destruct (D (o / 10)) as [M2 E2]. rewrite E1, dec_digits_snoc by lia. rewrite E2 at 1.
  rewrite dec_digits_snoc, dec_digits_one by lia. simpl app.
  rewrite pton_digit by (done || lia). rewrite pton_digit by lia. rewrite pton_digit by lia. f_equal; lia.
Qed.

Lemma ntop_pton a b c d :
  octet a -> octet b -> octet c -> octet d -> inet_pton (chars (inet_ntop [a; b; c; d])) = Some [a; b; c; d].
Proof.
  intros Ha Hb Hc Hd. unfold inet_pton, inet_ntop. rewrite chars_str. cbn [map join_points].
  rewrite pton_octet by (done || simpl; lia). cbn [pton_loop]. change (is_digit point) with false. cbn iota.
  rewrite bool_decide_eq_true_2 by done. cbn [andb length Nat.leb app].
  rewrite pton_octet by (done || simpl; lia). cbn [pton_loop]. change (is_digit point) with false. cbn iota.
  rewrite bool_decide_eq_true_2 by done. cbn [andb length Nat.leb app].
  rewrite pton_octet by (done || simpl; lia). cbn [pton_loop]. change (is_digit point) with false. cbn iota.
  rewrite bool_decide_eq_true_2 by done. cbn [andb length Nat.leb app].
  rewrite <- (app_nil_r (octet_text d)). by rewrite pton_octet by (done || simpl; lia).
Qed.

(** ** Writing what was read *)
Lemma pton_text src : forall octets tp saw res,
  pton_loop src octets tp saw = Some res -> octet tp -> (saw = false -> tp = 0) ->
  exists rs, res = octets ++ rs /\ length res = 4%nat /\ Forall octet rs
    /\ (if saw then octet_text tp else []) ++ src = join_points (map octet_text rs).
Proof.
  induction src as [|ch src IH]; intros octets tp saw res E Ht Hs.
  - simpl in E. destruct saw; [|done]. simpl in E. destruct (Nat.eqb_spec (length octets) 3) as [El|]; [|done].
    injection E as <-. exists [tp]. split; [done|]. rewrite length_app, El. split; [done|]. split; [by constructor|].
    simpl. apply app_nil_r.
  - cbn [pton_loop] in E. destruct (is_digit ch) eqn:Ed.
    + destruct (digit_of_char ch Ed) as (d & Hd & -> & Hv). rewrite Hv in E.
      destruct (saw && (tp =? 0)) eqn:E0; [done|]. destruct (Z.ltb_spec 255 (tp * 10 + d)) as [|Hle]; [done|].
      destruct (negb saw && _); [done|]. unfold octet in Ht.
      destruct (IH _ _ _ _ E) as (rs & -> & Hl & Hf & Htx); [unfold octet; lia|done|].
      exists rs. split; [done|]. split; [done|]. split; [done|]. rewrite <- Htx. unfold octet_text.
      rewrite (dec_chars (tp * 10 + d)) by lia. destruct saw; simpl in E0.
      * b2p. rewrite dec_chars, dec_digits_snoc by lia. by rewrite <- app_assoc.
      * rewrite (Hs eq_refl). simpl Z.add. by rewrite dec_digits_one by lia.
    + destruct (bool_decide (ch = point) && saw) eqn:Ep; [|done]. b2p. subst ch saw.
      destruct (Nat.leb_spec 3 (length octets)) as [|Hl3]; [done|].
      destruct (IH _ _ _ _ E) as (rs & -> & Hl & Hf & Htx); [unfold octet; lia|done|].
      exists (tp :: rs). rewrite <- app_assoc. split; [done|]. split; [by rewrite <- app_assoc in Hl|].
      split; [by constructor|]. rewrite !length_app in Hl. simpl in Hl. destruct rs as [|r rs]; [simpl in Hl; lia|].
      change (src = join_points (map octet_text (r :: rs))) in Htx. rewrite Htx. reflexivity.
Qed.

Lemma pton_ntop src l : inet_pton src = Some l -> length l = 4%nat /\ Forall octet l /\ inet_ntop l = str src.
Proof.
  intros E. destruct (pton_text src [] 0 false l E) as (rs & -> & Hl & Hf & Ht); [unfold octet; lia|done|].
  cbn [app] in *. split; [done|]. split; [done|]. unfold inet_ntop. by rewrite <- Ht.
Qed.

Lemma htons_twice x : htons (htons x) = u16 x.
Proof. unfold htons. by rewrite bswap_involutive. Qed.

Lemma u16_idem x : u16 (u16 x) = u16 x.
Proof. unfold u16. apply Z.mod_mod. lia. Qed.

(** An address text and a port come back as they were given: a text that
    [inet_pton] takes is printed again without a change, every address is
    printed as a text that is read back as the same address, and the port is
    the argument's low 16 bits.  A text that is refused gives 0.0.0.0. *)
Lemma address_roundtrip ip p :
  port (ofIpPort ip p) = u16 p /\ port (listenOn p) = u16 p
  /\ (forall l, inet_pton (chars (c_str ip)) = Some l ->
        toIp (ofIpPort ip p) = c_str ip /\ toIpPort (ofIpPort ip p) = c_str ip +:+ ":" +:+ dec (u16 p))
  /\ (inet_pton (chars (c_str ip)) = None -> toIp (ofIpPort ip p) = "0.0.0.0")
  /\ (forall a b c d, octet a -> octet b -> octet c -> octet d ->
        inet_pton (chars (toIp (mkAddress [a; b; c; d] p))) = Some [a; b; c; d]).
Proof.
  assert (Hp : port (ofIpPort ip p) = u16 p) by (unfold port; simpl; by rewrite htons_twice, u16_idem).
  split; [exact Hp|]. split; [unfold port; simpl; by rewrite htons_twice, u16_idem|].
  split; [|split; [|exact ntop_pton]].
  - intros l E. destruct (pton_ntop _ _ E) as (_ & _ & Et).
    assert (Ei : toIp (ofIpPort ip p) = c_str ip) by (unfold toIp; simpl; rewrite E; simpl; by rewrite Et, str_chars).
    split; [exact Ei|]. unfold toIpPort. fold (toIp (ofIpPort ip p)). by rewrite Ei, Hp.
  - intros E. unfold toIp. simpl. by rewrite E.
Qed.

(** The port of the configuration is converted without a check. *)
Example port_wraps : port (listenOn 70000) = 4464.
Proof. vm_compute. reflexivity. Qed.

Example leading_zero_refused : toIp (ofIpPort "192.168.01.1" 80) = "0.0.0.0".
Proof. vm_compute. reflexivity. Qed.

End address.
