(* ===== verification/Clock.v ===== *)
(** * Clock: time stamps and trace identifiers
      (src/net/timestamp.h, src/net/timestamp.cpp, the clocks of
       src/base/util.cpp and GenerateTraceId of src/infra/traceContext.cpp)

    The answers of [gettimeofday], of [localtime_r] and the hash of the calling
    thread are arguments.  [snprintf] formats integers with [%d], [%4d], [%02d],
    [%04d] and [%06d]. *)
From S2P Require Import Prelude Util Text Auth.
Import util text.

Module clock.

(** ** gettimeofday and the clocks *)
Record timeval := mkTimeval { tv_sec : Z; tv_usec : Z }.

Definition timeval_ok (tv : timeval) : Prop := 0 <= tv_usec tv < 1000000.

(** Integer division of C truncates. *)
Definition GetTimestampMs (tv : timeval) : Z := tv_sec tv * 1000 + Z.quot (tv_usec tv) 1000.
Definition GetTimestampUs (tv : timeval) : Z := tv_sec tv * 1000000 + tv_usec tv.

(** ** Timestamp *)
Record Timestamp := mkTimestamp { m_microSecondsSinceEpoch : Z }.

Definition kMicroSecondsPerSecond : Z := 1000 * 1000.
Definition now (tv : timeval) : Timestamp := mkTimestamp (tv_sec tv * kMicroSecondsPerSecond + tv_usec tv).
Definition invalid : Timestamp := mkTimestamp 0.
Definition valid (t : Timestamp) : bool := 0 <? m_microSecondsSinceEpoch t.
Definition microSecondsSinceEpoch (t : Timestamp) : Z := m_microSecondsSinceEpoch t.
Definition secondsSinceEpoch (t : Timestamp) : Z := Z.quot (m_microSecondsSinceEpoch t) kMicroSecondsPerSecond.
Definition before (lhs rhs : Timestamp) : bool := microSecondsSinceEpoch lhs <? microSecondsSinceEpoch rhs.
Definition same (lhs rhs : Timestamp) : bool := microSecondsSinceEpoch lhs =? microSecondsSinceEpoch rhs.

(** ** snprintf *)
(** [%0wd]: zeros between the sign and the digits; [%wd]: blanks before them. *)
Definition zeros (w : nat) (z : Z) : bytes :=
  let sign := if z <? 0 then ["-"%char] else [] in
  let ds := dec_digits 20 (Z.abs z) in
  sign ++ repeat "0"%char (w - length (sign ++ ds)) ++ ds.
Definition blanks (w : nat) (z : Z) : bytes :=
  let ds := chars (dec z) in repeat " "%char (w - length ds) ++ ds.

(** The buffer keeps the last byte for the terminating NUL. *)
Definition snprintf (size : nat) (text : bytes) : string := str (take (size - 1) text).

Definition toString (t : Timestamp) : string :=
  let seconds := Z.quot (m_microSecondsSinceEpoch t) kMicroSecondsPerSecond in
  let microseconds := Z.rem (m_microSecondsSinceEpoch t) kMicroSecondsPerSecond in
  snprintf 32 (chars (dec seconds) ++ "."%char :: zeros 6 microseconds).

(** [struct tm], as [localtime_r] fills it. *)
Record tm := mkTm { tm_year : Z; tm_mon : Z; tm_mday : Z; tm_hour : Z; tm_min : Z; tm_sec : Z }.

Definition clock_text (t : tm) : bytes :=
  zeros 2 (tm_hour t) ++ ":"%char :: zeros 2 (tm_min t) ++ ":"%char :: zeros 2 (tm_sec t).

Definition toFormattedString (localtime_r : Z -> tm) (showMicroseconds : bool) (ts : Timestamp) : string :=
  let t := localtime_r (Z.quot (m_microSecondsSinceEpoch ts) kMicroSecondsPerSecond) in
  let day := blanks 4 (tm_year t + 1900) ++ zeros 2 (tm_mon t + 1) ++ zeros 2 (tm_mday t) in
  if showMicroseconds then
    let microseconds := Z.rem (m_microSecondsSinceEpoch ts) kMicroSecondsPerSecond in
    snprintf 64 (day ++ " "%char :: clock_text t ++ "."%char :: zeros 6 microseconds)
  else snprintf 64 (day ++ " "%char :: clock_text t).

Definition GetTimestampString (localtime_r : Z -> tm) (tv : timeval) : string :=
  let t := localtime_r (tv_sec tv) in
  snprintf 64 (zeros 4 (tm_year t + 1900) ++ "-"%char :: zeros 2 (tm_mon t + 1) ++ "-"%char :: zeros 2 (tm_mday t)
    ++ " "%char :: clock_text t ++ "."%char :: zeros 6 (tv_usec tv)).

(** ** GenerateTraceId *)
(** [counter] is [g_traceCounter], a [uint64_t] that starts at 1. *)
Definition GenerateTraceId (tv : timeval) (thread counter : Z) : string * Z :=
  (auth.hex (GetTimestampUs tv) +:+ "-" +:+ auth.hex counter +:+ "-" +:+ auth.hex thread, u64 (counter + 1)).

(** Identifiers made one after the other, on any threads. *)
Fixpoint trace_ids (calls : list (timeval * Z)) (counter : Z) : list string :=
  match calls with
  | [] => []
  | (tv, thread) :: calls =>
    let '(id, counter) := GenerateTraceId tv thread counter in id :: trace_ids calls counter
  end.

(** ** The clocks agree *)
Lemma clocks_agree tv : timeval_ok tv ->
  GetTimestampMs tv = GetTimestampUs tv / 1000 /\ m_microSecondsSinceEpoch (now tv) = GetTimestampUs tv.
Proof.
  unfold timeval_ok, GetTimestampMs, GetTimestampUs, now, kMicroSecondsPerSecond. intros H. split; [|done].
  rewrite Z.quot_div_nonneg by lia.
  replace (tv_sec tv * 1000000 + tv_usec tv) with (tv_usec tv + (tv_sec tv * 1000) * 1000) by lia.
  rewrite Z.div_add by lia. lia.
Qed.

(** ** Time stamps as text *)
Lemma read_digits_zeros k ds : ds <> [] -> (forall c, c ∈ ds -> is_digit c = true) ->
  read_digits None (repeat "0"%char k ++ ds) = read_digits None ds.
Proof.
  intros Hne Hd. assert (H : forall k acc, acc = None \/ acc = Some 0 ->
    read_digits acc (repeat "0"%char k ++ ds) = read_digits None ds).
  { clear k. induction k as [|k IH]; intros acc Ha; simpl.
    - destruct ds as [|c ds]; [done|]. simpl. rewrite Hd by set_solver. by destruct Ha as [->| ->].
    - apply IH. right. by destruct Ha as [->| ->]. }
  apply H. by left.
Qed.

Lemma zeros_read m : 0 <= m < 1000000 -> length (zeros 6 m) = 6%nat /\ read_digits None (zeros 6 m) = Some m.
Proof.
  intros Hm. unfold zeros. rewrite (proj2 (Z.ltb_ge m 0)), Z.abs_eq by lia. cbn [app].
  pose proof (length_dec_digits 20 6 m ltac:(simpl; lia) ltac:(lia)) as Hl. split.
  - rewrite length_app, repeat_length. lia.
  - rewrite read_digits_zeros.
    + apply read_digits_dec; [|lia]. split; [lia|]. apply (Z.lt_le_trans _ 1000000); [lia|]. by apply Z.leb_le.
    + apply dec_digits_nonempty. lia.
    + apply Forall_forall, dec_digits_digits. lia.
Qed.

(** The text of a time stamp is its seconds, a point and six digits of
    microseconds, and is never cut. *)
Lemma timestamp_reads_back t :
  0 <= t < 2 ^ 63 ->
  exists frac, chars (toString (mkTimestamp t)) = chars (dec (t / 1000000)) ++ "."%char :: frac
    /\ length frac = 6%nat /\ read_digits None frac = Some (t mod 1000000)
    /\ stoll (toString (mkTimestamp t)) = Ok (secondsSinceEpoch (mkTimestamp t)).
Proof.
  intros Ht. exists (zeros 6 (t mod 1000000)).
  destruct (zeros_read (t mod 1000000)) as [Hl Hr]; [apply Z.mod_pos_bound; lia|].
  assert (Hs : 0 <= t / 1000000 < 10 ^ Z.of_nat 13).
  { split; [apply Z.div_pos; lia|]. apply Z.div_lt_upper_bound; [lia|]. apply (Z.lt_le_trans _ (2 ^ 63)); [lia|]. by apply Z.leb_le. }
  assert (E : chars (toString (mkTimestamp t)) = chars (dec (t / 1000000)) ++ "."%char :: zeros 6 (t mod 1000000)).
  { unfold toString, snprintf, kMicroSecondsPerSecond. rewrite chars_str. cbn [m_microSecondsSinceEpoch].
    change (1000 * 1000) with 1000000. rewrite Z.quot_div_nonneg, Z.rem_mod_nonneg by lia.
    apply take_ge. rewrite length_app. cbn [length]. rewrite Hl. unfold dec. rewrite chars_str, length_app.
    rewrite (proj2 (Z.ltb_ge _ 0)), Z.abs_eq by lia. pose proof (length_dec_digits 20 13 _ Hs ltac:(lia)). cbn [app length] in *. lia. }
  split; [exact E|]. split; [exact Hl|]. split; [exact Hr|].
  assert (Es : toString (mkTimestamp t) = dec (t / 1000000) +:+ str ("."%char :: zeros 6 (t mod 1000000))).
  { rewrite <- (str_chars (toString _)), E, <- (str_chars (dec _ +:+ _)), chars_app, chars_str. done. }
  unfold stoll. rewrite Es, strto_dec_tail; [|rewrite Z.abs_eq by lia; apply (Z.lt_le_trans _ (10 ^ Z.of_nat 13)); [lia|by apply Z.leb_le]|done].
  rewrite (proj2 (Z.ltb_ge _ 0)), Z.abs_eq by lia. unfold secondsSinceEpoch, kMicroSecondsPerSecond.
  cbn [m_microSecondsSinceEpoch]. change (1000 * 1000) with 1000000. rewrite Z.quot_div_nonneg by lia.
  assert (t / 1000000 < 2 ^ 63) by (apply (Z.lt_le_trans _ (10 ^ Z.of_nat 13)); [lia|by apply Z.leb_le]).
  by rewrite (proj2 (Z.leb_le _ _)), (proj2 (Z.ltb_lt _ _)) by lia.
Qed.

(** ** Hexadecimal numbers are told apart *)
Definition hex_value (c : ascii) : Z := if byte_val c <? 58 then byte_val c - 48 else byte_val c - 87.
Definition read_hex (l : bytes) : Z := foldl (fun n c => 16 * n + hex_value c) 0 l.

Lemma hex_digit_value d : 0 <= d < 16 -> hex_value (auth.hex_digit d) = d /\ auth.hex_digit d <> "-"%char.
Proof.
  intros Hd. assert (H : forall n, (n < 16)%nat -> hex_value (auth.hex_digit (Z.of_nat n)) = Z.of_nat n
    /\ auth.hex_digit (Z.of_nat n) <> "-"%char).
  { intros n Hn. do 16 (destruct n as [|n]; [vm_compute; split; [reflexivity|discriminate]|]). lia. }
  specialize (H (Z.to_nat d)). rewrite Z2Nat.id in H by lia. apply H. lia.
Qed.

Lemma hex_digits_read fuel : forall z acc, 0 <= z < 16 ^ Z.of_nat fuel -> (0 < fuel)%nat ->
  exists ds, auth.hex_digits fuel z acc = ds ++ acc /\ read_hex ds = z /\ Forall (fun c => c <> "-"%char) ds.
Proof.
  induction fuel as [|f IH]; intros z acc Hz Hf; [lia|]. simpl.
  pose proof (Z.mod_pos_bound z 16 ltac:(lia)) as Hm. pose proof (Z.div_mod z 16 ltac:(lia)) as Hd.
  destruct (hex_digit_value (z mod 16) Hm) as [Hv Hn].
  destruct (Z.eqb_spec (z / 16) 0) as [E|E].
  - exists [auth.hex_digit (z mod 16)]. split; [done|]. split; [unfold read_hex; simpl; lia|by constructor].
  - rewrite Nat2Z.inj_succ, Z.pow_succ_r in Hz by lia.
    assert (Hq : 0 <= z / 16) by (apply Z.div_pos; lia).
    assert (Hlt : z / 16 < 16 ^ Z.of_nat f) by (apply Z.div_lt_upper_bound; lia).
    destruct f as [|f]; [simpl in Hlt; lia|].
    destruct (IH (z / 16) (auth.hex_digit (z mod 16) :: acc)) as (ds & -> & Hr & Hf'); [lia|lia|].
    exists (ds ++ [auth.hex_digit (z mod 16)]). rewrite <- app_assoc. split; [done|].
    split; [unfold read_hex in *; rewrite foldl_app; simpl; lia|]. apply Forall_app. split; [done|by constructor].
Qed.

Lemma hex_read z : 0 <= z < 2 ^ 64 ->
  read_hex (chars (auth.hex z)) = z /\ "-"%char ∉ chars (auth.hex z).
Proof.
  intros Hz. unfold auth.hex. rewrite chars_str. rewrite u64_small by done.
  destruct (hex_digits_read 16 z []) as (ds & -> & Hr & Hf); [change (16 ^ Z.of_nat 16) with (2 ^ 64); lia|lia|].
  rewrite app_nil_r. split; [done|]. intros Hin. rewrite Forall_forall in Hf. by apply (Hf _ Hin).
Qed.

Lemma hex_u64 z : auth.hex z = auth.hex (u64 z).
Proof. unfold auth.hex, u64. by rewrite Z.mod_mod by lia. Qed.

(** The counter of an identifier can be read from it. *)
Lemma trace_id_counter tv thread c :
  0 <= c < 2 ^ 64 ->
  exists first last, getline_all "-"%char [] (chars (GenerateTraceId tv thread c).1)
    = first :: chars (auth.hex c) :: last.
Proof.
  intros Hc. simpl fst. rewrite (hex_u64 (GetTimestampUs tv)), !chars_app.
  assert (H : forall z, "-"%char ∉ chars (auth.hex (u64 z))).
  { intros z. apply hex_read. unfold u64. apply Z.mod_pos_bound. lia. }
  change (chars "-") with ["-"%char]. cbn [app].
  rewrite getline_line by apply H. rewrite getline_line by apply (hex_read c Hc). by eexists _, _.
Qed.

Lemma trace_ids_from calls c id :
  0 <= c -> c + Z.of_nat (length calls) < 2 ^ 64 -> id ∈ trace_ids calls c ->
  exists k tv thread, c <= k < c + Z.of_nat (length calls) /\ id = (GenerateTraceId tv thread k).1.
Proof.
  revert c. induction calls as [|[tv thread] calls IH]; intros c H0 Hc Hin; cbn [trace_ids length] in *; [by apply not_elem_of_nil in Hin|].
  cbn [GenerateTraceId] in Hin. apply elem_of_cons in Hin as [->|Hin]; [exists c, tv, thread; split; [lia|done]|].
  rewrite u64_small in Hin by lia. destruct (IH (c + 1) ltac:(lia) ltac:(lia) Hin) as (k & tv' & th & Hk & E).
  exists k, tv', th. split; [lia|done].
Qed.

(** Trace identifiers are distinct: whatever the clock says, whichever threads
    ask and however their calls interleave, no two calls of one process get the
    same identifier (the counter has 64 bits). *)
Lemma trace_ids_distinct calls c :
  0 <= c -> c + Z.of_nat (length calls) < 2 ^ 64 -> NoDup (trace_ids calls c).
Proof.
  revert c. induction calls as [|[tv thread] calls IH]; intros c H0 Hc; cbn [trace_ids length] in *; [constructor|].
  cbn [GenerateTraceId]. rewrite u64_small by lia. constructor; [|apply IH; lia].
  intros Hin. destruct (trace_ids_from calls (c + 1) _ ltac:(lia) ltac:(lia) Hin) as (k & tv' & th & Hk & E).
  destruct (trace_id_counter tv thread c) as (f1 & l1 & E1); [lia|].
  destruct (trace_id_counter tv' th k) as (f2 & l2 & E2); [lia|].
  cbn [GenerateTraceId fst] in E, E1, E2. rewrite E, E2 in E1. injection E1 as _ E1 _.
  assert (k = c); [|lia]. rewrite <- (proj1 (hex_read k ltac:(lia))), <- (proj1 (hex_read c ltac:(lia))). congruence.
Qed.

End clock.
