(* ===== verification/StoreSpec.v ===== *)
(** * StoreSpec: the message log both stores implement

    An abstract store is a list of messages in the order they were saved and a
    map of acknowledged sequence numbers.  [valid_op] is the domain on which
    the two stores of messageStore.cpp agree with it; its clauses are the
    points where they differ otherwise.  This file shows that the in-memory
    store implements the log on that domain; MySqlRefines.v shows it of the
    MySQL store. *)
From Stdlib Require Import Sorting.Sorted.
From S2P Require Import Prelude Protocol MessageStore.
Import protocol storage.

Module log.

Record Log := mkLog { entries : list StoredMessage; acked_upto : gmap string Z }.

Definition emptyLog : Log := mkLog [] ∅.

(** What a caller sees of an operation; errors without their text. *)
Inductive answer :=
| ASave (r : option (StoredMessage * bool))
| AMark (ok : bool)
| AAck (ok : bool) (last : Z)
| ALoad (l : list StoredMessage) (next : Z) (ok : bool)
| ALast (last : Z).

Definition sent_to (u : string) (l : list StoredMessage) : list StoredMessage :=
  filter (fun m => receiverId m = u) l.

Definition same_request (from cid : string) (m : StoredMessage) : bool :=
  bool_decide (n_fromUserId (notify m) = from) && bool_decide (n_clientMsgId (notify m) = cid).

(** Not acknowledged. *)
Definition unacked (m : StoredMessage) : bool :=
  match status m with DeliveryDelivered | DeliveryRead => false | _ => true end.

Definition new_entry (req : CreateMessageRequest) (L : Log) : StoredMessage :=
  mkStoredMessage
    (mkP2PMsgNotify (Z.of_nat (length (entries L)) + 1)
       (Z.of_nat (length (sent_to (req_toUserId req) (entries L))) + 1)
       (req_fromUserId req) (req_toUserId req) (req_clientMsgId req) (req_content req) (req_timestamp req))
    DeliveryPersisted (req_toUserId req) (req_timestamp req) 0 0 0.

Definition on_id (id : Z) (f : StoredMessage -> StoredMessage) (L : Log) : Log :=
  mkLog (map (fun m => if msgId m =? id then f m else m) (entries L)) (acked_upto L).

Definition held (r : string) (id : Z) (m : StoredMessage) : bool :=
  (msgId m =? id) && bool_decide (receiverId m = r).

Definition to_deliver (r : string) (after : Z) (L : Log) : list StoredMessage :=
  filter (fun m => after < seqOf m /\ awaits m = true) (sent_to r (entries L)).

Definition log_step (op : mem_op) (L : Log) : answer * Log :=
  match op with
  | OpSave req =>
    match find (same_request (req_fromUserId req) (req_clientMsgId req)) (entries L) with
    | Some m => (ASave (Some (m, true)), L)
    | None => let m := new_entry req L in
              (ASave (Some (m, false)), mkLog (entries L ++ [m]) (acked_upto L))
    end
  | OpMark r id st at_ n => (AMark true, on_id id (attempted st at_ n) L)
  | OpAck r id seq code at_ =>
    let last := at_default r (acked_upto L) in
    if existsb (fun m => held r id m && (seqOf m =? seq)) (entries L) then
      (AAck true (Z.max last seq),
       mkLog (entries (on_id id (acked code at_) L)) (<[r := Z.max last seq]> (acked_upto L)))
    else (AAck false last, L)
  | OpLoad r after limit =>
    let l := take (Z.to_nat limit) (to_deliver r after L) in
    (ALoad l (match list.last l with None => after | Some m => seqOf m + 1 end) true, L)
  | OpLast r => (ALast (at_default r (acked_upto L)), L)
  end.

(** ** Where the stores agree *)
Definition fits64 (z : Z) : Prop := 0 <= z < 2 ^ 64.
Definition time64 (z : Z) : Prop := - 2 ^ 63 <= z < 2 ^ 63.

(** A save has a client identifier, a sender name without '#', and repeats a
    request only to the same receiver; an attempt is recorded for a message of
    the receiver that is not acknowledged, and does not claim that it is; a
    pull asks for at least one message. *)
Definition valid_op (op : mem_op) (L : Log) : Prop :=
  match op with
  | OpSave req =>
    req_clientMsgId req <> "" /\ "#"%char ∉ chars (req_fromUserId req) /\ time64 (req_timestamp req)
    /\ Z.of_nat (length (entries L)) + 2 < 2 ^ 64
    /\ Forall (fun m => same_request (req_fromUserId req) (req_clientMsgId req) m = true ->
                        receiverId m = req_toUserId req) (entries L)
  | OpMark r id st at_ n =>
    existsb (fun m => held r id m && unacked m) (entries L) = true
    /\ st ∈ [DeliveryPersisted; DeliveryDelivering; DeliveryFailed]
    /\ fits64 id /\ time64 at_ /\ 0 <= n < 2 ^ 32
  | OpAck r id seq code at_ => fits64 id /\ fits64 seq /\ 0 <= code < 2 ^ 32 /\ time64 at_
  | OpLoad r after limit => fits64 after /\ 0 < limit < 2 ^ 64
  | OpLast r => True
  end.

#[export] Instance fits64_dec z : Decision (fits64 z).
Proof. unfold fits64. apply _. Defined.
#[export] Instance time64_dec z : Decision (time64 z).
Proof. unfold time64. apply _. Defined.
#[export] Instance valid_op_dec op L : Decision (valid_op op L).
Proof. destruct op; simpl; apply _. Defined.

(** ** The invariant of the log *)
Definition older (m n : StoredMessage) : Prop :=
  msgId m < msgId n /\ (receiverId m = receiverId n -> seqOf m < seqOf n).

Record entry_ok (l : list StoredMessage) (m : StoredMessage) : Prop := {
  eo_id : 1 <= msgId m <= Z.of_nat (length l);
  eo_seq : 1 <= seqOf m <= Z.of_nat (length (sent_to (receiverId m) l));
  eo_cid : n_clientMsgId (notify m) <> "";
  eo_from : "#"%char ∉ chars (n_fromUserId (notify m));
  eo_acked : unacked m = true -> ackedAt m = 0;
  eo_status : status m <> DeliveryCreated;
}.

Record log_ok (L : Log) : Prop := {
  lo_sorted : StronglySorted older (entries L);
  lo_entry : Forall (entry_ok (entries L)) (entries L);
  lo_unique : forall m n, m ∈ entries L -> n ∈ entries L ->
    n_fromUserId (notify m) = n_fromUserId (notify n) ->
    n_clientMsgId (notify m) = n_clientMsgId (notify n) -> msgId m = msgId n;
  lo_len : Z.of_nat (length (entries L)) + 1 < 2 ^ 64;
}.

Lemma sent_to_app u l l' : sent_to u (l ++ l') = sent_to u l ++ sent_to u l'.
Proof. apply filter_app. Qed.

Lemma sent_to_snoc u l m :
  sent_to u (l ++ [m]) = if decide (receiverId m = u) then sent_to u l ++ [m] else sent_to u l.
Proof.
  rewrite sent_to_app. unfold sent_to at 2. rewrite filter_cons, filter_nil.
  case_decide; [done|]. by rewrite app_nil_r.
Qed.

Lemma sent_to_le u l : (length (sent_to u l) <= length l)%nat.
Proof. apply length_filter. Qed.

(** Replacing a message by one with the same identity. *)
Definition same_identity (f : StoredMessage -> StoredMessage) : Prop :=
  forall m, notify (f m) = notify m /\ receiverId (f m) = receiverId m.

Definition touch (id : Z) (f : StoredMessage -> StoredMessage) (m : StoredMessage) : StoredMessage :=
  if msgId m =? id then f m else m.

Lemma touch_identity id f : same_identity f -> same_identity (touch id f).
Proof. intros Hf m. unfold touch. case_if; [apply Hf|done]. Qed.

Lemma sent_to_map u g l : same_identity g -> sent_to u (map g l) = map g (sent_to u l).
Proof.
  intros Hg. unfold sent_to. induction l as [|m l IH]; [done|]. simpl map. rewrite !filter_cons, (proj2 (Hg m)).
  case_decide; simpl; by rewrite IH.
Qed.

Lemma sorted_unique l m n : StronglySorted older l -> m ∈ l -> n ∈ l -> msgId m = msgId n -> m = n.
Proof.
  induction 1 as [|x l Hs IH Hx]; intros Hm Hn E; [by apply elem_of_nil in Hm|].
  rewrite Forall_forall in Hx.
  apply elem_of_cons in Hm as [->|Hm]; apply elem_of_cons in Hn as [->|Hn]; auto.
  - pose proof (Hx _ Hn) as [Hlt _]. lia.
  - pose proof (Hx _ Hm) as [Hlt _]. lia.
Qed.

Lemma map_sorted g l : same_identity g -> StronglySorted older l -> StronglySorted older (map g l).
Proof.
  intros Hg. induction 1 as [|x l Hs IH Hx]; simpl; constructor; [done|].
  rewrite Forall_map. apply (Forall_impl _ _ _ Hx). intros n [Hl Hr]. unfold older.
  destruct (Hg x) as [-> ->], (Hg n) as [-> ->]. done.
Qed.

Lemma log_update L id f :
  log_ok L -> same_identity f ->
  Forall (fun m => msgId m = id -> (unacked (f m) = true -> ackedAt (f m) = 0)
                   /\ status (f m) <> DeliveryCreated) (entries L) ->
  log_ok (on_id id f L).
Proof.
  intros [Hs He Hu Hl] Hf Hgood. pose proof (touch_identity id f Hf) as Ht.
  assert (G : forall m, m ∈ entries (on_id id f L) -> exists m0, m0 ∈ entries L
            /\ m = touch id f m0).
  { intros m (m0 & -> & Hm0)%list_elem_of_fmap. eauto. }
  split.
  - by apply map_sorted.
  - apply Forall_forall. intros m Hm. destruct (G m Hm) as (m0 & H0 & ->).
    rewrite Forall_forall in He, Hgood. destruct (He _ H0) as [E1 E2 E3 E4 E5 E6]. destruct (Ht m0) as [En Er].
    split.
    + rewrite En. simpl. by rewrite length_map.
    + rewrite En, Er. simpl. rewrite (sent_to_map _ _ _ Ht), length_map. done.
    + by rewrite En.
    + by rewrite En.
    + unfold touch. case_if; b2p; [by apply Hgood|done].
    + unfold touch. case_if; b2p; [by apply Hgood|done].
  - intros m n Hm Hn. destruct (G m Hm) as (m0 & H0 & ->), (G n Hn) as (n0 & H1 & ->).
    destruct (Ht m0) as [-> _], (Ht n0) as [-> _]. by apply Hu.
  - simpl. by rewrite length_map.
Qed.

Lemma find_none_app from cid l m :
  find (same_request from cid) l = None ->
  find (same_request from cid) (l ++ [m]) = if same_request from cid m then Some m else None.
Proof. intros E. induction l as [|x l IH]; simpl in *; [done|]. destruct (same_request from cid x); auto. done. Qed.

Lemma find_some_app {A} (p : A -> bool) l l' x : find p l = Some x -> find p (l ++ l') = Some x.
Proof. induction l as [|y l IH]; simpl; [done|]. by case_if. Qed.

Lemma find_map {A} (p : A -> bool) (g : A -> A) l :
  (forall x, p (g x) = p x) -> find p (map g l) = g <$> find p l.
Proof. intros Hp. induction l as [|x l IH]; simpl; [done|]. rewrite Hp. by case_if. Qed.

Lemma same_request_true from cid m :
  same_request from cid m = true <-> n_fromUserId (notify m) = from /\ n_clientMsgId (notify m) = cid.
Proof. unfold same_request. by rewrite andb_true_iff, !bool_decide_eq_true. Qed.

Lemma log_save_ok req L :
  log_ok L -> valid_op (OpSave req) L ->
  find (same_request (req_fromUserId req) (req_clientMsgId req)) (entries L) = None ->
  log_ok (mkLog (entries L ++ [new_entry req L]) (acked_upto L)).
Proof.
  intros [Hs He Hu Hl] (Hcid & Hfrom & _ & Hroom & _) Hf. set (m := new_entry req L).
  rewrite Forall_forall in He.
  assert (Hnew : forall n, n ∈ entries L -> ~ (n_fromUserId (notify n) = req_fromUserId req
                  /\ n_clientMsgId (notify n) = req_clientMsgId req)).
  { intros n Hn Hsame. apply same_request_true in Hsame.
    pose proof (List.find_none _ _ Hf n (proj1 (list_elem_of_In _ _) Hn)). congruence. }
  split; simpl.
  - clear -Hs He. assert (G : Forall (fun n => older n m) (entries L)).
    { apply Forall_forall. intros n Hn. destruct (He n Hn) as [E1 E2 _ _ _ _]. split; simpl; [lia|].
      intros Hr. rewrite <- Hr. lia. }
    clear He. induction Hs as [|x l Hs IH Hx]; simpl; [repeat constructor|].
    inversion G; subst. constructor; [by apply IH|]. apply Forall_app. by split; [|constructor].
  - rewrite Forall_app, Forall_singleton. split.
    + apply Forall_forall. intros n Hn. destruct (He n Hn) as [E1 E2 E3 E4 E5 E6]. split; try done.
      * rewrite length_app. lia.
      * rewrite sent_to_app, length_app. lia.
    + split; simpl; try done.
      * rewrite length_app. simpl. lia.
      * rewrite sent_to_snoc, decide_True, length_app by done. simpl. lia.
  - intros x y Hx Hy E1 E2.
    apply elem_of_app in Hx as [Hx|Hx%list_elem_of_singleton];
    apply elem_of_app in Hy as [Hy|Hy%list_elem_of_singleton]; subst; auto.
    + exfalso. by apply (Hnew x Hx).
    + exfalso. by apply (Hnew y Hy).
  - rewrite length_app. simpl. lia.
Qed.

Lemma attempted_identity st at_ n : same_identity (attempted st at_ n).
Proof. done. Qed.
Lemma acked_identity code at_ : same_identity (acked code at_).
Proof. done. Qed.

Lemma held_elem r id (p : StoredMessage -> bool) L :
  existsb (fun m => held r id m && p m) (entries L) = true ->
  exists m, m ∈ entries L /\ msgId m = id /\ receiverId m = r /\ p m = true.
Proof.
  intros (m & Hm & E)%existsb_exists. b2p. unfold held in H. b2p.
  exists m. splits; try done. by apply list_elem_of_In.
Qed.

(** The invariant holds after every valid operation. *)
Lemma log_step_ok op L : log_ok L -> valid_op op L -> log_ok (log_step op L).2.
Proof.
  intros HL Hv. destruct op as [req|r id st at_ n|r id seq code at_|r after limit|r]; simpl; [| | |done|done].
  - destruct (find _ (entries L)) eqn:E; [done|]. by apply log_save_ok.
  - destruct Hv as (Hh & Hst & _). apply held_elem in Hh as (m & Hm & Hid & _ & Hun).
    apply log_update; [done|apply attempted_identity|]. apply Forall_forall. intros n' Hn' E. split.
    + intros _. simpl. assert (n' = m) as -> by (apply (sorted_unique (entries L)); [apply HL|..]; congruence).
      pose proof (lo_entry _ HL) as F. rewrite Forall_forall in F. by apply (F m Hm).
    + simpl. set_solver.
  - destruct (existsb _ (entries L)); [|done]. simpl.
    assert (G : log_ok (on_id id (acked code at_) L)).
    { apply log_update; [done|apply acked_identity|]. apply Forall_forall. intros m _ _.
      unfold unacked, acked, ack_status. simpl. case_if; by split. }
    destruct G. by split.
Qed.

(** ** The in-memory store implements the log *)
Definition mem_answer (op : mem_op) (s : InMemoryMessageStore) : answer * InMemoryMessageStore :=
  match op with
  | OpSave req =>
    let '(r, s') := mem_saveMessageAndDelivery req s in
    (ASave (match r with inr x => Some x | inl _ => None end), s')
  | OpMark r id st at_ n =>
    let '(e, s') := mem_markDeliveryAttempt r id st at_ n s in (AMark (bool_decide (e = None)), s')
  | OpAck r id seq code at_ =>
    let '((e, last), s') := mem_markAcked r id seq code at_ s in (AAck (bool_decide (e = None)) last, s')
  | OpLoad r after limit =>
    let '((l, next, e), s') := mem_loadPendingMessages r after limit s in (ALoad l next (bool_decide (e = "")), s')
  | OpLast r => let '(v, s') := mem_getLastAckedSeq r s in (ALast v, s')
  end.

Record mem_shows (s : InMemoryMessageStore) (L : Log) : Prop := {
  sh_inv : mem_inv s;
  sh_next : m_nextMsgId s = Z.of_nat (length (entries L)) + 1;
  sh_cursor : forall u, at_default u (m_nextServerSeqByUser s) = Z.of_nat (length (sent_to u (entries L)));
  sh_msgs : forall id m, m_messages s !! id = Some m <-> m ∈ entries L /\ msgId m = id;
  sh_pending : forall u, pending s u
    = map (fun m => msgId m) (filter (fun m => unacked m = true) (sent_to u (entries L)));
  sh_index : forall from cid, "#"%char ∉ chars from -> cid <> "" ->
    m_clientMsgDedupIndex s !! makeDedupKey from cid
    = (fun m => msgId m) <$> find (same_request from cid) (entries L);
  sh_last : forall u, at_default u (m_lastAckedSeqByUser s) = at_default u (acked_upto L);
}.

Lemma split_at_unique {A} (x : A) l1 l2 k1 k2 :
  x ∉ l1 -> x ∉ k1 -> l1 ++ x :: l2 = k1 ++ x :: k2 -> l1 = k1 /\ l2 = k2.
Proof.
  revert k1; induction l1 as [|a l1 IH]; intros [|b k1] Hl Hk E; simplify_eq/=; try set_solver.
  destruct (IH k1) as [-> ->]; set_solver.
Qed.

Lemma chars_inj a b : chars a = chars b -> a = b.
Proof. intros E. by rewrite <- (str_chars a), <- (str_chars b), E. Qed.

Lemma dedup_key_inj f1 c1 f2 c2 :
  "#"%char ∉ chars f1 -> "#"%char ∉ chars f2 -> c1 <> "" -> c2 <> "" ->
  makeDedupKey f1 c1 = makeDedupKey f2 c2 -> f1 = f2 /\ c1 = c2.
Proof.
  intros H1 H2 N1 N2. unfold makeDedupKey. rewrite !bool_decide_eq_false_2 by done. intros E.
  apply (f_equal (fun s => chars s)) in E. rewrite !chars_app in E. simpl in E.
  apply split_at_unique in E as [E1 E2]; [|done|done]. split; by apply chars_inj.
Qed.

Lemma dedup_key_nonempty f c : c <> "" -> makeDedupKey f c <> "".
Proof. intros Hc. unfold makeDedupKey. rewrite bool_decide_eq_false_2 by done. by destruct f. Qed.

Lemma newMem_shows : mem_shows newMem emptyLog.
Proof.
  split; try done; [apply newMem_inv|]. intros id m. simpl. rewrite lookup_empty, elem_of_nil. naive_solver.
Qed.

(** A found request is the stored message. *)
Lemma mem_finds s L from cid :
  mem_shows s L -> "#"%char ∉ chars from -> cid <> "" ->
  mem_lookup_dup (makeDedupKey from cid) s = find (same_request from cid) (entries L).
Proof.
  intros Hs Hf Hc. unfold mem_lookup_dup. rewrite bool_decide_eq_false_2 by (by apply dedup_key_nonempty).
  rewrite (sh_index _ _ Hs) by done. destruct (find _ (entries L)) as [m|] eqn:E; [|done]. simpl.
  apply (sh_msgs _ _ Hs). split; [|done]. apply find_some in E as [E _]. by apply list_elem_of_In.
Qed.

Lemma mem_save_shows req s L :
  mem_shows s L -> log_ok L -> valid_op (OpSave req) L ->
  (mem_answer (OpSave req) s).1 = (log_step (OpSave req) L).1
  /\ mem_shows (mem_answer (OpSave req) s).2 (log_step (OpSave req) L).2.
Proof.
  intros Hs HL Hv. pose proof Hv as (Hcid & Hfrom & _ & Hroom & _).
  assert (Hr : mem_room s) by (unfold mem_room; rewrite (sh_next _ _ Hs); lia).
  pose proof (save_inv req s (sh_inv _ _ Hs) Hr) as Hinv.
  pose proof (mem_finds s L _ _ Hs Hfrom Hcid) as Hfind.
  simpl. destruct (save_cases req s (sh_inv _ _ Hs) Hr) as [(m & Em & E)|(Em & E)];
    rewrite E in *; rewrite Hfind in Em; rewrite Em; simpl; [done|].
  assert (Hm : fresh_message req s = new_entry req L).
  { unfold fresh_message, new_entry. by rewrite (sh_next _ _ Hs), (sh_cursor _ _ Hs). }
  change (at_default (req_toUserId req) (m_nextServerSeqByUser s) + 1) with (seqOf (fresh_message req s)).
  rewrite Hm. split; [done|]. cbn [snd] in Hinv. rewrite Hm in Hinv. set (m := new_entry req L) in *.
  split; [exact Hinv|..]; simpl.
  - rewrite length_app, (sh_next _ _ Hs). simpl. lia.
  - intros u. rewrite at_default_insert, sent_to_snoc, (sh_cursor _ _ Hs).
    change (receiverId m) with (req_toUserId req). destruct (decide (req_toUserId req = u)) as [Hu|Hu]; [|done].
    subst u. change (seqOf m) with
      (Z.of_nat (length (sent_to (req_toUserId req) (entries L))) + 1). rewrite length_app. simpl. lia.
  - intros id n. rewrite elem_of_app, list_elem_of_singleton, lookup_insert_Some, (sh_msgs _ _ Hs), (sh_next _ _ Hs).
    pose proof (lo_entry _ HL) as He. rewrite Forall_forall in He. split.
    + intros [[<- <-]|[_ [? ?]]]; auto.
    + intros [[Hn|Hn] Hid].
      * right. split; [|done]. destruct (He n Hn). lia.
      * left. subst n. done.
  - intros u. unfold pending. simpl. rewrite lookup_insert, sent_to_snoc.
    change (receiverId m) with (req_toUserId req). pose proof (sh_pending _ _ Hs u) as Hp. unfold pending in Hp.
    destruct (decide (req_toUserId req = u)) as [Hu|Hu]; simpl; [|done].
    subst u. rewrite Hp, filter_app, map_app, filter_cons_True, filter_nil by done. simpl.
    by rewrite (sh_next _ _ Hs).
  - intros from cid Hf Hc. rewrite bool_decide_eq_false_2 by (by apply dedup_key_nonempty).
    rewrite lookup_insert.
    destruct (decide (makeDedupKey (req_fromUserId req) (req_clientMsgId req) = makeDedupKey from cid)) as [Hk|Hk].
    + apply dedup_key_inj in Hk as [<- <-]; try done. rewrite find_none_app by done.
      rewrite (proj2 (same_request_true _ _ m)) by done. simpl. by rewrite (sh_next _ _ Hs).
    + rewrite (sh_index _ _ Hs) by done. destruct (find (same_request from cid) (entries L)) as [x|] eqn:Ex.
      * by rewrite (find_some_app _ _ _ _ Ex).
      * rewrite find_none_app by done. destruct (same_request from cid m) eqn:Es; [|done].
        apply same_request_true in Es as [<- <-]. done.
  - intros u. apply (sh_last _ _ Hs).
Qed.

Lemma filter_ext_elem {A} (P Q : A -> Prop) `{forall x, Decision (P x), forall x, Decision (Q x)} (l : list A) :
  (forall x, x ∈ l -> P x <-> Q x) -> filter P l = filter Q l.
Proof.
  induction l as [|x l IH]; intros E; [done|]. rewrite !filter_cons, IH by set_solver.
  pose proof (E x ltac:(by left)) as Ex. do 2 case_decide; tauto.
Qed.

Lemma touch_msgs s L id f m :
  mem_shows s L -> log_ok L -> same_identity f -> m ∈ entries L -> msgId m = id ->
  forall i n, <[id := f m]> (m_messages s) !! i = Some n <-> n ∈ entries (on_id id f L) /\ msgId n = i.
Proof.
  intros Hs HL Hf Hm Hid i n. simpl. fold (touch id f). rewrite lookup_insert_Some, (sh_msgs _ _ Hs).
  pose proof (touch_identity id f Hf) as Ht. split.
  - intros [[<- <-]|[Hne [Hn Hi]]].
    + split; [|destruct (Hf m) as [-> _]; done]. apply list_elem_of_fmap. exists m. split; [|done].
      unfold touch. by rewrite (proj2 (Z.eqb_eq _ _) Hid).
    + split; [|done]. apply list_elem_of_fmap. exists n. split; [|done].
      unfold touch. rewrite (proj2 (Z.eqb_neq _ _)); [done|congruence].
  - intros [(n0 & -> & Hn0)%list_elem_of_fmap Hi]. destruct (Ht n0) as [En _]. rewrite En in Hi.
    unfold touch. destruct (Z.eqb_spec (msgId n0) id) as [E|E].
    + left. split; [congruence|]. f_equal. apply (sorted_unique (entries L)); try done; [apply HL|congruence].
    + right. split; [congruence|]. done.
Qed.

Lemma touch_index L id f from cid :
  same_identity f ->
  (fun m => msgId m) <$> find (same_request from cid) (entries (on_id id f L))
  = (fun m => msgId m) <$> find (same_request from cid) (entries L).
Proof.
  intros Hf. pose proof (touch_identity id f Hf) as Ht. simpl. fold (touch id f). rewrite find_map.
  - destruct (find _ (entries L)) as [m|]; simpl; [|done]. by destruct (Ht m) as [-> _].
  - intros x. unfold same_request. by destruct (Ht x) as [-> _].
Qed.

Lemma touch_count L id f u :
  same_identity f -> length (sent_to u (entries (on_id id f L))) = length (sent_to u (entries L)).
Proof.
  intros Hf. simpl. fold (touch id f). rewrite (sent_to_map _ _ _ (touch_identity id f Hf)). apply length_map.
Qed.

(** The queue of identifiers follows the acknowledged flags. *)
Lemma touch_pending L id f u (keep : StoredMessage -> bool) :
  same_identity f -> (forall m, m ∈ entries L -> msgId m = id -> unacked (f m) = keep m) ->
  map (fun m => msgId m) (filter (fun m => unacked m = true) (sent_to u (entries (on_id id f L))))
  = map (fun m => msgId m)
      (filter (fun m => (if msgId m =? id then keep m else unacked m) = true) (sent_to u (entries L))).
Proof.
  intros Hf Hk. simpl. fold (touch id f). pose proof (touch_identity id f Hf) as Ht.
  rewrite (sent_to_map _ _ _ Ht).
  assert (G : forall m, m ∈ sent_to u (entries L) -> m ∈ entries L)
    by (intros m Hm; by apply list_elem_of_filter in Hm as [_ ?]).
  induction (sent_to u (entries L)) as [|m l IH]; [done|]. simpl map. rewrite !filter_cons.
  assert (E : unacked (touch id f m) = if msgId m =? id then keep m else unacked m).
  { unfold touch. destruct (Z.eqb_spec (msgId m) id); [|done]. apply Hk; [|done]. apply G. by left. }
  rewrite E. specialize (IH (fun x Hx => G x (proj2 (elem_of_cons l x m) (or_intror Hx)))).
  case_decide; simpl; rewrite IH; [|done]. by destruct (Ht m) as [-> _].
Qed.

Lemma mem_mark_shows r id st at_ n s L :
  mem_shows s L -> log_ok L -> valid_op (OpMark r id st at_ n) L ->
  (mem_answer (OpMark r id st at_ n) s).1 = AMark true
  /\ mem_shows (mem_answer (OpMark r id st at_ n) s).2 (on_id id (attempted st at_ n) L).
Proof.
  intros Hs HL (Hh & Hst & _). apply held_elem in Hh as (m & Hm & Hid & Hr & Hun).
  assert (Em : m_messages s !! id = Some m) by (by apply (sh_msgs _ _ Hs)).
  pose proof (mark_inv r id st at_ n s (sh_inv _ _ Hs)) as Hinv.
  simpl. unfold mem_markDeliveryAttempt in *. rewrite Em in *.
  rewrite bool_decide_eq_true_2 in * by done. simpl. split; [done|].
  pose proof (attempted_identity st at_ n) as Hf.
  split; [exact Hinv|..].
  - simpl. rewrite length_map. apply (sh_next _ _ Hs).
  - intros u. rewrite touch_count by done. apply (sh_cursor _ _ Hs).
  - by apply touch_msgs.
  - intros u. rewrite (touch_pending L id _ u unacked Hf).
    + rewrite (list_filter_iff _ (fun m => unacked m = true)); [apply (sh_pending _ _ Hs)|]. intros x. by case_if.
    + intros x Hx Hxid. assert (x = m) as -> by (apply (sorted_unique (entries L)); [apply HL|..]; congruence).
      rewrite Hun. unfold unacked, attempted. simpl. rewrite !elem_of_cons, elem_of_nil in Hst.
      by destruct Hst as [->|[->|[->|[]]]].
  - intros from cid Hfr Hc. rewrite touch_index by done. by apply (sh_index _ _ Hs).
  - apply (sh_last _ _ Hs).
Qed.

Lemma mem_ack_shows r id seq code at_ s L :
  mem_shows s L -> log_ok L ->
  (mem_answer (OpAck r id seq code at_) s).1 = (log_step (OpAck r id seq code at_) L).1
  /\ mem_shows (mem_answer (OpAck r id seq code at_) s).2 (log_step (OpAck r id seq code at_) L).2.
Proof.
  intros Hs HL. pose proof (acked_inv r id seq code at_ s (sh_inv _ _ Hs)) as Hinv.
  pose proof (touch_inv r s (sh_inv _ _ Hs)) as Htinv.
  assert (Ht : mem_shows (touch_lastAcked r s).2 L).
  { destruct Hs. split; try done. intros u. simpl. rewrite at_default_insert. case_decide; [by subst|done]. }
  assert (El : at_default r (m_lastAckedSeqByUser s) = at_default r (acked_upto L)) by apply (sh_last _ _ Hs).
  simpl. unfold mem_markAcked in *. destruct (m_messages s !! id) as [m|] eqn:Em; simpl.
  2: { destruct (existsb _ (entries L)) eqn:E; simpl; [|split; [by rewrite El|exact Ht]].
       apply held_elem in E as (m & Hm & Hid & _). assert (m_messages s !! id = Some m) by (by apply (sh_msgs _ _ Hs)).
       congruence. }
  apply (sh_msgs _ _ Hs) in Em as [Hm Hid].
  assert (Ex : existsb (fun m => held r id m && (seqOf m =? seq)) (entries L)
               = bool_decide (receiverId m = r) && (seqOf m =? seq)).
  { apply eq_true_iff_eq. split.
    - intros (m' & Hm' & Hid' & Hr' & Hq')%held_elem.
      assert (m' = m) as -> by (apply (sorted_unique (entries L)); [apply HL|..]; congruence).
      by rewrite bool_decide_eq_true_2.
    - intros E. b2p. apply existsb_exists. exists m. split; [by apply list_elem_of_In|].
      unfold held. rewrite (proj2 (Z.eqb_eq _ _) Hid), bool_decide_eq_true_2 by done. simpl. by apply Z.eqb_eq. }
  rewrite Ex. destruct (bool_decide (receiverId m = r)) eqn:Er; simpl in *; [|split; [by rewrite El|exact Ht]].
  destruct (seqOf m =? seq) eqn:Eq; simpl in *; [|split; [by rewrite El|exact Ht]]. b2p. rewrite <- El. split; [done|].
  pose proof (acked_identity code at_) as Hf. split; [exact Hinv|..].
  - simpl. rewrite length_map. apply (sh_next _ _ Hs).
  - intros u. pose proof (touch_count L id (acked code at_) u Hf) as E. simpl in E |- *. rewrite E.
    apply (sh_cursor _ _ Hs).
  - by apply (touch_msgs s L id (acked code at_) m).
  - intros u. pose proof (touch_pending L id (acked code at_) u (fun _ => false) Hf) as E.
    simpl in E |- *. rewrite E; clear E.
    2: { intros x _ _. unfold unacked, acked, ack_status. simpl. by case_if. }
    unfold pending. simpl. pose proof (sh_pending _ _ Hs u) as Hp. unfold pending in Hp.
    rewrite lookup_insert. destruct (decide (r = u)) as [<-|Hne]; simpl.
    + rewrite Hp. clear. induction (sent_to r (entries L)) as [|x l IH]; [done|].
      rewrite !filter_cons. destruct (unacked x) eqn:Eu.
      * rewrite decide_True by done. simpl. rewrite filter_cons.
        destruct (Z.eqb_spec (msgId x) id); [rewrite decide_False by (by intros ?)|rewrite decide_True by done];
          rewrite ?decide_False, ?decide_True by done; simpl; by rewrite IH.
      * rewrite decide_False by done. rewrite decide_False; [done|]. by case_if.
    + rewrite Hp. f_equal. apply filter_ext_elem.
      intros x Hx. apply list_elem_of_filter in Hx as [Hxr Hx].
      destruct (Z.eqb_spec (msgId x) id) as [E|E]; [|done].
      assert (x = m) as -> by (apply (sorted_unique (entries L)); [apply HL|..]; congruence). congruence.
  - intros from cid Hfr Hc. pose proof (touch_index L id (acked code at_) from cid Hf) as E. simpl in E |- *.
    rewrite E. by apply (sh_index _ _ Hs).
  - intros u. simpl. rewrite !at_default_insert. case_decide; [done|]. apply (sh_last _ _ Hs).
Qed.

Lemma omap_lookup_ids s L (l : list StoredMessage) :
  mem_shows s L -> Forall (fun m => m ∈ entries L) l ->
  omap (fun id => m_messages s !! id) (map (fun m => msgId m) l) = l.
Proof.
  intros Hs. induction 1 as [|m l Hm _ IH]; [done|]. simpl.
  assert (E : m_messages s !! msgId m = Some m) by (by apply (sh_msgs _ _ Hs)). rewrite E.
  f_equal. exact IH.
Qed.

Lemma mem_load_shows r after limit s L :
  mem_shows s L -> log_ok L -> 0 < limit ->
  mem_answer (OpLoad r after limit) s = ((log_step (OpLoad r after limit) L).1, s).
Proof.
  intros Hs HL Hl. unfold mem_answer. rewrite (load_eq s r after limit (sh_inv _ _ Hs)). simpl.
  rewrite Z.max_r by lia.
  assert (E : wanted (m_messages s) after (pending s r) = to_deliver r after L); [|by rewrite E].
  unfold wanted. rewrite (sh_pending _ _ Hs), (omap_lookup_ids s L) by
    (done || (apply Forall_forall; intros m Hm; apply list_elem_of_filter in Hm as [_ Hm];
              by apply list_elem_of_filter in Hm as [_ Hm])).
  unfold to_deliver. rewrite list_filter_filter. apply list_filter_iff. intros m. split; [tauto|].
  intros [Ha Hw]. split; [done|]. unfold awaits in Hw. unfold unacked. by destruct (status m).
Qed.

(** The in-memory store answers as the log does. *)
Lemma mem_refines op s L :
  mem_shows s L -> log_ok L -> valid_op op L ->
  (mem_answer op s).1 = (log_step op L).1 /\ mem_shows (mem_answer op s).2 (log_step op L).2.
Proof.
  intros Hs HL Hv. destruct op as [req|r id st at_ n|r id seq code at_|r after limit|r].
  - by apply mem_save_shows.
  - by apply mem_mark_shows.
  - by apply mem_ack_shows.
  - destruct Hv as [_ Hl]. rewrite mem_load_shows with (L := L) by (done || lia). split; [done|exact Hs].
  - split; [|exact Hs]. simpl. f_equal. rewrite <- (sh_last _ _ Hs). unfold at_default. by destruct (_ !! r).
Qed.

(** ** Sequences of operations *)
Fixpoint log_run (ops : list mem_op) (L : Log) : list answer * Log :=
  match ops with
  | [] => ([], L)
  | op :: ops' => let '(a, L') := log_step op L in let '(l, L2) := log_run ops' L' in (a :: l, L2)
  end.

Fixpoint mem_answers (ops : list mem_op) (s : InMemoryMessageStore) : list answer :=
  match ops with
  | [] => []
  | op :: ops' => let '(a, s') := mem_answer op s in a :: mem_answers ops' s'
  end.

(** Every operation is valid when its turn comes. *)
Fixpoint valid_run (ops : list mem_op) (L : Log) : Prop :=
  match ops with
  | [] => True
  | op :: ops' => valid_op op L /\ valid_run ops' (log_step op L).2
  end.

#[export] Instance valid_run_dec ops L : Decision (valid_run ops L).
Proof. revert L. induction ops as [|op ops IH]; intros L; simpl; apply _. Defined.

Lemma mem_run_refines ops s L :
  mem_shows s L -> log_ok L -> valid_run ops L -> mem_answers ops s = (log_run ops L).1.
Proof.
  revert s L. induction ops as [|op ops IH]; intros s L Hs HL Hv; [done|]. destruct Hv as [Hv Hvs].
  destruct (mem_refines op s L Hs HL Hv) as [Ea Hs']. pose proof (log_step_ok op L HL Hv) as HL'.
  simpl. destruct (mem_answer op s) as [a s'], (log_step op L) as [a' L']. simpl in *. subst a'.
  rewrite (IH s' L') by done. by destruct (log_run ops L').
Qed.

Lemma emptyLog_ok : log_ok emptyLog.
Proof. split; [constructor|constructor|intros m n Hm; by apply elem_of_nil in Hm|done]. Qed.

End log.
