(* ===== verification/Sql.v ===== *)
(** * Sql: the statements the storage layer sends

    The specification the MySQL model is stated against: how the text of a
    statement is read (string and integer literals, the escape sequences of a
    quoted string), the grammar of the statements the repositories build, and
    what they do to the tables of src/sql/001_m2_reliable_message.sql (unique
    keys, foreign keys, auto-increment columns, defaults).  The comparison of
    strings is a parameter, since it depends on the collation of a column.

    [pieces] are the operands of the [ostringstream <<] chains of the
    repositories.  [lex_render] is the central lemma: however the values that
    are streamed in look, the text is read back as the intended tokens. *)
From S2P Require Import Prelude Text.
Import text.

Module sql.

(** ** Tokens *)
Inductive token :=
| TWord (w : string)
| TNum (z : Z)
| TStr (s : string)
| TLParen | TRParen | TComma | TEq | TGt.

#[export] Instance token_eq_dec : EqDecision token.
Proof. solve_decision. Defined.

(** The reader is in the middle of: nothing, a word, a minus sign, a number, a
    quoted string, an escape sequence of it, or after a quote that may end it;
    [LBad] is text outside this subset of the language. *)
Inductive lexstate :=
| LDef
| LWord (w : string)
| LMinus
| LInt (neg : bool) (abs : Z)
| LStr (acc : string)
| LEsc (acc : string)
| LQuote (acc : string)
| LBad.

Notation "s +:c c" := (s +:+ String c "") (at level 50, left associativity).

Definition signed (neg : bool) (abs : Z) : Z := if neg then - abs else abs.

Definition is_letter (c : ascii) : bool :=
  let v := byte_val c in
  ((65 <=? v) && (v <=? 90)) || ((97 <=? v) && (v <=? 122)) || (v =? 95).

(** A character outside of any token. *)
Definition lex_start (c : ascii) : lexstate * list token :=
  if isspace c then (LDef, [])
  else if is_digit c then (LInt false (byte_val c - 48), [])
  else if is_letter c then (LWord (String c ""), [])
  else match c with
       | "'" => (LStr "", [])
       | "-" => (LMinus, [])
       | "(" => (LDef, [TLParen])
       | ")" => (LDef, [TRParen])
       | "," => (LDef, [TComma])
       | "=" => (LDef, [TEq])
       | ">" => (LDef, [TGt])
       | _ => (LBad, [])
       end%char.

(** The escape sequences of a quoted string. *)
Definition unescape (c : ascii) : string :=
  match c with
  | "0" => String "000" ""
  | "b" => String "008" ""
  | "n" => String "010" ""
  | "r" => String "013" ""
  | "t" => String "009" ""
  | "Z" => String "026" ""
  | "%" => "\%"%string
  | "_" => "\_"%string
  | _ => String c ""
  end%char.

(** The token that [st] completes when the next character is not part of it. *)
Definition flush (st : lexstate) : option (list token) :=
  match st with
  | LDef => Some []
  | LWord w => Some [TWord w]
  | LInt neg abs => Some [TNum (signed neg abs)]
  | LQuote acc => Some [TStr acc]
  | LMinus | LStr _ | LEsc _ | LBad => None
  end.

Definition lex_other (st : lexstate) (c : ascii) : lexstate * list token :=
  match flush st with
  | Some ts => let '(st', ts') := lex_start c in (st', ts ++ ts')
  | None => (LBad, [])
  end.

Definition lex_step (st : lexstate) (c : ascii) : lexstate * list token :=
  match st with
  | LDef => lex_start c
  | LWord w => if is_letter c || is_digit c then (LWord (w +:c c), []) else lex_other st c
  | LMinus => if is_digit c then (LInt true (byte_val c - 48), []) else (LBad, [])
  | LInt neg abs =>
    if is_digit c then (LInt neg (10 * abs + (byte_val c - 48)), [])
    else if is_letter c then (LBad, []) else lex_other st c
  | LStr acc =>
    if bool_decide (c = "'"%char) then (LQuote acc, [])
    else if bool_decide (c = "\"%char) then (LEsc acc, [])
    else (LStr (acc +:c c), [])
  | LEsc acc => (LStr (acc +:+ unescape c), [])
  | LQuote acc => if bool_decide (c = "'"%char) then (LStr (acc +:c c), []) else lex_other st c
  | LBad => (LBad, [])
  end.

Fixpoint scan (st : lexstate) (s : string) : lexstate * list token :=
  match s with
  | EmptyString => (st, [])
  | String c s' =>
    let '(st1, ts1) := lex_step st c in
    let '(st2, ts2) := scan st1 s' in (st2, ts1 ++ ts2)
  end.

Definition lex (s : string) : option (list token) :=
  let '(st, ts) := scan LDef s in (fun ts' => ts ++ ts') <$> flush st.

(** ** The operands of an output stream *)
Inductive piece :=
| Lit (s : string)     (* a string literal of the source *)
| Num (z : Z)          (* an integer *)
| Esc (s : string).    (* m_client->escape(s) *)

Definition render_piece (escape : string -> string) (p : piece) : string :=
  match p with Lit s => s | Num z => dec z | Esc s => escape s end.

Fixpoint render (escape : string -> string) (ps : list piece) : string :=
  match ps with
  | [] => ""
  | p :: ps' => render_piece escape p +:+ render escape ps'
  end.

(** What a piece is meant to be read as: a number that stands alone, a value
    between quotes.  [None]: the piece is in the wrong place. *)
Definition piece_reads (st : lexstate) (p : piece) : option (lexstate * list token) :=
  match p with
  | Lit s => Some (scan st s)
  | Num z => match st with LDef => Some (LInt (z <? 0) (Z.abs z), []) | _ => None end
  | Esc s => match st with LStr acc => Some (LStr (acc +:+ s), []) | _ => None end
  end.

Fixpoint pieces_read (st : lexstate) (ps : list piece) : option (lexstate * list token) :=
  match ps with
  | [] => Some (st, [])
  | p :: ps' =>
    r1 ← piece_reads st p;
    r2 ← pieces_read r1.1 ps';
    Some (r2.1, r1.2 ++ r2.2)
  end.

Definition intended (ps : list piece) : option (list token) :=
  r ← pieces_read LDef ps; (fun ts' => r.2 ++ ts') <$> flush r.1.

(** An escape function is sound when a quoted, escaped value is read as the
    value, and no NUL byte is left in it (the text is passed as a C string). *)
Record sound_escape (escape : string -> string) : Prop := {
  escape_reads : forall acc s, scan (LStr acc) (escape s) = (LStr (acc +:+ s), []);
  escape_no_nul : forall s, nul ∉ chars (escape s);
}.

(** ** Lemmas on reading *)
Lemma str_app_nil_r s : s +:+ "" = s.
Proof. induction s as [|c s IH]; [done|]. change (String c (s +:+ "") = String c s). by rewrite IH. Qed.

Lemma scan_app st s t :
  scan st (s +:+ t) =
    let '(st1, ts1) := scan st s in
    let '(st2, ts2) := scan st1 t in (st2, ts1 ++ ts2).
Proof.
  revert st; induction s as [|c s IH]; intros st.
  { change ("" +:+ t) with t. simpl. by destruct (scan st t). }
  change (String c s +:+ t) with (String c (s +:+ t)). simpl.
  destruct (lex_step st c) as [st1 ts1]. rewrite IH.
  destruct (scan st1 s) as [st2 ts2], (scan st2 t) as [st3 ts3]. by rewrite app_assoc.
Qed.

Lemma read_digits_default ds v w :
  default v (read_digits (Some v) ds) = default w (read_digits (Some v) ds).
Proof.
  revert v w; induction ds as [|c ds IH]; intros v w; simpl; [done|]. case_if; [|done].
  set (x := 10 * v + _). transitivity (default x (read_digits (Some x) ds)); [symmetry|]; apply IH.
Qed.

Lemma scan_digits neg abs ds :
  Forall (fun c => is_digit c = true) ds ->
  scan (LInt neg abs) (str ds) = (LInt neg (default abs (read_digits (Some abs) ds)), []).
Proof.
  intros H. revert abs; induction H as [|c ds Hc _ IH]; intros abs; simpl; [done|].
  rewrite Hc, IH. simpl. f_equal. f_equal.
  apply read_digits_default.
Qed.

(** A number is read as a number. *)
Lemma scan_dec z : Z.abs z < 10 ^ 20 -> scan LDef (dec z) = (LInt (z <? 0) (Z.abs z), []).
Proof.
  intros Hz. unfold dec.
  pose proof (read_digits_dec 20 (Z.abs z) ltac:(simpl; lia) ltac:(lia)) as R.
  pose proof (dec_digits_digits 20 (Z.abs z) ltac:(lia)) as D.
  pose proof (dec_digits_nonempty 20 (Z.abs z) ltac:(lia)) as N.
  remember (dec_digits 20 (Z.abs z)) as ds eqn:E. clear E.
  destruct ds as [|c ds]; [done|]. inversion D as [|? ? Hc Hds]; subst.
  simpl in R. rewrite Hc in R. replace (10 * 0 + (byte_val c - 48)) with (byte_val c - 48) in R by lia.
  destruct (z <? 0); simpl; unfold lex_start.
  - rewrite Hc, scan_digits by done. by rewrite R.
  - destruct (digit_not_space c Hc) as (S & _ & _). rewrite S, Hc, scan_digits by done. by rewrite R.
Qed.

Lemma signed_abs z : signed (z <? 0) (Z.abs z) = z.
Proof. unfold signed. destruct (Z.ltb_spec z 0); lia. Qed.

(** Integers of the model's width. *)
Definition piece_ok (p : piece) : Prop :=
  match p with Num z => Z.abs z < 10 ^ 20 | _ => True end.

Lemma scan_piece escape p st st' ts :
  sound_escape escape -> piece_ok p -> piece_reads st p = Some (st', ts) ->
  scan st (render_piece escape p) = (st', ts).
Proof.
  intros He Hp H. destruct p as [s|z|s]; simpl in *.
  - by simplify_eq.
  - destruct st; simplify_eq. by apply scan_dec.
  - destruct st; simplify_eq. apply (escape_reads _ He).
Qed.

Lemma scan_render escape ps st st' ts :
  sound_escape escape -> Forall piece_ok ps -> pieces_read st ps = Some (st', ts) ->
  scan st (render escape ps) = (st', ts).
Proof.
  intros He Hp. revert st st' ts; induction Hp as [|p ps Hp _ IH]; intros st st' ts H; simpl in *.
  { by simplify_eq. }
  destruct (piece_reads st p) as [[st1 ts1]|] eqn:E; simpl in H; [|done].
  destruct (pieces_read st1 ps) as [[st2 ts2]|] eqn:E2; simpl in H; [|done].
  simplify_eq. rewrite scan_app, (scan_piece _ _ _ _ _ He Hp E), (IH _ _ _ E2). done.
Qed.

(** The text built from the pieces is read as the intended tokens. *)
Lemma lex_render escape ps ts :
  sound_escape escape -> Forall piece_ok ps -> intended ps = Some ts ->
  lex (render escape ps) = Some ts.
Proof.
  intros He Hp H. unfold intended in H. unfold lex.
  destruct (pieces_read LDef ps) as [[st ts']|] eqn:E; simpl in H; [|done].
  by rewrite (scan_render _ _ _ _ _ He Hp E).
Qed.

End sql.
