(* ===== verification/Tables.v ===== *)
(** * Tables: the grammar of the statements and what they do
      (src/sql/001_m2_reliable_message.sql)

    The statements the repositories send, parsed from tokens, and their effect
    on the four tables: the primary and unique keys refuse a second row, a
    foreign key refuses a row without its message, a column without a default
    must be given, [ON DUPLICATE KEY UPDATE] changes the row in the way.  An
    auto-increment column that no statement reads is left out of the rows.
    [coll] compares strings; under the collation of the schema it is coarser
    than equality.  A session has the committed tables, its own view of them
    and a flag for an open transaction; outside a transaction every statement
    commits. *)
From S2P Require Import Prelude Text Sql.
Import text sql.

Module tables.

(** ** Statements *)
Inductive value := VInt (z : Z) | VStr (s : string).

Inductive rhs :=
| RVal (v : value)
| RGreatest (c : string) (z : Z)   (* GREATEST(c, z) *)
| RValues (c : string).            (* VALUES(c) *)

Inductive cond :=
| CEq (c : string) (v : value)
| CGt (c : string) (z : Z)
| CIn (c : string) (zs : list Z).

Inductive item :=
| ICol (c : string)
| IMax (c alias : string).         (* COALESCE(MAX(c), 0) AS alias *)

Inductive stmt :=
| Begin | Commit | Rollback
| Insert (t : string) (cols : list string) (vals : list value) (dup : list (string * rhs))
| Update (t : string) (sets : list (string * rhs)) (conds : list cond)
| Delete (t : string) (conds : list cond)
| Select (items : list item) (t : string) (conds : list cond)
    (order : option string) (limit : option Z).

(** ** Grammar *)
Definition parser (A : Type) := list token -> option (A * list token).

Definition p_ret {A} (a : A) : parser A := fun ts => Some (a, ts).
Definition p_bind {A B} (p : parser A) (f : A -> parser B) : parser B :=
  fun ts => match p ts with Some (a, ts') => f a ts' | None => None end.
Definition p_fail {A} : parser A := fun _ => None.
Definition p_or {A} (p q : parser A) : parser A :=
  fun ts => match p ts with Some r => Some r | None => q ts end.

Declare Scope parser_scope.
Delimit Scope parser_scope with parser.
Notation "x <~ p ;; k" := (p_bind p (fun x => k))
  (at level 100, p at next level, right associativity) : parser_scope.
Notation "p ;;; k" := (p_bind p (fun _ => k))
  (at level 100, right associativity) : parser_scope.
Open Scope parser_scope.

Definition p_tok (t : token) : parser () :=
  fun ts => match ts with
            | u :: ts' => if bool_decide (u = t) then Some ((), ts') else None
            | [] => None
            end.
Definition kw (w : string) : parser () := p_tok (TWord w).
Fixpoint kws (ws : list string) : parser () :=
  match ws with [] => p_ret () | w :: ws' => kw w;;; kws ws' end.

Definition p_word : parser string :=
  fun ts => match ts with TWord w :: ts' => Some (w, ts') | _ => None end.
Definition p_num : parser Z :=
  fun ts => match ts with TNum z :: ts' => Some (z, ts') | _ => None end.
Definition p_value : parser value :=
  fun ts => match ts with
            | TNum z :: ts' => Some (VInt z, ts')
            | TStr s :: ts' => Some (VStr s, ts')
            | _ => None
            end.

Definition parens {A} (p : parser A) : parser A :=
  p_tok TLParen;;; x <~ p;; p_tok TRParen;;; p_ret x.

(** One or more [p] separated by [sep]. *)
Fixpoint sep1 {A} (sep : token) (p : parser A) (fuel : nat) : parser (list A) :=
  match fuel with
  | O => p_fail
  | S f => x <~ p;; p_or (p_tok sep;;; xs <~ sep1 sep p f;; p_ret (x :: xs)) (p_ret [x])
  end.

Definition many {A} (sep : token) (p : parser A) : parser (list A) :=
  fun ts => sep1 sep p (length ts) ts.

Definition p_rhs : parser rhs :=
  p_or (v <~ p_value;; p_ret (RVal v))
    (p_or (kw "GREATEST";;; parens (c <~ p_word;; p_tok TComma;;; z <~ p_num;; p_ret (RGreatest c z)))
       (kw "VALUES";;; parens (c <~ p_word;; p_ret (RValues c)))).

Definition p_assign : parser (string * rhs) :=
  c <~ p_word;; p_tok TEq;;; r <~ p_rhs;; p_ret (c, r).

Definition p_cond : parser cond :=
  c <~ p_word;;
  p_or (p_tok TEq;;; v <~ p_value;; p_ret (CEq c v))
    (p_or (p_tok TGt;;; z <~ p_num;; p_ret (CGt c z))
       (kw "IN";;; zs <~ parens (many TComma p_num);; p_ret (CIn c zs))).

Definition p_where : parser (list cond) :=
  p_or (kw "WHERE";;; many (TWord "AND") p_cond) (p_ret []).

Definition p_item : parser item :=
  p_or (kw "COALESCE";;;
        c <~ parens (kw "MAX";;; c <~ parens p_word;; p_tok TComma;;; p_tok (TNum 0);;; p_ret c);;
        kw "AS";;; a <~ p_word;; p_ret (IMax c a))
    (c <~ p_word;; p_ret (ICol c)).

Definition p_option {A} (p : parser A) : parser (option A) :=
  p_or (x <~ p;; p_ret (Some x)) (p_ret None).

Definition p_insert : parser stmt :=
  kws ["INSERT"; "INTO"];;; t <~ p_word;; cols <~ parens (many TComma p_word);;
  kw "VALUES";;; vals <~ parens (many TComma p_value);;
  dup <~ p_or (kws ["ON"; "DUPLICATE"; "KEY"; "UPDATE"];;; many TComma p_assign) (p_ret []);;
  p_ret (Insert t cols vals dup).

Definition p_update : parser stmt :=
  kw "UPDATE";;; t <~ p_word;; kw "SET";;; sets <~ many TComma p_assign;;
  conds <~ p_where;; p_ret (Update t sets conds).

Definition p_delete : parser stmt :=
  kws ["DELETE"; "FROM"];;; t <~ p_word;; conds <~ p_where;; p_ret (Delete t conds).

Definition p_select : parser stmt :=
  kw "SELECT";;; items <~ many TComma p_item;; kw "FROM";;; t <~ p_word;; conds <~ p_where;;
  order <~ p_option (kws ["ORDER"; "BY"];;; c <~ p_word;; kw "ASC";;; p_ret c);;
  limit <~ p_option (kw "LIMIT";;; p_num);;
  p_ret (Select items t conds order limit).

Definition p_stmt : parser stmt :=
  p_or (kw "BEGIN";;; p_ret Begin) (p_or (kw "COMMIT";;; p_ret Commit)
    (p_or (kw "ROLLBACK";;; p_ret Rollback) (p_or p_insert (p_or p_update (p_or p_delete p_select))))).

Definition parse_tokens (ts : list token) : option stmt :=
  match p_stmt ts with Some (s, []) => Some s | _ => None end.

Definition parse (s : string) : option stmt := lex s ≫= parse_tokens.

(** ** Tables *)
Notation row := (list (string * value)).

(** A column with its default, if it has one. *)
Record schema := mkSchema {
  columns : list (string * option value);
  keys : list (list string);
  foreign : list (string * (string * string));  (* column, referenced table and column *)
}.

Definition im_session : schema := mkSchema
  [("session_id", None); ("user_id", None); ("device_id", Some (VStr ""));
   ("server_node_id", Some (VStr "single-node")); ("last_acked_seq", Some (VInt 0));
   ("created_at_ms", None); ("expires_at_ms", None)]
  [["session_id"]] [].

Definition im_message : schema := mkSchema
  [("id", None); ("client_msg_id", Some (VStr "")); ("from_user_id", None); ("to_user_id", None);
   ("conversation_id", Some (VStr "")); ("payload_format", Some (VInt 0)); ("content", None);
   ("message_type", Some (VStr "text")); ("status", Some (VInt 1)); ("created_at_ms", None);
   ("updated_at_ms", None)]
  [["id"]; ["from_user_id"; "client_msg_id"]] [].

Definition im_message_delivery : schema := mkSchema
  [("message_id", None); ("receiver_user_id", None); ("server_seq", None); ("status", Some (VInt 1));
   ("retry_count", Some (VInt 0)); ("last_error", Some (VStr "")); ("delivered_at_ms", Some (VInt 0));
   ("acked_at_ms", Some (VInt 0)); ("created_at_ms", None); ("updated_at_ms", None)]
  [["receiver_user_id"; "server_seq"]; ["message_id"; "receiver_user_id"]]
  [("message_id", ("im_message", "id"))].

Definition im_message_ack_log : schema := mkSchema
  [("message_id", None); ("receiver_user_id", None); ("server_seq", None); ("ack_code", Some (VInt 0));
   ("acked_at_ms", None)]
  [] [("message_id", ("im_message", "id"))].

Definition schema_of (t : string) : option schema :=
  if bool_decide (t = "im_session") then Some im_session
  else if bool_decide (t = "im_message") then Some im_message
  else if bool_decide (t = "im_message_delivery") then Some im_message_delivery
  else if bool_decide (t = "im_message_ack_log") then Some im_message_ack_log
  else None.

Record DB := mkDB {
  t_session : list row;
  t_message : list row;
  t_delivery : list row;
  t_ack_log : list row;
}.

Definition emptyDB : DB := mkDB [] [] [] [].

Definition get_table (t : string) (db : DB) : list row :=
  if bool_decide (t = "im_session") then t_session db
  else if bool_decide (t = "im_message") then t_message db
  else if bool_decide (t = "im_message_delivery") then t_delivery db
  else t_ack_log db.

Definition set_table (t : string) (rows : list row) (db : DB) : DB :=
  if bool_decide (t = "im_session") then mkDB rows (t_message db) (t_delivery db) (t_ack_log db)
  else if bool_decide (t = "im_message") then mkDB (t_session db) rows (t_delivery db) (t_ack_log db)
  else if bool_decide (t = "im_message_delivery") then mkDB (t_session db) (t_message db) rows (t_ack_log db)
  else mkDB (t_session db) (t_message db) (t_delivery db) rows.

Fixpoint assoc {A} (c : string) (r : list (string * A)) : option A :=
  match r with
  | [] => None
  | (k, v) :: r' => if bool_decide (k = c) then Some v else assoc c r'
  end.

Definition row_set (c : string) (v : value) (r : row) : row :=
  map (fun kv => if bool_decide (kv.1 = c) then (c, v) else kv) r.

(** ** Execution *)
Inductive outcome :=
| Wrote (db : DB)
| Rows (fields : list string) (rows : list (list value))
| Refused.                      (* a key or foreign key is violated *)

Section Exec.
Context (coll : string -> string -> bool).

Definition value_eq (v w : value) : bool :=
  match v, w with
  | VInt a, VInt b => a =? b
  | VStr a, VStr b => coll a b
  | _, _ => false
  end.

Definition cell_eq (c : string) (r s : row) : bool :=
  match assoc c r, assoc c s with Some v, Some w => value_eq v w | _, _ => false end.

(** Some unique key has the same values in both rows. *)
Definition collide (sc : schema) (r s : row) : bool :=
  existsb (fun key => forallb (fun c => cell_eq c r s) key) (keys sc).

Definition holds (r : row) (c : cond) : bool :=
  match c with
  | CEq k v => match assoc k r with Some w => value_eq w v | None => false end
  | CGt k z => match assoc k r with Some (VInt w) => z <? w | _ => false end
  | CIn k zs => match assoc k r with Some (VInt w) => existsb (fun z => w =? z) zs | _ => false end
  end.

Definition matches (conds : list cond) (r : row) : bool := forallb (holds r) conds.

Definition new_row (sc : schema) (given : list (string * value)) : option row :=
  mapM (fun cd => (fun v => (cd.1, v)) <$> match assoc cd.1 given with Some v => Some v | None => cd.2 end)
    (columns sc).

Definition eval_rhs (new old : row) (r : rhs) : option value :=
  match r with
  | RVal v => Some v
  | RGreatest c z => match assoc c old with Some (VInt w) => Some (VInt (Z.max w z)) | _ => None end
  | RValues c => assoc c new
  end.

Fixpoint assign (new : row) (sets : list (string * rhs)) (old : row) : option row :=
  match sets with
  | [] => Some old
  | (c, r) :: sets' => v ← eval_rhs new old r; assign new sets' (row_set c v old)
  end.

(** Columns that exist and are part of no key. *)
Definition plain_columns (sc : schema) (sets : list (string * rhs)) : bool :=
  forallb (fun cr => bool_decide (cr.1 ∈ (columns sc).*1)
                     && negb (bool_decide (cr.1 ∈ concat (keys sc)))) sets.

Definition references_ok (sc : schema) (r : row) (db : DB) : bool :=
  forallb (fun f => match assoc f.1 r with
                    | Some v => existsb (fun s => match assoc f.2.2 s with
                                                  | Some w => value_eq w v | None => false end)
                                  (get_table f.2.1 db)
                    | None => false end) (foreign sc).

Definition exec_insert (t : string) (cols : list string) (vals : list value)
    (dup : list (string * rhs)) (db : DB) : option outcome :=
  sc ← schema_of t;
  if negb (bool_decide (length cols = length vals)
           && forallb (fun c => bool_decide (c ∈ (columns sc).*1)) cols
           && plain_columns sc dup) then None
  else
    new ← new_row sc (zip cols vals);
    if existsb (collide sc new) (get_table t db) then
      match dup with
      | [] => Some Refused
      | _ =>
        rows ← mapM (fun r => if collide sc new r then assign new dup r else Some r) (get_table t db);
        Some (Wrote (set_table t rows db))
      end
    else if references_ok sc new db then Some (Wrote (set_table t (get_table t db ++ [new]) db))
    else Some Refused.

Definition exec_update (t : string) (sets : list (string * rhs)) (conds : list cond) (db : DB)
    : option outcome :=
  sc ← schema_of t;
  if negb (plain_columns sc sets) then None
  else
    rows ← mapM (fun r => if matches conds r then assign [] sets r else Some r) (get_table t db);
    Some (Wrote (set_table t rows db)).

Definition int_cell (c : string) (r : row) : Z :=
  match assoc c r with Some (VInt z) => z | _ => 0 end.

(** [ORDER BY c ASC]. *)
Fixpoint insert_sorted (c : string) (r : row) (rows : list row) : list row :=
  match rows with
  | [] => [r]
  | s :: rows' => if int_cell c r <=? int_cell c s then r :: rows else s :: insert_sorted c r rows'
  end.
Definition sort_by (c : string) (rows : list row) : list row := foldr (insert_sorted c) [] rows.

Definition max_cell (c : string) (rows : list row) : Z :=
  foldr (fun r m => Z.max (int_cell c r) m) 0 rows.

Definition exec_select (items : list item) (t : string) (conds : list cond)
    (order : option string) (limit : option Z) (db : DB) : option outcome :=
  sc ← schema_of t;
  let found := filter (fun r => matches conds r = true) (get_table t db) in
  match items with
  | [IMax c a] => Some (Rows [a] [[VInt (max_cell c found)]])
  | _ =>
    cols ← mapM (fun i => match i with ICol c => Some c | IMax _ _ => None end) items;
    let sorted := match order with Some c => sort_by c found | None => found end in
    let taken := match limit with Some n => take (Z.to_nat n) sorted | None => sorted end in
    rows ← mapM (fun r => mapM (fun c => assoc c r) cols) taken;
    Some (Rows cols rows)
  end.

Definition exec (s : stmt) (db : DB) : option outcome :=
  match s with
  | Insert t cols vals dup => exec_insert t cols vals dup db
  | Update t sets conds => exec_update t sets conds db
  | Delete t conds =>
    Some (Wrote (set_table t (filter (fun r => matches conds r = false) (get_table t db)) db))
  | Select items t conds order limit => exec_select items t conds order limit db
  | Begin | Commit | Rollback => None
  end.

End Exec.

(** ** Sessions and transactions *)
Record Session := mkSession { committed : DB; working : DB; in_txn : bool }.

(** The session after the successful statement [s]. *)
Definition write (db : DB) (x : Session) : Session :=
  if in_txn x then mkSession (committed x) db true else mkSession db db false.

Inductive reply :=
| Ack                                                  (* no result set *)
| Table (fields : list string) (rows : list (list value)).

(** [None]: the server refuses the statement. *)
Definition run (coll : string -> string -> bool) (s : stmt) (x : Session) : option (reply * Session) :=
  match s with
  | Begin => Some (Ack, mkSession (working x) (working x) true)
  | Commit => Some (Ack, mkSession (working x) (working x) false)
  | Rollback => Some (Ack, mkSession (committed x) (committed x) false)
  | _ => match exec coll s (working x) with
         | Some (Wrote db) => Some (Ack, write db x)
         | Some (Rows fields rows) => Some (Table fields rows, x)
         | Some Refused | None => None
         end
  end.

(** What a failed statement may leave behind: nothing of its own; the server
    may have ended the transaction (a deadlock, a lost connection); a failed
    [ROLLBACK] has ended it; a failed [COMMIT] may still have happened. *)
Definition failed (s : stmt) (x x' : Session) : Prop :=
  let ended := mkSession (committed x) (committed x) false in
  match s with
  | Rollback => x' = ended
  | Commit => x' = x \/ x' = ended \/ x' = mkSession (working x) (working x) false
  | _ => x' = x \/ x' = ended
  end.

End tables.
