(* ===== verification/MySql.v ===== *)
(** * MySql: the MySQL client, the repositories and the MySQL message store
      (src/storage/mysqlClient.cpp, messageRepository.cpp, deliveryRepository.cpp,
       sessionRepository.cpp, MySqlMessageStore of messageStore.cpp)

    The functions of libmysqlclient are the members of the class [LibMySql]
    over a world [W] (the library, the server and the wall clock).  The client
    keeps its handle and its last error; the repositories stream the operands
    of a statement into a text ([pieces]), send it and decode the rows; the
    store keeps its counters and its cache.  Every operation passes the state
    explicitly and returns [Err] where the code throws.  [None] as the result
    of a [bool] operation with an [errorMsg] is success, [Some e] is [return
    false] with [errorMsg = e].  The build without the library
    ([HAVE_MYSQL_CLIENT] undefined) is [Module stub]. *)
From S2P Require Import Prelude Text Protocol MessageStore Auth Sql.
Import text protocol storage sql.

Module mysql.

(** ** libmysqlclient *)
Record MYSQL_RES := mkResult {
  res_fields : list (option string);
  res_rows : list (list (option string));
}.

Class LibMySql (W : Type) := {
  mysql_init : W -> option Z * W;
  mysql_options : Z -> Z -> W -> W;              (* MYSQL_OPT_CONNECT_TIMEOUT *)
  mysql_real_connect : Z -> string -> string -> string -> string -> Z -> W -> bool * W;
  mysql_error : Z -> W -> string;
  mysql_close : Z -> W -> W;
  mysql_query : Z -> string -> W -> Z * W;
  mysql_store_result : Z -> W -> option MYSQL_RES * W;
  mysql_field_count : Z -> W -> Z;
  mysql_real_escape_string : Z -> string -> W -> string;
  GetTimestampMs : W -> Z;                       (* util::GetTimestampMs *)
}.

Notation Row := (gmap string string).

(** ** MySqlClient *)
Record MySqlClient := mkClient { m_impl : option Z; m_lastError : string }.

Definition newClient : MySqlClient := mkClient None "".

Section Client.
Context {W : Type} `{LibMySql W}.

Record Conn := mkConn { client : MySqlClient; world : W }.

Definition C (A : Type) := Conn -> res (A * Conn).
Definition ret {A} (a : A) : C A := fun s => Ok (a, s).
Definition bind {A B} (m : C A) (f : A -> C B) : C B := fun s => '(a, s') <- m s;; f a s'.
Definition throw {A} (e : err) : C A := fun _ => Err e.
Definition of_res {A} (r : res A) : C A := fun s => a <- r;; Ok (a, s).

Notation "'let!' x := m 'in' k" := (bind m (fun x => k))
  (at level 200, x pattern, m at level 100, k at level 200).

(** A call of the library, and a read of the client. *)
Definition lib {A} (f : W -> A * W) : C A :=
  fun s => let '(a, w) := f (world s) in Ok (a, mkConn (client s) w).
Definition set_impl (h : option Z) : C () :=
  fun s => Ok ((), mkConn (mkClient h (m_lastError (client s))) (world s)).
Definition setLastError (error : string) : C () :=
  fun s => Ok ((), mkConn (mkClient (m_impl (client s)) error) (world s)).
Definition lastError : C string := fun s => Ok (m_lastError (client s), s).
Definition impl : C (option Z) := fun s => Ok (m_impl (client s), s).
Definition setLastErrorOf (h : Z) : C () :=
  let! e := lib (fun w => (mysql_error h w, w)) in setLastError e.

Definition connected : C bool := fun s => Ok (bool_decide (m_impl (client s) <> None), s).

Definition disconnect : C () :=
  let! h := impl in
  match h with
  | Some h => let! _ := lib (fun w => ((), mysql_close h w)) in set_impl None
  | None => ret ()
  end.

(** [connectTimeoutMs > 0 ? connectTimeoutMs / 1000 : 2]. *)
Definition connect_timeout (ms : Z) : Z := if 0 <? ms then ms / 1000 else 2.

Definition connect (host : string) (port : Z) (user password database : string)
    (connectTimeoutMs : Z) : C bool :=
  let! _ := disconnect in
  let! handle := lib mysql_init in
  match handle with
  | None => let! _ := setLastError "mysql_init failed" in ret false
  | Some handle =>
    let! _ := lib (fun w => ((), mysql_options handle (connect_timeout connectTimeoutMs) w)) in
    let! ok := lib (mysql_real_connect handle (c_str host) (c_str user) (c_str password)
                      (c_str database) (u32 port)) in
    if negb ok then
      let! _ := setLastErrorOf handle in
      let! _ := lib (fun w => ((), mysql_close handle w)) in ret false
    else
      let! _ := set_impl (Some handle) in
      let! _ := setLastError "" in ret true
  end.

Definition not_ready : C () := setLastError "MySQL connection is not ready".

Definition execute (sql : string) : C bool :=
  let! h := impl in
  match h with
  | None => let! _ := not_ready in ret false
  | Some h =>
    let! rc := lib (mysql_query h (c_str sql)) in
    if negb (rc =? 0) then let! _ := setLastErrorOf h in ret false
    else let! _ := setLastError "" in ret true
  end.

(** One row: [item\[key\] = value] over the columns, in order. *)
Definition fetch_row (fields cells : list (option string)) : Row :=
  foldl (fun item kv => <[default "" kv.1 := default "" kv.2]> item) ∅ (zip fields cells).

Definition query (sql : string) : C (bool * list Row) :=
  let! h := impl in
  match h with
  | None => let! _ := not_ready in ret (false, [])
  | Some h =>
    let! rc := lib (mysql_query h (c_str sql)) in
    if negb (rc =? 0) then let! _ := setLastErrorOf h in ret (false, [])
    else
      let! result := lib (mysql_store_result h) in
      match result with
      | None =>
        let! n := lib (fun w => (mysql_field_count h w, w)) in
        if n =? 0 then ret (true, [])
        else let! _ := setLastErrorOf h in ret (false, [])
      | Some r =>
        let! _ := setLastError "" in
        ret (true, map (fetch_row (res_fields r)) (res_rows r))
      end
  end.

Definition escape (value : string) : C string :=
  let! h := impl in
  match h with
  | None => let! _ := not_ready in ret value
  | Some h => lib (fun w => (mysql_real_escape_string h value w, w))
  end.

Definition begin : C bool := execute "BEGIN".
Definition commit : C bool := execute "COMMIT".
Definition rollback : C bool := execute "ROLLBACK".

(** [sql << p1 << p2 ...]. *)
Fixpoint stream (ps : list piece) : C string :=
  match ps with
  | [] => ret ""
  | p :: ps' =>
    let! a := match p with Lit s => ret s | Num z => ret (dec z) | Esc s => escape s end in
    let! b := stream ps' in ret (a +:+ b)
  end.

(** The two shapes all repository operations end with. *)
Definition execute_stream (ps : list piece) : C (option string) :=
  let! sql := stream ps in
  let! ok := execute sql in
  if negb ok then let! e := lastError in ret (Some e) else ret None.

Definition query_stream (ps : list piece) : C (string + list Row) :=
  let! sql := stream ps in
  let! r := query sql in
  if negb r.1 then let! e := lastError in ret (inl e) else ret (inr r.2).

(** ** Decoding rows *)

(** [row.at(key)]. *)
Definition at_ (row : Row) (key : string) : res string :=
  match row !! key with Some v => Ok v | None => Err OutOfRange end.

Definition ToUint64 (row : Row) (key : string) : res Z :=
  match row !! key with
  | None => Ok 0
  | Some v => if bool_decide (v = "") then Ok 0 else stoull v
  end.

Definition ToInt64 (row : Row) (key : string) : res Z :=
  match row !! key with
  | None => Ok 0
  | Some v => if bool_decide (v = "") then Ok 0 else stoll v
  end.

Definition status_num (st : DeliveryStatus) : Z :=
  match st with
  | DeliveryCreated => 0 | DeliveryPersisted => 1 | DeliveryDelivering => 2
  | DeliveryDelivered => 3 | DeliveryFailed => 4 | DeliveryRead => 5
  end.

(** [static_cast<DeliveryStatus>]; the tables only hold numbers of
    enumerators, other numbers are not modelled. *)
Definition status_of (z : Z) : res DeliveryStatus :=
  match find (fun st => status_num st =? u8 z)
    [DeliveryCreated; DeliveryPersisted; DeliveryDelivering; DeliveryDelivered; DeliveryFailed;
     DeliveryRead] with
  | Some st => Ok st
  | None => Err InvalidArgument
  end.

Definition stoul_at (row : Row) (key : string) : res Z := v <- at_ row key;; stoul v.
Definition stoll_at (row : Row) (key : string) : res Z := v <- at_ row key;; stoll v.

(** ** MessageRepository *)
Record MessageRecord := mkMessageRecord {
  mr_messageId : Z;
  mr_clientMsgId : string;
  mr_fromUserId : string;
  mr_toUserId : string;
  mr_conversationId : string;
  mr_payloadFormat : Z;
  mr_content : string;
  mr_messageType : string;
  mr_status : DeliveryStatus;
  mr_createdAtMs : Z;
  mr_updatedAtMs : Z;
}.

Definition BuildMessageRecord (row : Row) : res MessageRecord :=
  id <- ToUint64 row "id";;
  cid <- at_ row "client_msg_id";;
  from <- at_ row "from_user_id";;
  to <- at_ row "to_user_id";;
  conv <- at_ row "conversation_id";;
  fmt <- stoul_at row "payload_format";;
  content <- at_ row "content";;
  type <- at_ row "message_type";;
  st <- stoul_at row "status";;
  st' <- status_of st;;
  created <- stoll_at row "created_at_ms";;
  updated <- stoll_at row "updated_at_ms";;
  Ok (mkMessageRecord id cid from to conv (u32 fmt) content type st' created updated).

Definition createMessage_sql (r : MessageRecord) : list piece :=
  [Lit "INSERT INTO im_message ";
   Lit "(id, client_msg_id, from_user_id, to_user_id, conversation_id, payload_format, content, ";
   Lit "message_type, status, created_at_ms, updated_at_ms) VALUES (";
   Num (mr_messageId r); Lit ", '";
   Esc (mr_clientMsgId r); Lit "', '";
   Esc (mr_fromUserId r); Lit "', '";
   Esc (mr_toUserId r); Lit "', '";
   Esc (mr_conversationId r); Lit "', ";
   Num (mr_payloadFormat r); Lit ", '";
   Esc (mr_content r); Lit "', '";
   Esc (mr_messageType r); Lit "', ";
   Num (status_num (mr_status r)); Lit ", ";
   Num (mr_createdAtMs r); Lit ", ";
   Num (mr_updatedAtMs r); Lit ")"].

Definition createMessage (r : MessageRecord) : C (option string) := execute_stream (createMessage_sql r).

(** [rows.empty() ? nullopt : Build(rows.front())]. *)
Definition first_row {A} (build : Row -> res A) (r : string + list Row) : C (option A * string) :=
  match r with
  | inl e => ret (None, e)
  | inr [] => ret (None, "")
  | inr (row :: _) => let! x := of_res (build row) in ret (Some x, "")
  end.

Definition message_columns : list piece :=
  [Lit "SELECT id, client_msg_id, from_user_id, to_user_id, conversation_id, payload_format, ";
   Lit "content, message_type, status, created_at_ms, updated_at_ms "].

Definition findByMessageId_sql (messageId : Z) : list piece :=
  message_columns ++ [Lit "FROM im_message WHERE id="; Num messageId; Lit " LIMIT 1"].

Definition findByMessageId (messageId : Z) : C (option MessageRecord * string) :=
  let! r := query_stream (findByMessageId_sql messageId) in first_row BuildMessageRecord r.

Definition findBySenderClientMsgId_sql (senderId clientMsgId : string) : list piece :=
  message_columns ++
  [Lit "FROM im_message WHERE from_user_id='"; Esc senderId;
   Lit "' AND client_msg_id='"; Esc clientMsgId; Lit "' LIMIT 1"].

Definition findBySenderClientMsgId (senderId clientMsgId : string) : C (option MessageRecord * string) :=
  let! r := query_stream (findBySenderClientMsgId_sql senderId clientMsgId) in
  first_row BuildMessageRecord r.

(** [rows.empty() ? 0 : ToUint64(rows.front(), key)], 0 after an error. *)
Definition first_uint (key : string) (r : string + list Row) : C (Z * string) :=
  match r with
  | inl e => ret (0, e)
  | inr [] => ret (0, "")
  | inr (row :: _) => let! x := of_res (ToUint64 row key) in ret (x, "")
  end.

Definition getMaxMessageId_sql : list piece :=
  [Lit "SELECT COALESCE(MAX(id), 0) AS max_id FROM im_message"].

Definition getMaxMessageId : C (Z * string) :=
  let! r := query_stream getMaxMessageId_sql in first_uint "max_id" r.

(** ** DeliveryRepository *)
Record DeliveryRecord := mkDeliveryRecord {
  dr_messageId : Z;
  dr_receiverUserId : string;
  dr_serverSeq : Z;
  dr_status : DeliveryStatus;
  dr_retryCount : Z;
  dr_lastError : string;
  dr_deliveredAtMs : Z;
  dr_ackedAtMs : Z;
  dr_createdAtMs : Z;
  dr_updatedAtMs : Z;
}.

Definition BuildDeliveryRecord (row : Row) : res DeliveryRecord :=
  id <- ToUint64 row "message_id";;
  receiver <- at_ row "receiver_user_id";;
  seq <- ToUint64 row "server_seq";;
  st <- stoul_at row "status";;
  st' <- status_of st;;
  retries <- stoul_at row "retry_count";;
  error <- at_ row "last_error";;
  delivered <- ToInt64 row "delivered_at_ms";;
  acked <- ToInt64 row "acked_at_ms";;
  created <- ToInt64 row "created_at_ms";;
  updated <- ToInt64 row "updated_at_ms";;
  Ok (mkDeliveryRecord id receiver seq st' (u32 retries) error delivered acked created updated).

Definition createDelivery_sql (r : DeliveryRecord) : list piece :=
  [Lit "INSERT INTO im_message_delivery ";
   Lit "(message_id, receiver_user_id, server_seq, status, retry_count, last_error, ";
   Lit "delivered_at_ms, acked_at_ms, created_at_ms, updated_at_ms) VALUES (";
   Num (dr_messageId r); Lit ", '";
   Esc (dr_receiverUserId r); Lit "', ";
   Num (dr_serverSeq r); Lit ", ";
   Num (status_num (dr_status r)); Lit ", ";
   Num (dr_retryCount r); Lit ", '";
   Esc (dr_lastError r); Lit "', ";
   Num (dr_deliveredAtMs r); Lit ", ";
   Num (dr_ackedAtMs r); Lit ", ";
   Num (dr_createdAtMs r); Lit ", ";
   Num (dr_updatedAtMs r); Lit ")"].

Definition createDelivery (r : DeliveryRecord) : C (option string) := execute_stream (createDelivery_sql r).

Definition updateDeliveryStatus_sql (messageId : Z) (receiverUserId : string) (st : DeliveryStatus)
    (retryCount deliveredAtMs ackedAtMs now : Z) : list piece :=
  [Lit "UPDATE im_message_delivery SET ";
   Lit "status="; Num (status_num st); Lit ", ";
   Lit "retry_count="; Num retryCount; Lit ", ";
   Lit "delivered_at_ms="; Num deliveredAtMs; Lit ", ";
   Lit "acked_at_ms="; Num ackedAtMs; Lit ", ";
   Lit "updated_at_ms="; Num now; Lit " ";
   Lit "WHERE message_id="; Num messageId;
   Lit " AND receiver_user_id='"; Esc receiverUserId; Lit "'"].

Definition updateDeliveryStatus (messageId : Z) (receiverUserId : string) (st : DeliveryStatus)
    (retryCount deliveredAtMs ackedAtMs : Z) : C (option string) :=
  let! now := lib (fun w => (GetTimestampMs w, w)) in
  execute_stream (updateDeliveryStatus_sql messageId receiverUserId st retryCount deliveredAtMs
                    ackedAtMs now).

Definition delivery_columns : list piece :=
  [Lit "SELECT message_id, receiver_user_id, server_seq, status, retry_count, last_error, ";
   Lit "delivered_at_ms, acked_at_ms, created_at_ms, updated_at_ms "].

Definition findByMessageAndReceiver_sql (messageId : Z) (receiverUserId : string) : list piece :=
  delivery_columns ++
  [Lit "FROM im_message_delivery WHERE message_id="; Num messageId;
   Lit " AND receiver_user_id='"; Esc receiverUserId; Lit "' LIMIT 1"].

Definition findByMessageAndReceiver (messageId : Z) (receiverUserId : string)
    : C (option DeliveryRecord * string) :=
  let! r := query_stream (findByMessageAndReceiver_sql messageId receiverUserId) in
  first_row BuildDeliveryRecord r.

Definition listPendingByReceiver_sql (receiverUserId : string) (afterSeq limit : Z) : list piece :=
  delivery_columns ++
  [Lit "FROM im_message_delivery WHERE receiver_user_id='"; Esc receiverUserId; Lit "' ";
   Lit "AND server_seq > "; Num afterSeq; Lit " ";
   Lit "AND status IN ("; Num (status_num DeliveryPersisted); Lit ", ";
   Num (status_num DeliveryDelivering); Lit ") ";
   Lit "ORDER BY server_seq ASC LIMIT "; Num limit].

Fixpoint build_all {A} (build : Row -> res A) (rows : list Row) : res (list A) :=
  match rows with
  | [] => Ok []
  | row :: rows' => x <- build row;; xs <- build_all build rows';; Ok (x :: xs)
  end.

Definition listPendingByReceiver (receiverUserId : string) (afterSeq limit : Z)
    : C (list DeliveryRecord * string) :=
  let! r := query_stream (listPendingByReceiver_sql receiverUserId afterSeq limit) in
  match r with
  | inl e => ret ([], e)
  | inr rows => let! l := of_res (build_all BuildDeliveryRecord rows) in ret (l, "")
  end.

Definition getMaxServerSeq_sql (receiverUserId : string) : list piece :=
  [Lit "SELECT COALESCE(MAX(server_seq), 0) AS max_server_seq ";
   Lit "FROM im_message_delivery WHERE receiver_user_id='"; Esc receiverUserId; Lit "'"].

Definition getMaxServerSeq (receiverUserId : string) : C (Z * string) :=
  let! r := query_stream (getMaxServerSeq_sql receiverUserId) in first_uint "max_server_seq" r.

Definition repo_getLastAckedSeq_sql (receiverUserId : string) : list piece :=
  [Lit "SELECT COALESCE(MAX(server_seq), 0) AS last_acked_seq ";
   Lit "FROM im_message_delivery WHERE receiver_user_id='"; Esc receiverUserId; Lit "' ";
   Lit "AND status IN ("; Num (status_num DeliveryDelivered); Lit ", ";
   Num (status_num DeliveryRead); Lit ")"].

Definition repo_getLastAckedSeq (receiverUserId : string) : C (Z * string) :=
  let! r := query_stream (repo_getLastAckedSeq_sql receiverUserId) in first_uint "last_acked_seq" r.

Definition appendAckLog_sql (messageId : Z) (receiverUserId : string) (serverSeq ackCode ackedAtMs : Z)
    : list piece :=
  [Lit "INSERT INTO im_message_ack_log ";
   Lit "(message_id, receiver_user_id, server_seq, ack_code, acked_at_ms) VALUES (";
   Num messageId; Lit ", '";
   Esc receiverUserId; Lit "', ";
   Num serverSeq; Lit ", ";
   Num ackCode; Lit ", ";
   Num ackedAtMs; Lit ")"].

Definition appendAckLog (messageId : Z) (receiverUserId : string) (serverSeq ackCode ackedAtMs : Z)
    : C (option string) :=
  execute_stream (appendAckLog_sql messageId receiverUserId serverSeq ackCode ackedAtMs).

(** ** SessionRepository *)
Definition createSession_sql (r : auth.SessionRecord) : list piece :=
  [Lit "INSERT INTO im_session ";
   Lit "(session_id, user_id, device_id, server_node_id, last_acked_seq, created_at_ms, expires_at_ms) VALUES ('";
   Esc (auth.sr_sessionId r); Lit "', '";
   Esc (auth.sr_userId r); Lit "', '";
   Esc (auth.sr_deviceId r); Lit "', '";
   Esc (auth.sr_serverNodeId r); Lit "', ";
   Num (auth.sr_lastAckedSeq r); Lit ", ";
   Num (auth.sr_createdAtMs r); Lit ", ";
   Num (auth.sr_expiresAtMs r); Lit ") ";
   Lit "ON DUPLICATE KEY UPDATE ";
   Lit "user_id=VALUES(user_id), ";
   Lit "device_id=VALUES(device_id), ";
   Lit "server_node_id=VALUES(server_node_id), ";
   Lit "last_acked_seq=VALUES(last_acked_seq), ";
   Lit "created_at_ms=VALUES(created_at_ms), ";
   Lit "expires_at_ms=VALUES(expires_at_ms)"].

Definition createSession (r : auth.SessionRecord) : C (option string) := execute_stream (createSession_sql r).

Definition deleteSession_sql (sessionId : string) : list piece :=
  [Lit "DELETE FROM im_session WHERE session_id='"; Esc sessionId; Lit "'"].

Definition deleteSession (sessionId : string) : C (option string) := execute_stream (deleteSession_sql sessionId).

Definition BuildSessionRecord (row : Row) : res auth.SessionRecord :=
  sid <- at_ row "session_id";;
  user <- at_ row "user_id";;
  device <- at_ row "device_id";;
  node <- at_ row "server_node_id";;
  last <- ToUint64 row "last_acked_seq";;
  created <- ToInt64 row "created_at_ms";;
  expires <- ToInt64 row "expires_at_ms";;
  Ok (auth.mkSessionRecord sid user device node last created expires).

Definition findBySessionId_sql (sessionId : string) : list piece :=
  [Lit "SELECT session_id, user_id, device_id, server_node_id, last_acked_seq, created_at_ms, expires_at_ms ";
   Lit "FROM im_session WHERE session_id='"; Esc sessionId; Lit "' LIMIT 1"].

Definition findBySessionId (sessionId : string) : C (option auth.SessionRecord * string) :=
  let! r := query_stream (findBySessionId_sql sessionId) in first_row BuildSessionRecord r.

Definition updateLastAckedSeq_sql (sessionId : string) (seq : Z) : list piece :=
  [Lit "UPDATE im_session SET last_acked_seq=GREATEST(last_acked_seq, "; Num seq;
   Lit ") WHERE session_id='"; Esc sessionId; Lit "'"].

Definition updateLastAckedSeq (sessionId : string) (seq : Z) : C (option string) :=
  execute_stream (updateLastAckedSeq_sql sessionId seq).

Definition updateLastAckedSeqByUser_sql (userId : string) (seq : Z) : list piece :=
  [Lit "UPDATE im_session SET last_acked_seq=GREATEST(last_acked_seq, "; Num seq;
   Lit ") WHERE user_id='"; Esc userId; Lit "'"].

Definition updateLastAckedSeqByUser (userId : string) (seq : Z) : C (option string) :=
  execute_stream (updateLastAckedSeqByUser_sql userId seq).

End Client.

Arguments Conn W : clear implicits.
Arguments mkConn {W} client world.
Notation "'let!' x := m 'in' k" := (bind m (fun x => k))
  (at level 200, x pattern, m at level 100, k at level 200).

End mysql.
