(* ===== verification/MySqlStore.v ===== *)
(** * MySqlStore: the message store over MySQL
      (MySqlMessageStore of src/storage/messageStore.h and messageStore.cpp)

    The store keeps the next message identifier, a cursor of sequence numbers
    per receiver and a cache of acknowledged numbers; messages live in the
    tables.  Each operation is translated statement by statement over the
    repositories of MySql.v.  [Err NullPointer] is a call through a repository
    pointer before [init] has set it. *)
From S2P Require Import Prelude Text Protocol MessageStore Auth Sql MySql.
Import text protocol storage sql mysql.

Module mysql_store.

Record MySqlStoreOptions := mkOptions {
  opt_enabled : bool;
  opt_host : string;
  opt_port : Z;
  opt_user : string;
  opt_password : string;
  opt_database : string;
  opt_connectTimeoutMs : Z;
}.

Definition defaultOptions : MySqlStoreOptions :=
  mkOptions false "127.0.0.1" 3306 "" "" "im_server" 2000.

Section Store.
Context {W : Type} `{LibMySql W}.

Record MySqlMessageStore := mkStore {
  m_options : MySqlStoreOptions;
  conn : Conn W;                          (* *m_client, shared with the repositories *)
  has_repositories : bool;                (* the two unique_ptr are set together *)
  s_nextMsgId : Z;
  s_nextServerSeqByUser : gmap string Z;
  m_lastAckedSeqCache : gmap string Z;
}.

Definition newStore (options : MySqlStoreOptions) (w : W) : MySqlMessageStore :=
  mkStore options (mkConn newClient w) false 1 ∅ ∅.

Definition with_conn (c : Conn W) (s : MySqlMessageStore) : MySqlMessageStore :=
  mkStore (m_options s) c (has_repositories s) (s_nextMsgId s) (s_nextServerSeqByUser s)
    (m_lastAckedSeqCache s).

Definition M (A : Type) := MySqlMessageStore -> res (A * MySqlMessageStore).
Definition mret {A} (a : A) : M A := fun s => Ok (a, s).
Definition mbind {A B} (m : M A) (f : A -> M B) : M B := fun s => '(a, s') <- m s;; f a s'.
Definition read {A} (f : MySqlMessageStore -> A) : M A := fun s => Ok (f s, s).
Definition modify (f : MySqlMessageStore -> MySqlMessageStore) : M () := fun s => Ok ((), f s).

Notation "'do!' x := m 'in' k" := (mbind m (fun x => k))
  (at level 200, x pattern, m at level 100, k at level 200).

(** [m_client->...] and [m_messageRepository->...], [m_deliveryRepository->...]. *)
Definition on_client {A} (c : C A) : M A :=
  fun s => '(a, c') <- c (conn s);; Ok (a, with_conn c' s).
Definition on_repository {A} (c : C A) : M A :=
  fun s => if has_repositories s then on_client c s else Err NullPointer.

Definition set_nextMsgId (id : Z) : M () := modify (fun s =>
  mkStore (m_options s) (conn s) (has_repositories s) id (s_nextServerSeqByUser s)
    (m_lastAckedSeqCache s)).
Definition set_cursor (u : string) (seq : Z) : M () := modify (fun s =>
  mkStore (m_options s) (conn s) (has_repositories s) (s_nextMsgId s)
    (<[u := seq]> (s_nextServerSeqByUser s)) (m_lastAckedSeqCache s)).
Definition set_cache (u : string) (seq : Z) : M () := modify (fun s =>
  mkStore (m_options s) (conn s) (has_repositories s) (s_nextMsgId s) (s_nextServerSeqByUser s)
    (<[u := seq]> (m_lastAckedSeqCache s))).

(** [m_lastAckedSeqCache\[u\]] and [m_nextServerSeqByUser\[u\]] read 0 for a
    missing key; the writes that follow insert it. *)
Definition loadMaxMessageId : M (option string) :=
  do! r := on_repository getMaxMessageId in
  let '(maxId, errorMsg) := r in
  if negb (bool_decide (errorMsg = "")) then mret (Some errorMsg)
  else do! _ := set_nextMsgId (u64 (maxId + 1)) in mret None.

Definition init : M (option string) :=
  do! o := read m_options in
  do! ok := on_client (connect (opt_host o) (opt_port o) (opt_user o) (opt_password o)
                         (opt_database o) (opt_connectTimeoutMs o)) in
  if negb ok then do! e := on_client lastError in mret (Some e)
  else
    do! _ := modify (fun s => mkStore (m_options s) (conn s) true (s_nextMsgId s)
                                (s_nextServerSeqByUser s) (m_lastAckedSeqCache s)) in
    loadMaxMessageId.

Definition ensureServerSeqCursor (receiverId : string) : M (option string) :=
  do! known := read (fun s => bool_decide (s_nextServerSeqByUser s !! receiverId <> None)) in
  if (known : bool) then mret None
  else
    do! r := on_repository (getMaxServerSeq receiverId) in
    let '(seq, errorMsg) := r in
    do! _ := set_cursor receiverId seq in
    if negb (bool_decide (errorMsg = "")) then mret (Some errorMsg) else mret None.

(** The message a row of each table describes. *)
Definition to_stored (m : MessageRecord) (d : DeliveryRecord) : StoredMessage :=
  mkStoredMessage
    (mkP2PMsgNotify (mr_messageId m) (dr_serverSeq d) (mr_fromUserId m) (mr_toUserId m)
       (mr_clientMsgId m) (mr_content m) (mr_createdAtMs m))
    (dr_status d) (dr_receiverUserId d) (mr_createdAtMs m) (dr_deliveredAtMs d) (dr_ackedAtMs d)
    (dr_retryCount d).

Definition findDuplicateMessage (request : CreateMessageRequest) : M (option StoredMessage * string) :=
  if bool_decide (req_clientMsgId request = "") then mret (None, "")
  else
    do! r := on_repository (findBySenderClientMsgId (req_fromUserId request) (req_clientMsgId request)) in
    match r with
    | (None, errorMsg) => mret (None, errorMsg)
    | (Some message, _) =>
      do! r := on_repository (findByMessageAndReceiver (mr_messageId message) (req_toUserId request)) in
      match r with
      | (None, errorMsg) => mret (None, errorMsg)
      | (Some delivery, _) => mret (Some (to_stored message delivery), "")
      end
    end.

Definition message_record (message : StoredMessage) : MessageRecord :=
  mkMessageRecord (n_msgId (notify message)) (n_clientMsgId (notify message))
    (n_fromUserId (notify message)) (n_toUserId (notify message))
    (n_fromUserId (notify message) +:+ ":" +:+ n_toUserId (notify message))
    0 (n_content (notify message)) "text" (status message) (createdAt message) (createdAt message).

Definition delivery_record (message : StoredMessage) : DeliveryRecord :=
  mkDeliveryRecord (n_msgId (notify message)) (receiverId message) (n_serverSeq (notify message))
    (status message) (retryCount message) "" (lastDeliverAt message) (ackedAt message)
    (createdAt message) (createdAt message).

Definition executeInsertMessage (message : StoredMessage) : M (option string) :=
  on_repository (createMessage (message_record message)).

Definition executeInsertDelivery (message : StoredMessage) : M (option string) :=
  on_repository (createDelivery (delivery_record message)).

(** [!a || !b]: the second call only runs when the first succeeded. *)
Definition both (a b : M (option string)) : M (option string) :=
  do! e := a in match e with Some e => mret (Some e) | None => b end.

(** [begin(); a && b; commit()] with the error paths both callers have. *)
Definition in_transaction (body : M (option string)) : M (option string) :=
  do! ok := on_client begin in
  if negb ok then do! e := on_client lastError in mret (Some e)
  else
    do! e := body in
    match e with
    | Some e => do! _ := on_client rollback in mret (Some e)
    | None =>
      do! ok := on_client commit in
      if negb ok then
        do! e := on_client lastError in
        do! _ := on_client rollback in mret (Some e)
      else mret None
    end.

Definition sql_saveMessageAndDelivery (request : CreateMessageRequest)
    : M (string + StoredMessage * bool) :=
  do! dup := findDuplicateMessage request in
  match dup with
  | (Some existing, _) => mret (inr (existing, true))
  | (None, errorMsg) =>
    if negb (bool_decide (errorMsg = "")) then mret (inl errorMsg)
    else
      do! e := ensureServerSeqCursor (req_toUserId request) in
      match e with
      | Some e => mret (inl e)
      | None =>
        do! id := read s_nextMsgId in
        do! _ := set_nextMsgId (u64 (id + 1)) in
        do! last := read (fun s => at_default (req_toUserId request) (s_nextServerSeqByUser s)) in
        do! _ := set_cursor (req_toUserId request) (u64 (last + 1)) in
        let message := mkStoredMessage
          (mkP2PMsgNotify id (u64 (last + 1)) (req_fromUserId request) (req_toUserId request)
             (req_clientMsgId request) (req_content request) (req_timestamp request))
          DeliveryPersisted (req_toUserId request) (req_timestamp request) 0 0 0 in
        do! e := in_transaction (both (executeInsertMessage message) (executeInsertDelivery message)) in
        match e with
        | Some e => mret (inl e)
        | None => mret (inr (message, false))
        end
      end
  end.

Definition sql_markDeliveryAttempt (receiver : string) (id : Z) (st : DeliveryStatus)
    (deliverAt retries : Z) : M (option string) :=
  on_repository (updateDeliveryStatus id receiver st retries deliverAt 0).

Definition sql_getLastAckedSeq (receiver : string) : M Z :=
  do! cached := read (fun s => m_lastAckedSeqCache s !! receiver) in
  match cached with
  | Some v => mret v
  | None =>
    do! ready := read has_repositories in
    do! r := (if ready : bool then on_client (repo_getLastAckedSeq receiver) else mret (0, "")) in
    let '(seq, errorMsg) := r in
    if negb (bool_decide (errorMsg = "")) then mret 0
    else do! _ := set_cache receiver seq in mret seq
  end.

Definition sql_markAcked (receiver : string) (id seq ackCode at_ : Z) : M (option string * Z) :=
  let fail e := do! last := sql_getLastAckedSeq receiver in mret (Some e, last) in
  do! found := on_repository (findByMessageAndReceiver id receiver) in
  match found with
  | (None, errorMsg) => fail (if bool_decide (errorMsg = "") then "message not found" else errorMsg)
  | (Some delivery, _) =>
    if negb (dr_serverSeq delivery =? seq) then fail "server_seq mismatch"
    else
      do! e := in_transaction
                 (both (on_repository (updateDeliveryStatus id receiver (ack_status ackCode)
                                         (dr_retryCount delivery) (dr_deliveredAtMs delivery) at_))
                       (on_repository (appendAckLog id receiver seq ackCode at_))) in
      match e with
      | Some e => fail e
      | None =>
        do! old := read (fun s => at_default receiver (m_lastAckedSeqCache s)) in
        do! _ := set_cache receiver (Z.max old seq) in
        mret (None, Z.max old seq)
      end
  end.

(** The loop over the pending deliveries: [inl e] is the early return. *)
Fixpoint sql_load_loop (deliveries : list DeliveryRecord) (result : list StoredMessage) (next : Z)
    : M (string + list StoredMessage * Z) :=
  match deliveries with
  | [] => mret (inr (result, next))
  | d :: deliveries' =>
    do! r := on_repository (findByMessageId (dr_messageId d)) in
    match r with
    | (None, errorMsg) =>
      if negb (bool_decide (errorMsg = "")) then mret (inl errorMsg)
      else sql_load_loop deliveries' result next
    | (Some m, _) =>
      sql_load_loop deliveries' (result ++ [to_stored m d]) (Z.max next (dr_serverSeq d))
    end
  end.

Definition sql_loadPendingMessages (receiver : string) (after limit : Z)
    : M (list StoredMessage * Z * string) :=
  do! r := on_repository (listPendingByReceiver receiver after limit) in
  let '(deliveries, errorMsg) := r in
  if negb (bool_decide (errorMsg = "")) then mret ([], after, errorMsg)
  else
    do! r := sql_load_loop deliveries [] after in
    match r with
    | inl e => mret ([], after, e)
    | inr (result, next) =>
      mret (result, (match result with [] => next | _ => u64 (next + 1) end), "")
    end.

(** ** Helpers of messageStore.cpp that no operation of the store calls *)
Definition text_ToUint64 (value : string) : res Z := if bool_decide (value = "") then Ok 0 else stoull value.
Definition text_ToUint32 (value : string) : res Z :=
  if bool_decide (value = "") then Ok 0 else v <- stoul value;; Ok (u32 v).
Definition text_ToInt64 (value : string) : res Z := if bool_decide (value = "") then Ok 0 else stoll value.

Definition BuildStoredMessageFromRow (row : Row) : res StoredMessage :=
  let u64_at k := v <- mysql.at_ row k;; text_ToUint64 v in
  let u32_at k := v <- mysql.at_ row k;; text_ToUint32 v in
  let i64_at k := v <- mysql.at_ row k;; text_ToInt64 v in
  id <- u64_at "msg_id";;
  seq <- u64_at "server_seq";;
  from <- mysql.at_ row "from_user_id";;
  to <- mysql.at_ row "to_user_id";;
  cid <- mysql.at_ row "client_msg_id";;
  content <- mysql.at_ row "content";;
  created <- i64_at "created_at_ms";;
  receiver <- mysql.at_ row "receiver_user_id";;
  delivered <- i64_at "delivered_at_ms";;
  acked <- i64_at "acked_at_ms";;
  retries <- u32_at "retry_count";;
  st <- u32_at "status";;
  st' <- status_of st;;
  Ok (mkStoredMessage (mkP2PMsgNotify id seq from to cid content created) st' receiver created
        delivered acked retries).

End Store.

Arguments MySqlMessageStore W : clear implicits.
Arguments mkStore {W} m_options conn has_repositories s_nextMsgId s_nextServerSeqByUser
  m_lastAckedSeqCache.

(** ** The client of a build without the library *)
Module stub.

Definition unsupported : string := "MySQL client support is not compiled in".

(** [connect], [execute] and [query] only record the error. *)
Definition connect (c : MySqlClient) : bool * MySqlClient := (false, mkClient (m_impl c) unsupported).
Definition execute (sql : string) (c : MySqlClient) : bool * MySqlClient :=
  (false, mkClient (m_impl c) unsupported).
Definition query (sql : string) (c : MySqlClient) : (bool * list Row) * MySqlClient :=
  ((false, []), mkClient (m_impl c) unsupported).
Definition connected (c : MySqlClient) : bool := false.
Definition disconnect (c : MySqlClient) : MySqlClient := mkClient None (m_lastError c).

Fixpoint escape (value : string) : string :=
  match value with
  | EmptyString => ""
  | String ch value' =>
    (if bool_decide (ch = "'"%char) then "\'"
     else if bool_decide (ch = "\"%char) then "\\"
     else String ch "") +:+ escape value'
  end.

End stub.

End mysql_store.
