(* ===== verification/MySqlSpec.v ===== *)
(** * MySqlSpec: what the repositories' statements mean, and a server

    [request] lists the statements of the three repositories, [sql_of] the text
    each one streams and [meaning] the statement it stands for.
    [statements_carry_values] shows that the text always parses to the meaning,
    whatever bytes the values hold.  [MySqlServer] states what the store relies
    on: a sound escape function, and that the server runs a statement as
    Tables.v describes or fails with an error.  [toy] is such a server, with a
    script of failures, to evaluate the store on. *)
From S2P Require Import Prelude Text Protocol MessageStore Auth Sql Tables MySql MySqlStore.
Import text protocol storage sql tables mysql mysql_store.

Module mysql_spec.

(** ** The statements of the repositories *)
Inductive request :=
| QBegin | QCommit | QRollback
| QCreateMessage (r : MessageRecord)
| QFindMessage (id : Z)
| QFindSender (sender clientMsgId : string)
| QMaxMessageId
| QCreateDelivery (r : DeliveryRecord)
| QUpdateDelivery (id : Z) (receiver : string) (st : DeliveryStatus) (retries delivered acked now : Z)
| QFindDelivery (id : Z) (receiver : string)
| QPending (receiver : string) (after limit : Z)
| QMaxSeq (receiver : string)
| QLastAcked (receiver : string)
| QAckLog (id : Z) (receiver : string) (seq code at_ : Z)
| QCreateSession (r : auth.SessionRecord)
| QDeleteSession (id : string)
| QFindSession (id : string)
| QUpdateSession (id : string) (seq : Z)
| QUpdateSessions (user : string) (seq : Z).

Definition sql_of (q : request) : list piece :=
  match q with
  | QBegin => [Lit "BEGIN"] | QCommit => [Lit "COMMIT"] | QRollback => [Lit "ROLLBACK"]
  | QCreateMessage r => createMessage_sql r
  | QFindMessage id => findByMessageId_sql id
  | QFindSender s c => findBySenderClientMsgId_sql s c
  | QMaxMessageId => getMaxMessageId_sql
  | QCreateDelivery r => createDelivery_sql r
  | QUpdateDelivery id r st n d a now => updateDeliveryStatus_sql id r st n d a now
  | QFindDelivery id r => findByMessageAndReceiver_sql id r
  | QPending r a l => listPendingByReceiver_sql r a l
  | QMaxSeq r => getMaxServerSeq_sql r
  | QLastAcked r => repo_getLastAckedSeq_sql r
  | QAckLog id r s c a => appendAckLog_sql id r s c a
  | QCreateSession r => createSession_sql r
  | QDeleteSession i => deleteSession_sql i
  | QFindSession i => findBySessionId_sql i
  | QUpdateSession i s => updateLastAckedSeq_sql i s
  | QUpdateSessions u s => updateLastAckedSeqByUser_sql u s
  end.

(** ** Rows of the tables *)
Definition message_row (r : MessageRecord) : row :=
  [("id", VInt (mr_messageId r)); ("client_msg_id", VStr (mr_clientMsgId r));
   ("from_user_id", VStr (mr_fromUserId r)); ("to_user_id", VStr (mr_toUserId r));
   ("conversation_id", VStr (mr_conversationId r)); ("payload_format", VInt (mr_payloadFormat r));
   ("content", VStr (mr_content r)); ("message_type", VStr (mr_messageType r));
   ("status", VInt (status_num (mr_status r))); ("created_at_ms", VInt (mr_createdAtMs r));
   ("updated_at_ms", VInt (mr_updatedAtMs r))].

Definition delivery_row (r : DeliveryRecord) : row :=
  [("message_id", VInt (dr_messageId r)); ("receiver_user_id", VStr (dr_receiverUserId r));
   ("server_seq", VInt (dr_serverSeq r)); ("status", VInt (status_num (dr_status r)));
   ("retry_count", VInt (dr_retryCount r)); ("last_error", VStr (dr_lastError r));
   ("delivered_at_ms", VInt (dr_deliveredAtMs r)); ("acked_at_ms", VInt (dr_ackedAtMs r));
   ("created_at_ms", VInt (dr_createdAtMs r)); ("updated_at_ms", VInt (dr_updatedAtMs r))].

Definition session_row (r : auth.SessionRecord) : row :=
  [("session_id", VStr (auth.sr_sessionId r)); ("user_id", VStr (auth.sr_userId r));
   ("device_id", VStr (auth.sr_deviceId r)); ("server_node_id", VStr (auth.sr_serverNodeId r));
   ("last_acked_seq", VInt (auth.sr_lastAckedSeq r)); ("created_at_ms", VInt (auth.sr_createdAtMs r));
   ("expires_at_ms", VInt (auth.sr_expiresAtMs r))].

Definition ack_row (id : Z) (receiver : string) (seq code at_ : Z) : row :=
  [("message_id", VInt id); ("receiver_user_id", VStr receiver); ("server_seq", VInt seq);
   ("ack_code", VInt code); ("acked_at_ms", VInt at_)].

Definition message_cols : list string := (columns im_message).*1.
Definition delivery_cols : list string := (columns im_message_delivery).*1.
Definition session_cols : list string := (columns im_session).*1.

(** ** What the statements mean *)
Definition meaning (q : request) : stmt :=
  let on_key c v := [CEq c v] in
  match q with
  | QBegin => Begin | QCommit => Commit | QRollback => Rollback
  | QCreateMessage r => Insert "im_message" (message_row r).*1 (message_row r).*2 []
  | QFindMessage id =>
      Select (ICol <$> message_cols) "im_message" [CEq "id" (VInt id)] None (Some 1)
  | QFindSender s c =>
      Select (ICol <$> message_cols) "im_message"
        [CEq "from_user_id" (VStr s); CEq "client_msg_id" (VStr c)] None (Some 1)
  | QMaxMessageId => Select [IMax "id" "max_id"] "im_message" [] None None
  | QCreateDelivery r => Insert "im_message_delivery" (delivery_row r).*1 (delivery_row r).*2 []
  | QUpdateDelivery id r st n d a now =>
      Update "im_message_delivery"
        [("status", RVal (VInt (status_num st))); ("retry_count", RVal (VInt n));
         ("delivered_at_ms", RVal (VInt d)); ("acked_at_ms", RVal (VInt a));
         ("updated_at_ms", RVal (VInt now))]
        [CEq "message_id" (VInt id); CEq "receiver_user_id" (VStr r)]
  | QFindDelivery id r =>
      Select (ICol <$> delivery_cols) "im_message_delivery"
        [CEq "message_id" (VInt id); CEq "receiver_user_id" (VStr r)] None (Some 1)
  | QPending r a l =>
      Select (ICol <$> delivery_cols) "im_message_delivery"
        [CEq "receiver_user_id" (VStr r); CGt "server_seq" a; CIn "status" [1; 2]]
        (Some "server_seq") (Some l)
  | QMaxSeq r =>
      Select [IMax "server_seq" "max_server_seq"] "im_message_delivery"
        [CEq "receiver_user_id" (VStr r)] None None
  | QLastAcked r =>
      Select [IMax "server_seq" "last_acked_seq"] "im_message_delivery"
        [CEq "receiver_user_id" (VStr r); CIn "status" [3; 5]] None None
  | QAckLog id r s c a =>
      Insert "im_message_ack_log" (ack_row id r s c a).*1 (ack_row id r s c a).*2 []
  | QCreateSession r =>
      Insert "im_session" (session_row r).*1 (session_row r).*2
        ((fun c => (c, RValues c)) <$> tail session_cols)
  | QDeleteSession i => Delete "im_session" (on_key "session_id" (VStr i))
  | QFindSession i =>
      Select (ICol <$> session_cols) "im_session" (on_key "session_id" (VStr i)) None (Some 1)
  | QUpdateSession i s =>
      Update "im_session" [("last_acked_seq", RGreatest "last_acked_seq" s)]
        (on_key "session_id" (VStr i))
  | QUpdateSessions u s =>
      Update "im_session" [("last_acked_seq", RGreatest "last_acked_seq" s)]
        (on_key "user_id" (VStr u))
  end.

(** The integers of a statement fit 64 bits. *)
Definition fits (q : request) : Prop := Forall piece_ok (sql_of q).

Lemma intended_meaning q : intended (sql_of q) ≫= parse_tokens = Some (meaning q).
Proof.
  destruct q; try (vm_compute; reflexivity);
    cbv -[signed Z.ltb Z.abs status_num]; rewrite !signed_abs; reflexivity.
Qed.

Lemma parse_request escape q :
  sound_escape escape -> fits q -> parse (render escape (sql_of q)) = Some (meaning q).
Proof.
  intros He Hf. pose proof (intended_meaning q) as H.
  destruct (intended (sql_of q)) as [ts|] eqn:E; simpl in H; [|done].
  unfold parse. by rewrite (lex_render _ _ _ He Hf E).
Qed.

(** The text is a C string without loss. *)
Lemma c_str_id s : nul ∉ chars s -> c_str s = s.
Proof.
  induction s as [|c s IH]; simpl; intros Hn; [done|]. apply not_elem_of_cons in Hn as [Hc Hn].
  rewrite bool_decide_eq_false_2 by congruence. by rewrite IH.
Qed.

Lemma dec_no_nul z : nul ∉ chars (dec z).
Proof.
  unfold dec. rewrite chars_str. apply not_elem_of_app. split.
  - destruct (z <? 0); [|apply not_elem_of_nil]. by apply not_elem_of_cons; split; [|apply not_elem_of_nil].
  - intros H. pose proof (dec_digits_digits 20 (Z.abs z) ltac:(lia)) as D.
    rewrite Forall_forall in D. apply D in H. vm_compute in H. done.
Qed.

Definition lit_ok (p : piece) : Prop := match p with Lit s => nul ∉ chars s | _ => True end.

Lemma render_no_nul escape ps :
  sound_escape escape -> Forall lit_ok ps -> nul ∉ chars (render escape ps).
Proof.
  intros He. induction 1 as [|p ps Hp _ IH]; [apply not_elem_of_nil|].
  simpl. rewrite chars_app. apply not_elem_of_app. split; [|done].
  destruct p; simpl in *; [done|apply dec_no_nul|apply (escape_no_nul _ He)].
Qed.

Lemma request_no_nul q : Forall lit_ok (sql_of q).
Proof.
  destruct q; repeat (apply List.Forall_cons); try apply Forall_nil;
    try exact I; apply (bool_decide_unpack _); vm_compute; exact I.
Qed.

(** What arrives at the server is the whole text and means the request. *)
Lemma request_text escape q :
  sound_escape escape -> fits q ->
  parse (c_str (render escape (sql_of q))) = Some (meaning q).
Proof.
  intros He Hf. rewrite c_str_id by (apply render_no_nul, request_no_nul; done).
  by apply parse_request.
Qed.

(** ** Escape functions *)

(** The reading half of soundness, for the escape function of a build without
    the library. *)
Lemma scan_char acc c : c <> "'"%char -> c <> "\"%char ->
  scan (LStr acc) (String c "") = (LStr (acc +:c c), []).
Proof. intros H1 H2. simpl. by rewrite !bool_decide_eq_false_2. Qed.

Lemma str_snoc_app acc c s : (acc +:c c) +:+ s = acc +:+ String c s.
Proof. by rewrite str_app_assoc. Qed.

(** An escape function that works character by character. *)
Fixpoint escape_with (f : ascii -> string) (s : string) : string :=
  match s with EmptyString => "" | String c s' => f c +:+ escape_with f s' end.

Lemma escape_with_reads f :
  (forall acc c, scan (LStr acc) (f c) = (LStr (acc +:c c), [])) ->
  forall acc s, scan (LStr acc) (escape_with f s) = (LStr (acc +:+ s), []).
Proof.
  intros Hf acc s. revert acc; induction s as [|c s IH]; intros acc; simpl.
  { by rewrite str_app_nil_r. }
  rewrite scan_app, Hf, IH. by rewrite str_snoc_app.
Qed.

Lemma escape_with_no_nul f :
  (forall c, nul ∉ chars (f c)) -> forall s, nul ∉ chars (escape_with f s).
Proof.
  intros Hf s. induction s as [|c s IH]; simpl; [apply not_elem_of_nil|].
  rewrite chars_app. apply not_elem_of_app. by split.
Qed.

Lemma stub_escape_reads acc s : scan (LStr acc) (stub.escape s) = (LStr (acc +:+ s), []).
Proof.
  assert (E : stub.escape s = escape_with (fun ch =>
    if bool_decide (ch = "'"%char) then "\'" else if bool_decide (ch = "\"%char) then "\\"
    else String ch "") s) by (induction s as [|c s IH]; simpl; [done|by rewrite IH]).
  rewrite E. apply escape_with_reads. clear. intros acc c.
  case_bool_decide as H1; [by subst|]. case_bool_decide as H2; [by subst|]. by apply scan_char.
Qed.

(** The characters mysql_real_escape_string is documented to encode: NUL,
    newline, carriage return, backslash, both quotes and Control-Z. *)
Definition escape_char (c : ascii) : string :=
  match c with
  | "000" => "\0"%string
  | "010" => "\n"%string
  | "013" => "\r"%string
  | "026" => "\Z"%string
  | "'" => "\'"%string
  | "034" => String "\" (String "034" "")
  | "\" => "\\"%string
  | _ => String c ""
  end%char.

Definition escape_documented : string -> string := escape_with escape_char.

Lemma escape_documented_sound : sound_escape escape_documented.
Proof.
  split.
  - apply escape_with_reads. intros acc c.
    destruct c as [[] [] [] [] [] [] [] []]; reflexivity.
  - apply escape_with_no_nul. intros c.
    destruct c as [[] [] [] [] [] [] [] []]; apply (bool_decide_unpack _); vm_compute; exact I.
Qed.

(** ** What the store relies on *)

(** The text of a result set. *)
Definition value_text (v : value) : string := match v with VInt z => dec z | VStr s => s end.

Definition result_text (fields : list string) (rows : list (list value)) : MYSQL_RES :=
  mkResult (map Some fields) (map (map (fun v => Some (value_text v))) rows).

(** The subset of statements Tables.v describes. *)
Definition supported (coll : string -> string -> bool) (st : stmt) (x : Session) : bool :=
  match st with
  | Begin | Commit | Rollback => true
  | _ => match exec coll st (working x) with Some _ => true | None => false end
  end.

Definition replied {W} `{LibMySql W} (live : Z -> W -> Prop) (session : Z -> W -> Session)
    (calm : W -> Prop) (h : Z) (r : reply) (w : W) : Prop :=
  let '(result, w') := mysql_store_result h w in
  live h w' /\ session h w' = session h w /\ (calm w -> calm w') /\
  match r, result with
  | Ack, None => mysql_field_count h w' = 0
  | Ack, Some _ => False
  | Table fields rows, Some res => res = result_text fields rows
  | Table _ _, None => mysql_field_count h w' <> 0 /\ mysql_error h w' <> "" /\ ~ calm w
  end.

Class MySqlServer (W : Type) `{LibMySql W} := {
  (** The handle is an open connection; [session] is its state on the server;
      in a [calm] world a statement only fails when a key refuses it (a string
      wider than its column is a fault like a lost connection). *)
  live : Z -> W -> Prop;
  session : Z -> W -> Session;
  calm : W -> Prop;
  collation : string -> string -> bool;
  server_collation : forall a, collation a a = true;
  server_collation_sym : forall a b, collation a b = collation b a;
  server_escape : forall h w, live h w -> sound_escape (fun s => mysql_real_escape_string h s w);
  server_query : forall h w s st, live h w -> parse s = Some st ->
    supported collation st (session h w) = true ->
    let '(rc, w') := mysql_query h s w in
    live h w' /\ (calm w -> calm w') /\
    if rc =? 0
    then exists r, run collation st (session h w) = Some (r, session h w')
           /\ replied live session calm h r w'
    else failed st (session h w) (session h w') /\ mysql_error h w' <> ""
         /\ (calm w -> run collation st (session h w) = None);
  server_clock : forall w, - 2 ^ 63 <= GetTimestampMs w < 2 ^ 63;
}.

(** ** A server to evaluate the store on *)
Module toy.

(** The session, the last reply and error, and which of the next statements
    fail. *)
Record Server := mkServer {
  state : Session;
  last_reply : reply;
  last_error : string;
  faults : list bool;
}.

Definition start (db : DB) (faults : list bool) : Server :=
  mkServer (mkSession db db false) Ack "" faults.

Definition toy_query (coll : string -> string -> bool) (sql : string) (w : Server) : Z * Server :=
  let fault := default false (head (faults w)) in
  let rest := tail (faults w) in
  if (fault : bool) then
    (1, mkServer (mkSession (committed (state w)) (committed (state w)) false) Ack "server error" rest)
  else match parse sql with
       | Some st =>
         match run coll st (state w) with
         | Some (r, x) => (0, mkServer x r "" rest)
         | None => (1, mkServer (state w) Ack "constraint violated" rest)
         end
       | None => (1, mkServer (state w) Ack "syntax error" rest)
       end.

Definition toy_lib_with (coll : string -> string -> bool) : LibMySql Server := {|
  mysql_init w := (Some 1, w);
  mysql_options _ _ w := w;
  mysql_real_connect _ _ _ _ _ _ w := (true, w);
  mysql_error _ w := last_error w;
  mysql_close _ w := w;
  mysql_query _ sql w := toy_query coll sql w;
  mysql_store_result _ w :=
    (match last_reply w with Ack => None | Table f r => Some (result_text f r) end, w);
  mysql_field_count _ w := match last_reply w with Ack => 0 | Table f _ => Z.of_nat (length f) end;
  mysql_real_escape_string _ s _ := escape_documented s;
  GetTimestampMs _ := 1000;
|}.

#[export] Instance toy_lib : LibMySql Server := toy_lib_with (fun a b => bool_decide (a = b)).

#[export] Instance toy_server : MySqlServer Server.
Proof.
  refine {| live := fun _ _ => True; session := fun _ w => state w;
            calm := fun w => Forall (fun f => f = false) (faults w);
            collation := fun a b => bool_decide (a = b) |}.
  - intros a. by apply bool_decide_eq_true.
  - intros a b. by apply bool_decide_ext.
  - intros h w Hl. exact escape_documented_sound.
  - intros h w s st _ Hp Hs.
    assert (F : failed st (state w) (mkSession (committed (state w)) (committed (state w)) false))
      by (destruct st; simpl; auto).
    assert (T : Forall (fun f => f = false) (faults w) -> Forall (fun f => f = false) (tail (faults w)))
      by (destruct 1; [constructor|done]).
    unfold toy_lib, toy_lib_with. cbn [mysql_query]. unfold toy_query. rewrite Hp.
    destruct (default false (head (faults w))) eqn:Ef.
    { split; [done|]. split; [exact T|]. split; [done|]. split; [done|].
      intros C. destruct C; simpl in Ef; congruence. }
    destruct (run _ st (state w)) as [[r x]|] eqn:E.
    2: { split; [done|]. split; [exact T|]. split; [|done]. destruct st; simpl in *; auto; done. }
    split; [done|]. split; [exact T|]. exists r. split; [done|]. unfold replied. simpl. by destruct r.
  - intros w. simpl. lia.
Defined.

End toy.

End mysql_spec.
