(* ===== verification/MySqlRepos.v ===== *)
(** * MySqlRepos: the repositories over a lawful server

    The tables hold typed rows ([stored]), the connection is open and outside
    a transaction ([at_rest]).  Each repository operation is shown to return
    (no exception) either an error, with the tables as they were, or the answer
    computed from the typed rows; the statements of a transaction change the
    session's view by exactly their row. *)
From S2P Require Import Prelude Text Protocol MessageStore Auth Sql Tables MySql MySqlStore MySqlSpec.
Import text protocol storage sql tables mysql mysql_store mysql_spec.

Module repos.

(** ** Ranges of the columns *)
Definition int64 (z : Z) : Prop := - 2 ^ 63 <= z < 2 ^ 63.
Definition uint64 (z : Z) : Prop := 0 <= z < 2 ^ 64.
Definition uint32 (z : Z) : Prop := 0 <= z < 2 ^ 32.

Record message_ok (r : MessageRecord) : Prop := {
  mo_id : uint64 (mr_messageId r);
  mo_format : uint32 (mr_payloadFormat r);
  mo_created : int64 (mr_createdAtMs r);
  mo_updated : int64 (mr_updatedAtMs r);
}.

Record delivery_ok (r : DeliveryRecord) : Prop := {
  do_id : uint64 (dr_messageId r);
  do_seq : uint64 (dr_serverSeq r);
  do_retries : uint32 (dr_retryCount r);
  do_delivered : int64 (dr_deliveredAtMs r);
  do_acked : int64 (dr_ackedAtMs r);
  do_created : int64 (dr_createdAtMs r);
  do_updated : int64 (dr_updatedAtMs r);
}.

(** The tables hold the rows of [ms] and [ds]. *)
Record stored (ms : list MessageRecord) (ds : list DeliveryRecord) (db : DB) : Prop := {
  st_message : t_message db = map message_row ms;
  st_delivery : t_delivery db = map delivery_row ds;
  st_ms : Forall message_ok ms;
  st_ds : Forall delivery_ok ds;
}.

(** ** Decoding what the server sends *)
Lemma status_of_num st : status_of (status_num st) = Ok st.
Proof. by destruct st. Qed.

Lemma status_num_range st : 0 <= status_num st < 6.
Proof. destruct st; simpl; lia. Qed.

(** Statements whose integers are in range. *)
Ltac solve_fits :=
  repeat (apply List.Forall_cons || apply Forall_nil); try exact I; cbn [piece_ok];
  try (match goal with |- context [status_num ?st] => pose proof (status_num_range st) end);
  unfold uint64, int64, uint32 in *; change (10 ^ 20) with 100000000000000000000; lia.

Lemma u64_ok z : uint64 z -> (if bool_decide (dec z = "") then Ok 0 else stoull (dec z)) = Ok z.
Proof. intros H. rewrite bool_decide_eq_false_2 by apply dec_nonempty. by apply stoull_dec. Qed.

Lemma i64_ok z : int64 z -> (if bool_decide (dec z = "") then Ok 0 else stoll (dec z)) = Ok z.
Proof. intros H. rewrite bool_decide_eq_false_2 by apply dec_nonempty. by apply stoll_dec. Qed.

Lemma u32_ok z : uint32 z -> stoul (dec z) = Ok z /\ u32 z = z.
Proof.
  unfold uint32. intros H. split; [apply stoull_dec; lia|by apply u32_small].
Qed.

Definition fetched (cols : list string) (r : row) : Row :=
  fetch_row (map Some cols) (map (fun v => Some (value_text v)) r.*2).

Lemma build_message r :
  message_ok r -> BuildMessageRecord (fetched message_cols (message_row r)) = Ok r.
Proof.
  intros [Hi Hf Hc Hu]. unfold BuildMessageRecord, ToUint64, stoul_at, stoll_at, mysql.at_.
  set (row := fetched message_cols (message_row r)).
  change (row !! "id") with (Some (dec (mr_messageId r))).
  change (row !! "client_msg_id") with (Some (mr_clientMsgId r)).
  change (row !! "from_user_id") with (Some (mr_fromUserId r)).
  change (row !! "to_user_id") with (Some (mr_toUserId r)).
  change (row !! "conversation_id") with (Some (mr_conversationId r)).
  change (row !! "payload_format") with (Some (dec (mr_payloadFormat r))).
  change (row !! "content") with (Some (mr_content r)).
  change (row !! "message_type") with (Some (mr_messageType r)).
  change (row !! "status") with (Some (dec (status_num (mr_status r)))).
  change (row !! "created_at_ms") with (Some (dec (mr_createdAtMs r))).
  change (row !! "updated_at_ms") with (Some (dec (mr_updatedAtMs r))).
  destruct (u32_ok _ Hf) as [Ef Ef'].
  pose proof (status_num_range (mr_status r)).
  destruct (u32_ok (status_num (mr_status r)) ltac:(unfold uint32; lia)) as [Es _].
  cbn -[dec]. rewrite u64_ok by done. cbn -[dec]. rewrite Ef. cbn -[dec]. rewrite Es. cbn -[dec].
  rewrite status_of_num. cbn -[dec]. rewrite stoll_dec by done. cbn -[dec].
  rewrite stoll_dec by done. cbn -[dec]. rewrite Ef'. by destruct r.
Qed.

Lemma build_delivery r :
  delivery_ok r -> BuildDeliveryRecord (fetched delivery_cols (delivery_row r)) = Ok r.
Proof.
  intros [Hi Hs Hr Hd Ha Hc Hu]. unfold BuildDeliveryRecord, ToUint64, ToInt64, stoul_at, mysql.at_.
  set (row := fetched delivery_cols (delivery_row r)).
  change (row !! "message_id") with (Some (dec (dr_messageId r))).
  change (row !! "receiver_user_id") with (Some (dr_receiverUserId r)).
  change (row !! "server_seq") with (Some (dec (dr_serverSeq r))).
  change (row !! "status") with (Some (dec (status_num (dr_status r)))).
  change (row !! "retry_count") with (Some (dec (dr_retryCount r))).
  change (row !! "last_error") with (Some (dr_lastError r)).
  change (row !! "delivered_at_ms") with (Some (dec (dr_deliveredAtMs r))).
  change (row !! "acked_at_ms") with (Some (dec (dr_ackedAtMs r))).
  change (row !! "created_at_ms") with (Some (dec (dr_createdAtMs r))).
  change (row !! "updated_at_ms") with (Some (dec (dr_updatedAtMs r))).
  destruct (u32_ok _ Hr) as [Er Er'].
  pose proof (status_num_range (dr_status r)).
  destruct (u32_ok (status_num (dr_status r)) ltac:(unfold uint32; lia)) as [Es _].
  cbn -[dec]. rewrite !u64_ok by done. cbn -[dec]. rewrite Es. cbn -[dec].
  rewrite status_of_num. cbn -[dec]. rewrite Er. cbn -[dec].
  rewrite !i64_ok by done. cbn -[dec]. rewrite Er'. by destruct r.
Qed.

(** ** Selecting typed rows *)
Lemma mapM_assoc (cols : list string) (r : row) :
  NoDup cols -> r.*1 = cols -> mapM (fun c => assoc c r) cols = Some r.*2.
Proof.
  intros Hn <-. apply mapM_Some_2.
  assert (G : forall l pre : row, NoDup ((pre ++ l).*1) ->
            Forall2 (fun c v => assoc c (pre ++ l) = Some v) l.*1 l.*2).
  { clear. intros l. induction l as [|[k v] l IH]; intros pre Hn; simpl; constructor.
    - clear IH. induction pre as [|[k' v'] pre IH]; simpl.
      + by rewrite bool_decide_eq_true_2.
      + simpl in Hn. apply NoDup_cons in Hn as [Hk Hn].
        rewrite bool_decide_eq_false_2; [by apply IH|]. intros ->.
        apply Hk. rewrite fmap_app. set_solver.
    - specialize (IH (pre ++ [(k, v)])). rewrite <- app_assoc in IH. by apply IH. }
  apply (G r []). done.
Qed.

Section Typed.
Context {A : Type} (to_row : A -> row) (cols : list string).
Context (cols_ok : forall a, (to_row a).*1 = cols) (cols_nodup : NoDup cols).

Lemma filter_to_row (P : row -> bool) (xs : list A) :
  filter (fun r => P r = true) (map to_row xs) = map to_row (filter (fun a => P (to_row a) = true) xs).
Proof.
  induction xs as [|x xs IH]; simpl; [done|]. rewrite !filter_cons.
  case_decide; simpl; by rewrite IH.
Qed.

Lemma mapM_to_row (xs : list A) :
  mapM (fun r => mapM (fun c => assoc c r) cols) (map to_row xs) = Some (map (fun a => (to_row a).*2) xs).
Proof.
  induction xs as [|x xs IH]; simpl; [done|].
  rewrite (mapM_assoc cols (to_row x)) by done. simpl. by rewrite IH.
Qed.

Lemma mapM_icol (cs : list string) :
  mapM (fun i => match i with ICol c => Some c | IMax _ _ => None end) (ICol <$> cs) = Some cs.
Proof.
  induction cs as [|c cs IH]; [done|]. change (ICol <$> c :: cs) with (ICol c :: (ICol <$> cs)).
  simpl. by rewrite IH.
Qed.

Lemma icol_items (c1 c2 : string) cs {B} (a : string -> string -> B) (b : B) :
  cols = c1 :: c2 :: cs ->
  match ICol <$> cols with [IMax x y] => a x y | _ => b end = b.
Proof. by intros ->. Qed.

(** A [SELECT] of all columns, possibly sorted. *)
Lemma exec_select_typed coll t conds order limit db xs ys (c1 c2 : string) cs :
  cols = c1 :: c2 :: cs -> schema_of t <> None -> get_table t db = map to_row xs ->
  match order with Some c => sort_by c | None => fun l => l end
    (map to_row (filter (fun a => matches coll conds (to_row a) = true) xs)) = map to_row ys ->
  exec_select coll (ICol <$> cols) t conds order (Some limit) db
  = Some (Rows cols (map (fun a => (to_row a).*2) (take (Z.to_nat limit) ys))).
Proof.
  intros Hc Hs Ht Hy. unfold exec_select. destruct (schema_of t); [|done]. cbn [mbind option_bind].
  rewrite Ht, filter_to_row, (icol_items c1 c2 cs) by done. rewrite mapM_icol. simpl.
  replace (match order with Some c => sort_by c _ | None => _ end) with (map to_row ys)
    by (rewrite <- Hy; by destruct order).
  by rewrite firstn_map, mapM_to_row.
Qed.

Context (f : A -> Z) (key : string) (key_cell : forall a, int_cell key (to_row a) = f a).

(** [ORDER BY] and [MAX] on typed rows. *)
Fixpoint insert_on (x : A) (xs : list A) : list A :=
  match xs with
  | [] => [x]
  | y :: xs' => if f x <=? f y then x :: xs else y :: insert_on x xs'
  end.
Definition sort_on (xs : list A) : list A := foldr insert_on [] xs.

Lemma insert_on_row x xs : insert_sorted key (to_row x) (map to_row xs) = map to_row (insert_on x xs).
Proof.
  induction xs as [|y xs IH]; simpl; [done|]. rewrite !key_cell. case_if; simpl; [done|]. by rewrite IH.
Qed.

Lemma sort_on_row xs : sort_by key (map to_row xs) = map to_row (sort_on xs).
Proof. induction xs as [|x xs IH]; simpl; [done|]. by rewrite IH, insert_on_row. Qed.

Definition max_of (xs : list A) : Z := foldr (fun a m => Z.max (f a) m) 0 xs.

Lemma max_of_row xs : max_cell key (map to_row xs) = max_of xs.
Proof. induction xs as [|x xs IH]; simpl; [done|]. by rewrite key_cell, IH. Qed.

Lemma max_of_bound xs b : 0 <= b -> Forall (fun a => f a <= b) xs -> 0 <= max_of xs <= b.
Proof. intros Hb. induction 1; simpl; lia. Qed.

End Typed.

(** ** The client over a lawful server *)
Section Repos.
Context {W : Type} `{MySqlServer W}.
Implicit Types (c : Conn W) (q : request) (db : DB).

Definition open (h : Z) c : Prop := m_impl (client c) = Some h /\ live h (world c).
Notation sess h c := (session h (world c)).

(** Outside a transaction, with the tables [db]. *)
Definition rest (db : DB) : Session := mkSession db db false.
Definition at_rest (h : Z) (db : DB) c : Prop := open h c /\ sess h c = rest db.

Lemma stream_open h c ps :
  open h c ->
  stream ps c = Ok (render (fun s => mysql_real_escape_string h s (world c)) ps, c).
Proof.
  intros [Hi Hl]. induction ps as [|p ps IH]; [done|].
  assert (E : match p with Lit s => ret s | Num z => ret (dec z) | Esc s => escape s end c
              = Ok (render_piece (fun s => mysql_real_escape_string h s (world c)) p, c)).
  { destruct p; [done|done|]. unfold escape, bind, impl. simpl. rewrite Hi. unfold lib. by destruct c. }
  simpl. unfold bind. rewrite E. simpl. by rewrite IH.
Qed.

(** A calm server stays calm. *)
Definition stays c c' : Prop := calm (world c) -> calm (world c').

(** A statement that is not expected to return rows. *)
Lemma execute_text h c s st :
  open h c -> parse (c_str s) = Some st -> supported collation st (sess h c) = true ->
  exists ok c', execute s c = Ok (ok, c') /\ open h c' /\ stays c c' /\
    if ok : bool
    then exists r, run collation st (sess h c) = Some (r, sess h c')
    else failed st (sess h c) (sess h c') /\ m_lastError (client c') <> ""
         /\ (calm (world c) -> run collation st (sess h c) = None).
Proof.
  intros [Hi Hl] Hp Hs. pose proof (server_query h (world c) (c_str s) st Hl Hp Hs) as Q.
  unfold execute, bind, impl, lib. simpl. rewrite Hi.
  destruct (mysql_query h (c_str s) (world c)) as [rc w'] eqn:Eq. destruct Q as (Hl' & Hk & Q). simpl.
  destruct (rc =? 0) eqn:E; simpl.
  - destruct Q as (r & Hr & _). exists true. eexists. split; [reflexivity|].
    split; [done|]. split; [done|]. by exists r.
  - unfold setLastErrorOf, bind, lib, setLastError. simpl. exists false. eexists. split; [reflexivity|].
    split; [done|]. split; [done|]. exact Q.
Qed.

Lemma execute_request h c q :
  open h c -> fits q -> supported collation (meaning q) (sess h c) = true ->
  exists e c', execute_stream (sql_of q) c = Ok (e, c') /\ open h c' /\ stays c c' /\
    match e with
    | None => exists r, run collation (meaning q) (sess h c) = Some (r, sess h c')
    | Some e => failed (meaning q) (sess h c) (sess h c') /\ e <> ""
                /\ (calm (world c) -> run collation (meaning q) (sess h c) = None)
    end.
Proof.
  intros Ho Hf Hs. unfold execute_stream, bind. rewrite (stream_open h) by done. simpl.
  pose proof (request_text _ q (server_escape h (world c) (proj2 Ho)) Hf) as Hp.
  destruct (execute_text h c _ _ Ho Hp Hs) as (ok & c' & E & Ho' & Hk & K). rewrite E. simpl.
  destruct ok; simpl.
  - by exists None, c'.
  - unfold lastError, ret. simpl. by exists (Some (m_lastError (client c'))), c'.
Qed.

(** A [SELECT] outside a transaction leaves the tables alone, whatever happens. *)
Lemma query_request h db c q fields rows :
  at_rest h db c -> fits q -> exec collation (meaning q) db = Some (Rows fields rows) ->
  exists r c', query_stream (sql_of q) c = Ok (r, c') /\ at_rest h db c' /\ stays c c' /\
    match r with
    | inr got => got = map (fun vs => fetch_row (map Some fields) (map (fun v => Some (value_text v)) vs)) rows
    | inl e => e <> "" /\ ~ calm (world c)
    end.
Proof.
  intros [Ho Hx] Hf He. pose proof Ho as [Hi Hl].
  assert (Hm : supported collation (meaning q) (rest db) = true
               /\ run collation (meaning q) (rest db) = Some (Table fields rows, rest db)
               /\ forall x, failed (meaning q) (rest db) x -> x = rest db).
  { destruct (meaning q); simpl in *; rewrite ?He; try done; splits; try done; by intros x [->| ->]. }
  destruct Hm as (Hs & Hr & Hfail).
  unfold query_stream, bind. rewrite (stream_open h) by done. simpl.
  pose proof (request_text _ q (server_escape h (world c) Hl) Hf) as Hp.
  set (s := render _ (sql_of q)) in *. rewrite <- Hx in Hs.
  pose proof (server_query h (world c) (c_str s) _ Hl Hp Hs) as Q. rewrite Hx in Q.
  unfold query, bind, impl, lib. simpl. rewrite Hi.
  destruct (mysql_query h (c_str s) (world c)) as [rc w1]. destruct Q as (Hl1 & Hk1 & Q). simpl.
  destruct (rc =? 0); simpl.
  - destruct Q as (r & Hr' & Hrep). rewrite Hr in Hr'. injection Hr' as <- Hx1.
    unfold replied in Hrep. destruct (mysql_store_result h w1) as [result w2]. simpl.
    destruct Hrep as (Hl2 & Hx2 & Hk2 & Hres). rewrite <- Hx1 in Hx2.
    assert (Hk : calm (world c) -> calm w2) by auto.
    destruct result as [res|]; simpl.
    + subst res. simpl. eexists (inr _), _. split; [reflexivity|]. split; [by split|].
      split; [done|]. simpl. by rewrite map_map.
    + destruct Hres as (Hn & Hee & Hc). rewrite (proj2 (Z.eqb_neq _ _) Hn). simpl.
      unfold setLastErrorOf, bind, lib, setLastError, lastError, ret. simpl.
      eexists (inl _), _. split; [reflexivity|]. split; [by split|]. split; [done|]. split; [done|]. auto.
  - destruct Q as (Hff & Hee & Hc). apply Hfail in Hff.
    unfold setLastErrorOf, bind, lib, setLastError, lastError, ret. simpl.
    eexists (inl _), _. split; [reflexivity|]. split; [by split|]. split; [done|]. split; [done|].
    intros Hk. apply Hc in Hk. by rewrite Hr in Hk.
Qed.

(** ** Finders: the answer, or an error, and the tables as they were *)
Definition answers {A} (h : Z) (db : DB) (m : C (A * string)) (a none : A) : Prop :=
  forall c, at_rest h db c -> exists r c', m c = Ok (r, c') /\ at_rest h db c' /\ stays c c' /\
    (r = (a, "") \/ exists e, e <> "" /\ ~ calm (world c) /\ r = (none, e)).

Lemma first_row_answers {A} h db q (build : Row -> res A) (to_row : A -> row) cols (xs : list A) :
  fits q ->
  exec collation (meaning q) db = Some (Rows cols (map (fun a => (to_row a).*2) xs)) ->
  Forall (fun a => build (fetched cols (to_row a)) = Ok a) xs ->
  answers h db (bind (query_stream (sql_of q)) (first_row build)) (head xs) None.
Proof.
  intros Hf He Hb c Hc. destruct (query_request h db c q _ _ Hc Hf He) as (r & c' & E & Hc' & Hk & K).
  unfold bind. rewrite E. simpl. destruct r as [e|got]; simpl.
  - eexists _, c'. split; [reflexivity|]. split; [done|]. split; [done|]. right. exists e. by destruct K.
  - subst got. rewrite map_map. destruct xs as [|a xs]; simpl.
    + eexists _, c'. split; [reflexivity|]. split; [done|]. split; [done|]. by left.
    + inversion Hb as [|? ? Hba _]; subst. unfold bind, of_res.
      unfold fetched in Hba. rewrite Hba. simpl. eexists _, c'. split; [reflexivity|].
      split; [done|]. split; [done|]. by left.
Qed.

Lemma first_uint_answers h db q key v :
  fits q -> uint64 v -> exec collation (meaning q) db = Some (Rows [key] [[VInt v]]) ->
  answers h db (bind (query_stream (sql_of q)) (first_uint key)) v 0.
Proof.
  intros Hf Hv He c Hc. destruct (query_request h db c q _ _ Hc Hf He) as (r & c' & E & Hc' & Hk & K).
  unfold bind. rewrite E. simpl. destruct r as [e|got]; simpl.
  - eexists _, c'. split; [reflexivity|]. split; [done|]. split; [done|]. right. exists e. by destruct K.
  - subst got. simpl. unfold bind, of_res, ToUint64, fetch_row. simpl.
    rewrite lookup_insert_eq. simpl. rewrite u64_ok by done. simpl.
    eexists _, c'. split; [reflexivity|]. split; [done|]. split; [done|]. by left.
Qed.

(** ** The finders of the repositories *)
Definition first {A} (p : A -> bool) (xs : list A) : option A := head (filter (fun a => p a = true) xs).

Definition by_id (id : Z) (m : MessageRecord) : bool := mr_messageId m =? id.
Definition by_sender (s cid : string) (m : MessageRecord) : bool :=
  collation (mr_fromUserId m) s && collation (mr_clientMsgId m) cid.
Definition by_receipt (id : Z) (r : string) (d : DeliveryRecord) : bool :=
  (dr_messageId d =? id) && collation (dr_receiverUserId d) r.
Definition to_receiver (r : string) (d : DeliveryRecord) : bool := collation (dr_receiverUserId d) r.
Definition waiting (r : string) (after : Z) (d : DeliveryRecord) : bool :=
  to_receiver r d && (after <? dr_serverSeq d)
  && ((status_num (dr_status d) =? 1) || (status_num (dr_status d) =? 2)).
Definition acknowledged (r : string) (d : DeliveryRecord) : bool :=
  to_receiver r d && ((status_num (dr_status d) =? 3) || (status_num (dr_status d) =? 5)).

Lemma head_take1 {A} (xs : list A) : head (take 1 xs) = head xs.
Proof. by destruct xs. Qed.

Lemma filter_bool_ext {A} (p p' : A -> bool) (xs : list A) :
  (forall a, p a = p' a) -> filter (fun a => p a = true) xs = filter (fun a => p' a = true) xs.
Proof. intros E. apply list_filter_iff. intros a. by rewrite E. Qed.

Lemma message_cols_nodup : NoDup message_cols.
Proof. apply (bool_decide_unpack _). by vm_compute. Qed.
Lemma delivery_cols_nodup : NoDup delivery_cols.
Proof. apply (bool_decide_unpack _). by vm_compute. Qed.

(** A [SELECT ... LIMIT 1] by some condition. *)
Lemma finder_answers {A} h db q build (to_row : A -> row) (cols : list string) t conds
    (p : A -> bool) xs (k1 k2 : string) ks :
  meaning q = Select (ICol <$> cols) t conds None (Some 1) ->
  (forall a, (to_row a).*1 = cols) -> NoDup cols -> cols = k1 :: k2 :: ks ->
  schema_of t <> None -> get_table t db = map to_row xs -> fits q ->
  (forall a, matches collation conds (to_row a) = p a) ->
  Forall (fun a => build (fetched cols (to_row a)) = Ok a) xs ->
  answers h db (bind (query_stream (sql_of q)) (first_row build)) (first p xs) None.
Proof.
  intros Hq Hr Hn Hc Ht Hg Hf Hp Hb. unfold first. rewrite <- head_take1.
  apply (first_row_answers h db q build to_row cols); [done| |by apply Forall_take, Forall_filter].
  rewrite Hq. simpl.
  rewrite (exec_select_typed to_row cols Hr Hn) with (xs := xs) (c1 := k1) (c2 := k2) (cs := ks)
    (ys := filter (fun a => p a = true) xs); try done.
  f_equal. by apply filter_bool_ext.
Qed.

Section Tables.
Context (h : Z) (db : DB) (ms : list MessageRecord) (ds : list DeliveryRecord).
Context (Hdb : stored ms ds db).

Lemma messages_build : Forall (fun m => BuildMessageRecord (fetched message_cols (message_row m)) = Ok m) ms.
Proof. apply (Forall_impl _ _ _ (st_ms _ _ _ Hdb)), build_message. Qed.

Lemma deliveries_build :
  Forall (fun d => BuildDeliveryRecord (fetched delivery_cols (delivery_row d)) = Ok d) ds.
Proof. apply (Forall_impl _ _ _ (st_ds _ _ _ Hdb)), build_delivery. Qed.

Lemma find_message_answers id :
  uint64 id -> answers h db (findByMessageId id) (first (by_id id) ms) None.
Proof.
  intros Hid. eapply (finder_answers h db (QFindMessage id) _ message_row);
    try done; [apply message_cols_nodup|apply Hdb|solve_fits| |apply messages_build].
  intros a. simpl. apply andb_true_r.
Qed.

Lemma find_sender_answers s cid :
  answers h db (findBySenderClientMsgId s cid) (first (by_sender s cid) ms) None.
Proof.
  eapply (finder_answers h db (QFindSender s cid) _ message_row);
    try done; [apply message_cols_nodup|apply Hdb|solve_fits| |apply messages_build].
  intros a. simpl. by rewrite andb_true_r.
Qed.

Lemma find_delivery_answers id r :
  uint64 id -> answers h db (findByMessageAndReceiver id r) (first (by_receipt id r) ds) None.
Proof.
  intros Hid. eapply (finder_answers h db (QFindDelivery id r) _ delivery_row);
    try done; [apply delivery_cols_nodup|apply Hdb|solve_fits| |apply deliveries_build].
  intros a. simpl. by rewrite andb_true_r.
Qed.

(** The aggregates. *)
Lemma max_answers {A} q t (c a : string) conds (to_row : A -> row) (f : A -> Z) (p : A -> bool) (xs : list A) :
  meaning q = Select [IMax c a] t conds None None -> schema_of t <> None ->
  get_table t db = map to_row xs -> fits q ->
  (forall x, int_cell c (to_row x) = f x) -> (forall x, matches collation conds (to_row x) = p x) ->
  Forall (fun x => uint64 (f x)) xs ->
  answers h db (bind (query_stream (sql_of q)) (first_uint a))
    (max_of f (filter (fun x => p x = true) xs)) 0.
Proof.
  intros Hq Ht Hg Hf Hc Hp Hr. apply first_uint_answers; [done| |].
  - destruct (max_of_bound f (filter (fun x => p x = true) xs) (2 ^ 64 - 1)); [lia| |unfold uint64; lia].
    apply Forall_filter, (Forall_impl _ _ _ Hr). unfold uint64. intros; lia.
  - rewrite Hq. simpl. unfold exec_select. destruct (schema_of t); [|done]. simpl.
    rewrite Hg, filter_to_row, (max_of_row to_row f c Hc).
    by rewrite (filter_bool_ext (fun x => matches collation conds (to_row x)) p).
Qed.

Lemma max_message_answers : answers h db getMaxMessageId (max_of mr_messageId ms) 0.
Proof.
  replace ms with (filter (fun m : MessageRecord => true = true) ms)
    by (clear; induction ms as [|m l IH]; [done|]; rewrite filter_cons_True; by rewrite ?IH).
  eapply (max_answers QMaxMessageId _ _ _ _ message_row mr_messageId (fun _ => true));
    try done; [apply Hdb|solve_fits|].
  apply (Forall_impl _ _ _ (st_ms _ _ _ Hdb)). by intros m [].
Qed.

Lemma ds_seq_range : Forall (fun d => uint64 (dr_serverSeq d)) ds.
Proof. apply (Forall_impl _ _ _ (st_ds _ _ _ Hdb)). by intros d []. Qed.

Lemma max_seq_answers r :
  answers h db (getMaxServerSeq r) (max_of dr_serverSeq (filter (fun d => to_receiver r d = true) ds)) 0.
Proof.
  eapply (max_answers (QMaxSeq r) _ _ _ _ delivery_row dr_serverSeq); try done;
    [apply Hdb|solve_fits| |apply ds_seq_range].
  intros d. simpl. apply andb_true_r.
Qed.

Lemma last_acked_answers r :
  answers h db (repo_getLastAckedSeq r)
    (max_of dr_serverSeq (filter (fun d => acknowledged r d = true) ds)) 0.
Proof.
  eapply (max_answers (QLastAcked r) _ _ _ _ delivery_row dr_serverSeq); try done;
    [apply Hdb|solve_fits| |apply ds_seq_range].
  intros d. simpl. unfold acknowledged, to_receiver. by rewrite orb_false_r, andb_true_r.
Qed.

(** The pending deliveries, in the order of their sequence numbers. *)
Definition pending_list (r : string) (after limit : Z) : list DeliveryRecord :=
  take (Z.to_nat limit) (sort_on dr_serverSeq (filter (fun d => waiting r after d = true) ds)).

Lemma build_all_ok xs :
  Forall (fun d => BuildDeliveryRecord (fetched delivery_cols (delivery_row d)) = Ok d) xs ->
  build_all BuildDeliveryRecord (map (fun d => fetched delivery_cols (delivery_row d)) xs) = Ok xs.
Proof. induction 1 as [|d xs Hd _ IH]; simpl; [done|]. rewrite Hd. simpl. by rewrite IH. Qed.

Lemma sort_on_perm (xs : list DeliveryRecord) : sort_on dr_serverSeq xs ≡ₚ xs.
Proof.
  induction xs as [|x xs IH]; simpl; [done|]. rewrite <- IH at 2. clear IH.
  generalize (sort_on dr_serverSeq xs) as l. induction l as [|y l IH]; simpl; [done|].
  case_if; [done|]. rewrite IH. apply Permutation_swap.
Qed.

Lemma pending_answers r after limit :
  uint64 after -> uint64 limit ->
  answers h db (listPendingByReceiver r after limit) (pending_list r after limit) [].
Proof.
  intros Ha Hl c Hc.
  assert (He : exec collation (meaning (QPending r after limit)) db
    = Some (Rows delivery_cols (map (fun a => (delivery_row a).*2) (pending_list r after limit)))).
  { simpl. rewrite (exec_select_typed delivery_row delivery_cols) with (xs := ds)
      (c1 := "message_id") (c2 := "receiver_user_id") (cs := tail (tail delivery_cols))
      (ys := sort_on dr_serverSeq (filter (fun d => waiting r after d = true) ds));
      try done; [apply delivery_cols_nodup|apply Hdb|].
    rewrite (sort_on_row delivery_row dr_serverSeq) by done. do 2 f_equal.
    apply filter_bool_ext. intros d. simpl. unfold waiting, to_receiver.
    by rewrite orb_false_r, andb_true_r, andb_assoc. }
  assert (Hf : fits (QPending r after limit)) by solve_fits.
  destruct (query_request h db c (QPending r after limit) _ _ Hc Hf He) as (res & c' & E & Hc' & Hk & K).
  unfold listPendingByReceiver, bind. change (listPendingByReceiver_sql r after limit) with (sql_of (QPending r after limit)).
  rewrite E. simpl. destruct res as [e|got]; simpl.
  - eexists _, c'. split; [reflexivity|]. split; [done|]. split; [done|]. right. exists e. by destruct K.
  - subst got. rewrite map_map. unfold bind, of_res.
    change (map _ (pending_list r after limit))
      with (map (fun d => fetched delivery_cols (delivery_row d)) (pending_list r after limit)).
    rewrite build_all_ok.
    + simpl. eexists _, c'. split; [reflexivity|]. split; [done|]. split; [done|]. by left.
    + apply Forall_take. rewrite sort_on_perm. apply Forall_filter, deliveries_build.
Qed.

End Tables.

(** ** The statements that write *)
Definition message_clash (r m : MessageRecord) : bool :=
  (mr_messageId r =? mr_messageId m)
  || (collation (mr_fromUserId r) (mr_fromUserId m) && collation (mr_clientMsgId r) (mr_clientMsgId m)).

Definition delivery_clash (r d : DeliveryRecord) : bool :=
  (collation (dr_receiverUserId r) (dr_receiverUserId d) && (dr_serverSeq r =? dr_serverSeq d))
  || ((dr_messageId r =? dr_messageId d) && collation (dr_receiverUserId r) (dr_receiverUserId d)).

Definition add_message (r : MessageRecord) db : DB :=
  mkDB (t_session db) (t_message db ++ [message_row r]) (t_delivery db) (t_ack_log db).
Definition add_delivery (r : DeliveryRecord) db : DB :=
  mkDB (t_session db) (t_message db) (t_delivery db ++ [delivery_row r]) (t_ack_log db).
Definition add_ack (id : Z) (r : string) (seq code at_ : Z) db : DB :=
  mkDB (t_session db) (t_message db) (t_delivery db) (t_ack_log db ++ [ack_row id r seq code at_]).
Definition set_deliveries (ds : list DeliveryRecord) db : DB :=
  mkDB (t_session db) (t_message db) (map delivery_row ds) (t_ack_log db).

(** What [updateDeliveryStatus] makes of a row. *)
Definition updated (st : DeliveryStatus) (retries delivered acked now : Z) (d : DeliveryRecord) :=
  mkDeliveryRecord (dr_messageId d) (dr_receiverUserId d) (dr_serverSeq d) st retries (dr_lastError d)
    delivered acked (dr_createdAtMs d) now.

Lemma some_bind {A B} (a : A) (f : A -> option B) : Some a ≫= f = f a.
Proof. done. Qed.

Lemma existsb_map {A B} (f : A -> B) (p : B -> bool) (xs : list A) :
  existsb p (map f xs) = existsb (fun a => p (f a)) xs.
Proof. induction xs as [|a xs IH]; simpl; [done|]. by rewrite IH. Qed.

Lemma existsb_ext' {A} (p p' : A -> bool) (xs : list A) :
  (forall a, p a = p' a) -> existsb p xs = existsb p' xs.
Proof. intros E. induction xs as [|a xs IH]; simpl; [done|]. by rewrite IH, E. Qed.

Lemma exec_create_message db ms ds r :
  stored ms ds db ->
  exec collation (meaning (QCreateMessage r)) db
  = Some (if existsb (message_clash r) ms then Refused else Wrote (add_message r db)).
Proof.
  intros Hdb. unfold exec, meaning, exec_insert.
  change (schema_of "im_message") with (Some im_message). rewrite some_bind.
  change (negb _) with false. cbv iota.
  change (new_row im_message _) with (Some (message_row r)). rewrite some_bind.
  change (get_table "im_message" db) with (t_message db).
  replace (existsb (collide collation im_message (message_row r)) (t_message db))
    with (existsb (message_clash r) ms); [by destruct (existsb _ ms)|].
  rewrite (st_message _ _ _ Hdb), existsb_map. apply existsb_ext'. intros m.
  unfold message_clash, collide. simpl. by rewrite !andb_true_r, orb_false_r.
Qed.

Lemma references_message db ms ds id :
  stored ms ds db ->
  existsb (fun s => match assoc "id" s with Some w => value_eq collation w (VInt id) | None => false end)
    (t_message db) = existsb (by_id id) ms.
Proof. intros Hdb. rewrite (st_message _ _ _ Hdb), existsb_map. by apply existsb_ext'. Qed.

Lemma exec_create_delivery db ms ds r :
  stored ms ds db ->
  exec collation (meaning (QCreateDelivery r)) db
  = Some (if existsb (delivery_clash r) ds then Refused
          else if existsb (by_id (dr_messageId r)) ms then Wrote (add_delivery r db) else Refused).
Proof.
  intros Hdb. unfold exec, meaning, exec_insert.
  change (schema_of "im_message_delivery") with (Some im_message_delivery). rewrite some_bind.
  change (negb _) with false. cbv iota.
  change (new_row im_message_delivery _) with (Some (delivery_row r)). rewrite some_bind.
  change (get_table "im_message_delivery" db) with (t_delivery db).
  replace (existsb (collide collation im_message_delivery (delivery_row r)) (t_delivery db))
    with (existsb (delivery_clash r) ds).
  2: { rewrite (st_delivery _ _ _ Hdb), existsb_map. apply existsb_ext'. intros d.
       unfold delivery_clash, collide. simpl. by rewrite !andb_true_r, orb_false_r. }
  destruct (existsb (delivery_clash r) ds); [done|].
  replace (references_ok collation im_message_delivery (delivery_row r) db)
    with (existsb (by_id (dr_messageId r)) ms); [by destruct (existsb _ ms)|].
  unfold references_ok. simpl. rewrite andb_true_r. change (get_table "im_message" db) with (t_message db).
  symmetry. by eapply references_message.
Qed.

Lemma exec_ack_log db ms ds id r seq code at_ :
  stored ms ds db ->
  exec collation (meaning (QAckLog id r seq code at_)) db
  = Some (if existsb (by_id id) ms then Wrote (add_ack id r seq code at_ db) else Refused).
Proof.
  intros Hdb. unfold exec, meaning, exec_insert.
  change (schema_of "im_message_ack_log") with (Some im_message_ack_log). rewrite some_bind.
  change (negb _) with false. cbv iota.
  change (new_row im_message_ack_log _) with (Some (ack_row id r seq code at_)). rewrite some_bind.
  change (get_table "im_message_ack_log" db) with (t_ack_log db).
  replace (existsb (collide collation im_message_ack_log (ack_row id r seq code at_)) (t_ack_log db)) with false
    by (induction (t_ack_log db) as [|x l IH]; simpl; done).
  replace (references_ok collation im_message_ack_log (ack_row id r seq code at_) db)
    with (existsb (by_id id) ms); [by destruct (existsb _ ms)|].
  unfold references_ok. simpl. rewrite andb_true_r. change (get_table "im_message" db) with (t_message db).
  symmetry. by eapply references_message.
Qed.

Lemma exec_update_delivery db ms ds id r st n d a now :
  stored ms ds db ->
  exec collation (meaning (QUpdateDelivery id r st n d a now)) db
  = Some (Wrote (set_deliveries
      (map (fun x => if by_receipt id r x then updated st n d a now x else x) ds) db)).
Proof.
  intros Hdb. unfold exec, meaning, exec_update.
  change (schema_of "im_message_delivery") with (Some im_message_delivery). rewrite some_bind.
  change (negb _) with false. cbv iota.
  change (get_table "im_message_delivery" db) with (t_delivery db). rewrite (st_delivery _ _ _ Hdb).
  replace (mapM _ (map delivery_row ds))
    with (Some (map delivery_row (map (fun x => if by_receipt id r x then updated st n d a now x else x) ds)));
    [done|].
  clear. induction ds as [|x ds IH]; [done|].
  cbn [map mapM]. rewrite <- IH. clear IH.
  replace (matches collation _ (delivery_row x)) with (by_receipt id r x)
    by (unfold matches; simpl; by rewrite andb_true_r).
  by destruct (by_receipt id r x).
Qed.

(** The typed rows after each of them. *)
Lemma stored_add_message db ms ds r :
  stored ms ds db -> message_ok r -> stored (ms ++ [r]) ds (add_message r db).
Proof.
  intros [Hm Hd Hmo Hdo] Hr. split; simpl; [by rewrite Hm, map_app|done| |done].
  apply Forall_app. by split; [|constructor].
Qed.

Lemma stored_add_delivery db ms ds r :
  stored ms ds db -> delivery_ok r -> stored ms (ds ++ [r]) (add_delivery r db).
Proof.
  intros [Hm Hd Hmo Hdo] Hr. split; simpl; [done|by rewrite Hd, map_app|done|].
  apply Forall_app. by split; [|constructor].
Qed.

Lemma stored_add_ack db ms ds id r seq code at_ :
  stored ms ds db -> stored ms ds (add_ack id r seq code at_ db).
Proof. by intros []. Qed.

Lemma stored_set_deliveries db ms ds ds' :
  stored ms ds db -> Forall delivery_ok ds' -> stored ms ds' (set_deliveries ds' db).
Proof. by intros [] ?. Qed.

End Repos.

End repos.
