(* ===== verification/MySqlAtomic.v ===== *)
(** * MySqlAtomic: the operations of the MySQL store over a lawful server

    Whatever the server refuses or loses, an operation of the store returns
    without an exception, leaves no transaction open, and changes the tables
    all or nothing: a message never appears without its delivery, nor an
    acknowledgement without its log entry. *)
From S2P Require Import Prelude Text Protocol MessageStore Auth Sql Tables MySql MySqlStore MySqlSpec MySqlRepos.
Import text protocol storage sql tables mysql mysql_store mysql_spec repos.

Module mysql_atomic.

Section Atomic.
Context {W : Type} `{MySqlServer W}.
Implicit Types (s : MySqlMessageStore W).

(** The store is initialised, its connection idle, the tables are [db]. *)
Definition ready (h : Z) (db : DB) s : Prop := has_repositories s = true /\ at_rest h db (conn s).

(** Everything but the connection is as in [s]. *)
Definition same_counters s s' : Prop := s' = with_conn (conn s') s.

Lemma same_counters_with c s : same_counters s (with_conn c s).
Proof. done. Qed.
Lemma same_counters_refl s : same_counters s s.
Proof. by destruct s. Qed.
Lemma same_counters_trans s1 s2 s3 : same_counters s1 s2 -> same_counters s2 s3 -> same_counters s1 s3.
Proof. unfold same_counters. intros -> ->. done. Qed.

(** The server is in a fault-free period, and stays in it. *)
Definition quiet s : Prop := calm (world (conn s)).
Definition follows s s' : Prop := quiet s -> quiet s'.

(** ** Steps of a transaction *)
Definition txn (db0 db : DB) : Session := mkSession db0 db true.

Lemma begin_step h db c :
  at_rest h db c -> exists ok c', begin c = Ok (ok, c') /\ open h c' /\ stays c c'
    /\ session h (world c') = (if ok : bool then txn db db else rest db)
    /\ (ok = false -> m_lastError (client c') <> "" /\ ~ calm (world c)).
Proof.
  intros [Ho Hx]. destruct (execute_text h c "BEGIN" Begin Ho) as (ok & c' & E & Ho' & Hk & K).
  { by vm_compute. } { done. }
  rewrite Hx in K. exists ok, c'. split; [done|]. split; [done|]. split; [done|]. destruct ok.
  - destruct K as (r & K). simpl in K. injection K as _ K. by rewrite <- K.
  - destruct K as ([K|K] & He & Hc); rewrite K; (split; [done|]); intros _; (split; [done|]);
      intros Hq; by apply Hc in Hq.
Qed.

Lemma rollback_step h c :
  open h c -> exists ok c', rollback c = Ok (ok, c') /\ stays c c'
    /\ at_rest h (committed (session h (world c))) c'.
Proof.
  intros Ho. destruct (execute_text h c "ROLLBACK" Rollback Ho) as (ok & c' & E & Ho' & Hk & K).
  { by vm_compute. } { done. }
  exists ok, c'. split; [done|]. split; [done|]. split; [done|]. destruct ok.
  - destruct K as (r & K). simpl in K. injection K as _ K. by rewrite <- K.
  - by destruct K as (-> & _ & _).
Qed.

Lemma commit_step h db0 db c :
  open h c -> session h (world c) = txn db0 db ->
  exists ok c', commit c = Ok (ok, c') /\ open h c' /\ stays c c' /\
    if ok : bool then session h (world c') = rest db
    else m_lastError (client c') <> "" /\ ~ calm (world c) /\
         (committed (session h (world c')) = db0 \/ committed (session h (world c')) = db).
Proof.
  intros Ho Hx. destruct (execute_text h c "COMMIT" Commit Ho) as (ok & c' & E & Ho' & Hk & K).
  { by vm_compute. } { done. }
  rewrite Hx in K. exists ok, c'. split; [done|]. split; [done|]. split; [done|]. destruct ok.
  - destruct K as (r & K). simpl in K. injection K as _ K. by rewrite <- K.
  - destruct K as (K & He & Hc). split; [done|]. split; [intros Hq; by apply Hc in Hq|].
    destruct K as [K|[K|K]]; rewrite K; auto.
Qed.

(** A statement that writes: its text, its effect on the tables. *)
Definition writes (q : request) (db : DB) (o : option DB) : Prop :=
  fits q /\ exec collation (meaning q) db = Some (match o with Some db' => Wrote db' | None => Refused end).

Lemma write_step h db0 db c q o :
  open h c -> session h (world c) = txn db0 db -> writes q db o ->
  exists e c', execute_stream (sql_of q) c = Ok (e, c') /\ open h c' /\ stays c c' /\
    match e with
    | None => exists db', o = Some db' /\ session h (world c') = txn db0 db'
    | Some e => e <> "" /\ committed (session h (world c')) = db0 /\ (calm (world c) -> o = None)
    end.
Proof.
  intros Ho Hx [Hf He].
  assert (Hm : supported collation (meaning q) (txn db0 db) = true
      /\ run collation (meaning q) (txn db0 db)
         = (fun db' => (Ack, txn db0 db')) <$> o
      /\ forall x, failed (meaning q) (txn db0 db) x -> committed x = db0).
  { destruct (meaning q); try (simpl in He; discriminate He);
      cbn [supported run working txn rest]; rewrite He; destruct o;
      (splits; [done|done|by intros x [->| ->]]). }
  destruct Hm as (Hs & Hr & Hfail). rewrite <- Hx in Hs.
  destruct (execute_request h c q Ho Hf Hs) as (e & c' & E & Ho' & Hk & K). rewrite Hx in K.
  exists e, c'. split; [done|]. split; [done|]. split; [done|]. destruct e as [e|].
  - destruct K as (K & He' & Hc). split; [done|]. split; [by apply Hfail|].
    intros Hq. apply Hc in Hq. rewrite Hr in Hq. by destruct o.
  - destruct K as (r & K). rewrite Hr in K. destruct o as [db'|]; [|done].
    injection K as _ K. by exists db'.
Qed.

(** The same outside a transaction. *)
Lemma write_alone h db c q o :
  at_rest h db c -> writes q db o ->
  exists e c', execute_stream (sql_of q) c = Ok (e, c') /\ stays c c' /\
    match e with
    | None => exists db', o = Some db' /\ at_rest h db' c'
    | Some e => e <> "" /\ at_rest h db c' /\ (calm (world c) -> o = None)
    end.
Proof.
  intros [Ho Hx] [Hf He].
  assert (Hm : supported collation (meaning q) (rest db) = true
      /\ run collation (meaning q) (rest db) = (fun db' => (Ack, rest db')) <$> o
      /\ forall x, failed (meaning q) (rest db) x -> x = rest db).
  { destruct (meaning q); try (simpl in He; discriminate He);
      cbn [supported run working txn rest]; rewrite He; destruct o;
      (splits; [done|done|by intros x [->| ->]]). }
  destruct Hm as (Hs & Hr & Hfail). rewrite <- Hx in Hs.
  destruct (execute_request h c q Ho Hf Hs) as (e & c' & E & Ho' & Hk & K). rewrite Hx in K.
  exists e, c'. split; [done|]. split; [done|]. destruct e as [e|].
  - destruct K as (K & He' & Hc). split; [done|]. split; [split; [done|by apply Hfail]|].
    intros Hq. apply Hc in Hq. rewrite Hr in Hq. by destruct o.
  - destruct K as (r & K). rewrite Hr in K. destruct o as [db'|]; [|done].
    injection K as _ K. by exists db'.
Qed.

(** ** All or nothing *)

(** A repository call that sends the statement [q], which may depend on the
    clock. *)
Definition sends (m : M (W := W) (option string)) (q : W -> request) : Prop :=
  forall s, m s = on_repository (execute_stream (sql_of (q (world (conn s))))) s.

Lemma transaction_both h db s m1 m2 q1 q2 :
  ready h db s -> sends m1 q1 -> sends m2 q2 ->
  (forall w, exists o, writes (q1 w) db o
     /\ forall db1, o = Some db1 -> forall w', exists o', writes (q2 w') db1 o') ->
  exists e s', in_transaction (both m1 m2) s = Ok (e, s') /\ same_counters s s' /\ follows s s' /\
    exists db', ready h db' s' /\
      let wrote := exists w w' db1, writes (q1 w) db (Some db1) /\ writes (q2 w') db1 (Some db') in
      let refused := exists w, writes (q1 w) db None
                       \/ exists w' db1, writes (q1 w) db (Some db1) /\ writes (q2 w') db1 None in
      match e with
      | None => wrote
      | Some e => e <> "" /\ (db' = db \/ wrote) /\ (quiet s -> db' = db /\ refused)
      end.
Proof.
  intros [Hrep Hr] H1 H2 Ho. destruct (begin_step h db _ Hr) as (ok & c0 & E0 & Ho0 & Hk0 & Hx0 & He0).
  unfold in_transaction, mbind, on_client. rewrite E0. simpl. fold (quiet s) in He0.
  destruct ok; simpl.
  2: { eexists (Some _), _. split; [reflexivity|]. split; [done|]. split; [done|]. exists db.
       split; [by split|]. destruct (He0 eq_refl). split; [done|]. split; [by left|done]. }
  unfold both, mbind. rewrite H1. unfold on_repository, on_client. simpl. rewrite Hrep. simpl.
  destruct (Ho (world c0)) as (o & Hw & Ho2).
  destruct (write_step h db db c0 _ o Ho0 Hx0 Hw) as (e1 & c1 & E1 & Ho1 & Hk1 & K1). rewrite E1. simpl.
  assert (Q1 : stays (conn s) c1) by (unfold stays in *; auto).
  destruct e1 as [e1|]; simpl.
  { destruct K1 as (He1 & Hc1 & Hn1). destruct (rollback_step h c1 Ho1) as (ok & c2 & E2 & Hk2 & Hr2).
    rewrite E2. simpl. rewrite Hc1 in Hr2. eexists (Some _), _. split; [reflexivity|].
    split; [done|]. split; [unfold follows, quiet, stays in *; simpl; auto|].
    exists db. split; [by split|]. split; [done|]. split; [by left|]. intros Hq.
    split; [done|]. rewrite (Hn1 (Hk0 Hq)) in Hw. eauto. }
  destruct K1 as (db1 & -> & Hx1). rewrite H2. unfold on_repository, on_client. simpl. rewrite Hrep. simpl.
  destruct (Ho2 db1 eq_refl (world c1)) as (o' & Hw').
  destruct (write_step h db db1 c1 _ o' Ho1 Hx1 Hw') as (e2 & c2 & E2 & Hop2 & Hk2 & K2). rewrite E2. simpl.
  assert (Q2 : stays (conn s) c2) by (unfold stays in *; auto).
  destruct e2 as [e2|]; simpl.
  { destruct K2 as (He2 & Hc2 & Hn2). destruct (rollback_step h c2 Hop2) as (ok & c3 & E3 & Hk3 & Hr3).
    rewrite E3. simpl. rewrite Hc2 in Hr3. eexists (Some _), _. split; [reflexivity|].
    split; [done|]. split; [unfold follows, quiet, stays in *; simpl; auto|].
    exists db. split; [by split|]. split; [done|]. split; [by left|]. intros Hq.
    split; [done|]. rewrite (Hn2 (Q1 Hq)) in Hw'. eauto 6. }
  destruct K2 as (db2 & -> & Hx2).
  assert (Wrote2 : exists w w' db1, writes (q1 w) db (Some db1) /\ writes (q2 w') db1 (Some db2)) by eauto.
  destruct (commit_step h db db2 c2 Hop2 Hx2) as (ok & c3 & E3 & Hop3 & Hk3 & K3). rewrite E3. simpl.
  assert (Q3 : stays (conn s) c3) by (unfold stays in *; auto).
  destruct ok; simpl.
  { eexists None, _. split; [reflexivity|]. split; [done|]. split; [done|]. exists db2. split; [|done].
    split; [done|]. by split. }
  destruct K3 as (He3 & Hn3 & Hc3). destruct (rollback_step h c3 Hop3) as (ok & c4 & E4 & Hk4 & Hr4).
  rewrite E4. simpl. eexists (Some _), _. split; [reflexivity|]. split; [done|].
  split; [unfold follows, quiet, stays in *; simpl; auto|].
  assert (Hnq : quiet s -> False) by (intros Hq; exact (Hn3 (Q2 Hq))).
  destruct Hc3 as [Hc3|Hc3]; rewrite Hc3 in Hr4; [exists db|exists db2]; (split; [by split|]);
    (split; [done|]); (split; [auto|]); intros Hq; by apply Hnq in Hq.
Qed.

(** ** The operations *)
Lemma repository_answers {A} h db s (m : C (A * string)) a none :
  ready h db s -> answers h db m a none ->
  exists r s', on_repository m s = Ok (r, s') /\ same_counters s s' /\ follows s s' /\ ready h db s' /\
    (r = (a, "") \/ exists e, e <> "" /\ ~ quiet s /\ r = (none, e)).
Proof.
  intros [Hrep Hr] Ha. destruct (Ha _ Hr) as (r & c' & E & Hr' & Hk & K).
  unfold on_repository, on_client. rewrite Hrep, E. simpl. eexists r, _. split; [reflexivity|].
  split; [done|]. split; [done|]. split; [by split|]. done.
Qed.

Lemma follows_refl s : follows s s.
Proof. by intros Hq. Qed.
Lemma follows_trans s1 s2 s3 : follows s1 s2 -> follows s2 s3 -> follows s1 s3.
Proof. unfold follows. auto. Qed.

(** The counters are 64-bit numbers. *)
Definition counters_ok s : Prop :=
  uint64 (s_nextMsgId s) /\ map_Forall (fun _ v => uint64 v) (s_nextServerSeqByUser s).

Lemma same_counters_ok s s' : same_counters s s' -> counters_ok s -> counters_ok s'.
Proof. by intros ->. Qed.

(** The stored message a request repeats, as the tables compare strings. *)
Definition duplicate_of (req : CreateMessageRequest) (ms : list MessageRecord) (ds : list DeliveryRecord)
    : option StoredMessage :=
  if bool_decide (req_clientMsgId req = "") then None
  else m ← first (by_sender (req_fromUserId req) (req_clientMsgId req)) ms;
       d ← first (by_receipt (mr_messageId m) (req_toUserId req)) ds; Some (to_stored m d).

Lemma first_elem {A} (p : A -> bool) xs a : first p xs = Some a -> a ∈ xs /\ p a = true.
Proof.
  unfold first. intros Hh. destruct (filter _ xs) as [|b l] eqn:E; [done|]. injection Hh as ->.
  apply and_comm, (list_elem_of_filter (fun a => p a = true)). rewrite E. by left.
Qed.

Lemma find_duplicate h db ms ds s req :
  stored ms ds db -> ready h db s ->
  exists r s', findDuplicateMessage req s = Ok (r, s') /\ same_counters s s' /\ follows s s'
    /\ ready h db s' /\
    (r = (duplicate_of req ms ds, "") \/ exists e, e <> "" /\ ~ quiet s /\ r = (None, e)).
Proof.
  intros Hdb Hs. unfold findDuplicateMessage, duplicate_of.
  case_bool_decide.
  { eexists _, s. split; [reflexivity|]. split; [apply same_counters_refl|].
    split; [apply follows_refl|]. auto. }
  destruct (repository_answers h db s _ _ _ Hs
    (find_sender_answers h db ms ds Hdb (req_fromUserId req) (req_clientMsgId req)))
    as (r1 & s1 & E1 & C1 & Q1 & R1 & K1). unfold mbind. rewrite E1. simpl.
  destruct K1 as [->|(e & He & Hnq & ->)]; simpl.
  2: { eexists _, s1. split; [reflexivity|]. eauto 8. }
  destruct (first _ ms) as [m|] eqn:Em; simpl.
  2: { eexists _, s1. split; [reflexivity|]. auto. }
  apply first_elem in Em as [Em _].
  assert (Hid : uint64 (mr_messageId m)).
  { pose proof (st_ms _ _ _ Hdb) as F. rewrite Forall_forall in F. by apply F. }
  destruct (repository_answers h db s1 _ _ _ R1
    (find_delivery_answers h db ms ds Hdb (mr_messageId m) (req_toUserId req) Hid))
    as (r2 & s2 & E2 & C2 & Q2 & R2 & K2). rewrite E2. simpl.
  pose proof (same_counters_trans _ _ _ C1 C2) as C3. pose proof (follows_trans _ _ _ Q1 Q2) as Q3.
  destruct K2 as [->|(e & He & Hnq & ->)]; simpl.
  2: { eexists _, s2. split; [reflexivity|]. splits; try done. right. exists e. by splits; auto. }
  destruct (first _ ds) as [d|]; simpl; eexists _, s2; (split; [reflexivity|]); auto.
Qed.

(** The sequence number the cursor of [u] stands at once it is loaded. *)
Definition cursor_of (ds : list DeliveryRecord) (u : string) s : Z :=
  default (max_of dr_serverSeq (filter (fun d => to_receiver u d = true) ds))
    (s_nextServerSeqByUser s !! u).

Lemma max_seq_range ms ds db (p : DeliveryRecord -> bool) :
  stored ms ds db -> uint64 (max_of dr_serverSeq (filter (fun d => p d = true) ds)).
Proof.
  intros Hdb. destruct (max_of_bound dr_serverSeq (filter (fun d => p d = true) ds) (2 ^ 64 - 1));
    [lia| |unfold uint64; lia].
  apply Forall_filter, (Forall_impl _ _ _ (st_ds _ _ _ Hdb)). intros d [_ Hd]. unfold uint64 in Hd. lia.
Qed.

(** The cursor is set to the largest number in the table, to 0 after an error. *)
Lemma ensure_cursor h db ms ds s u :
  stored ms ds db -> ready h db s -> counters_ok s ->
  exists e s', ensureServerSeqCursor u s = Ok (e, s') /\ ready h db s' /\ counters_ok s' /\ follows s s'
    /\ s_nextMsgId s' = s_nextMsgId s /\ m_lastAckedSeqCache s' = m_lastAckedSeqCache s /\
    match e with
    | None => s_nextServerSeqByUser s' = <[u := cursor_of ds u s]> (s_nextServerSeqByUser s)
    | Some e => e <> "" /\ ~ quiet s /\ s_nextServerSeqByUser s' = <[u := 0]> (s_nextServerSeqByUser s)
    end.
Proof.
  intros Hdb Hs [Hn Hc]. unfold ensureServerSeqCursor, cursor_of, mbind, read. simpl.
  destruct (s_nextServerSeqByUser s !! u) as [v|] eqn:Eu; simpl.
  { eexists None, s. split; [reflexivity|]. splits; try done; [apply follows_refl|].
    simpl. symmetry. by apply insert_id. }
  destruct (repository_answers h db s _ _ _ Hs (max_seq_answers h db ms ds Hdb u))
    as (r & s1 & E & C1 & Q1 & R1 & K). rewrite E. simpl.
  assert (G : forall v, uint64 v ->
    let s' := mkStore (m_options s1) (conn s1) (has_repositories s1) (s_nextMsgId s1)
                (<[u:=v]> (s_nextServerSeqByUser s1)) (m_lastAckedSeqCache s1) in
    ready h db s' /\ counters_ok s' /\ follows s s' /\ s_nextMsgId s' = s_nextMsgId s
    /\ m_lastAckedSeqCache s' = m_lastAckedSeqCache s
    /\ s_nextServerSeqByUser s' = <[u := v]> (s_nextServerSeqByUser s)).
  { intros v Hv. rewrite C1. simpl. splits; try done.
    - split; [by rewrite C1 in R1; apply R1|]. apply R1.
    - split; [done|]. simpl. by apply map_Forall_insert_2. }
  destruct K as [->|(e & He & Hnq & ->)]; simpl.
  - destruct (G _ (max_seq_range _ _ _ (to_receiver u) Hdb)) as (A1 & A2 & A3 & A4 & A5 & A6).
    eexists None, _. split; [reflexivity|]. by splits.
  - rewrite (bool_decide_eq_false_2 _ He). simpl.
    destruct (G 0 ltac:(unfold uint64; lia)) as (A1 & A2 & A3 & A4 & A5 & A6).
    eexists (Some e), _. split; [reflexivity|]. by splits.
Qed.

(** ** saveMessageAndDelivery *)
Definition message_of (req : CreateMessageRequest) (id seq : Z) : StoredMessage :=
  mkStoredMessage
    (mkP2PMsgNotify id seq (req_fromUserId req) (req_toUserId req) (req_clientMsgId req)
       (req_content req) (req_timestamp req))
    DeliveryPersisted (req_toUserId req) (req_timestamp req) 0 0 0.

(** Both rows of [m] are added to [db], and their keys were free. *)
Definition added (ms : list MessageRecord) (ds : list DeliveryRecord) (db : DB) (m : StoredMessage)
    (db' : DB) : Prop :=
  db' = add_delivery (delivery_record m) (add_message (message_record m) db)
  /\ stored (ms ++ [message_record m]) (ds ++ [delivery_record m]) db'
  /\ existsb (message_clash (message_record m)) ms = false
  /\ existsb (delivery_clash (delivery_record m)) ds = false.

(** A key of one of the rows of [m] is taken. *)
Definition taken (ms : list MessageRecord) (ds : list DeliveryRecord) (m : StoredMessage) : Prop :=
  existsb (message_clash (message_record m)) ms = true
  \/ existsb (delivery_clash (delivery_record m)) ds = true.

Lemma message_of_ok req id seq :
  int64 (req_timestamp req) -> uint64 id -> uint64 seq ->
  message_ok (message_record (message_of req id seq)) /\ delivery_ok (delivery_record (message_of req id seq)).
Proof. intros Ht Hi Hs. unfold int64, uint64 in *. split; split; simpl; unfold int64, uint64, uint32; try done; lia. Qed.

Lemma by_id_self ms r : existsb (by_id (mr_messageId r)) (ms ++ [r]) = true.
Proof. rewrite existsb_app. simpl. unfold by_id at 2. by rewrite Z.eqb_refl, !orb_true_r. Qed.

(** The two insertions of [m], all or nothing. *)
Lemma insert_both h db ms ds s m :
  stored ms ds db -> ready h db s ->
  message_ok (message_record m) -> delivery_ok (delivery_record m) ->
  exists e s', in_transaction (both (executeInsertMessage m) (executeInsertDelivery m)) s = Ok (e, s')
    /\ same_counters s s' /\ follows s s' /\ exists db', ready h db' s' /\
      match e with
      | None => added ms ds db m db'
      | Some e => e <> "" /\ (db' = db \/ added ms ds db m db')
                  /\ (quiet s -> db' = db /\ taken ms ds m)
      end.
Proof.
  intros Hdb Hs Hm Hd. set (mr := message_record m) in *. set (dr := delivery_record m) in *.
  assert (F1 : fits (QCreateMessage mr)) by (destruct Hm; solve_fits).
  assert (F2 : fits (QCreateDelivery dr)) by (destruct Hd; solve_fits).
  pose proof (exec_create_message db ms ds mr Hdb) as X1.
  pose proof (stored_add_message db ms ds mr Hdb Hm) as Hdb1.
  pose proof (exec_create_delivery _ _ _ dr Hdb1) as X2.
  change (dr_messageId dr) with (mr_messageId mr) in X2. rewrite by_id_self in X2.
  destruct (transaction_both h db s (executeInsertMessage m) (executeInsertDelivery m)
    (fun _ => QCreateMessage mr) (fun _ => QCreateDelivery dr) Hs) as (e & s' & E & C & Q & db' & R & K);
    [done|done| |].
  - intros _. destruct (existsb (message_clash mr) ms).
    + exists None. by split; [split|].
    + exists (Some (add_message mr db)). split; [by split|]. intros db1 [= <-] _.
      destruct (existsb (delivery_clash dr) ds); [exists None|exists (Some (add_delivery dr (add_message mr db)))];
        by split.
  - exists e, s'. split; [done|]. split; [done|]. split; [done|]. exists db'. split; [done|].
    assert (G : (exists (w w' : W) db1, writes (QCreateMessage mr) db (Some db1)
                  /\ writes (QCreateDelivery dr) db1 (Some db')) -> added ms ds db m db').
    { intros (_ & _ & db1 & [_ Y1] & [_ Y2]). rewrite X1 in Y1.
      destruct (existsb (message_clash mr) ms) eqn:Q1; [done|]. injection Y1 as <-.
      rewrite X2 in Y2. destruct (existsb (delivery_clash dr) ds) eqn:Q2; [done|]. injection Y2 as <-.
      split; [done|]. split; [by apply stored_add_delivery|]. done. }
    destruct e as [e|]; [|by apply G]. destruct K as (He & K & Kq). split; [done|].
    split; [destruct K; auto|]. intros Hq. destruct (Kq Hq) as [-> [_ [[_ Y]|(_ & db1 & [_ Y1] & [_ Y2])]]];
      (split; [done|]).
    + rewrite X1 in Y. left. fold mr. by destruct (existsb (message_clash mr) ms).
    + rewrite X1 in Y1. destruct (existsb (message_clash mr) ms); [done|]. injection Y1 as <-.
      rewrite X2 in Y2. right. fold dr. by destruct (existsb (delivery_clash dr) ds).
Qed.

Lemma counters_next s id u v :
  counters_ok s -> counters_ok (mkStore (m_options s) (conn s) (has_repositories s) (u64 id)
    (<[u := u64 v]> (s_nextServerSeqByUser s)) (m_lastAckedSeqCache s)).
Proof. intros [Hn Hc]. split; simpl; [apply u64_range|]. apply map_Forall_insert_2; [apply u64_range|done]. Qed.

(** Nothing but the cache of acknowledged numbers and the connection differs. *)
Definition same_ids s s' : Prop :=
  s_nextMsgId s' = s_nextMsgId s /\ s_nextServerSeqByUser s' = s_nextServerSeqByUser s.

(** What [saveMessageAndDelivery] may do. *)
Definition save_result (ms : list MessageRecord) (ds : list DeliveryRecord) (db : DB)
    (req : CreateMessageRequest) (id seq : Z) (r : string + StoredMessage * bool) (db' : DB) : Prop :=
  match r with
  | inr (m, false) => m = message_of req id seq /\ added ms ds db m db'
  | inr (m, true) => duplicate_of req ms ds = Some m /\ db' = db
  | inl e => e <> "" /\ (db' = db \/ added ms ds db (message_of req id seq) db')
  end.

(** In a fault-free period the store fails only on a key that is taken, and
    counts on. *)
Definition save_calm (ms : list MessageRecord) (ds : list DeliveryRecord) (req : CreateMessageRequest)
    s (r : string + StoredMessage * bool) s' : Prop :=
  let u := req_toUserId req in
  let seq := u64 (cursor_of ds u s + 1) in
  m_lastAckedSeqCache s' = m_lastAckedSeqCache s /\
  match duplicate_of req ms ds with
  | Some m => r = inr (m, true) /\ same_ids s s'
  | None =>
    s_nextMsgId s' = u64 (s_nextMsgId s + 1)
    /\ s_nextServerSeqByUser s' = <[u := seq]> (s_nextServerSeqByUser s)
    /\ (r = inr (message_of req (s_nextMsgId s) seq, false)
        \/ (exists e, r = inl e) /\ taken ms ds (message_of req (s_nextMsgId s) seq))
  end.

Lemma save_spec h db ms ds s req :
  stored ms ds db -> ready h db s -> counters_ok s -> int64 (req_timestamp req) ->
  exists r s' db', sql_saveMessageAndDelivery req s = Ok (r, s') /\ ready h db' s' /\ counters_ok s'
    /\ follows s s'
    /\ save_result ms ds db req (s_nextMsgId s) (u64 (cursor_of ds (req_toUserId req) s + 1)) r db'
    /\ (quiet s -> save_calm ms ds req s r s').
Proof.
  intros Hdb Hs Hc Ht.
  destruct (find_duplicate h db ms ds s req Hdb Hs) as (r1 & s1 & E1 & C1 & Q1 & R1 & K1).
  pose proof (same_counters_ok _ _ C1 Hc) as Hc1.
  unfold sql_saveMessageAndDelivery, mbind. rewrite E1. simpl.
  destruct r1 as [[m|] e1]; simpl.
  { assert (Hm : duplicate_of req ms ds = Some m)
      by (destruct K1 as [K1|(? & ? & ? & K1)]; injection K1; congruence).
    eexists _, s1, db. split; [reflexivity|]. splits; try done. intros _. unfold save_calm. rewrite Hm, C1. done. }
  destruct (decide (e1 = "")) as [->|He1].
  2: { rewrite (bool_decide_eq_false_2 _ He1). simpl. eexists _, s1, db. split; [reflexivity|].
       splits; try done; [split; auto|]. intros Hq. exfalso.
       destruct K1 as [K1|(? & ? & Hn & K1)]; [by injection K1|by apply Hn]. }
  assert (Hm : quiet s -> duplicate_of req ms ds = None).
  { intros Hq. destruct K1 as [K1|(? & ? & Hn & K1)]; [by injection K1|by apply Hn in Hq]. }
  simpl. destruct (ensure_cursor h db ms ds s1 (req_toUserId req) Hdb R1 Hc1)
    as (e2 & s2 & E2 & R2 & Hc2 & Q2 & N2 & L2 & K2). rewrite E2. simpl.
  pose proof (follows_trans _ _ _ Q1 Q2) as Q12.
  destruct e2 as [e2|]; simpl.
  { eexists _, s2, db. split; [reflexivity|]. destruct K2 as (He2 & Hn2 & _).
    splits; try done; [split; auto|]. intros Hq. by apply Q1 in Hq. }
  assert (EN : s_nextMsgId s2 = s_nextMsgId s) by (rewrite N2, C1; done).
  assert (EU : s_nextServerSeqByUser s2
               = <[req_toUserId req := cursor_of ds (req_toUserId req) s]> (s_nextServerSeqByUser s))
    by (rewrite K2, C1; done).
  assert (EC : at_default (req_toUserId req) (s_nextServerSeqByUser s2) = cursor_of ds (req_toUserId req) s).
  { unfold at_default. by rewrite EU, lookup_insert_eq. }
  rewrite EC, EN.
  set (id := s_nextMsgId s). set (seq := u64 (cursor_of ds (req_toUserId req) s + 1)).
  destruct (message_of_ok req id seq Ht (proj1 Hc) (u64_range _)) as [Hmo Hdl].
  set (s3 := mkStore (m_options s2) (conn s2) (has_repositories s2) (u64 (id + 1))
               (<[req_toUserId req := seq]> (s_nextServerSeqByUser s2)) (m_lastAckedSeqCache s2)).
  destruct (insert_both h db ms ds s3 (message_of req id seq) Hdb R2 Hmo Hdl)
    as (e3 & s4 & E3 & C3 & Q3 & db' & R3 & K3).
  assert (Q4 : follows s s4) by (intros Hq; by apply Q3, Q12).
  assert (S4 : quiet s -> forall r, (r = inr (message_of req id seq, false)
        \/ (exists e, r = inl e) /\ taken ms ds (message_of req id seq)) -> save_calm ms ds req s r s4).
  { intros Hq r Hr. unfold save_calm. rewrite (Hm Hq), C3. simpl. rewrite EU, insert_insert_eq, L2, C1. done. }
  change (message_of req id seq) with (mkStoredMessage
    (mkP2PMsgNotify id seq (req_fromUserId req) (req_toUserId req) (req_clientMsgId req)
       (req_content req) (req_timestamp req))
    DeliveryPersisted (req_toUserId req) (req_timestamp req) 0 0 0) in E3.
  rewrite E3. simpl.
  assert (Hc4 : counters_ok s4) by (apply (same_counters_ok s3); [done|]; by apply counters_next).
  destruct e3 as [e3|]; simpl; eexists _, s4, db'; (split; [reflexivity|]); splits; try done.
  - destruct K3 as (He3 & K3 & _). by split.
  - intros Hq. apply S4; [done|]. right. split; [by eexists|]. destruct K3 as (_ & _ & K3). by apply K3, Q12.
  - intros Hq. apply S4; [done|]. by left.
Qed.

(** ** markDeliveryAttempt *)

(** The row of message [id] for [r] after an update. *)
Definition update_rows (id : Z) (r : string) (st : DeliveryStatus) (retries delivered acked now : Z)
    (ds : list DeliveryRecord) : list DeliveryRecord :=
  map (fun d => if by_receipt id r d then updated st retries delivered acked now d else d) ds.

Lemma update_sends id r st n d a :
  sends (on_repository (updateDeliveryStatus id r st n d a))
    (fun w => QUpdateDelivery id r st n d a (GetTimestampMs w)).
Proof.
  intros s. unfold on_repository, on_client.
  assert (E : forall c : Conn W, updateDeliveryStatus id r st n d a c
    = execute_stream (sql_of (QUpdateDelivery id r st n d a (GetTimestampMs (world c)))) c)
    by (intros [cl w]; reflexivity).
  rewrite E. reflexivity.
Qed.

Lemma update_rows_ok id r st n d a now ds :
  uint32 n -> int64 d -> int64 a -> int64 now -> Forall delivery_ok ds ->
  Forall delivery_ok (update_rows id r st n d a now ds).
Proof.
  intros Hn Hd Ha Hw Hds. unfold update_rows. rewrite Forall_map. apply (Forall_impl _ _ _ Hds).
  intros x []. simpl. case_if; by split.
Qed.

Lemma update_writes db ms ds id r st n d a now :
  stored ms ds db -> uint64 id -> uint32 n -> int64 d -> int64 a -> int64 now ->
  writes (QUpdateDelivery id r st n d a now) db
    (Some (set_deliveries (update_rows id r st n d a now ds) db)).
Proof. intros Hdb Hi Hn Hd Ha Hw. split; [solve_fits|].
  exact (exec_update_delivery db ms ds id r st n d a now Hdb). Qed.

Lemma mark_spec h db ms ds s r id st at_ n :
  stored ms ds db -> ready h db s -> uint64 id -> uint32 n -> int64 at_ ->
  exists e s' db', sql_markDeliveryAttempt r id st at_ n s = Ok (e, s')
    /\ same_counters s s' /\ follows s s' /\ ready h db' s' /\
    match e with
    | None => exists now, int64 now /\ db' = set_deliveries (update_rows id r st n at_ 0 now ds) db
    | Some e => e <> "" /\ db' = db /\ ~ quiet s
    end.
Proof.
  intros Hdb [Hrep Hr] Hi Hn Ha. unfold sql_markDeliveryAttempt. rewrite update_sends.
  unfold on_repository, on_client. rewrite Hrep. set (now := GetTimestampMs _).
  assert (Hw : int64 now) by apply server_clock.
  destruct (write_alone h db (conn s) (QUpdateDelivery id r st n at_ 0 now) _ Hr
    (update_writes db ms ds id r st n at_ 0 now Hdb Hi Hn Ha ltac:(unfold int64; lia) Hw)) as (e & c' & E & Hk & K).
  rewrite E. simpl. destruct e as [e|].
  - destruct K as (He & K & Hn'). eexists _, _, db. split; [reflexivity|]. split; [done|]. split; [done|].
    split; [by split|]. split; [done|]. split; [done|]. intros Hq. by apply Hn' in Hq.
  - destruct K as (db' & [= <-] & K). eexists _, _, _. split; [reflexivity|].
    split; [done|]. split; [done|]. split; [by split|]. by exists now.
Qed.

(** ** getLastAckedSeq *)
Definition max_acked (r : string) (ds : list DeliveryRecord) : Z :=
  max_of dr_serverSeq (filter (fun d => acknowledged r d = true) ds).

Lemma last_spec h db ms ds s r :
  stored ms ds db -> ready h db s ->
  exists v s', sql_getLastAckedSeq r s = Ok (v, s') /\ ready h db s' /\ same_ids s s' /\ follows s s' /\
    match m_lastAckedSeqCache s !! r with
    | Some c => v = c /\ m_lastAckedSeqCache s' = m_lastAckedSeqCache s
    | None => (v = max_acked r ds /\ m_lastAckedSeqCache s' = <[r := v]> (m_lastAckedSeqCache s))
              \/ (v = 0 /\ ~ quiet s /\ m_lastAckedSeqCache s' = m_lastAckedSeqCache s)
    end.
Proof.
  intros Hdb Hs. unfold sql_getLastAckedSeq, mbind, read. simpl.
  destruct (m_lastAckedSeqCache s !! r) as [v|] eqn:Ec; simpl.
  { eexists v, s. split; [reflexivity|]. splits; try done. apply follows_refl. }
  rewrite (proj1 Hs). destruct (repository_answers h db s _ _ _ Hs (last_acked_answers h db ms ds Hdb r))
    as (x & s1 & E & C1 & Q1 & R1 & K). unfold on_repository in E. rewrite (proj1 Hs) in E. rewrite E. simpl.
  destruct K as [->|(e & He & Hnq & ->)]; simpl.
  - eexists _, _. split; [reflexivity|]. split; [by split; apply R1|].
    split; [by rewrite C1|]. split; [done|]. left. by rewrite C1.
  - rewrite (bool_decide_eq_false_2 _ He). simpl. eexists _, s1. split; [reflexivity|].
    split; [done|]. split; [by rewrite C1|]. split; [done|]. right. by rewrite C1.
Qed.

(** ** markAcked *)

(** The row is updated and the acknowledgement is logged. *)
Definition acked_tables (id : Z) (r : string) (seq code at_ : Z) (d : DeliveryRecord)
    (ds : list DeliveryRecord) (db db' : DB) : Prop :=
  exists now, int64 now /\
    db' = add_ack id r seq code at_
            (set_deliveries (update_rows id r (ack_status code) (dr_retryCount d) (dr_deliveredAtMs d)
                               at_ now ds) db).

Lemma ack_both h db ms ds s id r seq code at_ d :
  stored ms ds db -> ready h db s -> uint64 id -> uint64 seq -> uint32 code -> int64 at_ -> delivery_ok d ->
  exists e s', in_transaction
      (both (on_repository (updateDeliveryStatus id r (ack_status code) (dr_retryCount d)
                              (dr_deliveredAtMs d) at_))
            (on_repository (appendAckLog id r seq code at_))) s = Ok (e, s')
    /\ same_counters s s' /\ follows s s' /\ exists db', ready h db' s' /\
      match e with
      | None => acked_tables id r seq code at_ d ds db db'
      | Some e => e <> "" /\ (db' = db \/ acked_tables id r seq code at_ d ds db db')
                  /\ (quiet s -> db' = db /\ existsb (by_id id) ms = false)
      end.
Proof.
  intros Hdb Hs Hi Hq Hc Ha Hd.
  assert (U : forall now, int64 now -> writes (QUpdateDelivery id r (ack_status code) (dr_retryCount d)
      (dr_deliveredAtMs d) at_ now) db (Some (set_deliveries (update_rows id r (ack_status code)
        (dr_retryCount d) (dr_deliveredAtMs d) at_ now ds) db)))
    by (intros now Hw; destruct Hd; by eapply update_writes).
  assert (S1 : forall now, int64 now -> stored ms (update_rows id r (ack_status code)
        (dr_retryCount d) (dr_deliveredAtMs d) at_ now ds) (set_deliveries (update_rows id r (ack_status code)
        (dr_retryCount d) (dr_deliveredAtMs d) at_ now ds) db)).
  { intros now Hw. apply (stored_set_deliveries db ms ds); [done|]. destruct Hd.
    apply update_rows_ok; try done. apply Hdb. }
  assert (F : fits (QAckLog id r seq code at_)) by solve_fits.
  destruct (transaction_both h db s _ (on_repository (appendAckLog id r seq code at_))
    _ (fun _ => QAckLog id r seq code at_) Hs
    (update_sends id r (ack_status code) (dr_retryCount d) (dr_deliveredAtMs d) at_))
    as (e & s' & E & C & Q & db' & R & K); [done| |].
  - intros w. eexists. split; [apply U, server_clock|]. intros db1 [= <-] _.
    pose proof (exec_ack_log _ _ _ id r seq code at_ (S1 _ (server_clock w))) as X.
    destruct (existsb (by_id id) ms); [eexists (Some _)|exists None]; (split; [done|]); exact X.
  - exists e, s'. split; [done|]. split; [done|]. split; [done|]. exists db'. split; [done|].
    match type of K with let wrote := ?P in _ => assert (G : P -> acked_tables id r seq code at_ d ds db db') end.
    { intros (w & w' & db1 & Y1 & [_ Y2]). destruct (U _ (server_clock w)) as [_ Y1'].
      destruct Y1 as [_ Y1]. rewrite Y1 in Y1'. injection Y1' as ->.
      rewrite (exec_ack_log _ _ _ id r seq code at_ (S1 _ (server_clock w))) in Y2.
      destruct (existsb (by_id id) ms); [|done]. injection Y2 as <-.
      exists (GetTimestampMs w). split; [apply server_clock|done]. }
    destruct e as [e|]; [|by apply G]. destruct K as (He & K & Kq). split; [done|].
    split; [destruct K; auto|]. intros Hquiet.
    destruct (Kq Hquiet) as [-> [w [[_ Y]|(w' & db1 & [_ Y1] & [_ Y2])]]]; (split; [done|]);
      destruct (U _ (server_clock w)) as [_ Y1']; [by rewrite Y1' in Y|].
    rewrite Y1 in Y1'. injection Y1' as ->.
    rewrite (exec_ack_log _ _ _ id r seq code at_ (S1 _ (server_clock w))) in Y2.
    by destruct (existsb (by_id id) ms).
Qed.

(** What [getLastAckedSeq] returns and caches in a fault-free period. *)
Definition last_calm (r : string) (ds : list DeliveryRecord) s (v : Z) s' : Prop :=
  match m_lastAckedSeqCache s !! r with
  | Some c => v = c /\ m_lastAckedSeqCache s' = m_lastAckedSeqCache s
  | None => v = max_acked r ds /\ m_lastAckedSeqCache s' = <[r := v]> (m_lastAckedSeqCache s)
  end.

(** Every error path of [markAcked] ends with a read of the last acknowledged
    number. *)
Lemma ack_fails h db ms ds s s2 r (e : string) :
  stored ms ds db -> ready h db s2 -> same_counters s s2 -> follows s s2 ->
  exists last s3, mbind (sql_getLastAckedSeq r) (fun last => mret (Some e, last)) s2 = Ok ((Some e, last), s3)
    /\ ready h db s3 /\ same_ids s s3 /\ follows s s3 /\ (quiet s -> last_calm r ds s last s3).
Proof.
  intros Hdb R2 C2 Q2.
  destruct (last_spec h db ms ds s2 r Hdb R2) as (v & s3 & E3 & R3 & I3 & Q3 & K3).
  unfold mbind. rewrite E3. simpl. eexists v, s3. split; [reflexivity|]. split; [done|].
  assert (EL : m_lastAckedSeqCache s2 = m_lastAckedSeqCache s) by (rewrite C2; done).
  assert (EI : same_ids s s2) by (rewrite C2; done).
  split; [destruct I3, EI; split; congruence|]. split; [by apply (follows_trans s s2)|].
  intros Hq. unfold last_calm. rewrite EL in K3.
  destruct (m_lastAckedSeqCache s !! r); [done|].
  destruct K3 as [K3|(_ & Hn & _)]; [done|]. by apply Q2 in Hq.
Qed.

(** What [markAcked] may do. *)
Definition ack_result (ms : list MessageRecord) (ds : list DeliveryRecord) (db : DB) (r : string)
    (id seq code at_ : Z) s (e : option string) (last : Z) s' (db' : DB) : Prop :=
  match e with
  | None => exists d, first (by_receipt id r) ds = Some d /\ dr_serverSeq d = seq
              /\ acked_tables id r seq code at_ d ds db db'
              /\ last = Z.max (at_default r (m_lastAckedSeqCache s)) seq
              /\ m_lastAckedSeqCache s' = <[r := last]> (m_lastAckedSeqCache s)
  | Some e => e <> ""
      /\ (db' = db \/ exists d, first (by_receipt id r) ds = Some d
             /\ dr_serverSeq d = seq /\ acked_tables id r seq code at_ d ds db db')
      /\ (quiet s -> db' = db /\ last_calm r ds s last s'
             /\ forall d, first (by_receipt id r) ds = Some d -> dr_serverSeq d = seq ->
                  existsb (by_id id) ms = false)
  end.

Lemma acked_tables_stored id r seq code at_ d ms ds db db' :
  stored ms ds db -> delivery_ok d -> int64 at_ -> acked_tables id r seq code at_ d ds db db' ->
  exists now, int64 now /\ stored ms (update_rows id r (ack_status code) (dr_retryCount d)
                                       (dr_deliveredAtMs d) at_ now ds) db'.
Proof.
  intros Hdb [] Ha (now & Hn & ->). exists now. split; [done|].
  apply stored_add_ack, (stored_set_deliveries db ms ds); [done|].
  apply update_rows_ok; try done. apply Hdb.
Qed.

Lemma acked_tables_differ id r seq code at_ d ds db :
  ~ acked_tables id r seq code at_ d ds db db.
Proof.
  intros (now & _ & E). apply (f_equal (fun x => length (t_ack_log x))) in E. simpl in E.
  rewrite length_app in E. simpl in E. lia.
Qed.

Lemma ack_spec h db ms ds s r id seq code at_ :
  stored ms ds db -> ready h db s -> uint64 id -> uint64 seq -> uint32 code -> int64 at_ ->
  exists e last s' db', sql_markAcked r id seq code at_ s = Ok ((e, last), s')
    /\ ready h db' s' /\ same_ids s s' /\ follows s s'
    /\ ack_result ms ds db r id seq code at_ s e last s' db'.
Proof.
  intros Hdb Hs Hi Hq Hc Ha. unfold sql_markAcked.
  destruct (repository_answers h db s _ _ _ Hs (find_delivery_answers h db ms ds Hdb id r Hi))
    as (x & s1 & E1 & C1 & Q1 & R1 & K1). unfold mbind at 1. rewrite E1. simpl.
  pose proof (fun e => ack_fails h db ms ds s s1 r e Hdb R1 C1 Q1) as Fail1.
  destruct x as [[d|] e1]; simpl.
  2: { destruct (Fail1 (if bool_decide (e1 = "") then "message not found" else e1)) as (l & s3 & E3 & R3 & I3 & Q3 & L3).
       rewrite E3. eexists _, _, s3, db. split; [reflexivity|]. splits; try done.
       split; [by case_bool_decide|]. split; [by left|]. intros Hquiet. split; [done|]. split; [auto|].
       intros d Hd. destruct K1 as [K1|(? & _ & Hn & _)]; [|by apply Hn in Hquiet].
       injection K1 as K1 _. congruence. }
  assert (Hf : first (by_receipt id r) ds = Some d)
    by (destruct K1 as [K1|(? & ? & ? & K1)]; by injection K1).
  clear K1. pose proof Hf as Hd. apply first_elem in Hd as [Hd _].
  assert (Hdo : delivery_ok d) by (pose proof (st_ds _ _ _ Hdb) as F; rewrite Forall_forall in F; by apply F).
  destruct (dr_serverSeq d =? seq) eqn:Eq; b2p; simpl.
  2: { destruct (Fail1 "server_seq mismatch") as (l & s3 & E3 & R3 & I3 & Q3 & L3).
       rewrite E3. eexists _, _, s3, db. split; [reflexivity|]. splits; try done.
       split; [done|]. split; [by left|]. intros Hquiet. split; [done|]. split; [auto|].
       intros d' Hd' ?. congruence. }
  destruct (ack_both h db ms ds s1 id r seq code at_ d Hdb R1 Hi Hq Hc Ha Hdo)
    as (e2 & s2 & E2 & C2 & Q2 & db' & R2 & K2). unfold mbind at 1. rewrite E2. simpl.
  pose proof (same_counters_trans _ _ _ C1 C2) as C3. pose proof (follows_trans _ _ _ Q1 Q2) as Q3.
  destruct e2 as [e2|]; simpl.
  - destruct K2 as (He2 & K2 & Kq).
    destruct K2 as [->|K2].
    + destruct (ack_fails h db ms ds s s2 r e2 Hdb R2 C3 Q3) as (l & s3 & E3 & R3 & I3 & Q4 & L3).
      rewrite E3. eexists _, _, s3, db. split; [reflexivity|]. splits; try done.
      split; [done|]. split; [by left|]. intros Hquiet. split; [done|]. split; [auto|].
      intros _ _ _. by apply Kq, Q1.
    + destruct (acked_tables_stored _ _ _ _ _ _ _ _ _ _ Hdb Hdo Ha K2) as (now & _ & Hst).
      destruct (ack_fails h db' _ _ s s2 r e2 Hst R2 C3 Q3) as (l & s3 & E3 & R3 & I3 & Q4 & L3).
      rewrite E3. eexists _, _, s3, db'. split; [reflexivity|]. splits; try done.
      split; [done|]. split; [right; by exists d|]. intros Hquiet. exfalso.
      destruct (Kq (Q1 Hquiet)) as [-> _]. by apply acked_tables_differ in K2.
  - eexists _, _, _, db'. split; [reflexivity|]. split; [by split; apply R2|].
    simpl. split; [by split; rewrite C3|]. split; [done|]. exists d. rewrite C3. simpl. by splits.
Qed.

(** ** loadPendingMessages *)
Definition joined (ms : list MessageRecord) (d : DeliveryRecord) : option StoredMessage :=
  (fun m => to_stored m d) <$> first (by_id (dr_messageId d)) ms.

Definition last_seq (next : Z) (l : list StoredMessage) : Z := foldl (fun n m => Z.max n (seqOf m)) next l.

Lemma sql_load_loop_spec h db ms ds l result next s :
  stored ms ds db -> ready h db s -> Forall delivery_ok l ->
  exists r s', sql_load_loop l result next s = Ok (r, s') /\ same_counters s s' /\ follows s s' /\ ready h db s' /\
    (r = inr (result ++ omap (joined ms) l, last_seq next (omap (joined ms) l))
     \/ exists e, e <> "" /\ ~ quiet s /\ r = inl e).
Proof.
  intros Hdb Hs Hl. revert result next s Hs. induction Hl as [|d l Hd Hl IH]; intros result next s Hs.
  { eexists _, s. split; [reflexivity|]. splits; [apply same_counters_refl|apply follows_refl|done|].
    left. by rewrite app_nil_r. }
  destruct (repository_answers h db s _ _ _ Hs
    (find_message_answers h db ms ds Hdb (dr_messageId d) (do_id _ Hd)))
    as (x & s1 & E & C1 & Q1 & R1 & K). simpl. unfold mbind. rewrite E. simpl.
  destruct K as [->|(e & He & Hn & ->)]; simpl.
  2: { rewrite (bool_decide_eq_false_2 _ He). simpl. eexists _, s1. split; [reflexivity|]. splits; try done.
       right. eauto. }
  change (omap (joined ms) (d :: l))
    with (match joined ms d with Some y => y :: omap (joined ms) l | None => omap (joined ms) l end).
  destruct (joined ms d) as [m'|] eqn:Ej; unfold joined in Ej;
    destruct (first (by_id (dr_messageId d)) ms) as [m|]; simplify_eq/=.
  - destruct (IH (result ++ [to_stored m d]) (Z.max next (dr_serverSeq d)) s1 R1)
      as (r & s2 & E2 & C2 & Q2 & R2 & K2). rewrite E2. eexists r, s2. split; [reflexivity|].
    splits; [by apply (same_counters_trans s s1)|by apply (follows_trans s s1)|done|].
    destruct K2 as [->|(e & He & Hn & ->)]; [left|right; exists e; splits; [done|intros Hq; by apply Hn, Q1|done]].
    by rewrite <- app_assoc.
  - destruct (IH result next s1 R1) as (r & s2 & E2 & C2 & Q2 & R2 & K2). rewrite E2.
    eexists r, s2. split; [reflexivity|].
    splits; [by apply (same_counters_trans s s1)|by apply (follows_trans s s1)|done|].
    destruct K2 as [->|(e & He & Hn & ->)]; [by left|right; exists e; splits; [done|intros Hq; by apply Hn, Q1|done]].
Qed.

(** The pending messages in the order of their sequence numbers, and the next
    number to ask for. *)
Definition load_answer (ms : list MessageRecord) (ds : list DeliveryRecord) (r : string) (after limit : Z)
    : list StoredMessage * Z * string :=
  let l := omap (joined ms) (pending_list ds r after limit) in
  (l, match l with [] => last_seq after l | _ => u64 (last_seq after l + 1) end, "").

Lemma load_spec h db ms ds s r after limit :
  stored ms ds db -> ready h db s -> uint64 after -> uint64 limit ->
  exists x s', sql_loadPendingMessages r after limit s = Ok (x, s') /\ same_counters s s' /\ follows s s'
    /\ ready h db s' /\
    (x = load_answer ms ds r after limit \/ exists e, e <> "" /\ ~ quiet s /\ x = ([], after, e)).
Proof.
  intros Hdb Hs Ha Hl.
  destruct (repository_answers h db s _ _ _ Hs (pending_answers h db ms ds Hdb r after limit Ha Hl))
    as (x & s1 & E & C1 & Q1 & R1 & K). unfold sql_loadPendingMessages, mbind. rewrite E. simpl.
  destruct K as [->|(e & He & Hn & ->)]; simpl.
  2: { rewrite (bool_decide_eq_false_2 _ He). simpl. eexists _, s1. split; [reflexivity|]. splits; try done.
       right. eauto. }
  assert (Hp : Forall delivery_ok (pending_list ds r after limit)).
  { apply Forall_take. rewrite sort_on_perm. apply Forall_filter, Hdb. }
  destruct (sql_load_loop_spec h db ms ds _ [] after s1 Hdb R1 Hp) as (y & s2 & E2 & C2 & Q2 & R2 & K2).
  rewrite E2. simpl. pose proof (same_counters_trans _ _ _ C1 C2). pose proof (follows_trans _ _ _ Q1 Q2).
  destruct K2 as [->|(e & He & Hn & ->)]; simpl; eexists _, s2; (split; [reflexivity|]); splits; try done.
  - left. done.
  - right. exists e. splits; [done|intros Hq; by apply Hn, Q1|done].
Qed.

End Atomic.

End mysql_atomic.
