(* ===== verification/MySqlRefines.v ===== *)
(** * MySqlRefines: the MySQL store against the message log and the
      in-memory store

    Over a lawful server without faults whose collation tells the names of the
    run apart (it may identify others, as utf8mb4_unicode_ci does), the
    MySQL store implements the log of StoreSpec.v: the rows of the two tables
    pair up to the entries of the log ([sql_shows]).  Hence it gives the same
    answers as the in-memory store, for every sequence of operations that is
    valid in the sense of [valid_run]. *)
From Stdlib Require Import Sorting.Sorted.
From S2P Require Import Prelude Text Protocol MessageStore StoreSpec Auth Sql Tables MySql MySqlStore MySqlSpec MySqlRepos MySqlAtomic.
Import text protocol storage log sql tables mysql mysql_store mysql_spec repos mysql_atomic.

Module mysql_refines.

Section Refines.
Context {W : Type} `{MySqlServer W}.
(** The collation tells the names of a run apart. *)
Context (D : string -> Prop) (exact : forall a b, D a -> D b -> collation a b = bool_decide (a = b)).

Definition sql_answer (op : mem_op) (s : MySqlMessageStore W) : res (answer * MySqlMessageStore W) :=
  match op with
  | OpSave req =>
    '(r, s') <- sql_saveMessageAndDelivery req s;;
    Ok (ASave (match r with inr x => Some x | inl _ => None end), s')
  | OpMark r id st at_ n =>
    '(e, s') <- sql_markDeliveryAttempt r id st at_ n s;; Ok (AMark (bool_decide (e = None)), s')
  | OpAck r id seq code at_ =>
    '(x, s') <- sql_markAcked r id seq code at_ s;; Ok (AAck (bool_decide (x.1 = None)) x.2, s')
  | OpLoad r after limit =>
    '(x, s') <- sql_loadPendingMessages r after limit s;; Ok (ALoad x.1.1 x.1.2 (bool_decide (x.2 = "")), s')
  | OpLast r => '(v, s') <- sql_getLastAckedSeq r s;; Ok (ALast v, s')
  end.

Fixpoint sql_answers (ops : list mem_op) (s : MySqlMessageStore W) : res (list answer) :=
  match ops with
  | [] => Ok []
  | op :: ops' =>
    '(a, s') <- sql_answer op s;; l <- sql_answers ops' s';; Ok (a :: l)
  end.

(** The names an operation compares with those in the tables. *)
Definition op_names (op : mem_op) : list string :=
  match op with
  | OpSave req => [req_fromUserId req; req_toUserId req; req_clientMsgId req]
  | OpMark r _ _ _ _ | OpAck r _ _ _ _ | OpLoad r _ _ | OpLast r => [r]
  end.

Lemma save_names req :
  Forall D (op_names (OpSave req)) -> D (req_fromUserId req) /\ D (req_toUserId req) /\ D (req_clientMsgId req).
Proof. simpl. rewrite !Forall_cons. naive_solver. Qed.

(** ** The rows that make up an entry *)
Notation pair := (MessageRecord * DeliveryRecord)%type.
Definition entry (p : pair) : StoredMessage := to_stored p.1 p.2.

Record sql_shows (h : Z) (db : DB) (ps : list pair) (s : MySqlMessageStore W) (L : Log) : Prop := {
  ss_stored : stored (map fst ps) (map snd ps) db;
  ss_ready : ready h db s;
  ss_counters : counters_ok s;
  ss_quiet : quiet s;
  ss_entries : entries L = map entry ps;
  ss_ids : Forall (fun p : pair => dr_messageId p.2 = mr_messageId p.1) ps;
  ss_next : s_nextMsgId s = Z.of_nat (length ps) + 1;
  ss_cursor : forall u, s_nextServerSeqByUser s !! u = Some (Z.of_nat (length (sent_to u (entries L))))
    \/ (s_nextServerSeqByUser s !! u = None /\ sent_to u (entries L) = []);
  ss_last : forall u, at_default u (m_lastAckedSeqCache s) = at_default u (acked_upto L);
  ss_cache : forall u, m_lastAckedSeqCache s !! u = None ->
    Forall (fun m => receiverId m = u -> unacked m = true) (entries L);
  ss_names : Forall (fun p : pair =>
    D (mr_fromUserId p.1) /\ D (mr_clientMsgId p.1) /\ D (dr_receiverUserId p.2)) ps;
}.

(** ** Lookups *)
Lemma first_find {A} (p : A -> bool) (xs : list A) : first p xs = find p xs.
Proof.
  unfold first. induction xs as [|x xs IH]; [done|]. rewrite filter_cons. simpl.
  destruct (p x); [by rewrite decide_True|]. by rewrite decide_False.
Qed.

Lemma find_map' {A B} (g : A -> B) (p : B -> bool) (xs : list A) :
  find p (map g xs) = g <$> find (fun a => p (g a)) xs.
Proof. induction xs as [|x xs IH]; simpl; [done|]. by case_if. Qed.

Lemma find_ext' {A} (p q : A -> bool) (xs : list A) : Forall (fun a => p a = q a) xs -> find p xs = find q xs.
Proof. induction 1 as [|x xs E _ IH]; simpl; [done|]. by rewrite E, IH. Qed.

Lemma filter_none {A} (p : A -> bool) (xs : list A) :
  Forall (fun a => p a = false) xs -> filter (fun a => p a = true) xs = [].
Proof. induction 1 as [|a xs Ha _ IH]; [done|]. rewrite filter_cons_False; [done|]. congruence. Qed.

(** A unique match is found. *)
Lemma find_unique {A} (p : A -> bool) (xs : list A) a :
  a ∈ xs -> p a = true -> (forall b, b ∈ xs -> p b = true -> b = a) -> find p xs = Some a.
Proof.
  intros Ha Hp Hu. destruct (find p xs) as [b|] eqn:E.
  - apply find_some in E as [Hb Hpb]. f_equal. apply Hu; [by apply list_elem_of_In|done].
  - pose proof (List.find_none _ _ E a (proj1 (list_elem_of_In _ _) Ha)). congruence.
Qed.

Lemma pairs_unique (ps : list pair) p q :
  StronglySorted older (map entry ps) -> p ∈ ps -> q ∈ ps ->
  mr_messageId p.1 = mr_messageId q.1 -> p = q.
Proof.
  induction ps as [|x ps IH]; simpl; intros Hs Hp Hq E; [by apply elem_of_nil in Hp|].
  inversion Hs as [|? ? Hs' Hx]; subst. rewrite Forall_map, Forall_forall in Hx.
  apply elem_of_cons in Hp as [->|Hp]; apply elem_of_cons in Hq as [->|Hq]; auto.
  - pose proof (Hx _ Hq) as [Hlt _]. simpl in Hlt. lia.
  - pose proof (Hx _ Hp) as [Hlt _]. simpl in Hlt. lia.
Qed.

Lemma by_sender_exact f c m :
  D f -> D c -> D (mr_fromUserId m) -> D (mr_clientMsgId m) ->
  by_sender f c m = bool_decide (mr_fromUserId m = f) && bool_decide (mr_clientMsgId m = c).
Proof. intros. unfold by_sender. by rewrite !exact. Qed.

Lemma by_receipt_exact id r d :
  D r -> D (dr_receiverUserId d) ->
  by_receipt id r d = (dr_messageId d =? id) && bool_decide (dr_receiverUserId d = r).
Proof. intros. unfold by_receipt. by rewrite exact. Qed.

Section Step.
Context (h : Z) (db : DB) (ps : list pair) (s : MySqlMessageStore W) (L : Log).
Context (Hs : sql_shows h db ps s L) (HL : log_ok L).

Lemma ps_sorted : StronglySorted older (map entry ps).
Proof. rewrite <- (ss_entries _ _ _ _ _ Hs). apply HL. Qed.

Lemma ps_id p : p ∈ ps -> dr_messageId p.2 = mr_messageId p.1.
Proof. intros Hp. pose proof (ss_ids _ _ _ _ _ Hs) as F. rewrite Forall_forall in F. by apply F. Qed.

Lemma ps_entry p : p ∈ ps -> entry p ∈ entries L /\ entry_ok (entries L) (entry p).
Proof.
  intros Hp. assert (E : entry p ∈ entries L)
    by (rewrite (ss_entries _ _ _ _ _ Hs); apply list_elem_of_fmap; by exists p).
  split; [done|]. pose proof (lo_entry _ HL) as F. rewrite Forall_forall in F. by apply F.
Qed.

Lemma ps_names p :
  p ∈ ps -> D (mr_fromUserId p.1) /\ D (mr_clientMsgId p.1) /\ D (dr_receiverUserId p.2).
Proof. intros Hp. pose proof (ss_names _ _ _ _ _ Hs) as F. rewrite Forall_forall in F. by apply F. Qed.

Lemma ps_receipt p id r :
  p ∈ ps -> D r -> by_receipt id r p.2 = (dr_messageId p.2 =? id) && bool_decide (dr_receiverUserId p.2 = r).
Proof. intros Hp Hr. apply by_receipt_exact; [done|]. by apply ps_names. Qed.

Lemma ps_receiver p r : p ∈ ps -> D r -> to_receiver r p.2 = bool_decide (dr_receiverUserId p.2 = r).
Proof. intros Hp Hr. apply exact; [|done]. by apply ps_names. Qed.

(** The delivery found for a pair's message and receiver is its own. *)
Lemma find_receipt p r :
  p ∈ ps -> dr_receiverUserId p.2 = r -> first (by_receipt (mr_messageId p.1) r) (map snd ps) = Some p.2.
Proof.
  intros Hp Hr. assert (Dr : D r) by (rewrite <- Hr; by apply ps_names). rewrite first_find, find_map'.
  rewrite (find_unique (fun q : pair => by_receipt (mr_messageId p.1) r q.2) ps p); [done|done| |].
  - rewrite ps_receipt, ps_id, Z.eqb_refl by done. by rewrite bool_decide_eq_true_2.
  - intros q Hq E. rewrite ps_receipt in E by done. b2p. apply (pairs_unique ps); [apply ps_sorted|done|done|].
    rewrite <- (ps_id q) by done. done.
Qed.

Lemma receipt_pair id r d :
  D r ->
  first (by_receipt id r) (map snd ps) = Some d ->
  exists p, p ∈ ps /\ p.2 = d /\ mr_messageId p.1 = id /\ dr_receiverUserId d = r.
Proof.
  intros Dr. rewrite first_find, find_map'. destruct (find _ ps) as [p|] eqn:E; [|done]. simpl. intros [= <-].
  apply find_some in E as [Hp E]. apply list_elem_of_In in Hp. exists p.
  rewrite ps_receipt in E by done. b2p. rewrite <- ps_id by done. done.
Qed.

Lemma find_message p : p ∈ ps -> first (by_id (mr_messageId p.1)) (map fst ps) = Some p.1.
Proof.
  intros Hp. rewrite first_find, find_map'.
  rewrite (find_unique (fun q : pair => by_id (mr_messageId p.1) q.1) ps p); [done|done| |].
  - apply Z.eqb_refl.
  - intros q Hq E. unfold by_id in E. b2p. by apply (pairs_unique ps); [apply ps_sorted|..].
Qed.

Lemma duplicate_find req :
  Forall D (op_names (OpSave req)) ->
  valid_op (OpSave req) L ->
  duplicate_of req (map fst ps) (map snd ps)
  = find (same_request (req_fromUserId req) (req_clientMsgId req)) (entries L).
Proof.
  intros (Df & _ & Dc)%save_names (Hc & _ & _ & _ & Hsame). unfold duplicate_of. rewrite bool_decide_eq_false_2 by done.
  rewrite first_find, find_map', (ss_entries _ _ _ _ _ Hs), find_map'.
  rewrite (find_ext' _ (fun p => same_request (req_fromUserId req) (req_clientMsgId req) (entry p)))
    by (apply Forall_forall; intros p Hp; destruct (ps_names p Hp) as (? & ? & _); by apply by_sender_exact).
  destruct (find _ ps) as [p|] eqn:E; [|done]. simpl.
  apply find_some in E as [Hp E]. apply list_elem_of_In in Hp.
  rewrite (find_receipt p); [done|done|]. rewrite Forall_forall in Hsame.
  exact (Hsame (entry p) (proj1 (ps_entry p Hp)) E).
Qed.

(** ** saveMessageAndDelivery *)
Lemma cursor_count u : D u -> cursor_of (map snd ps) u s = Z.of_nat (length (sent_to u (entries L))).
Proof.
  intros Du. unfold cursor_of. destruct (ss_cursor _ _ _ _ _ Hs u) as [->|[-> E]]; [done|]. simpl. rewrite E.
  replace (filter (fun d => to_receiver u d = true) (map snd ps)) with (@nil DeliveryRecord); [done|].
  symmetry. apply filter_none. rewrite Forall_map. apply Forall_forall. intros p Hp.
  rewrite ps_receiver by done. apply bool_decide_eq_false. intros Hr.
  assert (Hin : entry p ∈ sent_to u (entries L)).
  { apply list_elem_of_filter. split; [done|]. by apply ps_entry. }
  rewrite E in Hin. by apply elem_of_nil in Hin.
Qed.

Lemma count_small u : Z.of_nat (length (sent_to u (entries L))) <= Z.of_nat (length (entries L)).
Proof. apply inj_le, sent_to_le. Qed.

Lemma length_entries : length (entries L) = length ps.
Proof. by rewrite (ss_entries _ _ _ _ _ Hs), length_map. Qed.

Lemma new_entry_message req :
  D (req_toUserId req) ->
  valid_op (OpSave req) L ->
  message_of req (s_nextMsgId s) (u64 (cursor_of (map snd ps) (req_toUserId req) s + 1)) = new_entry req L.
Proof.
  intros Dt (_ & _ & _ & Hroom & _). pose proof (count_small (req_toUserId req)).
  rewrite cursor_count, u64_small by (done || lia). unfold message_of, new_entry.
  by rewrite (ss_next _ _ _ _ _ Hs), length_entries.
Qed.

Lemma not_taken req :
  Forall D (op_names (OpSave req)) ->
  find (same_request (req_fromUserId req) (req_clientMsgId req)) (entries L) = None ->
  ~ taken (map fst ps) (map snd ps) (new_entry req L).
Proof.
  intros (Df & Dt & Dc)%save_names Hf. unfold taken. rewrite !existsb_map, !existsb_exists.
  intros [(p & Hp & E)|(p & Hp & E)]; apply list_elem_of_In in Hp;
    destruct (ps_names p Hp) as (D1 & D2 & D3);
    destruct (ps_entry p Hp) as [Hin [E1 E2 _ _ _ _]]; simpl in E1, E2; rewrite length_entries in E1.
  - unfold message_clash in E. rewrite !exact in E by done. simpl in E. apply orb_true_iff in E as [E|E]; b2p.
    + rewrite length_entries in E. lia.
    + assert (Hr : same_request (req_fromUserId req) (req_clientMsgId req) (entry p) = true)
        by (by apply same_request_true).
      pose proof (List.find_none _ _ Hf _ (proj1 (list_elem_of_In _ _) Hin)). congruence.
  - unfold delivery_clash in E. rewrite !exact in E by done. simpl in E. apply orb_true_iff in E as [E|E]; b2p.
    + rewrite <- H1 in E2. lia.
    + rewrite length_entries, ps_id in H1 by done. lia.
Qed.

Lemma sql_save_shows req :
  Forall D (op_names (OpSave req)) ->
  valid_op (OpSave req) L ->
  exists db' ps' s', sql_answer (OpSave req) s = Ok ((log_step (OpSave req) L).1, s')
    /\ sql_shows h db' ps' s' (log_step (OpSave req) L).2.
Proof.
  intros Hnm Hv. destruct (save_names _ Hnm) as (Df & Dt & Dc).
  pose proof (duplicate_find req Hnm Hv) as Hd. pose proof (new_entry_message req Dt Hv) as Hn.
  destruct (save_spec h db _ _ s req (ss_stored _ _ _ _ _ Hs) (ss_ready _ _ _ _ _ Hs)
    (ss_counters _ _ _ _ _ Hs)) as (r & s' & db' & E & R & Cs & Q & K & Kc); [apply Hv|].
  specialize (Kc (ss_quiet _ _ _ _ _ Hs)). specialize (Q (ss_quiet _ _ _ _ _ Hs)).
  destruct Kc as (Hcache & Kc). rewrite Hd in Kc. rewrite Hn in *.
  unfold sql_answer. rewrite E. simpl.
  destruct (find _ (entries L)) as [m|] eqn:Ef; simpl.
  - destruct Kc as [-> [I1 I2]]. destruct K as [_ ->]. exists db, ps, s'. split; [done|].
    destruct Hs. by split; rewrite ?I1, ?I2, ?Hcache.
  - destruct Kc as (I1 & I2 & [->|[_ Ht]]); [|by apply not_taken in Ht].
    destruct K as (_ & -> & Hst & _). set (m := new_entry req L) in *.
    exists (add_delivery (delivery_record m) (add_message (message_record m) db)).
    exists (ps ++ [(message_record m, delivery_record m)]), s'. split; [done|].
    assert (Hlen : s_nextMsgId s + 1 < 2 ^ 64).
    { destruct Hv as (_ & _ & _ & Hroom & _). rewrite (ss_next _ _ _ _ _ Hs), <- length_entries. lia. }
    pose proof (count_small (req_toUserId req)) as Hcs.
    rewrite length_entries in Hcs. rewrite (ss_next _ _ _ _ _ Hs) in Hlen.
    destruct Hs as [S1 S2 S3 S4 S5 S6 S7 S8 S9 S10 S11]. split; simpl.
    + by rewrite !map_app.
    + done.
    + done.
    + done.
    + by rewrite S5, map_app.
    + apply Forall_app. split; [done|]. by constructor.
    + destruct S3 as [S3 _]. unfold uint64 in S3. rewrite I1, S7, u64_small, length_app by lia. simpl. lia.
    + intros u. rewrite I2, lookup_insert, sent_to_snoc. change (receiverId m) with (req_toUserId req).
      rewrite cursor_count, u64_small by (done || lia).
      destruct (decide (req_toUserId req = u)) as [<-|Hne].
      * left. f_equal. rewrite length_app. simpl. lia.
      * apply S8.
    + intros u. rewrite Hcache. apply S9.
    + intros u Hu. rewrite Hcache in Hu. apply Forall_app. split; [by apply S10|]. by constructor.
    + apply Forall_app. split; [done|]. by repeat constructor.
Qed.

(** ** Updates of a delivery *)
Definition update_pair (id : Z) (r : string) (st : DeliveryStatus) (n d a now : Z) (p : pair) : pair :=
  if by_receipt id r p.2 then (p.1, updated st n d a now p.2) else p.

Lemma update_pair_rows id r st n d a now :
  map fst (map (update_pair id r st n d a now) ps) = map fst ps
  /\ map snd (map (update_pair id r st n d a now) ps) = update_rows id r st n d a now (map snd ps).
Proof.
  unfold update_rows. rewrite !map_map. split; apply map_ext; intros p; unfold update_pair; by case_if.
Qed.

(** The entries after an update, when the message belongs to the receiver. *)
Lemma update_pair_entries id r st n d a now f p0 :
  p0 ∈ ps -> mr_messageId p0.1 = id -> dr_receiverUserId p0.2 = r ->
  entry (p0.1, updated st n d a now p0.2) = f (entry p0) ->
  map entry (map (update_pair id r st n d a now) ps) = entries (on_id id f L).
Proof.
  intros Hp Hid Hr Hf. simpl. rewrite (ss_entries _ _ _ _ _ Hs), !map_map. apply map_ext_in.
  assert (Dr : D r) by (rewrite <- Hr; by apply ps_names).
  intros p Hin. apply list_elem_of_In in Hin. unfold update_pair. rewrite ps_receipt, ps_id by done.
  simpl. destruct (Z.eqb_spec (mr_messageId p.1) id) as [E|E]; simpl; [|done].
  assert (p = p0) as -> by (apply (pairs_unique ps); [apply ps_sorted|done|done|congruence]).
  by rewrite bool_decide_eq_true_2.
Qed.

Lemma update_pair_ids id r st n d a now :
  Forall (fun p : pair => dr_messageId p.2 = mr_messageId p.1) (map (update_pair id r st n d a now) ps).
Proof.
  rewrite Forall_map. apply (Forall_impl _ _ _ (ss_ids _ _ _ _ _ Hs)). intros p Hp.
  unfold update_pair. by case_if.
Qed.

Lemma update_pair_names id r st n d a now :
  Forall (fun p : pair => D (mr_fromUserId p.1) /\ D (mr_clientMsgId p.1) /\ D (dr_receiverUserId p.2))
    (map (update_pair id r st n d a now) ps).
Proof.
  rewrite Forall_map. apply (Forall_impl _ _ _ (ss_names _ _ _ _ _ Hs)). intros p Hp.
  unfold update_pair. by case_if.
Qed.

(** A store over updated rows shows the updated log. *)
Lemma update_shows id r st n d a now f p0 db' s' acks :
  p0 ∈ ps -> mr_messageId p0.1 = id -> dr_receiverUserId p0.2 = r ->
  entry (p0.1, updated st n d a now p0.2) = f (entry p0) -> same_identity f ->
  stored (map fst ps) (update_rows id r st n d a now (map snd ps)) db' ->
  ready h db' s' -> quiet s' -> same_ids s s' ->
  (forall u, at_default u (m_lastAckedSeqCache s') = at_default u acks) ->
  (forall u, m_lastAckedSeqCache s' !! u = None ->
     m_lastAckedSeqCache s !! u = None /\ (u = r -> unacked (f (entry p0)) = true)) ->
  sql_shows h db' (map (update_pair id r st n d a now) ps) s' (mkLog (entries (on_id id f L)) acks).
Proof.
  intros Hp Hid Hr Hf Hi Hst R Q [I1 I2] Hl Hc.
  destruct (update_pair_rows id r st n d a now) as [E1 E2].
  split; simpl.
  - by rewrite E1, E2.
  - done.
  - split; rewrite ?I1, ?I2; apply (ss_counters _ _ _ _ _ Hs).
  - done.
  - symmetry. by apply (update_pair_entries id r st n d a now f p0).
  - apply update_pair_ids.
  - rewrite I1, length_map. apply (ss_next _ _ _ _ _ Hs).
  - intros u. rewrite I2. pose proof (touch_count L id f u Hi) as Et. simpl in Et. rewrite Et.
    destruct (ss_cursor _ _ _ _ _ Hs u) as [|[? Hn]]; [by left|right]. split; [done|].
    apply length_zero_iff_nil. rewrite Et, Hn. done.
  - done.
  - intros u Hu. destruct (Hc u Hu) as [Hu' Hr']. pose proof (ss_cache _ _ _ _ _ Hs u Hu') as F.
    rewrite Forall_map. rewrite Forall_forall in F |- *. intros m Hm. destruct (Hi m) as [_ Er].
    destruct (Z.eqb_spec (msgId m) id) as [E|E]; [|by apply F]. rewrite Er. intros <-.
    assert (m = entry p0) as ->.
    { apply (sorted_unique (entries L)); [apply HL|done|by apply ps_entry|]. simpl. congruence. }
    by apply Hr'.
  - apply update_pair_names.
Qed.

(** The pair that holds a message of the log. *)
Lemma held_pair r id (p : StoredMessage -> bool) :
  existsb (fun m => held r id m && p m) (entries L) = true ->
  exists q, q ∈ ps /\ mr_messageId q.1 = id /\ dr_receiverUserId q.2 = r /\ p (entry q) = true.
Proof.
  intros (m & Hm & Hid & Hr & Hp)%held_elem. rewrite (ss_entries _ _ _ _ _ Hs) in Hm.
  apply list_elem_of_fmap in Hm as (q & -> & Hq). by exists q.
Qed.

Lemma sql_mark_shows r id st at_ n :
  valid_op (OpMark r id st at_ n) L ->
  exists db' ps' s', sql_answer (OpMark r id st at_ n) s = Ok (AMark true, s')
    /\ sql_shows h db' ps' s' (on_id id (attempted st at_ n) L).
Proof.
  intros (Hh & Hst & Hid & Hat & Hn). apply held_pair in Hh as (q & Hq & Eid & Er & Hun).
  destruct (mark_spec h db _ _ s r id st at_ n (ss_stored _ _ _ _ _ Hs) (ss_ready _ _ _ _ _ Hs) Hid Hn Hat)
    as (e & s' & db' & E & C & Q & R & K). specialize (Q (ss_quiet _ _ _ _ _ Hs)).
  destruct e as [e|]; [destruct K as (_ & _ & K); by destruct (K (ss_quiet _ _ _ _ _ Hs))|].
  destruct K as (now & Hnow & ->). unfold sql_answer. rewrite E. simpl.
  eexists _, _, s'. split; [reflexivity|].
  apply (update_shows id r st n at_ 0 now (attempted st at_ n) q); try done.
  - unfold entry, to_stored, attempted. simpl. f_equal. symmetry.
    destruct (ps_entry q Hq) as [_ [_ _ _ _ Ha _]]. by apply Ha.
  - apply (stored_set_deliveries db _ (map snd ps)); [apply Hs|].
    apply update_rows_ok; [done|done|unfold int64; lia|done|apply Hs].
  - by rewrite C.
  - intros u. rewrite C. apply (ss_last _ _ _ _ _ Hs).
  - intros u Hu. rewrite C in Hu. split; [done|]. intros ->.
    rewrite !elem_of_cons, elem_of_nil in Hst. by destruct Hst as [->|[->|[->|[]]]].
Qed.

(** ** The last acknowledged number *)
Lemma max_acked_none r : D r -> m_lastAckedSeqCache s !! r = None -> max_acked r (map snd ps) = 0.
Proof.
  intros Dr Hc. unfold max_acked. rewrite filter_none; [done|]. rewrite Forall_map. apply Forall_forall.
  intros p Hp. unfold acknowledged. rewrite ps_receiver by done. apply andb_false_iff.
  destruct (decide (dr_receiverUserId p.2 = r)) as [Hr|Hr]; [right|left; by apply bool_decide_eq_false].
  pose proof (ss_cache _ _ _ _ _ Hs r Hc) as F. rewrite Forall_forall in F.
  specialize (F (entry p) (proj1 (ps_entry p Hp)) Hr). unfold unacked, entry, to_stored in F. simpl in F.
  by destruct (dr_status p.2).
Qed.

Lemma last_calm_shows r v s' :
  D r ->
  last_calm r (map snd ps) s v s' -> ready h db s' -> quiet s' -> same_ids s s' ->
  v = at_default r (acked_upto L) /\ sql_shows h db ps s' L.
Proof.
  intros Dr Hv R Q [I1 I2]. unfold last_calm in Hv. pose proof (ss_last _ _ _ _ _ Hs r) as El.
  unfold at_default in El at 1.
  destruct (m_lastAckedSeqCache s !! r) as [c|] eqn:Ec; destruct Hv as [-> Hv].
  - split; [by rewrite <- El|]. destruct Hs as [S1 S2 S3 S4 S5 S6 S7 S8 S9 S10 S11].
    split; rewrite ?I1, ?I2, ?Hv; try done. split; rewrite ?I1, ?I2; apply S3.
  - rewrite max_acked_none in * by done. split; [by rewrite <- El|].
    destruct Hs as [S1 S2 S3 S4 S5 S6 S7 S8 S9 S10 S11].
    split; rewrite ?I1, ?I2, ?Hv; try done.
    + split; rewrite ?I1, ?I2; apply S3.
    + intros u. rewrite at_default_insert. destruct (decide (r = u)) as [<-|]; [by rewrite <- El|apply S9].
    + intros u Hu. apply lookup_insert_None in Hu as [Hu _]. by apply S10.
Qed.

Lemma sql_last_shows r :
  D r ->
  exists s', sql_answer (OpLast r) s = Ok (ALast (at_default r (acked_upto L)), s') /\ sql_shows h db ps s' L.
Proof.
  intros Dr. destruct (last_spec h db _ _ s r (ss_stored _ _ _ _ _ Hs) (ss_ready _ _ _ _ _ Hs))
    as (v & s' & E & R & I & Q & K). specialize (Q (ss_quiet _ _ _ _ _ Hs)).
  unfold sql_answer. rewrite E. simpl. exists s'.
  destruct (last_calm_shows r v s') as [<- Hshow]; try done.
  unfold last_calm. destruct (m_lastAckedSeqCache s !! r); [done|].
  destruct K as [K|(_ & Hn & _)]; [done|]. by destruct (Hn (ss_quiet _ _ _ _ _ Hs)).
Qed.

(** ** markAcked *)
Lemma sql_ack_shows r id seq code at_ :
  D r ->
  valid_op (OpAck r id seq code at_) L ->
  exists db' ps' s', sql_answer (OpAck r id seq code at_) s
      = Ok ((log_step (OpAck r id seq code at_) L).1, s')
    /\ sql_shows h db' ps' s' (log_step (OpAck r id seq code at_) L).2.
Proof.
  intros Dr (Hid & Hseq & Hcode & Hat).
  destruct (ack_spec h db _ _ s r id seq code at_ (ss_stored _ _ _ _ _ Hs) (ss_ready _ _ _ _ _ Hs)
    Hid Hseq Hcode Hat) as (e & last & s' & db' & E & R & I & Q & K).
  specialize (Q (ss_quiet _ _ _ _ _ Hs)). unfold sql_answer. rewrite E. simpl.
  destruct e as [e|].
  - destruct K as (He & _ & K). destruct (K (ss_quiet _ _ _ _ _ Hs)) as (-> & Hl & Hno).
    destruct (last_calm_shows r last s' Dr Hl R Q I) as [-> Hshow].
    assert (Ex : existsb (fun m => held r id m && (seqOf m =? seq)) (entries L) = false).
    { apply not_true_is_false. intros (q & Hq & Eid & Er & Eq)%held_pair. b2p.
      assert (Hf : first (by_receipt id r) (map snd ps) = Some q.2)
        by (rewrite <- Eid; by apply find_receipt).
      pose proof (Hno _ Hf Eq) as Hn. rewrite existsb_map in Hn.
      assert (Ht : existsb (fun a : pair => by_id id a.1) ps = true).
      { apply existsb_exists. exists q. split; [by apply list_elem_of_In|]. unfold by_id. by apply Z.eqb_eq. }
      congruence. }
    rewrite Ex. by exists db, ps, s'.
  - destruct K as (d & Hf & Hq & (now & Hnow & ->) & -> & Hcache).
    destruct (receipt_pair id r d Dr Hf) as (p & Hp & <- & Eid & Er).
    assert (Ex : existsb (fun m => held r id m && (seqOf m =? seq)) (entries L) = true).
    { apply existsb_exists. exists (entry p). split; [by apply list_elem_of_In, ps_entry|].
      unfold held. simpl. rewrite (proj2 (Z.eqb_eq _ _) Eid), (proj2 (Z.eqb_eq _ _) Hq).
      by rewrite bool_decide_eq_true_2. }
    rewrite Ex. simpl. rewrite <- (ss_last _ _ _ _ _ Hs). eexists _, _, s'. split; [reflexivity|].
    pose proof (ss_stored _ _ _ _ _ Hs) as Hst.
    assert (Hd : delivery_ok p.2).
    { pose proof (st_ds _ _ _ Hst) as F. rewrite Forall_map, Forall_forall in F. by apply F. }
    apply (update_shows id r (ack_status code) (dr_retryCount p.2) (dr_deliveredAtMs p.2) at_ now
             (acked code at_) p); try done.
    + apply stored_add_ack, (stored_set_deliveries db _ (map snd ps)); [done|].
      destruct Hd. apply update_rows_ok; try done. apply Hst.
    + intros u. rewrite Hcache, !at_default_insert. case_decide; [done|]. apply (ss_last _ _ _ _ _ Hs).
    + intros u Hu. rewrite Hcache in Hu. apply lookup_insert_None in Hu as [Hu Hne]. by split.
Qed.

(** ** loadPendingMessages *)
Lemma waiting_entry r after p :
  D r -> p ∈ ps -> waiting r after p.2 = true <->
    receiverId (entry p) = r /\ after < seqOf (entry p) /\ awaits (entry p) = true.
Proof.
  intros Dr Hp. destruct (ps_entry p Hp) as [_ [_ _ _ _ _ Hst]]. simpl in Hst.
  unfold waiting. rewrite ps_receiver, !andb_true_iff, bool_decide_eq_true, Z.ltb_lt by done.
  unfold awaits, entry, to_stored. simpl. destruct (dr_status p.2); simpl; tauto.
Qed.

Lemma insert_sorted_head (d : DeliveryRecord) l :
  Forall (fun x => dr_serverSeq d < dr_serverSeq x) l -> insert_on dr_serverSeq d l = d :: l.
Proof. destruct 1 as [|x l Hx _]; simpl; [done|]. by rewrite (proj2 (Z.leb_le _ _)) by lia. Qed.

Lemma sort_on_sorted (qs : list pair) :
  StronglySorted older (map entry qs) ->
  Forall (fun p => Forall (fun q => receiverId (entry q) = receiverId (entry p)) qs) qs ->
  sort_on dr_serverSeq (map snd qs) = map snd qs.
Proof.
  induction qs as [|p qs IH]; simpl; intros Hsort Hr; [done|]. inversion Hsort as [|? ? Hs' Hp]; subst.
  inversion Hr as [|? ? Hr1 Hr2]; subst.
  rewrite IH; [|done|apply (Forall_impl _ _ _ Hr2); intros x Hx; by inversion Hx].
  apply insert_sorted_head. rewrite Forall_map in Hp |- *. apply Forall_forall. intros q Hq.
  rewrite Forall_forall in Hp. destruct (Hp q Hq) as [_ Hlt]. apply Hlt.
  inversion Hr1 as [|? ? _ Hr3]; subst. rewrite Forall_forall in Hr3. symmetry. by apply Hr3.
Qed.

Lemma filter_map' {A B} (g : A -> B) (P : B -> Prop) `{forall b, Decision (P b)} (xs : list A) :
  filter P (map g xs) = map g (filter (fun a => P (g a)) xs).
Proof.
  induction xs as [|x xs IH]; simpl; [done|]. rewrite !filter_cons. case_decide; simpl; by rewrite IH.
Qed.

Lemma StronglySorted_filter_map (P : pair -> Prop) `{forall p, Decision (P p)} (qs : list pair) :
  StronglySorted older (map entry qs) -> StronglySorted older (map entry (filter P qs)).
Proof.
  induction qs as [|p qs IH]; simpl; intros Hsort; [done|]. inversion Hsort as [|? ? Hs' Hp]; subst.
  rewrite filter_cons. case_decide; simpl; [|by apply IH]. constructor; [by apply IH|].
  rewrite Forall_map in Hp |- *. by apply Forall_filter.
Qed.

Lemma joined_pairs (qs : list pair) :
  Forall (fun p => p ∈ ps) qs -> omap (joined (map fst ps)) (map snd qs) = map entry qs.
Proof.
  induction 1 as [|p qs Hp _ IH]; [done|].
  change (map snd (p :: qs)) with (p.2 :: map snd qs).
  change (omap (joined (map fst ps)) (p.2 :: map snd qs))
    with (match joined (map fst ps) p.2 with Some y => y :: omap (joined (map fst ps)) (map snd qs)
          | None => omap (joined (map fst ps)) (map snd qs) end).
  unfold joined at 1. rewrite (ps_id p Hp), (find_message p Hp). simpl. by rewrite IH.
Qed.

Definition due (r : string) (after : Z) : list pair := filter (fun p : pair => waiting r after p.2 = true) ps.

Lemma due_pending r after limit :
  D r ->
  pending_list (map snd ps) r after limit = map snd (take (Z.to_nat limit) (due r after)).
Proof.
  intros Dr. unfold pending_list, due. rewrite filter_map', sort_on_sorted.
  - by rewrite firstn_map.
  - apply StronglySorted_filter_map, ps_sorted.
  - assert (R : Forall (fun p => receiverId (entry p) = r)
                  (filter (fun p : pair => waiting r after p.2 = true) ps)).
    { apply Forall_forall. intros p [Hw Hp]%list_elem_of_filter. by apply (waiting_entry r after p Dr Hp) in Hw as [? _]. }
    apply (Forall_impl _ _ _ R). intros p Hp. apply (Forall_impl _ _ _ R). congruence.
Qed.

Lemma due_deliver r after : D r -> to_deliver r after L = map entry (due r after).
Proof.
  intros Dr. unfold to_deliver, due, sent_to. rewrite (ss_entries _ _ _ _ _ Hs), !filter_map', list_filter_filter. f_equal.
  apply filter_ext_elem. intros p Hp. rewrite (waiting_entry r after p Dr Hp). tauto.
Qed.

Lemma deliver_sorted r after : StronglySorted by_seq (to_deliver r after L).
Proof.
  unfold to_deliver, sent_to. pose proof (lo_sorted _ HL) as Hsort.
  induction Hsort as [|m l Hl IH Hm]; [constructor|].
  rewrite filter_cons. case_decide as Hr; [|done]. rewrite filter_cons. case_decide; [|done].
  constructor; [done|]. apply Forall_forall. intros n [_ [Hnr Hn]%list_elem_of_filter]%list_elem_of_filter.
  rewrite Forall_forall in Hm. destruct (Hm n Hn) as [_ Hlt]. apply Hlt. congruence.
Qed.

Lemma last_seq_foldl next l : last_seq next l = foldl Z.max next (map (fun m => seqOf m) l).
Proof. revert next; induction l as [|m l IH]; intros next; simpl; [done|]. apply IH. Qed.

Lemma sql_load_shows r after limit :
  D r ->
  valid_op (OpLoad r after limit) L ->
  exists s', sql_answer (OpLoad r after limit) s = Ok ((log_step (OpLoad r after limit) L).1, s')
    /\ sql_shows h db ps s' L.
Proof.
  intros Dr [Ha Hl].
  destruct (load_spec h db _ _ s r after limit (ss_stored _ _ _ _ _ Hs) (ss_ready _ _ _ _ _ Hs) Ha)
    as (x & s' & E & C & Q & R & K); [unfold uint64; lia|].
  specialize (Q (ss_quiet _ _ _ _ _ Hs)). unfold sql_answer. rewrite E. simpl. exists s'.
  assert (Hshow : sql_shows h db ps s' L).
  { rewrite C. destruct Hs. split; try done; by rewrite <- C. }
  split; [|exact Hshow].
  destruct K as [->|(e & _ & Hn & _)]; [|by destruct (Hn (ss_quiet _ _ _ _ _ Hs))].
  unfold load_answer. rewrite due_pending, joined_pairs; [| |done].
  2: { apply Forall_take, Forall_forall. by intros p [_ Hp]%list_elem_of_filter. }
  rewrite <- firstn_map, <- due_deliver by done. cbn [fst snd]. rewrite bool_decide_eq_true_2 by done.
  set (l := take (Z.to_nat limit) (to_deliver r after L)). f_equal. f_equal. f_equal.
  assert (Fl : Forall (fun m => m ∈ entries L /\ after < seqOf m) l).
  { apply Forall_take, Forall_forall.
    intros m [[Hm _] [_ Hin]%list_elem_of_filter]%list_elem_of_filter. done. }
  rewrite last_seq_foldl, foldl_max_sorted.
  - destruct l as [|m l'] eqn:El; [done|]. destruct (list.last (m :: l')) as [x|] eqn:Ex.
    + apply u64_small. rewrite Forall_forall in Fl. destruct (Fl x (last_Some_elem_of _ _ Ex)) as [Hx _].
      pose proof (lo_entry _ HL) as F. rewrite Forall_forall in F. destruct (F x Hx) as [_ E2 _ _ _ _].
      pose proof (count_small (receiverId x)). pose proof (lo_len _ HL). lia.
    + apply last_None in Ex. done.
  - apply StronglySorted_take, deliver_sorted.
  - apply (Forall_impl _ _ _ Fl). by intros m [_ ?].
Qed.

(** The MySQL store answers as the log does. *)
Lemma sql_refines op :
  Forall D (op_names op) -> valid_op op L ->
  exists db' ps' s', sql_answer op s = Ok ((log_step op L).1, s') /\ sql_shows h db' ps' s' (log_step op L).2.
Proof.
  intros Dn Hv. destruct op as [req|r id st at_ n|r id seq code at_|r after limit|r].
  - by apply sql_save_shows.
  - by apply sql_mark_shows.
  - apply sql_ack_shows; [|done]. by apply (Forall_singleton D r).
  - exists db, ps. apply sql_load_shows; [|done]. by apply (Forall_singleton D r).
  - exists db, ps. apply sql_last_shows. by apply (Forall_singleton D r).
Qed.

End Step.

Lemma sql_run_refines h ops : forall db ps s L,
  Forall D (mjoin (map op_names ops)) -> sql_shows h db ps s L -> log_ok L -> valid_run ops L -> sql_answers ops s = Ok (log_run ops L).1.
Proof.
  induction ops as [|op ops IH]; intros db ps s L Dn Hs HL Hv; [done|]. destruct Hv as [Hv Hvs].
  apply Forall_app in Dn as [Dn1 Dn2].
  destruct (sql_refines h db ps s L Hs HL op Dn1 Hv) as (db' & ps' & s' & E & Hs').
  pose proof (log_step_ok op L HL Hv) as HL'. simpl. rewrite E. simpl.
  destruct (log_step op L) as [a L']. simpl in *. rewrite (IH db' ps' s' L') by done. simpl.
  by destruct (log_run ops L').
Qed.

(** A store over empty tables. *)
Lemma fresh_shows h db s :
  stored [] [] db -> ready h db s -> quiet s -> s_nextMsgId s = 1 -> s_nextServerSeqByUser s = ∅ ->
  m_lastAckedSeqCache s = ∅ -> sql_shows h db [] s emptyLog.
Proof.
  intros Hst R Q Hn Hc Hl. split; try done.
  - split; rewrite ?Hn, ?Hc; [unfold uint64; lia|apply map_Forall_empty].
  - intros u. right. by rewrite Hc, lookup_empty.
  - intros u. by rewrite Hl.
Qed.

End Refines.

End mysql_refines.
