(* ===== verification/MySqlTheorems.v ===== *)
(** * MySqlTheorems: what the MySQL storage layer guarantees

    The statements that reach the server, the consistency of the tables under
    failures, the equivalence with the in-memory store, numbering across a
    restart, and runs on a concrete server that show where the store loses
    track of its tables. *)
From Stdlib Require Import Sorting.Sorted.
From S2P Require Import Prelude Util Text Protocol MessageStore StoreSpec Auth Sql Tables MySql MySqlStore MySqlSpec MySqlRepos MySqlAtomic MySqlRefines.
Import text protocol storage log sql tables mysql mysql_store mysql_spec repos mysql_atomic mysql_refines.

Module mysql_theorems.

(** ** Statements *)

(** C12: No injection: with an escape function that is sound for quoted strings,
    the text of every statement the three repositories build arrives at the
    server whole and is read as the intended statement with exactly the given
    values, whatever bytes (quotes, backslashes, NUL, SQL) they contain. *)
Theorem statements_carry_values escape q :
  sound_escape escape -> fits q ->
  parse (c_str (render escape (sql_of q))) = Some (meaning q).
Proof. apply request_text. Qed.

Definition nasty : MessageRecord :=
  mkMessageRecord 7 "x'); DROP TABLE im_message; --" "o'brien\" "bob" "o'brien\:bob" 0
    (String "000" "a\0'") "text" DeliveryPersisted (-5) 1000.

Lemma statements_carry_values_witness :
  parse (c_str (render escape_documented (createMessage_sql nasty)))
  = Some (Insert "im_message" (message_row nasty).*1 (message_row nasty).*2 []).
Proof.
  apply (statements_carry_values escape_documented (QCreateMessage nasty)).
  - apply escape_documented_sound.
  - unfold fits. simpl. repeat constructor.
Defined.

(** ** Consistency under failures *)
Section Faults.
Context {W : Type} `{MySqlServer W}.

(** Each message has exactly one delivery, to its receiver, and no number is
    used twice. *)
Record paired (ms : list MessageRecord) (ds : list DeliveryRecord) : Prop := {
  pr_rows : Forall2 (fun m d => dr_messageId d = mr_messageId m /\ dr_receiverUserId d = mr_toUserId m) ms ds;
  pr_ids : NoDup (map mr_messageId ms);
  pr_seqs : NoDup (map (fun d => (dr_receiverUserId d, dr_serverSeq d)) ds);
}.

(** The arguments have the widths of their C++ types. *)
Definition in_range (op : mem_op) : Prop :=
  match op with
  | OpSave req => time64 (req_timestamp req)
  | OpMark r id st at_ n => fits64 id /\ time64 at_ /\ 0 <= n < 2 ^ 32
  | OpAck r id seq code at_ => fits64 id /\ fits64 seq /\ 0 <= code < 2 ^ 32 /\ time64 at_
  | OpLoad r after limit => fits64 after /\ fits64 limit
  | OpLast r => True
  end.

Fixpoint sql_run (ops : list mem_op) (s : MySqlMessageStore W) : res (list answer * MySqlMessageStore W) :=
  match ops with
  | [] => Ok ([], s)
  | op :: ops' =>
    '(a, s1) <- sql_answer op s;; '(l, s2) <- sql_run ops' s1;; Ok (a :: l, s2)
  end.

Lemma paired_added ms ds db m db' :
  paired ms ds -> n_toUserId (notify m) = receiverId m -> added ms ds db m db' ->
  paired (ms ++ [message_record m]) (ds ++ [delivery_record m]).
Proof.
  intros [P1 P2 P3] Hto (_ & _ & C1 & C2). split.
  - apply Forall2_app; [done|]. by repeat constructor.
  - rewrite map_app. apply NoDup_app. split; [done|]. split; [|apply NoDup_singleton].
    intros x (m' & -> & Hm')%list_elem_of_fmap Hx%list_elem_of_singleton.
    apply not_false_iff_true in C1; [done|]. apply existsb_exists. exists m'.
    split; [by apply list_elem_of_In|]. unfold message_clash. by rewrite Hx, Z.eqb_refl.
  - rewrite map_app. apply NoDup_app. split; [done|]. split; [|apply NoDup_singleton].
    intros x (d & -> & Hd)%list_elem_of_fmap Hx%list_elem_of_singleton. injection Hx as Hx1 Hx2.
    apply not_false_iff_true in C2; [done|]. apply existsb_exists. exists d.
    split; [by apply list_elem_of_In|]. unfold delivery_clash. rewrite Hx1, Hx2. simpl.
    by rewrite server_collation, Z.eqb_refl.
Qed.

Lemma paired_update ms ds id r st n d a now :
  paired ms ds -> paired ms (update_rows id r st n d a now ds).
Proof.
  intros [P1 P2 P3]. split; [|done|].
  - unfold update_rows. rewrite Forall2_fmap_r. apply (Forall2_impl _ _ _ _ P1). intros m x Hx. simpl. by case_if.
  - unfold update_rows. rewrite map_map.
    rewrite (map_ext _ (fun d => (dr_receiverUserId d, dr_serverSeq d))); [done|]. intros x. by case_if.
Qed.

(** The tables after an operation: rows are only added in pairs. *)
Definition tables_grow (ms : list MessageRecord) (a : answer) (ms' : list MessageRecord) : Prop :=
  (exists k, ms' = ms ++ k)
  /\ forall m, a = ASave (Some (m, false)) -> message_record m ∈ ms'.

Lemma step_paired h op db ms ds s :
  stored ms ds db -> ready h db s -> counters_ok s -> paired ms ds -> in_range op ->
  exists a s' db' ms' ds', sql_answer op s = Ok (a, s') /\ ready h db' s' /\ counters_ok s'
    /\ stored ms' ds' db' /\ paired ms' ds' /\ tables_grow ms a ms'.
Proof.
  intros Hdb Hs Hc Hp Hr.
  assert (Same : exists k, ms = ms ++ k) by (exists []; by rewrite app_nil_r).
  destruct op as [req|r id st at_ n|r id seq code at_|r after limit|r]; unfold sql_answer.
  - destruct (save_spec h db ms ds s req Hdb Hs Hc Hr) as (x & s' & db' & E & R & Cs & _ & K & _).
    rewrite E. simpl. exists (ASave (match x with inr y => Some y | inl _ => None end)), s', db'.
    assert (G : forall m, m = message_of req (s_nextMsgId s) (u64 (cursor_of ds (req_toUserId req) s + 1)) ->
      added ms ds db m db' -> stored (ms ++ [message_record m]) (ds ++ [delivery_record m]) db'
        /\ paired (ms ++ [message_record m]) (ds ++ [delivery_record m])).
    { intros m Hm Ha. split; [apply Ha|]. eapply paired_added; [done| |exact Ha]. by rewrite Hm. }
    destruct x as [e|[m []]]; simpl in K.
    + destruct K as [_ [->|Ha]].
      * exists ms, ds. split; [reflexivity|]. splits; try done.
      * destruct (G _ eq_refl Ha) as [? ?]. eexists _, _. split; [reflexivity|]. splits; try done.
        split; [by eexists|done].
    + destruct K as [_ ->]. exists ms, ds. split; [reflexivity|]. splits; try done.
    + destruct K as [Hm Ha]. destruct (G _ Hm Ha) as [? ?]. eexists _, _. split; [reflexivity|]. splits; try done.
      split; [by eexists|]. intros m' [= <-]. apply elem_of_app. right. by left.
  - destruct Hr as (Hi & Ha & Hn).
    destruct (mark_spec h db ms ds s r id st at_ n Hdb Hs Hi Hn Ha) as (e & s' & db' & E & C & _ & R & K).
    rewrite E. simpl. pose proof (same_counters_ok _ _ C Hc). destruct e as [e|].
    + destruct K as (_ & -> & _). exists (AMark false), s', db, ms, ds. by splits.
    + destruct K as (now & Hnow & ->). eexists _, s', _, ms, (update_rows id r st n at_ 0 now ds).
      split; [reflexivity|]. splits; try done; [|by apply paired_update].
      apply (stored_set_deliveries db ms ds); [done|].
      apply update_rows_ok; [done|done|unfold int64; lia|done|apply Hdb].
  - destruct Hr as (Hi & Hq & Hcd & Ha).
    destruct (ack_spec h db ms ds s r id seq code at_ Hdb Hs Hi Hq Hcd Ha)
      as (e & last & s' & db' & E & R & [I1 I2] & _ & K). rewrite E. simpl.
    assert (Hc' : counters_ok s') by (destruct Hc; split; by rewrite ?I1, ?I2).
    assert (G : forall d, first (by_receipt id r) ds = Some d -> acked_tables id r seq code at_ d ds db db' ->
      exists ds', stored ms ds' db' /\ paired ms ds').
    { intros d Hd Ht. apply first_elem in Hd as [Hd _]. pose proof (st_ds _ _ _ Hdb) as F.
      rewrite Forall_forall in F. destruct (acked_tables_stored _ _ _ _ _ _ _ _ _ _ Hdb (F d Hd) Ha Ht) as (now & _ & St).
      eexists. split; [exact St|]. by apply paired_update. }
    exists (AAck (bool_decide (e = None)) last), s', db', ms. destruct e as [e|]; simpl in K.
    + destruct K as (_ & [->|(d & Hd & _ & Ht)] & _).
      * exists ds. split; [reflexivity|]. by splits.
      * destruct (G d Hd Ht) as (ds' & ? & ?). exists ds'. split; [reflexivity|]. by splits.
    + destruct K as (d & Hd & _ & Ht & _). destruct (G d Hd Ht) as (ds' & ? & ?).
      exists ds'. split; [reflexivity|]. by splits.
  - destruct Hr as [Ha Hl]. destruct (load_spec h db ms ds s r after limit Hdb Hs Ha Hl)
      as (x & s' & E & C & _ & R & _). rewrite E. simpl. eexists _, s', db, ms, ds. split; [reflexivity|].
    pose proof (same_counters_ok _ _ C Hc). by splits.
  - destruct (last_spec h db ms ds s r Hdb Hs) as (v & s' & E & R & [I1 I2] & _). rewrite E. simpl.
    eexists _, s', db, ms, ds. split; [reflexivity|]. splits; try done.
    destruct Hc. split; by rewrite ?I1, ?I2.
Qed.

(** C11: All or nothing: over any sequence of operations of the MySQL store and
    whatever statements the server refuses, aborts or loses (a commit may even
    happen although it was reported as failed), no operation throws, no
    transaction stays open, every message in the tables has exactly one delivery
    row to its receiver, no message identifier and no sequence number of a
    receiver is used twice, no message is removed, and a message that was
    reported as saved is in the tables. *)
Theorem tables_paired_under_faults h ops db ms ds s :
  stored ms ds db -> ready h db s -> counters_ok s -> paired ms ds -> Forall in_range ops ->
  exists answers s' db' ms' ds', sql_run ops s = Ok (answers, s') /\ ready h db' s'
    /\ stored ms' ds' db' /\ paired ms' ds' /\ (exists k, ms' = ms ++ k)
    /\ forall m, ASave (Some (m, false)) ∈ answers -> message_record m ∈ ms'.
Proof.
  intros Hdb Hs Hc Hp Hr. revert db ms ds s Hdb Hs Hc Hp.
  induction Hr as [|op ops Hop Hr IH]; intros db ms ds s Hdb Hs Hc Hp; simpl.
  { exists [], s, db, ms, ds. splits; try done; [exists []; by rewrite app_nil_r|].
    intros m Hm. by apply elem_of_nil in Hm. }
  destruct (step_paired h op db ms ds s Hdb Hs Hc Hp Hop)
    as (a & s1 & db1 & ms1 & ds1 & E & R1 & C1 & D1 & P1 & [k1 ->] & G1). rewrite E. simpl.
  destruct (IH db1 _ ds1 s1 D1 R1 C1 P1) as (l & s2 & db2 & ms2 & ds2 & E2 & R2 & D2 & P2 & [k2 ->] & G2).
  rewrite E2. simpl. eexists _, s2, db2, _, ds2. split; [reflexivity|]. splits; try done.
  - exists (k1 ++ k2). by rewrite app_assoc.
  - intros m [Ha|Ha]%elem_of_cons; [|by apply G2]. apply elem_of_app. left. by apply G1.
Qed.

(** ** Messages without a client identifier *)

(** The schema makes the pair of sender and client identifier unique and
    stores a missing identifier as the empty string: once a user has stored one
    message without an identifier, every further one is refused, whatever its
    receiver and content, on every server. *)
Lemma second_anonymous_message_refused h db ms ds s req m0 :
  stored ms ds db -> ready h db s -> counters_ok s -> time64 (req_timestamp req) ->
  req_clientMsgId req = "" -> m0 ∈ ms -> mr_clientMsgId m0 = "" -> mr_fromUserId m0 = req_fromUserId req ->
  exists e s', sql_saveMessageAndDelivery req s = Ok (inl e, s') /\ e <> "" /\ ready h db s'.
Proof.
  intros Hdb Hs Hc Ht Hcid Hm0 Hc0 Hf0.
  destruct (save_spec h db ms ds s req Hdb Hs Hc Ht) as (r & s' & db' & E & R & _ & _ & K & _).
  assert (Hclash : forall id seq, existsb (message_clash (message_record (message_of req id seq))) ms = true).
  { intros id seq. apply existsb_exists. exists m0. split; [by apply list_elem_of_In|].
    unfold message_clash. simpl. rewrite Hcid, Hc0, Hf0, !server_collation. by rewrite orb_true_r. }
  assert (Hno : forall id seq db2, ~ added ms ds db (message_of req id seq) db2).
  { intros id seq db2 (_ & _ & C1 & _). by rewrite Hclash in C1. }
  destruct r as [e|[m []]]; simpl in K.
  - destruct K as [He [->|Ha]]; [|by apply Hno in Ha]. by exists e, s'.
  - destruct K as [K _]. unfold duplicate_of in K. by rewrite Hcid in K.
  - destruct K as [-> Ha]. by apply Hno in Ha.
Qed.

(** ** Numbering across a restart *)
Lemma max_of_ge {A} (f : A -> Z) xs a : a ∈ xs -> f a <= max_of f xs.
Proof.
  induction xs as [|x xs IH]; intros Ha; [by apply elem_of_nil in Ha|].
  simpl. apply elem_of_cons in Ha as [->|Ha]; [lia|]. specialize (IH Ha). lia.
Qed.

Lemma load_max h db ms ds s :
  stored ms ds db -> ready h db s -> quiet s ->
  exists s', loadMaxMessageId s = Ok (None, s') /\ ready h db s' /\ quiet s'
    /\ s_nextMsgId s' = u64 (max_of mr_messageId ms + 1)
    /\ s_nextServerSeqByUser s' = s_nextServerSeqByUser s.
Proof.
  intros Hdb Hs Hq.
  destruct (repository_answers h db s _ _ _ Hs (max_message_answers h db ms ds Hdb))
    as (x & s1 & E & C & Q & R & K). unfold loadMaxMessageId, mbind. rewrite E. simpl.
  destruct K as [->|(e & _ & Hn & _)]; [|by apply Hn in Hq]. simpl.
  eexists. split; [reflexivity|]. splits; try done.
  - by apply Q.
  - simpl. rewrite C. done.
Qed.

(** Numbers above all stored ones are free. *)
Lemma above_not_taken ms ds req id seq :
  paired ms ds -> Forall (fun m => mr_messageId m < id) ms ->
  Forall (fun d => to_receiver (req_toUserId req) d = true -> dr_serverSeq d < seq) ds ->
  Forall (fun m => by_sender (req_fromUserId req) (req_clientMsgId req) m = false) ms ->
  ~ taken ms ds (message_of req id seq).
Proof.
  intros Hp Gid Gseq Hnew Htk.
  rewrite Forall_forall in Gid. rewrite Forall_forall in Gseq. rewrite Forall_forall in Hnew.
  unfold taken in Htk. rewrite !existsb_exists in Htk.
  destruct Htk as [(m & Hm%list_elem_of_In & Hcl)|(d & Hd%list_elem_of_In & Hcl)].
  - unfold message_clash in Hcl. simpl in Hcl. apply Gid in Hm as Hlt.
    apply orb_true_iff in Hcl as [Hcl|Hcl]; [b2p; lia|].
    rewrite server_collation_sym, (server_collation_sym (req_clientMsgId req)) in Hcl.
    apply Hnew in Hm. unfold by_sender in Hm. congruence.
  - unfold delivery_clash in Hcl. simpl in Hcl.
    apply orb_true_iff in Hcl as [Hcl|Hcl]; b2p.
    + assert (Hr : to_receiver (req_toUserId req) d = true)
        by (unfold to_receiver; by rewrite server_collation_sym).
      pose proof (Gseq d Hd Hr). lia.
    + apply list_elem_of_lookup in Hd as [i Hi].
      destruct (Forall2_lookup_r _ _ _ _ _ (pr_rows _ _ Hp) Hi) as (m & Hm & Hid & _).
      apply list_elem_of_lookup_2, Gid in Hm. lia.
Qed.

Lemma unsent_no_duplicate ms ds req :
  Forall (fun m => by_sender (req_fromUserId req) (req_clientMsgId req) m = false) ms ->
  duplicate_of req ms ds = None.
Proof.
  intros Hnew. unfold duplicate_of. case_bool_decide; [done|]. rewrite first_find.
  destruct (find _ ms) as [m|] eqn:Ef; [|done]. apply find_some in Ef as [Hm Hb].
  apply list_elem_of_In in Hm. rewrite Forall_forall in Hnew. rewrite (Hnew m Hm) in Hb. done.
Qed.

(** C40: After a restart over existing tables, with the cursors empty and no
    fault, a new message gets an identifier above all stored ones and a sequence
    number above all of its receiver, so numbering goes on where it stopped. *)
Theorem restart_resumes_numbering h db ms ds s req :
  stored ms ds db -> paired ms ds -> ready h db s -> quiet s -> s_nextServerSeqByUser s = ∅ ->
  Forall (fun m => mr_messageId m < 2 ^ 64 - 1) ms -> Forall (fun d => dr_serverSeq d < 2 ^ 64 - 1) ds ->
  time64 (req_timestamp req) ->
  Forall (fun m => by_sender (req_fromUserId req) (req_clientMsgId req) m = false) ms ->
  exists s1 s2 m, loadMaxMessageId s = Ok (None, s1)
    /\ sql_saveMessageAndDelivery req s1 = Ok (inr (m, false), s2)
    /\ Forall (fun m' => mr_messageId m' < msgId m) ms
    /\ Forall (fun d => to_receiver (req_toUserId req) d = true -> dr_serverSeq d < seqOf m) ds.
Proof.
  intros Hdb Hp Hs Hq Hcur Hids Hseqs Ht Hnew. set (u := req_toUserId req).
  destruct (load_max h db ms ds s Hdb Hs Hq) as (s1 & E1 & R1 & Q1 & N1 & U1).
  assert (B1 : 0 <= max_of mr_messageId ms <= 2 ^ 64 - 2).
  { apply max_of_bound; [lia|]. apply (Forall_impl _ _ _ Hids). intros; lia. }
  set (top := max_of dr_serverSeq (filter (fun d => to_receiver u d = true) ds)).
  assert (B2 : 0 <= top <= 2 ^ 64 - 2).
  { apply max_of_bound; [lia|]. apply Forall_filter, (Forall_impl _ _ _ Hseqs). intros; lia. }
  assert (Hc1 : counters_ok s1).
  { split; [rewrite N1; apply u64_range|]. rewrite U1, Hcur. apply map_Forall_empty. }
  assert (Ecur : cursor_of ds u s1 = top) by (unfold cursor_of; by rewrite U1, Hcur).
  destruct (save_spec h db ms ds s1 req Hdb R1 Hc1 Ht) as (r & s2 & db' & E2 & _ & _ & _ & _ & K).
  destruct (K Q1) as (_ & K2). rewrite (unsent_no_duplicate ms ds req Hnew) in K2.
  destruct K2 as (_ & _ & K2). fold u in K2. rewrite Ecur, N1, !u64_small in K2 by lia.
  assert (Gid : Forall (fun m' => mr_messageId m' < max_of mr_messageId ms + 1) ms).
  { apply Forall_forall. intros m Hm. pose proof (max_of_ge mr_messageId ms m Hm). lia. }
  assert (Gseq : Forall (fun d => to_receiver u d = true -> dr_serverSeq d < top + 1) ds).
  { apply Forall_forall. intros d Hd Hr. apply Z.lt_succ_r, (max_of_ge dr_serverSeq).
    by apply list_elem_of_filter. }
  destruct K2 as [->|[_ Htk]].
  - eexists s1, s2, _. split; [done|]. split; [done|]. by split.
  - exfalso. by apply (above_not_taken ms ds req _ _ Hp Gid Gseq Hnew) in Htk.
Qed.

(** ** Equivalence with the in-memory store *)

(** C10: On a server without faults whose collation tells the names in the
    operations apart (users and client identifiers that differ are not equal
    under it, as utf8mb4_unicode_ci makes "bob" and "Bob"), the
    MySQL store over empty tables and the in-memory store give the same answers,
    for every sequence of operations that is valid when its turn comes: saves
    with a client identifier and a sender name without '#' that repeat a request
    only to the same receiver, attempts on messages not yet acknowledged, pulls
    of at least one message, any acknowledgements. *)
Theorem stores_agree h ops db s :
  (forall a b, a ∈ mjoin (map op_names ops) -> b ∈ mjoin (map op_names ops) ->
     collation a b = bool_decide (a = b)) ->
  stored [] [] db -> ready h db s -> quiet s ->
  s_nextMsgId s = 1 -> s_nextServerSeqByUser s = ∅ -> m_lastAckedSeqCache s = ∅ ->
  valid_run ops emptyLog ->
  sql_answers ops s = Ok (mem_answers ops newMem).
Proof.
  intros Hx Hdb Hs Hq Hn Hc Hl Hv.
  rewrite (mem_run_refines ops newMem emptyLog newMem_shows emptyLog_ok Hv).
  eapply (sql_run_refines (fun a => a ∈ mjoin (map op_names ops)) Hx h);
    [by apply Forall_forall|by apply fresh_shows|apply emptyLog_ok|done].
Qed.

End Faults.

(** ** Runs on the concrete server *)
Import toy.

(** A store as [init] leaves it, over the tables [db]. *)
Definition opened (db : DB) (faults : list bool) (next : Z) : MySqlMessageStore Server :=
  mkStore defaultOptions (mkConn (mkClient (Some 1) "") (start db faults)) true next ∅ ∅.

Definition outcome {A} (r : res (A * MySqlMessageStore Server)) : option A :=
  match r with Ok (a, _) => Some a | Err _ => None end.
Definition after {A} (m : M A) (s : MySqlMessageStore Server) : MySqlMessageStore Server :=
  match m s with Ok (_, s') => s' | Err _ => s end.
Definition tables_of (s : MySqlMessageStore Server) : DB := working (state (world (conn s))).

Lemma init_opens :
  outcome (init (newStore defaultOptions (start emptyDB []))) = Some None
  /\ tables_of (after init (newStore defaultOptions (start emptyDB []))) = emptyDB
  /\ s_nextMsgId (after init (newStore defaultOptions (start emptyDB []))) = 1.
Proof. by vm_compute. Qed.

Lemma opened_ready db faults next : ready 1 db (opened db faults next).
Proof. done. Qed.

Lemma empty_stored : stored [] [] emptyDB.
Proof. by split. Qed.

Lemma empty_paired : paired [] [].
Proof. split; constructor. Qed.

Definition sample_ops : list mem_op :=
  [OpSave (mkCreateMessageRequest "o'brien" "bob" "c1" "it's \ here" 500);
   OpSave (mkCreateMessageRequest "alice" "bob" "c1" "two" 501);
   OpSave (mkCreateMessageRequest "o'brien" "bob" "c1" "again" 502);
   OpMark "bob" 1 DeliveryDelivering 600 1; OpLoad "bob" 0 1; OpAck "bob" 2 2 1 700;
   OpAck "bob" 2 1 0 701; OpLast "bob"; OpLoad "bob" 0 10; OpLast "carol"].

Lemma sample_valid : valid_run sample_ops emptyLog.
Proof. apply (bool_decide_unpack _). by vm_compute. Qed.

Lemma opened_quiet db next : quiet (opened db [] next).
Proof. exact (List.Forall_nil _). Qed.

Lemma stores_agree_witness :
  sql_answers sample_ops (opened emptyDB [] 1) = Ok (mem_answers sample_ops newMem).
Proof.
  exact (stores_agree 1 sample_ops emptyDB (opened emptyDB [] 1) (fun _ _ _ _ => eq_refl) empty_stored
           (opened_ready _ _ _) (opened_quiet _ _) eq_refl eq_refl eq_refl sample_valid).
Defined.

(** The fifth statement of the second save (the delivery) and a later commit
    are lost. *)
Definition some_faults : list bool :=
  [false; false; false; false; false; false; false; false; false; true;
   false; false; false; false; true].

Lemma tables_paired_under_faults_witness :
  exists answers s' db' ms' ds', sql_run sample_ops (opened emptyDB some_faults 1) = Ok (answers, s')
    /\ ready 1 db' s' /\ stored ms' ds' db' /\ paired ms' ds' /\ (exists k, ms' = [] ++ k)
    /\ forall m, ASave (Some (m, false)) ∈ answers -> message_record m ∈ ms'.
Proof.
  apply (tables_paired_under_faults 1 sample_ops emptyDB [] [] (opened emptyDB some_faults 1)).
  - exact empty_stored.
  - exact (opened_ready _ _ _).
  - split; [by vm_compute|apply map_Forall_empty].
  - exact empty_paired.
  - repeat (apply List.Forall_cons || apply List.Forall_nil); simpl; unfold fits64, time64; lia.
Defined.

(** One message from "o'brien" to "bob", stored before the process started. *)
Definition old_message : MessageRecord :=
  mkMessageRecord 1 "" "o'brien" "bob" "o'brien:bob" 0 "old" "text" DeliveryPersisted 10 10.
Definition old_delivery : DeliveryRecord :=
  mkDeliveryRecord 1 "bob" 1 DeliveryPersisted 0 "" 0 0 10 10.
Definition old_tables : DB := mkDB [] [message_row old_message] [delivery_row old_delivery] [].

Lemma old_stored : stored [old_message] [old_delivery] old_tables.
Proof. split; try done; (constructor; [|constructor]); split; simpl; unfold int64, uint64, uint32; lia. Qed.

Lemma old_paired : paired [old_message] [old_delivery].
Proof. split; [by repeat constructor|apply NoDup_singleton|apply NoDup_singleton]. Qed.

Lemma second_anonymous_message_refused_witness :
  exists e s', sql_saveMessageAndDelivery (mkCreateMessageRequest "o'brien" "carol" "" "hello" 20)
      (opened old_tables [] 2) = Ok (inl e, s') /\ e <> "" /\ ready 1 old_tables s'.
Proof.
  apply (second_anonymous_message_refused 1 old_tables [old_message] [old_delivery] (opened old_tables [] 2)
    (mkCreateMessageRequest "o'brien" "carol" "" "hello" 20) old_message).
  - exact old_stored.
  - exact (opened_ready _ _ _).
  - split; [by vm_compute|apply map_Forall_empty].
  - by vm_compute.
  - reflexivity.
  - by left.
  - reflexivity.
  - reflexivity.
Defined.

Lemma restart_resumes_numbering_witness :
  exists s1 s2 m, loadMaxMessageId (opened old_tables [] 1) = Ok (None, s1)
    /\ sql_saveMessageAndDelivery (mkCreateMessageRequest "o'brien" "bob" "c1" "hello" 20) s1
       = Ok (inr (m, false), s2)
    /\ Forall (fun m' => mr_messageId m' < msgId m) [old_message]
    /\ Forall (fun d => to_receiver "bob" d = true -> dr_serverSeq d < seqOf m) [old_delivery].
Proof.
  apply (restart_resumes_numbering 1 old_tables [old_message] [old_delivery] (opened old_tables [] 1)
    (mkCreateMessageRequest "o'brien" "bob" "c1" "hello" 20)).
  - exact old_stored.
  - exact old_paired.
  - exact (opened_ready _ _ _).
  - exact (opened_quiet _ _).
  - done.
  - constructor; [by vm_compute|constructor].
  - constructor; [by vm_compute|constructor].
  - by vm_compute.
  - constructor; [by vm_compute|constructor].
Defined.

(** ** Where the store loses track of its tables *)

Definition request_to_bob (cid : string) : CreateMessageRequest :=
  mkCreateMessageRequest "o'brien" "bob" cid "hello" 20.
Definition saved (r : option (string + StoredMessage * bool)) : option (Z * Z) :=
  match r with Some (inr (m, _)) => Some (msgId m, seqOf m) | _ => None end.

(** A failed read of the largest sequence number leaves the cursor of the
    receiver at 0, where the next save takes it for loaded: the save after the
    fault is refused as well, because number 1 is taken. *)
Lemma failed_cursor_read_costs_a_message :
  let s0 := opened old_tables [false; true] 2 in
  let s1 := after (sql_saveMessageAndDelivery (request_to_bob "c1")) s0 in
  let s2 := after (sql_saveMessageAndDelivery (request_to_bob "c2")) s1 in
  saved (outcome (sql_saveMessageAndDelivery (request_to_bob "c1") s0)) = None
  /\ faults (world (conn s1)) = []
  /\ saved (outcome (sql_saveMessageAndDelivery (request_to_bob "c2") s1)) = None
  /\ saved (outcome (sql_saveMessageAndDelivery (request_to_bob "c3") s2)) = Some (3, 2).
Proof. vm_compute. done. Qed.

(** A late record of a delivery attempt, sent by a retry that read the message
    before it was acknowledged, makes an acknowledged message pending again and
    clears its acknowledgement time. *)
Lemma late_attempt_revives_message :
  let s1 := after (sql_markAcked "bob" 1 1 1 30) (opened old_tables [] 2) in
  let s2 := after (sql_markDeliveryAttempt "bob" 1 DeliveryDelivering 40 1) s1 in
  option_map (fun x => length x.1.1) (outcome (sql_loadPendingMessages "bob" 0 10 s1)) = Some 0%nat
  /\ option_map (fun x => map (fun m => (msgId m, ackedAt m)) x.1.1)
       (outcome (sql_loadPendingMessages "bob" 0 10 s2)) = Some [(1, 0)].
Proof. vm_compute. done. Qed.

(** After a restart the first acknowledgement starts the cache from 0, so the
    store answers a smaller last acknowledged number than the tables hold, and
    keeps doing so. *)
Definition two_acked : DB :=
  let s := after (sql_saveMessageAndDelivery (request_to_bob "c2")) (opened old_tables [] 2) in
  tables_of (after (sql_markAcked "bob" 2 2 0 30) s).

Lemma restart_forgets_acknowledgements :
  outcome (sql_getLastAckedSeq "bob" (opened two_acked [] 3)) = Some 2
  /\ outcome (sql_markAcked "bob" 1 1 0 50 (opened two_acked [] 3)) = Some (None, 1)
  /\ outcome (sql_getLastAckedSeq "bob" (after (sql_markAcked "bob" 1 1 0 50) (opened two_acked [] 3)))
     = Some 1.
Proof. vm_compute. done. Qed.

(** Recording an attempt for a message that does not exist succeeds. *)
Lemma attempt_on_nothing_succeeds :
  outcome (sql_markDeliveryAttempt "nobody" 99 DeliveryDelivering 40 1 (opened emptyDB [] 1)) = Some None.
Proof. vm_compute. done. Qed.

(** Under a collation that ignores case, as the schema's does, two users whose
    names differ only in case share their messages: "BOB" pulls what was sent to
    "bob" and takes it out of bob's pending messages. *)
Definition fold_case (a b : string) : bool :=
  bool_decide (util.ToLower a = util.ToLower b).

Lemma case_folding_shares_messages :
  let lib := toy_lib_with fold_case in
  let s1 := after (@sql_markAcked Server lib "BOB" 1 1 0 30) (opened old_tables [] 2) in
  option_map (fun x => map (fun m => msgId m) x.1.1)
    (outcome (@sql_loadPendingMessages Server lib "BOB" 0 10 (opened old_tables [] 2))) = Some [1]
  /\ option_map (fun x => x.1.1) (outcome (@sql_loadPendingMessages Server lib "bob" 0 10 s1)) = Some [].
Proof. vm_compute. done. Qed.

End mysql_theorems.
