(* ===== verification/MySqlSessions.v ===== *)
(** * MySqlSessions: the session table
      (src/storage/sessionRepository.cpp over a lawful server)

    On a server without faults that compares strings exactly, the repository
    is a map from session identifiers to records: [createSession] inserts or
    replaces, [findBySessionId] looks up, [deleteSession] removes, and the two
    updates raise the acknowledged number and never lower it. *)
From S2P Require Import Prelude Text Protocol MessageStore StoreSpec Auth Sql Tables MySql MySqlStore MySqlSpec MySqlRepos MySqlAtomic.
Import text log sql tables mysql mysql_spec repos mysql_atomic.

Module mysql_sessions.

Notation SessionRecord := auth.SessionRecord.
Notation sid := auth.sr_sessionId.

Section Names.
(** The names that occur; the collation of the server tells them apart. *)
Context (D : string -> Prop).

Record session_ok (r : SessionRecord) : Prop := {
  so_id : D (sid r);
  so_user : D (auth.sr_userId r);
  so_last : uint64 (auth.sr_lastAckedSeq r);
  so_created : int64 (auth.sr_createdAtMs r);
  so_expires : int64 (auth.sr_expiresAtMs r);
}.

(** The rows of the table are the records [ss]. *)
Record sessions (ss : list SessionRecord) (db : DB) : Prop := {
  se_rows : t_session db = map session_row ss;
  se_ok : Forall session_ok ss;
}.

Definition set_sessions (ss : list SessionRecord) (db : DB) : DB :=
  mkDB (map session_row ss) (t_message db) (t_delivery db) (t_ack_log db).

Lemma build_session r :
  session_ok r -> BuildSessionRecord (fetched session_cols (session_row r)) = Ok r.
Proof.
  intros [_ _ Hl Hc He]. unfold BuildSessionRecord, ToUint64, ToInt64, mysql.at_.
  set (row := fetched session_cols (session_row r)).
  change (row !! "session_id") with (Some (auth.sr_sessionId r)).
  change (row !! "user_id") with (Some (auth.sr_userId r)).
  change (row !! "device_id") with (Some (auth.sr_deviceId r)).
  change (row !! "server_node_id") with (Some (auth.sr_serverNodeId r)).
  change (row !! "last_acked_seq") with (Some (dec (auth.sr_lastAckedSeq r))).
  change (row !! "created_at_ms") with (Some (dec (auth.sr_createdAtMs r))).
  change (row !! "expires_at_ms") with (Some (dec (auth.sr_expiresAtMs r))).
  cbn -[dec]. rewrite !u64_ok by done. cbn -[dec]. rewrite !i64_ok by done. by destruct r.
Qed.

(** [INSERT ... ON DUPLICATE KEY UPDATE]: replace the row of the identifier,
    or add one. *)
Definition put (r : SessionRecord) (ss : list SessionRecord) : list SessionRecord :=
  if existsb (fun x => bool_decide (sid x = sid r)) ss
  then map (fun x => if bool_decide (sid x = sid r) then r else x) ss
  else ss ++ [r].

(** [GREATEST(last_acked_seq, seq)]. *)
Definition raise (seq : Z) (r : SessionRecord) : SessionRecord :=
  auth.mkSessionRecord (auth.sr_sessionId r) (auth.sr_userId r) (auth.sr_deviceId r)
    (auth.sr_serverNodeId r) (Z.max (auth.sr_lastAckedSeq r) seq) (auth.sr_createdAtMs r)
    (auth.sr_expiresAtMs r).

Definition lookup_session (id : string) (ss : list SessionRecord) : option SessionRecord :=
  first (fun r => bool_decide (sid r = id)) ss.

Lemma list_filter_none r ss :
  existsb (fun x => bool_decide (sid x = sid r)) ss = false ->
  filter (fun x => bool_decide (sid x = sid r) = true) ss = [].
Proof.
  induction ss as [|x ss IH]; simpl; intros E; [done|]. apply orb_false_iff in E as [E1 E2].
  rewrite filter_cons, E1. by rewrite decide_False, IH.
Qed.

Lemma lookup_put r ss id :
  lookup_session id (put r ss) = if bool_decide (sid r = id) then Some r else lookup_session id ss.
Proof.
  unfold put, lookup_session, first. destruct (existsb _ ss) eqn:Ex.
  - case_bool_decide as Hid.
    + subst id. induction ss as [|x ss IH]; [done|]. simpl in Ex |- *. rewrite filter_cons.
      destruct (decide (sid x = sid r)) as [E|E].
      * rewrite (bool_decide_eq_true_2 (sid x = sid r)), decide_True by (done || by apply bool_decide_eq_true). done.
      * rewrite (bool_decide_eq_false_2 (sid x = sid r)) in Ex |- * by done.
        rewrite decide_False by (by rewrite bool_decide_eq_true). by apply IH.
    + clear Ex. induction ss as [|x ss IH]; [done|]. simpl. rewrite !filter_cons.
      destruct (decide (sid x = sid r)) as [E|E].
      * rewrite (bool_decide_eq_true_2 (sid x = sid r)) by done.
        rewrite !decide_False by (rewrite bool_decide_eq_true; congruence). exact IH.
      * rewrite (bool_decide_eq_false_2 (sid x = sid r)) by done. case_decide; [done|exact IH].
  - rewrite filter_app, filter_cons, filter_nil. case_bool_decide as Hid.
    + rewrite decide_True by done. subst id. rewrite (list_filter_none _ _ Ex). done.
    + rewrite decide_False, app_nil_r by done. done.
Qed.

Lemma lookup_raise f ss id :
  (forall r : SessionRecord, sid (f r) = sid r) ->
  lookup_session id (map f ss) = f <$> lookup_session id ss.
Proof.
  intros Hf. unfold lookup_session, first. induction ss as [|x ss IH]; [done|]. simpl. rewrite !filter_cons, Hf.
  by destruct (decide (bool_decide (sid x = id) = true)).
Qed.

Lemma lookup_delete_session ss id id' :
  lookup_session id (filter (fun r => sid r <> id') ss)
  = if bool_decide (id = id') then None else lookup_session id ss.
Proof.
  unfold lookup_session, first. rewrite list_filter_filter. induction ss as [|x ss IH]; [by case_bool_decide|].
  rewrite !filter_cons. destruct (decide (sid x = id)) as [E|E].
  - rewrite (bool_decide_eq_true_2 (sid x = id)) by done. case_bool_decide as Hd.
    + rewrite decide_False by naive_solver. exact IH.
    + rewrite !decide_True by naive_solver. done.
  - rewrite (bool_decide_eq_false_2 (sid x = id)) by done. rewrite !decide_False by naive_solver. exact IH.
Qed.

Lemma lookup_session_id id ss r : lookup_session id ss = Some r -> sid r = id.
Proof.
  unfold lookup_session, first. induction ss as [|x ss IH]; simpl; [done|]. rewrite filter_cons.
  destruct (decide (bool_decide (sid x = id) = true)) as [Hd|Hd]; [|exact IH].
  intros [= <-]. by apply bool_decide_eq_true in Hd.
Qed.

(** ** The contract: a map from identifiers to records *)
Inductive session_op :=
| SCreate (r : SessionRecord)
| SFind (id : string)
| SDelete (id : string)
| SAck (id : string) (seq : Z)
| SAckUser (user : string) (seq : Z).

Inductive session_reply :=
| Stored (error : option string)
| Found (r : option SessionRecord) (error : string).

Notation session_map := (gmap string SessionRecord).

Definition map_session (op : session_op) (m : session_map) : session_reply * session_map :=
  match op with
  | SCreate r => (Stored None, <[sid r := r]> m)
  | SFind id => (Found (m !! id) "", m)
  | SDelete id => (Stored None, delete id m)
  | SAck id seq => (Stored None, alter (raise seq) id m)
  | SAckUser u seq =>
    (Stored None, (fun r => if bool_decide (auth.sr_userId r = u) then raise seq r else r) <$> m)
  end.

Fixpoint map_sessions (ops : list session_op) (m : session_map) : list session_reply :=
  match ops with
  | [] => []
  | op :: ops' => let '(a, m') := map_session op m in a :: map_sessions ops' m'
  end.

Definition map_after (ops : list session_op) (m : session_map) : session_map :=
  fold_left (fun m op => (map_session op m).2) ops m.

(** The arguments are names of the run and have the widths of their C++ types. *)
Definition session_op_ok (op : session_op) : Prop :=
  match op with
  | SCreate r => session_ok r
  | SAck name seq | SAckUser name seq => D name /\ uint64 seq
  | SFind id | SDelete id => D id
  end.

(** The map that a table shows. *)
Definition shows (m : session_map) (ss : list SessionRecord) : Prop :=
  forall id, lookup_session id ss = m !! id.

Definition session_table (m : session_map) (db : DB) : Prop := exists ss, sessions ss db /\ shows m ss.

Section Sessions.
Context {W : Type} `{MySqlServer W}.
Context (exact : forall a b, D a -> D b -> collation a b = bool_decide (a = b)).

Lemma session_cols_nodup : NoDup session_cols.
Proof. apply (bool_decide_unpack _). by vm_compute. Qed.

Lemma find_session_answers h db ss id :
  D id -> sessions ss db -> answers h db (findBySessionId id) (lookup_session id ss) None.
Proof.
  intros Di [Hr Ho].
  replace (lookup_session id ss) with (first (fun r => collation (sid r) id) ss).
  2: { unfold lookup_session, first. f_equal. apply filter_ext_elem. intros r Hin.
       rewrite Forall_forall in Ho. by rewrite exact by (done || by apply Ho). }
  eapply (finder_answers h db (QFindSession id) _ session_row);
    try done; [apply session_cols_nodup|solve_fits| |].
  - intros a. simpl. by rewrite andb_true_r.
  - apply (Forall_impl _ _ _ Ho), build_session.
Qed.

Lemma existsb_Forall {A} (p q : A -> bool) xs : Forall (fun x => p x = q x) xs -> existsb p xs = existsb q xs.
Proof. induction 1 as [|x xs E _ IH]; simpl; [done|]. by rewrite E, IH. Qed.

Lemma exec_create_session db ss r :
  D (sid r) -> sessions ss db -> exec collation (meaning (QCreateSession r)) db = Some (Wrote (set_sessions (put r ss) db)).
Proof.
  intros Di [Hr Ho]. unfold exec, meaning, exec_insert, put.
  change (schema_of "im_session") with (Some im_session). rewrite some_bind.
  change (negb _) with false. cbv iota.
  change (new_row im_session _) with (Some (session_row r)). rewrite some_bind.
  change (get_table "im_session" db) with (t_session db). rewrite Hr, existsb_map.
  assert (E : Forall (fun x => collide collation im_session (session_row r) (session_row x)
                               = bool_decide (sid x = sid r)) ss).
  { apply (Forall_impl _ _ _ Ho). intros x Hx. unfold collide. simpl. unfold cell_eq. simpl.
    rewrite exact, andb_true_r, orb_false_r by (done || apply Hx). apply bool_decide_ext. naive_solver. }
  rewrite (existsb_Forall _ (fun x => bool_decide (sid x = sid r))) by exact E.
  destruct (existsb _ ss).
  - change ((fun c => (c, RValues c)) <$> tail session_cols) with
      (map (fun c => (c, RValues c)) (tail session_cols)).
    replace (mapM _ (map session_row ss))
      with (Some (map session_row (map (fun x => if bool_decide (sid x = sid r) then r else x) ss))); [done|].
    clear -E. induction E as [|x ss Ex _ IH]; [done|]. cbn [map mapM]. rewrite <- IH, Ex.
    case_bool_decide as Hx; [|done].
    replace (assign (session_row r) _ (session_row x)) with (Some (session_row r)); [done|].
    destruct x as [a b c d e f g], r as [a' b' c' d' e' f' g']. simpl in Hx. subst a'. reflexivity.
  - change (references_ok collation im_session (session_row r) db) with true. cbv iota.
    unfold set_sessions. by rewrite map_app.
Qed.

Lemma exec_delete_session db ss id :
  D id -> sessions ss db ->
  exec collation (meaning (QDeleteSession id)) db
  = Some (Wrote (set_sessions (filter (fun r => sid r <> id) ss) db)).
Proof.
  intros Di [Hr Ho]. unfold exec, meaning.
  change (get_table "im_session" db) with (t_session db). rewrite Hr.
  assert (E : Forall (fun x => matches collation [CEq "session_id" (VStr id)] (session_row x)
                               = bool_decide (sid x = id)) ss)
    by (apply (Forall_impl _ _ _ Ho); intros x Hx; simpl; by rewrite exact, andb_true_r by (done || apply Hx)).
  replace (filter _ (map session_row ss)) with (map session_row (filter (fun r => sid r <> id) ss)); [done|].
  clear -E. induction E as [|x ss Ex _ IH]; [done|]. simpl map. rewrite !filter_cons.
  destruct (decide (sid x = id)) as [Hx|Hx].
  - rewrite decide_False, decide_False; [exact IH|by rewrite Ex, bool_decide_eq_true_2|naive_solver].
  - rewrite decide_True, decide_True; [simpl; by rewrite IH|by rewrite Ex, bool_decide_eq_false_2|done].
Qed.

(** An update of the rows that satisfy [p]. *)
Lemma exec_raise db ss seq conds (p : SessionRecord -> bool) :
  sessions ss db -> (forall r, session_ok r -> matches collation conds (session_row r) = p r) ->
  exec collation (Update "im_session" [("last_acked_seq", RGreatest "last_acked_seq" seq)] conds) db
  = Some (Wrote (set_sessions (map (fun r => if p r then raise seq r else r) ss) db)).
Proof.
  intros [Hr Ho] Hp. unfold exec, exec_update.
  change (schema_of "im_session") with (Some im_session). rewrite some_bind.
  change (negb _) with false. cbv iota. change (get_table "im_session" db) with (t_session db). rewrite Hr.
  replace (mapM _ (map session_row ss))
    with (Some (map session_row (map (fun r => if p r then raise seq r else r) ss))); [done|].
  clear -Hp Ho. induction Ho as [|x ss Hx _ IH]; [done|]. cbn [map mapM]. rewrite <- IH, Hp by done.
  by destruct (p x).
Qed.

Lemma session_write h db c q db' m :
  at_rest h db c -> calm (world c) -> m = execute_stream (sql_of q) -> fits q ->
  exec collation (meaning q) db = Some (Wrote db') ->
  exists c', m c = Ok (None, c') /\ at_rest h db' c' /\ calm (world c').
Proof.
  intros Hc Hk -> Hf He.
  destruct (write_alone h db c q (Some db') Hc (conj Hf He)) as (e & c' & E & Hs & K).
  rewrite E. specialize (Hs Hk). destruct e as [e|].
  - destruct K as (_ & _ & K). by specialize (K Hk).
  - destruct K as (d & [= <-] & K). by exists c'.
Qed.

Lemma session_read h db c ss id :
  D id -> at_rest h db c -> calm (world c) -> sessions ss db ->
  exists c', findBySessionId id c = Ok ((lookup_session id ss, ""), c') /\ at_rest h db c' /\ calm (world c').
Proof.
  intros Di Hc Hk Hs. destruct (find_session_answers h db ss id Di Hs c Hc) as (r & c' & E & Hr & Hst & K).
  destruct K as [->|(e & _ & Hn & _)]; [|done]. exists c'. split; [done|]. split; [done|]. by apply Hst.
Qed.


(** ** The operations of the repository *)
Definition sql_session (op : session_op) : C (W:=W) session_reply :=
  match op with
  | SCreate r => let! e := createSession r in ret (Stored e)
  | SFind id => let! x := findBySessionId id in ret (Found x.1 x.2)
  | SDelete id => let! e := deleteSession id in ret (Stored e)
  | SAck id seq => let! e := updateLastAckedSeq id seq in ret (Stored e)
  | SAckUser u seq => let! e := updateLastAckedSeqByUser u seq in ret (Stored e)
  end.

Fixpoint sql_sessions (ops : list session_op) : C (W:=W) (list session_reply) :=
  match ops with
  | [] => ret []
  | op :: ops' => let! a := sql_session op in let! l := sql_sessions ops' in ret (a :: l)
  end.

Lemma sessions_set ss ss' db : sessions ss db -> Forall session_ok ss' -> sessions ss' (set_sessions ss' db).
Proof. by intros _ Ho; split. Qed.

Lemma raise_ok seq r : uint64 seq -> session_ok r -> session_ok (raise seq r).
Proof. intros Hs [Hi Hu Hl Hc He]. split; try done. simpl. unfold uint64 in *. lia. Qed.

Lemma raise_where_ok (p : SessionRecord -> bool) seq ss :
  uint64 seq -> Forall session_ok ss -> Forall session_ok (map (fun r => if p r then raise seq r else r) ss).
Proof.
  intros Hs Ho. apply Forall_map. apply (Forall_impl _ _ _ Ho). intros r Hr.
  simpl. destruct (p r); [by apply raise_ok|done].
Qed.

Lemma put_ok r ss : session_ok r -> Forall session_ok ss -> Forall session_ok (put r ss).
Proof.
  intros Hr Ho. unfold put. destruct (existsb _ ss).
  - apply Forall_map. apply (Forall_impl _ _ _ Ho). intros x Hx. simpl. by case_bool_decide.
  - apply Forall_app. split; [done|]. by constructor.
Qed.

(** Each operation answers as the map does and leaves the table of the map. *)
Lemma session_step h db c m op :
  at_rest h db c -> calm (world c) -> session_table m db -> session_op_ok op ->
  exists db' c', sql_session op c = Ok ((map_session op m).1, c')
    /\ at_rest h db' c' /\ calm (world c') /\ session_table (map_session op m).2 db'.
Proof.
  intros Hc Hk (ss & Hs & Hm) Hop. pose proof (se_ok _ _ Hs) as Ho.
  assert (W1 : forall q m0 ss' m', m0 = execute_stream (sql_of q) -> fits q -> Forall session_ok ss' ->
    exec collation (meaning q) db = Some (Wrote (set_sessions ss' db)) -> shows m' ss' ->
    exists db' c', (let! e := m0 in ret (Stored e)) c = Ok (Stored None, c')
      /\ at_rest h db' c' /\ calm (world c') /\ session_table m' db').
  { intros q m0 ss' m' Hq Hf Ho' He Hm'. destruct (session_write h db c q _ m0 Hc Hk Hq Hf He) as (c' & E & Hr & K).
    exists (set_sessions ss' db), c'. unfold bind. rewrite E. split; [reflexivity|]. split; [done|]. split; [done|].
    exists ss'. split; [by eapply sessions_set|done]. }
  destruct op as [r|id|id|id seq|u seq]; simpl in Hop.
  - apply (W1 (QCreateSession r) _ (put r ss)); [done|destruct Hop; solve_fits|by apply put_ok|by apply exec_create_session; [apply Hop|]|].
    intros id. rewrite lookup_put, Hm. cbn [map_session snd]. case_bool_decide as Hd; [subst; by rewrite lookup_insert_eq|by rewrite lookup_insert_ne].
  - destruct (session_read h db c ss id Hop Hc Hk Hs) as (c' & E & Hr & K). exists db, c'.
    simpl. unfold bind. rewrite E, Hm. split; [reflexivity|]. split; [done|]. split; [done|]. by exists ss.
  - apply (W1 (QDeleteSession id) _ (filter (fun r => sid r <> id) ss)); [done|solve_fits|by apply Forall_filter|by apply exec_delete_session|].
    intros i. rewrite lookup_delete_session, Hm. cbn [map_session snd]. case_bool_decide as Hd; [subst; by rewrite lookup_delete_eq|by rewrite lookup_delete_ne].
  - apply (W1 (QUpdateSession id seq) _ (map (fun r => if bool_decide (sid r = id) then raise seq r else r) ss));
      [done|destruct Hop; solve_fits|by apply raise_where_ok; [apply Hop|]| |].
    + apply exec_raise; [done|]. intros r Hr. simpl. by rewrite exact, andb_true_r by (apply Hop || apply Hr).
    + intros i. rewrite lookup_raise by (intros r; by case_bool_decide). cbn [map_session snd].
      rewrite lookup_alter, <- !Hm. destruct (decide (id = i)) as [<-|Hd].
      * destruct (lookup_session id ss) as [r|] eqn:E; simpl; [|done].
        by rewrite bool_decide_eq_true_2 by eauto using lookup_session_id.
      * destruct (lookup_session i ss) as [r|] eqn:E; simpl; [|done].
        apply lookup_session_id in E. by rewrite bool_decide_eq_false_2 by congruence.
  - apply (W1 (QUpdateSessions u seq) _ (map (fun r => if bool_decide (auth.sr_userId r = u) then raise seq r else r) ss));
      [done|destruct Hop; solve_fits|by apply raise_where_ok; [apply Hop|]| |].
    + apply exec_raise; [done|]. intros r Hr. simpl. by rewrite exact, andb_true_r by (apply Hop || apply Hr).
    + intros i. rewrite lookup_raise by (intros r; by case_bool_decide). cbn [map_session snd].
      by rewrite lookup_fmap, <- Hm.
Qed.

(** C13: On a server without faults whose collation tells the names of the run
    apart, any sequence of createSession, findBySessionId, deleteSession,
    updateLastAckedSeq and updateLastAckedSeqByUser succeeds, with the answers
    of a map from session identifiers to records, and leaves the table of that
    map: creation inserts or replaces the whole record, its acknowledged number
    included, and the two updates set the number to the larger of the stored and
    the new one. *)
Theorem session_repository_is_map ops h db c m :
  at_rest h db c -> calm (world c) -> session_table m db -> Forall session_op_ok ops ->
  exists db' c', sql_sessions ops c = Ok (map_sessions ops m, c') /\ at_rest h db' c'
    /\ session_table (map_after ops m) db'.
Proof.
  revert db c m. induction ops as [|op ops IH]; intros db c m Hc Hk Hm Hop; [by exists db, c|].
  apply Forall_cons in Hop as [H1 H2].
  destruct (session_step h db c m op Hc Hk Hm H1) as (db1 & c1 & E & Hc1 & Hk1 & Hm1).
  destruct (IH db1 c1 _ Hc1 Hk1 Hm1 H2) as (db2 & c2 & E2 & Hc2 & Hm2).
  exists db2, c2. split; [|split; [exact Hc2|exact Hm2]].
  simpl. unfold bind. rewrite E. simpl. rewrite E2. by destruct (map_session op m).
Qed.

End Sessions.
End Names.

(** ** A concrete run *)
Import toy.

Definition fresh : Conn Server := mkConn (mkClient (Some 1) "") (start emptyDB []).

Definition alice := auth.mkSessionRecord "s'1" "alice" "phone" "node" 3 100 900.
Definition laptop := auth.mkSessionRecord "s2" "alice" "laptop" "node" 0 100 900.

Definition session_ops : list session_op :=
  [SCreate alice; SCreate laptop; SAckUser "alice" 2; SFind "s'1"; SFind "s2"; SAck "s2" 9;
   SCreate alice; SFind "s2"; SDelete "s2"; SFind "s2"; SFind "s'1"].

Lemma empty_sessions : session_table (fun _ => True) ∅ emptyDB.
Proof. exists []. by repeat split. Qed.

Definition session_answers : list session_reply :=
  [Stored None; Stored None; Stored None; Found (Some alice) ""; Found (Some (raise 2 laptop)) "";
   Stored None; Stored None; Found (Some (raise 9 laptop)) ""; Stored None; Found None "";
   Found (Some alice) ""].

Lemma session_repository_is_map_witness :
  exists db' c', sql_sessions session_ops fresh = Ok (session_answers, c') /\ at_rest 1 db' c'
    /\ session_table (fun _ => True) (map_after session_ops ∅) db'.
Proof.
  replace session_answers with (map_sessions session_ops ∅) by (vm_compute; reflexivity).
  apply (session_repository_is_map (fun _ => True) (W:=Server) (H0:=toy_server) (fun _ _ _ _ => eq_refl) session_ops 1 emptyDB fresh ∅).
  - done.
  - exact (List.Forall_nil _).
  - exact empty_sessions.
  - repeat constructor; done.
Defined.

End mysql_sessions.
