(* ===== verification/Config.v ===== *)
(** * Config: the configuration file (src/base/config.h, src/base/config.cpp)

    The reader of INI files and its typed getters.  The contents of the file
    are an argument, [None] when it cannot be opened; [std::isspace] is that of
    the C locale.  [std::stod] is an argument of [getDouble], which no part of
    the server calls.

    A file written as a sequence of blank lines, comments, section headers and
    settings, with any padding, is read back as that sequence says: a setting
    belongs to the last header above it, a later setting replaces an earlier
    one, and settings without a section are ignored. *)
From S2P Require Import Prelude Util Text.
Import util text.

Module config.

Record Config := mkConfig { m_data : gmap string (gmap string string) }.

Definition newConfig : Config := mkConfig ∅.

(** The first [erase] removes up to the first character that is no space, the
    second one from the last such character. *)
Definition trim (s : bytes) : bytes := rev (skip_space (rev (skip_space s))).

Definition newline : ascii := "010"%char.

(** [line.find('=')]: the text before it and the text after it. *)
Fixpoint split_at_eq (line : bytes) : option (bytes * bytes) :=
  match line with
  | [] => None
  | c :: line' =>
    if bool_decide (c = "="%char) then Some ([], line')
    else (fun kv => (c :: kv.1, kv.2)) <$> split_at_eq line'
  end.

(** [m_data[section][key] = value] *)
Definition set_value (section key value : string) (data : gmap string (gmap string string))
    : gmap string (gmap string string) :=
  <[section := <[key := value]> (default ∅ (data !! section))]> data.

Definition is_comment (c : ascii) : bool := bool_decide (c = "#"%char) || bool_decide (c = ";"%char).

(** One turn of the loop of [load], over the current section and the data. *)
Definition load_line (st : bytes * gmap string (gmap string string)) (line : bytes)
    : bytes * gmap string (gmap string string) :=
  let '(currentSection, data) := st in
  match trim line with
  | [] => st
  | c :: rest =>
    let line := c :: rest in
    if is_comment c then st
    else if bool_decide (c = "["%char) && bool_decide (list.last line = Some "]"%char) then
      (trim (slice 1 (length line - 2) line), data)
    else
      match split_at_eq line with
      | Some (key, value) =>
        let key := trim key in
        let value := trim value in
        if negb (bool_decide (currentSection = [])) && negb (bool_decide (key = []))
        then (currentSection, set_value (str currentSection) (str key) (str value) data)
        else st
      | None => st
      end
  end.

Definition load_lines (lines : list bytes) : bytes * gmap string (gmap string string) :=
  fold_left load_line lines ([], ∅).

Definition load (file : option string) (c : Config) : bool * Config :=
  match file with
  | None => (false, mkConfig ∅)
  | Some text => (true, mkConfig (load_lines (getline_all newline [] (chars text))).2)
  end.

Definition getString (section key defaultValue : string) (c : Config) : string :=
  match m_data c !! section with
  | Some values => match values !! key with Some v => v | None => defaultValue end
  | None => defaultValue
  end.

Definition getInt (section key : string) (defaultValue : Z) (c : Config) : Z :=
  let value := getString section key "" c in
  if negb (bool_decide (value = "")) then
    match stoi value with Ok z => z | Err _ => defaultValue end
  else defaultValue.

Definition getBool (section key : string) (defaultValue : bool) (c : Config) : bool :=
  let value := getString section key "" c in
  if bool_decide (value ∈ ["true"; "1"; "yes"; "on"]) then true
  else if bool_decide (value ∈ ["false"; "0"; "no"; "off"]) then false
  else defaultValue.

Definition getDouble {A} (stod : string -> option A) (section key : string) (defaultValue : A)
    (c : Config) : A :=
  let value := getString section key "" c in
  if negb (bool_decide (value = "")) then default defaultValue (stod value) else defaultValue.

(** ** Files as sequences of items *)
Inductive item :=
| Blank (pad : bytes)
| Comment (pad : bytes) (mark : ascii) (text : bytes)
| Header (pad1 pad2 : bytes) (name : bytes) (pad3 pad4 : bytes)
| Setting (pad1 : bytes) (key : bytes) (pad2 pad3 : bytes) (value : bytes) (pad4 : bytes).

Definition item_line (i : item) : bytes :=
  match i with
  | Blank pad => pad
  | Comment pad mark text => pad ++ mark :: text
  | Header p1 p2 name p3 p4 => p1 ++ "["%char :: p2 ++ name ++ p3 ++ "]"%char :: p4
  | Setting p1 key p2 p3 value p4 => p1 ++ key ++ p2 ++ "="%char :: p3 ++ value ++ p4
  end.

Definition item_file (items : list item) : string :=
  str (mjoin (map (fun i => item_line i ++ [newline]) items)).

(** Padding is white space within the line; names, keys and values begin and
    end with other characters. *)
Definition padding (p : bytes) : Prop := Forall (fun c => isspace c = true) p /\ newline ∉ p.
Definition outer_space (t : bytes) : bool :=
  match t with [] => false | c :: _ => isspace c || default false (isspace <$> list.last t) end.
Definition token (t : bytes) : Prop := newline ∉ t /\ outer_space t = false.

(** A key does not look like a comment or a header. *)
Definition key_start (key : bytes) : bool :=
  match key with c :: _ => negb (is_comment c) && negb (bool_decide (c = "["%char)) | [] => false end.

Definition item_ok (i : item) : Prop :=
  match i with
  | Blank pad => padding pad
  | Comment pad mark text => padding pad /\ is_comment mark = true /\ newline ∉ text
  | Header p1 p2 name p3 p4 =>
    padding p1 /\ padding p2 /\ padding p3 /\ padding p4 /\ token name
  | Setting p1 key p2 p3 value p4 =>
    padding p1 /\ padding p2 /\ padding p3 /\ padding p4 /\ token key /\ token value
    /\ "="%char ∉ key /\ key_start key = true
  end.

#[export] Instance item_ok_dec i : Decision (item_ok i).
Proof. unfold item_ok, padding, token. destruct i; apply _. Defined.

(** What the file says: the last setting of the key under the section. *)
Definition item_section (i : item) (section : bytes) : bytes :=
  match i with Header _ _ name _ _ => name | _ => section end.

Fixpoint setting_of (section key : string) (current : bytes) (items : list item) : option string :=
  match items with
  | [] => None
  | i :: items' =>
    match setting_of section key (item_section i current) items' with
    | Some v => Some v
    | None =>
      match i with
      | Setting _ k _ _ v _ =>
        if bool_decide (current <> [] /\ str current = section /\ str k = key) then Some (str v) else None
      | _ => None
      end
    end
  end.

(** ** Lemmas *)
Lemma skip_space_pad p s : Forall (fun c => isspace c = true) p -> skip_space (p ++ s) = skip_space s.
Proof. induction 1 as [|c p Hc _ IH]; simpl; [done|]. by rewrite Hc. Qed.

Lemma skip_space_token c s : isspace c = false -> skip_space (c :: s) = c :: s.
Proof. intros Hc. simpl. by rewrite Hc. Qed.

Definition starts (t : bytes) : Prop := forall c t', t = c :: t' -> isspace c = false.
Definition ends (t : bytes) : Prop := forall c t', t = t' ++ [c] -> isspace c = false.

Lemma token_outer t : token t -> starts t /\ ends t.
Proof.
  intros [_ H]. split.
  - intros c t' ->. cbn [outer_space] in H. by apply orb_false_iff in H as [H _].
  - intros c t' ->. unfold outer_space in H. destruct (t' ++ [c]) as [|x l] eqn:E; [by destruct t'|].
    apply orb_false_iff in H as [_ H]. rewrite <- E, last_snoc in H. done.
Qed.

Lemma key_start_cons key : key_start key = true -> exists c t, key = c :: t /\ is_comment c = false /\ c <> "["%char.
Proof. destruct key as [|c t]; simpl; [done|]. intros H. b2p. by exists c, t. Qed.

Lemma skip_space_starts t : starts t -> skip_space t = t.
Proof. destruct t as [|c t]; intros H; [done|]. by apply skip_space_token, (H c t). Qed.

Lemma ends_rev t : ends t -> starts (rev t).
Proof. intros H c t' E. apply (H c (rev t')). rewrite <- (rev_involutive t), E. done. Qed.

Lemma Forall_rev' {A} (P : A -> Prop) l : Forall P l -> Forall P (rev l).
Proof. intros F. by apply Forall_rev. Qed.

(** Trimming removes the padding around a text that begins and ends with other
    characters. *)
Lemma trim_padded p t q :
  Forall (fun c => isspace c = true) p -> Forall (fun c => isspace c = true) q ->
  starts t -> ends t -> trim (p ++ t ++ q) = t.
Proof.
  intros Hp Hq Hs He. unfold trim. rewrite skip_space_pad by done.
  destruct t as [|c t].
  - simpl. rewrite <- (app_nil_r q), skip_space_pad by done. done.
  - rewrite (skip_space_starts ((c :: t) ++ q)) by (intros c' t' [= <- _]; by apply (Hs c t)).
    rewrite rev_app_distr, skip_space_pad by (by apply Forall_rev').
    rewrite skip_space_starts by (by apply ends_rev). apply rev_involutive.
Qed.

Lemma trim_pad p : Forall (fun c => isspace c = true) p -> trim p = [].
Proof.
  intros Hp. rewrite <- (app_nil_r p). apply (trim_padded p [] []); [done|constructor| |].
  - by intros c t' [=].
  - intros c t' E. by destruct t'.
Qed.

Lemma split_at_eq_app k v : "="%char ∉ k -> split_at_eq (k ++ "="%char :: v) = Some (k, v).
Proof.
  induction k as [|c k IH]; simpl; intros Hk; [done|]. apply not_elem_of_cons in Hk as [Hc Hk].
  rewrite bool_decide_eq_false_2 by congruence. by rewrite IH.
Qed.

Lemma starts_app c t s : isspace c = false -> starts ((c :: t) ++ s).
Proof. by intros Hc c' t' [= <- _]. Qed.

Lemma ends_snoc t c : isspace c = false -> ends (t ++ [c]).
Proof. by intros Hc c' t' [_ <-]%app_inj_tail. Qed.

Lemma ends_app s t : t <> [] -> ends t -> ends (s ++ t).
Proof.
  intros Hn He. destruct (exists_last Hn) as (t0 & c & ->). rewrite app_assoc. apply ends_snoc. by apply (He c t0).
Qed.

Lemma padding_no_eq p : padding p -> "="%char ∉ p.
Proof. intros [Hp _] H. rewrite Forall_forall in Hp. by apply Hp in H. Qed.

Lemma slice_inside a m b : slice 1 (length (a :: m ++ [b]) - 2) (a :: m ++ [b]) = m.
Proof.
  unfold slice. simpl. rewrite length_app. simpl.
  replace (length m + 1 - 1)%nat with (length m) by lia. apply take_app_length.
Qed.

(** ** The turns of the loop *)
Section Turn.
Context (section : bytes) (data : gmap string (gmap string string)).

Lemma load_blank pad : padding pad -> load_line (section, data) pad = (section, data).
Proof. intros [Hp _]. unfold load_line. by rewrite trim_pad. Qed.

(** A comment may end in white space, so only its first character is known. *)
Lemma trim_head p c t : Forall (fun c => isspace c = true) p -> isspace c = false -> exists t', trim (p ++ c :: t) = c :: t'.
Proof.
  intros Hp Hc. unfold trim. rewrite skip_space_pad, skip_space_token by done.
  change (c :: t) with ([c] ++ t). rewrite rev_app_distr. simpl.
  generalize (rev t) as r. induction r as [|x r IH]; simpl.
  - rewrite Hc. by exists [].
  - destruct (isspace x); [exact IH|]. simpl. rewrite rev_app_distr. simpl. by eexists.
Qed.

Lemma comment_no_space c : is_comment c = true -> isspace c = false.
Proof. unfold is_comment. intros [H|H]%orb_true_iff; b2p; by subst. Qed.

Lemma load_comment pad mark text :
  padding pad -> is_comment mark = true -> load_line (section, data) (pad ++ mark :: text) = (section, data).
Proof.
  intros [Hp _] Hm. unfold load_line. destruct (trim_head pad mark text Hp (comment_no_space _ Hm)) as [t' ->].
  by rewrite Hm.
Qed.

Lemma load_header p1 p2 name p3 p4 :
  item_ok (Header p1 p2 name p3 p4) ->
  load_line (section, data) (item_line (Header p1 p2 name p3 p4)) = (name, data).
Proof.
  intros ([H1 _] & [H2 _] & [H3 _] & [H4 _] & [Hs He]%token_outer). unfold load_line, item_line.
  replace (p1 ++ "["%char :: p2 ++ name ++ p3 ++ "]"%char :: p4)
    with (p1 ++ ("["%char :: (p2 ++ name ++ p3) ++ ["]"%char]) ++ p4) by (simpl; by rewrite <- !app_assoc).
  rewrite trim_padded; [|done|done|by intros c t' [= <- _]|rewrite app_comm_cons; by apply ends_snoc].
  change (is_comment _) with false. cbv iota.
  rewrite !bool_decide_eq_true_2 by (done || rewrite app_comm_cons; apply last_snoc).
  cbn [andb]. f_equal. rewrite slice_inside. by apply trim_padded.
Qed.

(** The line of a setting, trimmed, is its key and what follows the first [=]. *)
Lemma trim_setting p1 key p2 p3 value p4 :
  item_ok (Setting p1 key p2 p3 value p4) ->
  exists rest, trim (item_line (Setting p1 key p2 p3 value p4)) = key ++ p2 ++ "="%char :: rest
               /\ trim rest = value.
Proof.
  intros ([H1 _] & _ & [H3 _] & [H4 _] & [Ks _]%token_outer & [Vs Ve]%token_outer & _
    & (c & k & -> & _ & _)%key_start_cons). unfold item_line.
  assert (Hc : isspace c = false) by (by apply (Ks c k)).
  destruct value as [|v value].
  - exists []. split; [|done].
    replace (p1 ++ (c :: k) ++ p2 ++ "="%char :: p3 ++ [] ++ p4)
      with (p1 ++ (((c :: k) ++ p2) ++ ["="%char]) ++ (p3 ++ p4)) by (by rewrite <- !app_assoc).
    rewrite trim_padded; [by rewrite <- app_assoc|done|by apply Forall_app| |by apply ends_snoc].
    rewrite <- app_assoc. by apply starts_app.
  - exists (p3 ++ v :: value). split; [|rewrite <- (app_nil_r (p3 ++ v :: value)), <- app_assoc; by apply trim_padded].
    replace (p1 ++ (c :: k) ++ p2 ++ "="%char :: p3 ++ (v :: value) ++ p4)
      with (p1 ++ (((c :: k) ++ p2 ++ "="%char :: p3) ++ v :: value) ++ p4) by (by rewrite <- !app_assoc).
    rewrite trim_padded; [by rewrite <- !app_assoc|done|done|rewrite <- app_assoc; by apply starts_app|by apply ends_app].
Qed.

Lemma load_setting p1 key p2 p3 value p4 :
  item_ok (Setting p1 key p2 p3 value p4) ->
  load_line (section, data) (item_line (Setting p1 key p2 p3 value p4))
  = (section, if bool_decide (section = []) then data else set_value (str section) (str key) (str value) data).
Proof.
  intros Hok. destruct (trim_setting _ _ _ _ _ _ Hok) as (rest & Et & Er). unfold load_line. rewrite Et.
  destruct Hok as (_ & H2 & _ & _ & [Ks Ke]%token_outer & _ & Kn & (c & k & -> & Hm & Hb)%key_start_cons).
  cbn [app]. rewrite Hm, (bool_decide_eq_false_2 (c = "["%char)) by done. cbn [andb].
  rewrite app_comm_cons, app_assoc, split_at_eq_app
    by (apply not_elem_of_app; split; [done|by apply padding_no_eq]).
  assert (Ek : trim ((c :: k) ++ p2) = c :: k) by (apply (trim_padded [] (c :: k) p2); try done; apply H2).
  cbv zeta. rewrite Er, Ek.
  rewrite (bool_decide_eq_false_2 (c :: k = [])) by done. by destruct (bool_decide (section = [])).
Qed.

End Turn.

Definition item_data (i : item) (section : bytes) (data : gmap string (gmap string string)) :=
  match i with
  | Setting _ k _ _ v _ =>
    if bool_decide (section = []) then data else set_value (str section) (str k) (str v) data
  | _ => data
  end.

Lemma load_item i section data :
  item_ok i -> load_line (section, data) (item_line i) = (item_section i section, item_data i section data).
Proof.
  destruct i; intros Hok.
  - by apply load_blank.
  - destruct Hok as (? & ? & _). by apply load_comment.
  - by apply load_header.
  - by apply load_setting.
Qed.

Lemma item_no_newline i : item_ok i -> newline ∉ item_line i.
Proof.
  unfold padding, token. destruct i as [pad|pad mark text|p1 p2 name p3 p4|p1 key p2 p3 value p4]; simpl;
    repeat (rewrite not_elem_of_app || rewrite not_elem_of_cons).
  - by intros [_ ?].
  - intros ([_ ?] & Hm & ?). split; [done|]. split; [|done]. by intros <-.
  - intros ([_ ?] & [_ ?] & [_ ?] & [_ ?] & (? & _)). by repeat split.
  - intros ([_ ?] & [_ ?] & [_ ?] & [_ ?] & (? & _) & (? & _) & _). by repeat split.
Qed.

(** The value stored under a section and key. *)
Definition value_at (section key : string) (data : gmap string (gmap string string)) : option string :=
  data !! section ≫= (fun values => values !! key).

Lemma value_at_set s k v section key data :
  value_at section key (set_value s k v data)
  = if bool_decide (s = section /\ k = key) then Some v else value_at section key data.
Proof.
  unfold value_at, set_value. destruct (decide (s = section)) as [->|Hs].
  - rewrite lookup_insert_eq. simpl. destruct (decide (k = key)) as [->|Hk].
    + rewrite lookup_insert_eq. by rewrite bool_decide_eq_true_2.
    + rewrite lookup_insert_ne, bool_decide_eq_false_2 by naive_solver. by destruct (data !! section).
  - rewrite lookup_insert_ne, bool_decide_eq_false_2 by naive_solver. done.
Qed.

Lemma load_items items : forall section data,
  Forall item_ok items -> forall s k,
  value_at s k (fold_left load_line (map item_line items) (section, data)).2
  = match setting_of s k section items with Some v => Some v | None => value_at s k data end.
Proof.
  induction items as [|i items IH]; intros section data Hok s k; [done|].
  apply Forall_cons in Hok as [Hi Hok]. cbn [map fold_left]. rewrite load_item, IH by done. cbn [setting_of].
  destruct (setting_of s k (item_section i section) items); [done|].
  destruct i as [| | |p1 key p2 p3 value p4]; simpl; try done. destruct (bool_decide (section = [])) eqn:E; b2p.
  - rewrite bool_decide_eq_false_2 by naive_solver. done.
  - rewrite value_at_set. destruct (decide (str section = s /\ str key = k)) as [D|D].
    + rewrite !bool_decide_eq_true_2 by naive_solver. done.
    + rewrite !bool_decide_eq_false_2 by naive_solver. done.
Qed.

Lemma getString_value section key d c :
  getString section key d c = default d (value_at section key (m_data c)).
Proof. unfold getString, value_at. destruct (m_data c !! section) as [vs|]; [|done]. simpl. by destruct (vs !! key). Qed.

Lemma load_file items c :
  Forall item_ok items ->
  (load (Some (item_file items)) c).1 = true
  /\ forall section key d, getString section key d (load (Some (item_file items)) c).2
                           = default d (setting_of section key [] items).
Proof.
  intros Hok. split; [done|]. intros section key d. rewrite getString_value. simpl.
  unfold item_file. rewrite chars_str.
  replace (map (fun i => item_line i ++ [newline]) items) with (map (fun l => l ++ [newline]) (map item_line items))
    by (by rewrite map_map).
  rewrite getline_file.
  - unfold load_lines. rewrite load_items by done. by destruct (setting_of section key [] items).
  - rewrite Forall_map. apply (Forall_impl _ _ _ Hok), item_no_newline.
Qed.

(** [getInt] of a text that begins with a number. *)
Lemma stoi_number z t :
  Z.abs z < 10 ^ 20 -> no_digit t ->
  stoi (dec z +:+ t) = if bool_decide (- 2 ^ 31 <= z < 2 ^ 31) then Ok z else Err OutOfRange.
Proof.
  intros Hz Ht. unfold stoi, stoll. rewrite strto_dec_tail by done.
  replace (if z <? 0 then - Z.abs z else Z.abs z) with z by (destruct (Z.ltb_spec z 0); lia).
  destruct (decide (- 2 ^ 31 <= z < 2 ^ 31)) as [D|D].
  - rewrite bool_decide_eq_true_2 by done.
    rewrite (proj2 (Z.leb_le _ _)), (proj2 (Z.ltb_lt _ _)) by lia. cbn [andb res_bind].
    by rewrite (proj2 (Z.leb_le _ _)), (proj2 (Z.ltb_lt _ _)) by lia.
  - rewrite bool_decide_eq_false_2 by done. destruct (_ && _); [|done]. cbn [res_bind].
    destruct (Z.leb_spec (- 2 ^ 31) z), (Z.ltb_spec z (2 ^ 31)); cbn [andb]; try done. by destruct D.
Qed.

(** C23: A configuration file made of blank lines, comments, section headers and
    settings, padded with white space, is read back as it says: the text of a
    key is that of its last setting under its section, or the default; a number
    in the range of int is read as that number, also when other text follows
    it; a number outside the range and a text without a number give the
    default. *)
Theorem config_file_reads_back items c0 section key :
  Forall item_ok items ->
  let c := (load (Some (item_file items)) c0).2 in
  (forall d, getString section key d c = default d (setting_of section key [] items))
  /\ (forall z t d, setting_of section key [] items = Some (dec z +:+ t) -> Z.abs z < 10 ^ 20 -> no_digit t ->
        getInt section key d c = if bool_decide (- 2 ^ 31 <= z < 2 ^ 31) then z else d)
  /\ (forall v d, setting_of section key [] items = Some v -> strto v = None -> getInt section key d c = d).
Proof.
  intros Hok c. destruct (load_file items c0 Hok) as [_ G]. fold c in G. split; [apply G|].
  unfold getInt. rewrite G. split.
  - intros z t d E Hz Ht. rewrite E. simpl. rewrite bool_decide_eq_false_2.
    + cbn [negb]. rewrite stoi_number by done. by destruct (bool_decide _).
    + intros H. apply (f_equal (fun s => chars s)) in H. rewrite chars_app in H. apply app_nil in H as [H _].
      apply (dec_nonempty z). by rewrite <- (str_chars (dec z)), H.
  - intros v d E Hv. rewrite E. simpl. destruct (negb _); [|done]. unfold stoi, stoll. by rewrite Hv.
Qed.

Definition sample : list item :=
  [Comment [] "#" (chars " listening"); Header [] [] (chars "server") [] [" "%char];
   Setting [] (chars "port") [" "%char] [" "%char] (chars "99999999999") [];
   Setting ["009"%char] (chars "port") [] [" "%char] (chars "8080 # a port") [" "%char]; Blank [" "%char];
   Setting [] (chars "name") [" "%char] [] (chars "a=b") []].

Lemma sample_ok : Forall item_ok sample.
Proof. apply (bool_decide_unpack _). by vm_compute. Qed.

Lemma config_file_reads_back_witness :
  getInt "server" "port" 8888 (load (Some (item_file sample)) newConfig).2 = 8080
  /\ getString "server" "name" "" (load (Some (item_file sample)) newConfig).2 = "a=b".
Proof.
  destruct (config_file_reads_back sample newConfig "server" "port" sample_ok) as (_ & I & _).
  destruct (config_file_reads_back sample newConfig "server" "name" sample_ok) as (S & _).
  split; [|by rewrite S; vm_compute].
  rewrite (I 8080 " # a port" 8888); [by vm_compute|by vm_compute|lia|done].
Defined.

End config.
