(* ===== verification/Logging.v ===== *)
(** * Logging: the log, its lines and the trace contexts they carry
      (src/base/log.h, log.cpp; the trace contexts of src/server_full.cpp)

    [Log] keeps one spdlog logger, made by [init] at the start of main, and the
    LOG_ macros follow its pointer.  The pattern of a line has a flag of the
    program's own, which prints the trace context of the current thread; the
    server enters such contexts in scopes around the handling of a packet, of
    a task and of an answer.  spdlog's sinks and the file system are
    parameters; what the pattern flags print is spdlog's documentation. *)
From stdpp Require Import pretty.
From S2P Require Import Prelude Text Infra.
Import text infra.

Module log.

(** ** The logger *)
(** Whether [rotating_file_sink_mt] can be made, which throws [spdlog_ex]
    otherwise, on a file system. *)
Class SpdLog (Fs : Type) := {
  create_directories : string -> Fs -> Fs;
  rotating_file_sink : string -> Z -> Z -> Fs -> option Fs;
}.

Inductive level_enum := trace | debug | info | warn | err | critical | off.
Definition level_number (l : level_enum) : Z :=
  match l with trace => 0 | debug => 1 | info => 2 | warn => 3 | err => 4 | critical => 5 | off => 6 end.
Definition level_name (l : level_enum) : string :=
  match l with
  | trace => "trace" | debug => "debug" | info => "info" | warn => "warning" | err => "error"
  | critical => "critical" | off => "off"
  end.

Record Logger := mkLogger { l_name : string; l_path : string; l_level : Z; l_pattern : string }.

Record Log := mkLog {
  s_logger : option Logger;
  is_default : bool;          (* [spdlog::set_default_logger] *)
  flush_level : option Z;     (* [flush_on] *)
  flush_seconds : option Z;   (* [flush_every] *)
  printed : list string;      (* [printf] *)
  lines : list string;        (* what both sinks received *)
}.

Definition newLog : Log := mkLog None false None None [] [].

Definition kPattern : string := "time=%Y-%m-%dT%H:%M:%S.%e level=%l thread=%t %* msg=%v".

(** [std::filesystem::path::parent_path]: the part before the last slash. *)
Definition slash : ascii := "/"%char.
Fixpoint drop_slashes (rev_path : bytes) : bytes :=
  match rev_path with c :: p => if bool_decide (c = slash) then drop_slashes p else rev_path | [] => [] end.
Fixpoint drop_name (rev_path : bytes) : option bytes :=
  match rev_path with
  | [] => None
  | c :: p => if bool_decide (c = slash) then Some (drop_slashes p) else drop_name p
  end.
Definition parent_path (path : string) : option string :=
  (fun p => match p with [] => "/" | _ => str (rev p) end) <$> drop_name (rev (chars path)).

Section Init.
Context {Fs : Type} `{!SpdLog Fs}.

(** [create_directories] of the parent, whose error code is ignored. *)
Definition with_parent (logPath : string) (fs : Fs) : Fs :=
  match parent_path logPath with Some d => create_directories d fs | None => fs end.

Definition init (logName logPath : string) (level maxFileSize maxFiles : Z) (s : Log) (fs : Fs) : Log * Fs :=
  let fs := with_parent logPath fs in
  match rotating_file_sink logPath maxFileSize maxFiles fs with
  | None =>
    (mkLog (s_logger s) (is_default s) (flush_level s) (flush_seconds s) (printed s ++ ["Log init failed: "]) (lines s), fs)
  | Some fs =>
    (mkLog (Some (mkLogger logName logPath level kPattern)) true (Some (level_number info)) (Some 1) (printed s) (lines s), fs)
  end.
End Init.

Definition setLevel (level : Z) (s : Log) : Log :=
  match s_logger s with
  | Some l => mkLog (Some (mkLogger (l_name l) (l_path l) level (l_pattern l))) (is_default s) (flush_level s)
                (flush_seconds s) (printed s) (lines s)
  | None => s
  end.

Definition getLogger (s : Log) : res Logger :=
  match s_logger s with Some l => Ok l | None => Err NullPointer end.

(** ** A line *)
(** The clock and the thread of a message, for the flags of the pattern. *)
Record Stamp := mkStamp { year : string; month : string; day : string; hour : string; minute : string;
                          second : string; millis : string; thread : string }.

Definition flag (st : Stamp) (l : level_enum) (t : TraceState) (msg : string) (c : ascii) : bytes :=
  if Ascii.eqb c "Y"%char then chars (year st)
  else if Ascii.eqb c "m"%char then chars (month st)
  else if Ascii.eqb c "d"%char then chars (day st)
  else if Ascii.eqb c "H"%char then chars (hour st)
  else if Ascii.eqb c "M"%char then chars (minute st)
  else if Ascii.eqb c "S"%char then chars (second st)
  else if Ascii.eqb c "e"%char then chars (millis st)
  else if Ascii.eqb c "l"%char then chars (level_name l)
  else if Ascii.eqb c "t"%char then chars (thread st)
  else if Ascii.eqb c "*"%char then chars (FormatTraceContextForLog t)
  else if Ascii.eqb c "v"%char then chars msg
  else if Ascii.eqb c "%"%char then ["%"%char]
  else ["%"%char; c].

(** [pattern_formatter]: a percent sign and the flag after it are replaced. *)
Fixpoint format (f : ascii -> bytes) (pattern : bytes) : bytes :=
  match pattern with
  | [] => []
  | c :: rest =>
    if Ascii.eqb c "%"%char
    then match rest with d :: rest' => f d ++ format f rest' | [] => [c] end
    else c :: format f rest
  end.

(** [LOG_DEBUG] to [LOG_FATAL]: [getLogger()->debug(...)] with the message
    formatted. *)
Definition log (st : Stamp) (l : level_enum) (msg : string) (t : TraceState) (s : Log) : res Log :=
  logger <- getLogger s ;;
  Ok (if l_level logger <=? level_number l
      then mkLog (s_logger s) (is_default s) (flush_level s) (flush_seconds s) (printed s)
             (lines s ++ [str (format (flag st l t msg) (chars (l_pattern logger)))])
      else s).

(** ** Scopes *)
(** What code does to the log: messages, exceptions and scopes of trace
    contexts, which end with their block in every case. *)
Inductive traced :=
| Say (st : Stamp) (l : level_enum) (msg : string)
| Throw
| Scope (context : TraceContext -> TraceContext) (body : list traced).

(** Also answers whether the code ran to its end. *)
Fixpoint run (p : traced) (t : TraceState) (s : Log) {struct p} : res (bool * TraceState * Log) :=
  match p with
  | Say st l msg => s <- log st l msg t s ;; Ok (true, t, s)
  | Throw => Ok (false, t, s)
  | Scope context body =>
    let '(scope, t1) := enterScope (context (g_currentTraceContext t)) t in
    '(ok, t2, s) <-
      (fix go (ps : list traced) (t : TraceState) (s : Log) : res (bool * TraceState * Log) :=
         match ps with
         | [] => Ok (true, t, s)
         | p :: ps => '(ok, t, s) <- run p t s ;; if (ok : bool) then go ps t s else Ok (false, t, s)
         end) body t1 s ;;
    Ok (ok, leaveScope scope t2, s)
  end.

Fixpoint run_all (ps : list traced) (t : TraceState) (s : Log) : res (bool * TraceState * Log) :=
  match ps with
  | [] => Ok (true, t, s)
  | p :: ps => '(ok, t, s) <- run p t s ;; if (ok : bool) then run_all ps t s else Ok (false, t, s)
  end.

(** ** The records of a program, without the thread's state *)
Record Entry := mkEntry { e_context : TraceContext; e_stamp : Stamp; e_level : level_enum; e_msg : string }.

Fixpoint said (p : traced) (c : TraceContext) {struct p} : bool * list Entry :=
  match p with
  | Say st l msg => (true, [mkEntry c st l msg])
  | Throw => (false, [])
  | Scope context body =>
    (fix go (ps : list traced) : bool * list Entry :=
       match ps with
       | [] => (true, [])
       | p :: ps => let '(ok, es) := said p (context c) in if (ok : bool) then let '(ok, es') := go ps in (ok, es ++ es') else (false, es)
       end) body
  end.

Fixpoint said_all (ps : list traced) (c : TraceContext) : bool * list Entry :=
  match ps with
  | [] => (true, [])
  | p :: ps => let '(ok, es) := said p c in if (ok : bool) then let '(ok, es') := said_all ps c in (ok, es ++ es') else (false, es)
  end.

(** Outside all scopes the context is the empty one. *)
Definition trace_ok (t : TraceState) : Prop := g_hasCurrentTraceContext t = false -> g_currentTraceContext t = emptyTrace.

Definition line (pattern : string) (e : Entry) : string :=
  str (format (flag (e_stamp e) (e_level e) (mkTraceState (e_context e) true) (e_msg e)) (chars pattern)).

Definition kept (level : Z) (e : Entry) : Prop := level <= level_number (e_level e).
#[global] Instance kept_dec level e : Decision (kept level e).
Proof. unfold kept. apply _. Defined.

Definition add_lines (ls : list string) (s : Log) : Log :=
  mkLog (s_logger s) (is_default s) (flush_level s) (flush_seconds s) (printed s) (lines s ++ ls).

Section Runs.
Variable logger : Logger.

(** Running a program writes its records and leaves the thread's context as it
    found it. *)
Definition writes (r : res (bool * TraceState * Log)) (a : bool * list Entry) (t : TraceState) (s : Log) : Prop :=
  r = Ok (a.1, t, add_lines (line (l_pattern logger) <$> filter (kept (l_level logger)) a.2) s).

Lemma add_lines_nil s : add_lines [] s = s.
Proof. unfold add_lines. rewrite app_nil_r. by destruct s. Qed.

Lemma add_lines_app a b s : add_lines (a ++ b) s = add_lines b (add_lines a s).
Proof. unfold add_lines. cbn. by rewrite app_assoc. Qed.

Lemma leave_enter c t : trace_ok t -> leaveScope (enterScope c t).1 (enterScope c t).2 = t.
Proof.
  unfold trace_ok, leaveScope, enterScope. cbn. destruct t as [cur has]. cbn. intros H.
  destruct has; [done|]. by rewrite H.
Qed.

Lemma run_all_cons_writes p ps c t s :
  writes (run p t s) (said p c) t s ->
  (forall s', s_logger s' = s_logger s -> writes (run_all ps t s') (said_all ps c) t s') ->
  writes (run_all (p :: ps) t s) (said_all (p :: ps) c) t s.
Proof.
  intros Hp Hps. cbn [run_all said_all]. unfold writes in *. rewrite Hp. cbn [res_bind].
  destruct (said p c) as [[] es]; cbn [fst snd]; [|done].
  destruct (said_all ps c) as [ok es'] eqn:E. rewrite Hps by done. cbn [fst snd]. by rewrite filter_app, fmap_app, add_lines_app.
Qed.

Lemma run_scope context body t s :
  run (Scope context body) t s =
  ('(ok, t2, s) <- run_all body (enterScope (context (g_currentTraceContext t)) t).2 s ;;
   Ok (ok, leaveScope (enterScope (context (g_currentTraceContext t)) t).1 t2, s)).
Proof. reflexivity. Qed.

Lemma said_scope context body c : said (Scope context body) c = said_all body (context c).
Proof.
  cbn [said]. induction body as [|p ps IH]; [done|]. cbn [said_all].
  destruct (said p (context c)) as [[] es]; [|done]. by rewrite <- IH.
Qed.

Lemma traced_ind' (Pr : traced -> Prop) :
  (forall st l msg, Pr (Say st l msg)) -> Pr Throw ->
  (forall context body, Forall Pr body -> Pr (Scope context body)) -> forall p, Pr p.
Proof.
  intros H1 H2 H3. fix IH 1. intros [st l msg| |context body]; [apply H1|apply H2|]. apply H3.
  induction body as [|p ps IHps]; constructor; [apply IH|exact IHps].
Qed.

Lemma run_writes p : forall t s,
  s_logger s = Some logger -> trace_ok t -> writes (run p t s) (said p (g_currentTraceContext t)) t s.
Proof.
  induction p as [st l msg| |context body IH] using traced_ind'; intros t s Hs Ht.
  - unfold writes. cbn [run said fst snd]. unfold log, getLogger. rewrite Hs. cbn [res_bind]. rewrite filter_cons, filter_nil.
    destruct (Z.leb_spec (l_level logger) (level_number l)).
    + rewrite decide_True by (unfold kept; cbn; lia). destruct s as [sl ? ? ? ? ?]. cbn in Hs. subst sl. reflexivity.
    + rewrite decide_False by (unfold kept; cbn; lia). by rewrite add_lines_nil.
  - unfold writes. cbn. by rewrite add_lines_nil.
  - rewrite run_scope, said_scope. set (c := context (g_currentTraceContext t)).
    assert (Hbody : forall s, s_logger s = Some logger ->
      writes (run_all body (enterScope c t).2 s) (said_all body c) (enterScope c t).2 s).
    { clear Hs s. induction IH as [|p ps Hp _ IHps]; intros s Hs; [unfold writes; cbn; by rewrite add_lines_nil|].
      apply run_all_cons_writes; [exact (Hp (enterScope c t).2 s Hs (fun H => match Bool.diff_true_false H with end))|].
      intros s' Hs'. apply IHps. congruence. }
    specialize (Hbody s Hs). unfold writes in *. rewrite Hbody. cbn [res_bind]. by rewrite leave_enter.
Qed.

Lemma run_all_writes ps : forall t s,
  s_logger s = Some logger -> trace_ok t -> writes (run_all ps t s) (said_all ps (g_currentTraceContext t)) t s.
Proof.
  induction ps as [|p ps IH]; intros t s Hs Ht; [unfold writes; cbn; by rewrite add_lines_nil|].
  apply run_all_cons_writes; [by apply run_writes|]. intros s' Hs'. apply IH; [congruence|done].
Qed.

End Runs.

(** ** Reading a line *)
Definition space : ascii := " "%char.
Definition equals : ascii := "="%char.

Fixpoint cut (d : ascii) (s : bytes) : option (bytes * bytes) :=
  match s with
  | [] => None
  | c :: s => if bool_decide (c = d) then Some ([], s) else (fun p => (c :: p.1, p.2)) <$> cut d s
  end.

(** Fields up to a space each, the message at the end. *)
Fixpoint read_fields (fuel : nat) (s : bytes) : option (list (string * string) * string) :=
  match fuel with
  | O => None
  | S fuel =>
    if bool_decide (take 4 s = chars "msg=") then Some ([], str (drop 4 s))
    else match cut equals s with
         | None => None
         | Some (k, s) =>
           match cut space s with
           | None => None
           | Some (v, s) => (fun r => ((str k, str v) :: r.1, r.2)) <$> read_fields fuel s
           end
         end
  end.
Definition read_line (l : string) : option (list (string * string) * string) := read_fields (length (chars l)) (chars l).

Definition time_text (st : Stamp) : string :=
  year st +:+ "-" +:+ month st +:+ "-" +:+ day st +:+ "T" +:+ hour st +:+ ":" +:+ minute st +:+ ":" +:+ second st
  +:+ "." +:+ millis st.

Definition context_fields (c : TraceContext) : list (string * string) :=
  [("trace_id", NormalizeField (traceId c)); ("request_id", pretty (t_requestId c));
   ("session_id", NormalizeField (t_sessionId c)); ("user_id", NormalizeField (t_userId c));
   ("node_id", NormalizeField (t_nodeId c))]
  ++ (if 0 <? t_messageId c then [("message_id", pretty (t_messageId c))] else [])
  ++ (if 0 <? t_serverSeq c then [("server_seq", pretty (t_serverSeq c))] else []).

Definition fields (e : Entry) : list (string * string) :=
  [("time", time_text (e_stamp e)); ("level", level_name (e_level e)); ("thread", thread (e_stamp e))]
  ++ context_fields (e_context e).

(** No field holds a space. *)
Definition no_space (s : string) : bool := bool_decide (space ∉ chars s).
Definition plain_stamp (st : Stamp) : bool :=
  no_space (year st) && no_space (month st) && no_space (day st) && no_space (hour st) && no_space (minute st)
  && no_space (second st) && no_space (millis st) && no_space (thread st).
Definition plain_context (c : TraceContext) : bool :=
  no_space (traceId c) && no_space (t_sessionId c) && no_space (t_userId c) && no_space (t_nodeId c).
Definition plain (e : Entry) : bool := plain_stamp (e_stamp e) && plain_context (e_context e).

Lemma cut_app d k v : d ∉ k -> cut d (k ++ d :: v) = Some (k, v).
Proof.
  induction k as [|c k IH]; intros Hn; cbn [cut app]; [by rewrite bool_decide_eq_true_2|].
  apply not_elem_of_cons in Hn as [Hc Hk]. by rewrite bool_decide_eq_false_2, IH by congruence.
Qed.

Definition field (kv : string * string) : bytes := chars kv.1 ++ equals :: chars kv.2 ++ [space].

Definition good_field (kv : string * string) : Prop :=
  equals ∉ chars kv.1 /\ space ∉ chars kv.2 /\ forall s, take 4 (field kv ++ s) <> chars "msg=".

Lemma read_fields_ok fs msg : forall fuel,
  Forall good_field fs -> (length fs < fuel)%nat ->
  read_fields fuel (mjoin (field <$> fs) ++ chars "msg=" ++ chars msg) = Some (fs, msg).
Proof.
  induction fs as [|kv fs IH]; intros [|fuel] Hf Hl; try (cbn in Hl; lia).
  - cbn [fmap list_fmap mjoin list_join app read_fields]. rewrite take_app_length', drop_app_length' by done.
    by rewrite bool_decide_eq_true_2, str_chars by done.
  - apply Forall_cons in Hf as [(H1 & H2 & H3) Hf]. rewrite fmap_cons.
    change (mjoin (field kv :: (field <$> fs))) with (field kv ++ mjoin (field <$> fs)). rewrite <- app_assoc.
    cbn [read_fields]. rewrite bool_decide_eq_false_2 by apply H3.
    unfold field at 1. rewrite <- !app_assoc. cbn [app]. rewrite cut_app by done. rewrite <- app_assoc. cbn [app].
    rewrite cut_app by done. rewrite IH by (done || (cbn in Hl; lia)). cbn. rewrite !str_chars. by destruct kv.
Qed.

Lemma format_pattern f :
  format f (chars kPattern)
  = chars "time=" ++ f "Y"%char ++ chars "-" ++ f "m"%char ++ chars "-" ++ f "d"%char ++ chars "T" ++ f "H"%char
    ++ chars ":" ++ f "M"%char ++ chars ":" ++ f "S"%char ++ chars "." ++ f "e"%char
    ++ chars " level=" ++ f "l"%char ++ chars " thread=" ++ f "t"%char ++ chars " " ++ f "*"%char
    ++ chars " msg=" ++ f "v"%char.
Proof. cbn. by rewrite app_nil_r. Qed.

Ltac flatten := repeat (rewrite <- app_assoc || rewrite <- app_comm_cons).

Lemma context_text c :
  chars (FormatTraceContextForLog (mkTraceState c true)) ++ [space] = mjoin (field <$> context_fields c).
Proof.
  unfold FormatTraceContextForLog, context_fields. cbn [g_currentTraceContext].
  destruct (0 <? t_messageId c), (0 <? t_serverSeq c); rewrite !chars_app; cbn -[pretty NormalizeField];
    unfold field; cbn -[pretty NormalizeField]; rewrite ?app_nil_r; flatten; reflexivity.
Qed.

Lemma line_fields e :
  chars (line kPattern e) = mjoin (field <$> fields e) ++ chars "msg=" ++ chars (e_msg e).
Proof.
  unfold line, fields. rewrite chars_str, format_pattern, fmap_app, join_app, <- context_text.
  unfold field, time_text. cbn [fmap list_fmap mjoin list_join fst snd]. rewrite !chars_app.
  cbn -[FormatTraceContextForLog]. flatten. reflexivity.
Qed.

Lemma length_fields fs : (length fs <= length (mjoin (field <$> fs)))%nat.
Proof.
  induction fs as [|kv fs IH]; [done|]. rewrite fmap_cons.
  change (mjoin (field kv :: (field <$> fs))) with (field kv ++ mjoin (field <$> fs)).
  rewrite length_app. unfold field at 1. rewrite length_app. cbn [length]. lia.
Qed.

(** Numbers are printed without spaces. *)
Lemma pretty_N_go_no_space n : forall s, space ∉ chars s -> space ∉ chars (pretty_N_go n s).
Proof.
  induction n as [n IH] using (well_founded_induction N.lt_wf_0). intros s Hs.
  destruct (decide (n = 0)%N) as [->|Hn]; [by rewrite pretty_N_go_0|].
  rewrite pretty_N_go_step by lia. apply IH; [apply N.div_lt; lia|]. cbn [chars].
  apply not_elem_of_cons. split; [|done]. unfold pretty_N_char. repeat case_match; done.
Qed.

Ltac no_space_here := apply (bool_decide_unpack _); vm_compute; exact I.

Lemma pretty_no_space (z : Z) : space ∉ chars (pretty z).
Proof.
  assert (Hn : forall n : N, space ∉ chars (pretty n)).
  { intros n. unfold pretty, pretty_N. case_decide; [no_space_here|].
    apply pretty_N_go_no_space. apply not_elem_of_nil. }
  destruct z as [|p|p]; [no_space_here|apply (Hn (Npos p))|].
  change (pretty (Zneg p)) with ("-" +:+ pretty (Npos p)). rewrite chars_app. apply not_elem_of_app.
  split; [no_space_here|apply Hn].
Qed.

Lemma normalize_no_space v : no_space v = true -> space ∉ chars (NormalizeField v).
Proof.
  unfold no_space, NormalizeField. intros H. b2p. case_bool_decide; [no_space_here|done].
Qed.

Lemma time_no_space st : plain_stamp st = true -> space ∉ chars (time_text st).
Proof.
  unfold plain_stamp, no_space, time_text. intros H. b2p. rewrite !chars_app, !not_elem_of_app.
  split_and!; try done; no_space_here.
Qed.

Definition good_key (k : string) : bool :=
  bool_decide (equals ∉ chars k) && (4 <=? length (chars k))%nat && negb (bool_decide (take 4 (chars k) = chars "msg=")).

Lemma good_key_field k v : good_key k = true -> space ∉ chars v -> good_field (k, v).
Proof.
  unfold good_key. rewrite !andb_true_iff, negb_true_iff, Nat.leb_le, bool_decide_eq_true, bool_decide_eq_false.
  intros [[Hk Hl] Hm] Hv. split; [done|]. split; [done|]. intros s. unfold field. cbn [fst].
  by rewrite <- app_assoc, take_app_le.
Qed.

Lemma fields_good e : plain e = true -> Forall good_field (fields e).
Proof.
  unfold plain, plain_context. intros H. b2p.
  assert (Hth : space ∉ chars (thread (e_stamp e))) by (unfold plain_stamp, no_space in *; b2p; done).
  unfold fields, context_fields. rewrite !Forall_app.
  split_and!; repeat case_match; repeat (apply Forall_cons; split); try exact (List.Forall_nil _);
    apply good_key_field; try reflexivity;
    try apply pretty_no_space; try (by apply normalize_no_space); try (by apply time_no_space); try done.
  destruct (e_level e); no_space_here.
Qed.

Lemma line_reads_back e : plain e = true -> read_line (line kPattern e) = Some (fields e, e_msg e).
Proof.
  intros He. unfold read_line. rewrite line_fields. apply read_fields_ok; [by apply fields_good|].
  rewrite length_app. pose proof (length_fields (fields e)). cbn [chars length app]. lia.
Qed.

Section Theorems.
Context {Fs : Type} `{!SpdLog Fs}.

(** C34: The log says what the code said, where it said it.  After an [init] whose
    file could be opened, any code that logs messages, enters scopes of trace
    contexts in any nesting and throws at any point runs through the log
    without a fault, leaves the thread's context as it found it, and has
    written one line for each message at or above the level it reached, in
    order, from which a reader gets back the level, the thread, the context of
    the innermost scope and the message, provided no identifier of the
    contexts holds a space. *)
Theorem logged_lines_read_back name path level size files (fs fs' : Fs) ps t :
  rotating_file_sink path size files (with_parent path fs) = Some fs' ->
  trace_ok t -> forallb plain (said_all ps (g_currentTraceContext t)).2 = true ->
  exists s', run_all ps t (init name path level size files newLog fs).1
      = Ok ((said_all ps (g_currentTraceContext t)).1, t, s')
    /\ read_line <$> lines s'
       = (fun e => Some (fields e, e_msg e)) <$> filter (kept level) (said_all ps (g_currentTraceContext t)).2.
Proof.
  intros Hopen Ht Hp. unfold init. rewrite Hopen. cbn [fst].
  set (logger := mkLogger name path level kPattern).
  set (s := mkLog (Some logger) _ _ _ _ _). eexists. split; [exact (run_all_writes logger ps t s eq_refl Ht)|].
  cbn [add_lines lines s newLog app]. rewrite <- list_fmap_compose. apply list_fmap_ext. intros i e He.
  apply line_reads_back. apply list_elem_of_lookup_2, list_elem_of_filter in He as [_ He].
  rewrite forallb_forall in Hp. apply Hp. by apply list_elem_of_In.
Qed.

(** When the file cannot be opened [init] only prints: there is no logger, a
    level cannot be set, and the first message follows a null pointer. *)
Lemma failed_init_null_logger name path level size files fs st l msg t :
  rotating_file_sink path size files (with_parent path fs) = None ->
  let s := (init name path level size files newLog fs).1 in
  s_logger s = None /\ setLevel level s = s /\ log st l msg t s = Err NullPointer.
Proof. intros Hopen. unfold init. by rewrite Hopen. Qed.

(** [setLevel] on a logger: what is written afterwards. *)
Lemma setLevel_filters level s logger st l msg t :
  s_logger s = Some logger ->
  log st l msg t (setLevel level s)
  = Ok (if level <=? level_number l
        then add_lines [str (format (flag st l t msg) (chars (l_pattern logger)))] (setLevel level s) else setLevel level s).
Proof. intros Hs. unfold log, getLogger, setLevel. rewrite Hs. cbn. by case_match. Qed.

End Theorems.

(** ** The contexts of the server *)
Section Contexts.

Definition with_user (u : string) (c : TraceContext) : TraceContext :=
  mkTrace (traceId c) (t_requestId c) (t_sessionId c) u (t_nodeId c) (t_messageId c) (t_serverSeq c).
Definition with_session (i : string) (c : TraceContext) : TraceContext :=
  mkTrace (traceId c) (t_requestId c) i (t_userId c) (t_nodeId c) (t_messageId c) (t_serverSeq c).
Definition with_message (m : Z) (c : TraceContext) : TraceContext :=
  mkTrace (traceId c) (t_requestId c) (t_sessionId c) (t_userId c) (t_nodeId c) m (t_serverSeq c).
Definition with_seq (q : Z) (c : TraceContext) : TraceContext :=
  mkTrace (traceId c) (t_requestId c) (t_sessionId c) (t_userId c) (t_nodeId c) (t_messageId c) q.

(** [packetTrace]: the user and the session of the connection, if it has one. *)
Definition packet_trace (id : string) (requestId : Z) (nodeId : string) (user : option (string * string)) : TraceContext :=
  let c := mkTrace id requestId "" "" nodeId 0 0 in
  match user with Some (u, sid) => with_session sid (with_user u c) | None => c end.

Definition login_trace (userId : string) : TraceContext -> TraceContext := with_user userId.
Definition login_response_trace (sessionId : string) : TraceContext -> TraceContext := with_session sessionId.
Definition p2p_trace (fromUserId : string) : TraceContext -> TraceContext := with_user fromUserId.
Definition p2p_response_trace (msgId serverSeq : Z) (c : TraceContext) : TraceContext :=
  with_seq serverSeq (with_message msgId c).
Definition ack_trace (userId : string) (msgId serverSeq : Z) (c : TraceContext) : TraceContext :=
  with_seq serverSeq (with_message msgId (with_user userId c)).
Definition ack_response_trace (lastAckedSeq : Z) : TraceContext -> TraceContext := with_seq lastAckedSeq.
Definition pull_trace (userId : string) (lastAckedSeq : Z) (c : TraceContext) : TraceContext :=
  with_seq lastAckedSeq (with_user userId c).
Definition broadcast_trace (fromUserId : string) : TraceContext -> TraceContext := with_user fromUserId.

(** A task of [submitBusinessTask] runs in a scope of its own on the worker,
    whatever context that thread had. *)
Definition task_scope (captured : TraceContext) (body : list traced) : traced := Scope (fun _ => captured) body.

(** The changes the server makes to a context keep the request it is about. *)
Definition same_request (c d : TraceContext) : Prop :=
  traceId d = traceId c /\ t_requestId d = t_requestId c /\ t_nodeId d = t_nodeId c.

Inductive server_scope : (TraceContext -> TraceContext) -> Prop :=
| scope_login u : server_scope (login_trace u)
| scope_login_response i : server_scope (login_response_trace i)
| scope_p2p u : server_scope (p2p_trace u)
| scope_p2p_response m q : server_scope (p2p_response_trace m q)
| scope_ack u m q : server_scope (ack_trace u m q)
| scope_ack_response q : server_scope (ack_response_trace q)
| scope_pull u q : server_scope (pull_trace u q)
| scope_broadcast u : server_scope (broadcast_trace u).

Lemma server_scope_same_request f c : server_scope f -> same_request c (f c).
Proof. by intros []. Qed.

(** Code all of whose scopes are the server's. *)
Inductive server_code : traced -> Prop :=
| code_say st l msg : server_code (Say st l msg)
| code_throw : server_code Throw
| code_scope f body : server_scope f -> Forall server_code body -> server_code (Scope f body).

Lemma same_request_trans c d e : same_request c d -> same_request d e -> same_request c e.
Proof. unfold same_request. intros (-> & -> & ->) (-> & -> & ->). done. Qed.

Lemma said_all_forall (Q : Entry -> Prop) ps c :
  Forall (fun p => Forall Q (said p c).2) ps -> Forall Q (said_all ps c).2.
Proof.
  induction 1 as [|p ps Hp _ IH]; [by constructor|]. cbn [said_all]. destruct (said p c) as [[] es]; [|done].
  destruct (said_all ps c) as [ok es']. cbn in *. by apply Forall_app.
Qed.

(** Every line logged for a request, on the loop's thread, in the task it is
    captured by and in the callbacks with their answers, names the request. *)
Lemma entries_same_request p : forall c, server_code p -> Forall (fun e => same_request c (e_context e)) (said p c).2.
Proof.
  induction p as [st l msg| |f body IH] using traced_ind'; intros c Hc; [by repeat constructor|by constructor|].
  inversion_clear Hc as [| |? ? Hf Hb]. rewrite said_scope. apply said_all_forall.
  pose proof (server_scope_same_request f c Hf) as Hs. induction IH as [|p ps Hp _ IHps]; [by constructor|].
  apply Forall_cons in Hb as [Hb1 Hb2]. constructor; [|by apply IHps].
  eapply Forall_impl; [by apply (Hp (f c))|]. intros e He. by apply (same_request_trans c (f c)).
Qed.

(** The same for the packet callback and for a task: their scopes set the
    context, so it does not matter what the thread had before. *)
Lemma request_lines_name_request captured body c :
  Forall server_code body ->
  Forall (fun e => same_request captured (e_context e)) (said (task_scope captured body) c).2.
Proof.
  intros Hb. unfold task_scope. rewrite said_scope. apply said_all_forall.
  eapply Forall_impl; [exact Hb|]. intros p Hp. by apply entries_same_request.
Qed.

End Contexts.

(** ** fmt *)
(** The messages are formatted by fmt: [{}] is replaced by the next argument. *)
Fixpoint vformat (s : bytes) (args : list string) : bytes :=
  match s with
  | [] => []
  | c :: rest =>
    match rest with
    | d :: rest' =>
      if Ascii.eqb c "{"%char && Ascii.eqb d "}"%char
      then match args with a :: args => chars a ++ vformat rest' args | [] => c :: d :: vformat rest' args end
      else c :: vformat rest args
    | [] => [c]
    end
  end.

(** Text without braces ignores its arguments. *)
Lemma vformat_no_braces s args : "{"%char ∉ s -> vformat s args = s.
Proof.
  induction s as [|c s IH]; [done|]. intros [Hc Hs]%not_elem_of_cons. cbn [vformat].
  destruct s as [|d s]; [done|]. rewrite (proj2 (Ascii.eqb_neq c "{"%char)) by congruence. cbn [andb]. by rewrite IH.
Qed.

(** The poller's messages are written for printf: the values are lost. *)
Lemma poller_messages_lose_values op fd reason :
  vformat (chars "epoll_ctl op=%d fd=%d failed: %s") [op; fd; reason] = chars "epoll_ctl op=%d fd=%d failed: %s".
Proof. apply vformat_no_braces. no_space_here. Qed.

(** ** Concrete lines *)
Definition ex_stamp : Stamp := mkStamp "2026" "01" "02" "03" "04" "05" "678" "77".
#[local] Instance ex_spdlog : SpdLog (list string) := {|
  create_directories d fs := d :: fs;
  rotating_file_sink path size files fs := if 0 <? size then Some (path :: fs) else None |}.

Definition ex_code : list traced :=
  [Say ex_stamp info "up";
   Scope (fun _ => packet_trace "t1" 7 "n1" None)
     [Say ex_stamp info "Received packet"; Say ex_stamp debug "not written";
      Scope (login_trace "bob") [Say ex_stamp warn "a message, with = and spaces"; Throw; Say ex_stamp info "never"]];
   Say ex_stamp info "never"].

Lemma logged_lines_read_back_witness :
  exists s', run_all ex_code (mkTraceState emptyTrace false) (init "server" "logs/a.log" 2 100 3 newLog []).1
      = Ok (false, mkTraceState emptyTrace false, s')
    /\ (fun r => (r.2, r.1 !! 6%nat)) <$> omap read_line (lines s')
       = [("up", Some ("user_id", "-")); ("Received packet", Some ("user_id", "-"));
          ("a message, with = and spaces", Some ("user_id", "bob"))].
Proof.
  destruct (logged_lines_read_back "server" "logs/a.log" 2 100 3 [] ["logs/a.log"; "logs"] ex_code (mkTraceState emptyTrace false))
    as (s' & Er & El); [vm_compute; reflexivity|intros _; reflexivity|vm_compute; reflexivity|].
  exists s'. split; [exact Er|].
  assert (Eo : forall ls (rs : list (list (string * string) * string)), read_line <$> ls = Some <$> rs -> omap read_line ls = rs).
  { induction ls as [|l ls IH]; intros [|r rs]; cbn; try discriminate; [reflexivity|]. intros [= -> E]. f_equal. apply IH, E. }
  rewrite (Eo (lines s') ((fun e => (fields e, e_msg e)) <$> filter (kept 2) (said_all ex_code emptyTrace).2)).
  - vm_compute. reflexivity.
  - rewrite <- list_fmap_compose. exact El.
Defined.

(** A user identifier with a space writes fields of its own into the line: the
    reader finds another node before the real one. *)
Lemma user_id_forges_field :
  let e := mkEntry (packet_trace "t1" 7 "n1" (Some ("bob node_id=n9", "s"))) ex_stamp info "hello" in
  (fun r => filter (fun f => f.1 = "node_id") r.1) <$> read_line (line kPattern e)
  = Some [("node_id", "n9"); ("node_id", "n1")].
Proof. vm_compute. reflexivity. Qed.

End log.
