(* ===== verification/Startup.v ===== *)
(** * Startup: [main] of the full server (src/server_full.cpp, lines 67-357 and
      1236-1241)

    The command line, the settings read from the configuration with their
    defaults and conversions, and the construction of the components up to the
    start of the event loop.  What lies outside is a parameter: the files, the
    results of connecting to MySQL and Redis (which only a build with USE_REDIS
    tries), the file system of the log, the threads the system can make, the
    generated protobuf code, and the clock readings.  Opening the listening socket
    (whose failure is only logged) and the metrics port are left out. *)
From S2P Require Import Prelude Util Text Config Protocol Codec MessageStore Serializer MessageService.
From S2P Require Import Infra Overload Heartbeat Auth ThreadPool Server MySql MySqlStore Logging.
Import util text config protocol serializer storage server.

Module startup.

(** ** The command line *)
(** The arguments after the program's name; [None]: the usage is printed. *)
Fixpoint parse_args (configPath : string) (args : list string) : option string :=
  match args with
  | [] => Some configPath
  | arg :: rest =>
    let other := if bool_decide (arg = "--help") || bool_decide (arg = "-h") then None
                 else parse_args configPath rest in
    if bool_decide (arg = "--config") || bool_decide (arg = "-c") then
      match rest with p :: rest' => parse_args p rest' | [] => other end
    else other
  end.

(** ** The settings *)
Inductive LogLevel := LTrace | LDebug | LInfo | LWarn | LErr | LCritical.

Definition parseLogLevel (levelName : string) : LogLevel :=
  let lowered := ToLower levelName in
  if bool_decide (lowered = "trace") then LTrace
  else if bool_decide (lowered = "debug") then LDebug
  else if bool_decide (lowered = "warn") || bool_decide (lowered = "warning") then LWarn
  else if bool_decide (lowered = "error") then LErr
  else if bool_decide (lowered = "critical") || bool_decide (lowered = "fatal") then LCritical
  else LInfo.

(** [spdlog::level::level_enum] as an [int]. *)
Definition level_int (l : LogLevel) : Z :=
  match l with LTrace => 0 | LDebug => 1 | LInfo => 2 | LWarn => 3 | LErr => 4 | LCritical => 5 end.

Record Options := mkOptions {
  logPath : string; logLevel : LogLevel; logMaxFileSize : Z; logMaxFiles : Z;
  port : Z; workerThreads : Z;
  heartbeatTimeout : Z; heartbeatInterval : Z;
  maxConnections : Z; maxQps : Z;
  epollMode : string; tcpNoDelay : bool;
  highWaterMarkBytes : Z; lowWaterMarkBytes : Z; maxOutputBufferBytes : Z;
  payloadFormatStr : string; o_compatibleJson : bool; protocolVersion : Z;
  o_clusterEnabled : bool; o_nodeId : string; nodeAliveTtlSeconds : Z; routeTtlSeconds : Z;
  mysqlEnabled : bool; mysqlHost : string; mysqlPort : Z; mysqlUser : string;
  mysqlPassword : string; mysqlDatabase : string; mysqlConnectTimeoutMs : Z;
  reliableRetryIntervalMs : Z; reliableAckTimeoutMs : Z; reliableRetryBackoffMs : Z;
  reliableMaxRetryCount : Z; reliableRetryBatchSize : Z;
  rateLimitEnabled : bool; maxConnectPerIpPerSec : Z; loginQps : Z; p2pQps : Z;
  broadcastQps : Z; userSendPerSec : Z;
  circuitBreakerEnabled : bool; threadPoolFailureThreshold : Z; halfOpenAfterMs : Z;
  authTimeoutSeconds : Z; idleTimeoutSeconds : Z; slowConsumerKickSeconds : Z;
  metricsEnabled : bool; metricsBind : string; metricsPort : Z; metricsPath : string;
  businessMaxQueueSize : Z;
  redisEnabled : bool; redisHost : string; redisPort : Z; redisTimeout : Z; sessionExpire : Z;
}.

(** [static_cast<size_t>] and [static_cast<uint32_t>] are applied where the
    source applies them: in this function for the log, at the use otherwise. *)
Definition read_options (c : Config) : Options :=
  mkOptions
    (getString "log" "path" "logs/server_full.log" c)
    (parseLogLevel (getString "log" "level" "info" c))
    (u64 (getInt "log" "max_file_size" (100 * 1024 * 1024) c))
    (u64 (getInt "log" "max_files" 3 c))
    (getInt "server" "port" 8888 c)
    (getInt "server" "worker_threads" 4 c)
    (getInt "heartbeat" "timeout" 30 c)
    (getInt "heartbeat" "interval" 10 c)
    (getInt "overload" "max_connections" 10000 c)
    (getInt "overload" "max_qps" 100000 c)
    (getString "net" "epoll_mode" "lt" c)
    (getBool "net" "tcp_nodelay" true c)
    (getInt "net" "high_water_mark_bytes" (1024 * 1024) c)
    (getInt "net" "low_water_mark_bytes" (256 * 1024) c)
    (getInt "net" "max_output_buffer_bytes" (4 * 1024 * 1024) c)
    (getString "protocol" "payload_format" "json" c)
    (getBool "protocol" "compatible_json" true c)
    (getInt "protocol" "version" kProtocolVersionV1 c)
    (getBool "cluster" "enabled" false c)
    (getString "cluster" "node_id" "node-1" c)
    (getInt "cluster" "node_alive_ttl_seconds" 15 c)
    (getInt "cluster" "route_ttl_seconds" 30 c)
    (getBool "mysql" "enabled" false c)
    (getString "mysql" "host" "127.0.0.1" c)
    (getInt "mysql" "port" 3306 c)
    (getString "mysql" "user" "root" c)
    (getString "mysql" "password" "" c)
    (getString "mysql" "database" "im_server" c)
    (getInt "mysql" "connect_timeout_ms" 2000 c)
    (getInt "reliable" "retry_interval_ms" 5000 c)
    (getInt "reliable" "ack_timeout_ms" 15000 c)
    (getInt "reliable" "retry_backoff_ms" 3000 c)
    (getInt "reliable" "max_retry_count" 5 c)
    (getInt "reliable" "retry_batch_size" 200 c)
    (getBool "rate_limit" "enable" false c)
    (getInt "rate_limit" "max_connect_per_ip_per_sec" 20 c)
    (getInt "rate_limit" "login_qps" 2000 c)
    (getInt "rate_limit" "p2p_qps" 10000 c)
    (getInt "rate_limit" "broadcast_qps" 200 c)
    (getInt "rate_limit" "user_send_per_sec" 50 c)
    (getBool "circuit_breaker" "enable" true c)
    (getInt "circuit_breaker" "thread_pool_failure_threshold" 10 c)
    (getInt "circuit_breaker" "half_open_after_ms" 5000 c)
    (getInt "connection" "auth_timeout_seconds" 10 c)
    (getInt "connection" "idle_timeout_seconds" 300 c)
    (getInt "connection" "slow_consumer_kick_seconds" 30 c)
    (getBool "metrics" "enable" false c)
    (getString "metrics" "bind" "0.0.0.0" c)
    (getInt "metrics" "port" 9100 c)
    (getString "metrics" "path" "/metrics" c)
    (getInt "thread_pool" "max_queue_size" 10000 c)
    (getBool "redis" "enabled" false c)
    (getString "redis" "host" "127.0.0.1" c)
    (getInt "redis" "port" 6379 c)
    (getInt "redis" "timeout_ms" 2000 c)
    (getInt "redis" "session_expire" 86400 c).

Definition mysql_options (o : Options) : mysql_store.MySqlStoreOptions :=
  mysql_store.mkOptions true (mysqlHost o) (mysqlPort o) (mysqlUser o) (mysqlPassword o)
    (mysqlDatabase o) (mysqlConnectTimeoutMs o).

(** ** The components *)
Section Boot.
Context `{JsonLib} `{infra.Double} {St R P Fs : Type}
  `{IMessageStore St} `{auth.Redis R} `{auth.SessionRepository P} `{log.SpdLog Fs}.

(** The world outside the process. *)
Record Outside := mkOutside {
  file : string -> option string;
  proto : option ProtoLib;                       (* generated code, when compiled in *)
  memory_store : St;                             (* a new InMemoryMessageStore *)
  mysql_store : mysql_store.MySqlStoreOptions -> option St;  (* a store whose [init] succeeded *)
  session_table : mysql_store.MySqlStoreOptions -> bool * P; (* [connect] of the session client *)
  redis : option (string -> Z -> Z -> bool * R); (* [connect], in a build with USE_REDIS *)
  no_redis : R;
  disk : Fs;
  can_spawn : Z -> bool;                         (* so many more threads can be made *)
  clock : nat -> Z;
  stamp : log.Stamp;
  build : string;                                (* [__DATE__] and [__TIME__] *)
}.

Variable out : Outside.

(** [parsePayloadFormat], and json when protobuf is not compiled in. *)
Definition choose_format (o : Options) : PayloadFormat :=
  let f := parsePayloadFormat (payloadFormatStr o) in
  if bool_decide (f = Protobuf) && bool_decide (proto out = None) then Json else f.

Definition settings (o : Options) : Settings :=
  mkSettings (choose_format o) (o_compatibleJson o) (proto out) (o_clusterEnabled o) (o_nodeId o).

Definition boot_metrics (o : Options) : infra.MetricsRegistry :=
  infra.setGauge "im_output_buffer_bytes" (infra.dint 0) "Latest observed connection output buffer bytes"
    (infra.setGauge "im_threadpool_queue_size" (infra.dint 0) "Current thread pool queue size"
       (infra.setGauge "im_online_connections" (infra.dint 0) "Current accepted connections"
          (infra.setEnabled (metricsEnabled o) (infra.mkRegistry false ∅ ∅ ∅)))).

(** [ThreadPool threadPool(workerThreads)], its queue limit and [start]: a
    negative number of threads is a huge [size_t], for which [reserve] throws;
    so does [std::thread] when the system has no more threads. *)
Definition boot_pool (o : Options) : res pool.ThreadPool :=
  if workerThreads o <? 0 then Err LengthError
  else if negb (can_spawn out (workerThreads o)) then Err SystemError
  else Ok (pool.start (pool.newPool (Z.to_nat (workerThreads o)) 1 (u64 (businessMaxQueueSize o)))).

Definition boot_overload (o : Options) : overload.OverloadProtectService :=
  overload.configureUserSendRate (infra.dint (userSendPerSec o))
    (overload.configureCommandRates (infra.dint (loginQps o)) (infra.dint (p2pQps o))
       (infra.dint (broadcastQps o)) (clock out 1) (clock out 2) (clock out 3)
       (overload.configureIpConnectRate (infra.dint (maxConnectPerIpPerSec o))
          (overload.setRateLimitEnabled (rateLimitEnabled o)
             (overload.newOverload (u64 (maxConnections o)) (u64 (maxQps o)) (clock out 0))))).

(** The message store: MySQL when enabled and reachable, memory otherwise. *)
Definition boot_store (o : Options) : St :=
  if mysqlEnabled o then default (memory_store out) (mysql_store out (mysql_options o))
  else memory_store out.

(** Whether there is a session repository, and its table. *)
Definition boot_sessions (o : Options) : bool * P :=
  let '(connected, p) := session_table out (mysql_options o) in
  (mysqlEnabled o && connected, p).

(** The connected Redis client, if any. *)
Definition boot_redis (o : Options) : option R :=
  match redis out with
  | Some connect =>
    if redisEnabled o then
      let '(ok, r) := connect (redisHost o) (redisPort o) (redisTimeout o) in
      if (ok : bool) then Some r else None
    else None
  | None => None
  end.

Definition boot_auth (o : Options) : auth.World (R := R) (P := P) :=
  let '(hasRepo, repo) := boot_sessions o in
  match boot_redis o with
  | Some r =>
    auth.mkWorld (auth.setSessionExpire (sessionExpire o) (auth.setNodeId (o_nodeId o) (auth.newAuth true hasRepo)))
      r repo
  | None => auth.mkWorld (auth.setNodeId (o_nodeId o) (auth.newAuth false hasRepo)) (no_redis out) repo
  end.

Definition boot_routing (o : Options) : auth.RoutingService (R := R) :=
  match boot_redis o with
  | Some r => auth.setRouteTtlSeconds (routeTtlSeconds o) (auth.mkRouting (Some r) (o_nodeId o) 30 ∅)
  | None => auth.mkRouting None "single-node" 30 ∅
  end.

Definition boot_message (o : Options) : message.World (St := St) :=
  let svc := message.mkService (Some (boot_store o)) (boot_sessions o).1 ∅ false 5000 15000 3000 5 200
               (Some (encodeP2PNotify (settings o))) (Some (encodeBroadcastNotify (settings o))) in
  let svc := message.setRetryConfig (reliableRetryIntervalMs o) (u64 (reliableRetryBatchSize o)) svc in
  let svc := message.setRetryPolicy (reliableAckTimeoutMs o) (reliableRetryBackoffMs o)
               (u32 (reliableMaxRetryCount o)) svc in
  message.mkWorld (message.start svc).2 0 [].

Definition boot_heartbeat (o : Options) : heartbeat.HeartbeatService :=
  let svc := heartbeat.mkHeartbeat (heartbeatTimeout o) (heartbeatInterval o) ∅ ∅ ∅ ∅
               (bool_decide (is_Some (boot_redis o))) "single-node" 15 10 300 30 false true in
  let svc := heartbeat.setNodeId (o_nodeId o) svc in
  let svc := heartbeat.setNodeAliveTtlSeconds (nodeAliveTtlSeconds o) svc in
  let svc := heartbeat.setConnectionGovernance (authTimeoutSeconds o) (idleTimeoutSeconds o)
               (slowConsumerKickSeconds o) svc in
  (heartbeat.start svc).2.

Definition boot_breaker (o : Options) : infra.CircuitBreaker :=
  infra.newBreaker (circuitBreakerEnabled o) (u32 (threadPoolFailureThreshold o)) (halfOpenAfterMs o).

Definition boot (o : Options) : res (Server (St := St) (R := R) (P := P)) :=
  p <- boot_pool o;;
  Ok (mkServer (boot_auth o) (boot_message o) (boot_heartbeat o) (boot_overload o) (boot_routing o)
        (boot_breaker o) (boot_metrics o) p ∅ [] []).

(** [Log::init] and the first messages, which follow the logger's pointer. *)
Definition boot_log (configPath : string) (o : Options) : res log.Log :=
  let lg := (log.init "server_full" (logPath o) (level_int (logLevel o)) (logMaxFileSize o) (logMaxFiles o)
               log.newLog (disk out)).1 in
  let say msg := log.Say (stamp out) log.info msg in
  let rule := say "========================================" in
  '(_, _, lg) <- log.run_all
    [rule; say "HighConcurrencyTCPGateway (Full) starting..."; say ("Build: " +:+ build out);
     say ("Config file: " +:+ configPath); rule]
    (infra.mkTraceState infra.emptyTrace false) lg ;;
  Ok lg.

(** How [main] begins. *)
Inductive launch :=
| Usage                                   (* return 0 *)
| NoConfig (path : string)                (* return -1 *)
| Terminated (e : err)                    (* an exception leaves [main], or it follows a null pointer *)
| Running (o : Options) (s : Server (St := St) (R := R) (P := P)).

Definition main (args : list string) : launch :=
  match parse_args "conf/server.ini" args with
  | None => Usage
  | Some path =>
    match load (file out path) newConfig with
    | (false, _) => NoConfig path
    | (true, c) =>
      let o := read_options c in
      match (_ <- boot_log path o ;; boot o) with Ok s => Running o s | Err e => Terminated e end
    end
  end.

(** ** Launching *)
(** The log file of the configuration can be opened. *)
Definition log_opens (o : Options) : bool :=
  bool_decide (is_Some (log.rotating_file_sink (logPath o) (logMaxFileSize o) (logMaxFiles o)
                          (log.with_parent (logPath o) (disk out)))).

Lemma boot_log_outcome path o :
  if log_opens o then exists lg, boot_log path o = Ok lg else boot_log path o = Err NullPointer.
Proof.
  unfold log_opens, boot_log, log.init.
  destruct (log.rotating_file_sink _ _ _ _) as [fs|]; [|reflexivity].
  rewrite bool_decide_eq_true_2 by (by eexists). cbn [fst].
  match goal with |- context [log.run_all ?ps ?t ?s] =>
    pose proof (log.run_all_writes (log.mkLogger "server_full" (logPath o) (level_int (logLevel o)) log.kPattern)
                  ps t s eq_refl (fun _ => eq_refl)) as W end.
  unfold log.writes in W. rewrite W. cbn [res_bind]. by eexists.
Qed.

Lemma main_runs args path text o :
  parse_args "conf/server.ini" args = Some path -> file out path = Some text ->
  read_options (load (Some text) newConfig).2 = o -> log_opens o = true ->
  0 <= workerThreads o -> can_spawn out (workerThreads o) = true ->
  exists s, boot o = Ok s /\ main args = Running o s.
Proof.
  intros Ha Hf Ho Hl Hw Hc. unfold main. rewrite Ha, Hf. cbn [load snd] in Ho |- *. rewrite Ho. cbv zeta.
  pose proof (boot_log_outcome path o) as L. rewrite Hl in L. destruct L as [lg ->]. cbn [res_bind].
  unfold boot, boot_pool. rewrite (proj2 (Z.ltb_ge _ _)) by lia. rewrite Hc. eexists. split; reflexivity.
Qed.

(** [main] comes up with every configuration file that can be read, whose log
    file can be opened and whose number of worker threads is not negative and can
    be made, whether or not MySQL and Redis can be reached: it keeps messages in
    memory when MySQL is disabled or its store does not initialise, and the thread
    pool runs with the configured workers.  Otherwise it stops with the usage, the
    missing file, the null logger, or the exception of the thread pool. *)
Lemma startup_outcome args :
  match parse_args "conf/server.ini" args with
  | None => main args = Usage
  | Some path =>
    match file out path with
    | None => main args = NoConfig path
    | Some text =>
      let o := read_options (load (Some text) newConfig).2 in
      if negb (log_opens o) then main args = Terminated NullPointer
      else if workerThreads o <? 0 then main args = Terminated LengthError
      else if negb (can_spawn out (workerThreads o)) then main args = Terminated SystemError
      else exists s, main args = Running o s
        /\ message.m_messageStore (message.svc (s_msg s))
           = Some (match (if mysqlEnabled o then mysql_store out (mysql_options o) else None) with
                   | Some st => st | None => memory_store out end)
        /\ pool.m_runningFlag (s_pool s) = true
        /\ Z.of_nat (length (pool.m_workers (s_pool s))) = workerThreads o
        /\ auth.m_useRedis (auth.auth (s_auth s)) = bool_decide (is_Some (boot_redis o))
    end
  end.
Proof.
  unfold main. destruct (parse_args _ args) as [path|]; [|done].
  destruct (file out path) as [text|]; [|done]. cbv zeta. cbn [load]. cbn [snd].
  generalize (read_options (mkConfig (load_lines (getline_all newline [] (chars text))).2)) as o. intros o.
  pose proof (boot_log_outcome path o) as L. destruct (log_opens o); cbn [negb]; [|by rewrite L].
  destruct L as [lg ->]. cbn [res_bind].
  unfold boot, boot_pool. destruct (Z.ltb_spec (workerThreads o) 0); [done|].
  destruct (can_spawn out (workerThreads o)); [|done]. cbn [negb].
  eexists. split; [reflexivity|]. split; [|split; [done|split]].
  - change (Some (boot_store o) = Some (match (if mysqlEnabled o then mysql_store out (mysql_options o) else None) with
      | Some st => st | None => memory_store out end)).
    unfold boot_store. destruct (mysqlEnabled o); [|done]. by destruct (mysql_store out (mysql_options o)).
  - simpl. rewrite length_replicate. lia.
  - simpl. unfold boot_auth. destruct (boot_sessions o), (boot_redis o); done.
Qed.

Lemma launch_boot args o s : main args = Running o s -> boot o = Ok s.
Proof.
  unfold main. destruct (parse_args _ args) as [path|]; [|done]. destruct (load _ _) as [[] c]; [|done].
  destruct (boot_log _ _); cbn [res_bind]; [|done].
  destruct (boot _) as [s'|e] eqn:E; [|done]. by intros [= <- <-].
Qed.

Lemma boot_fresh o s :
  boot o = Ok s -> pool_wf s /\ message.outs (s_msg s) = [] /\ pending_ids (s_pool s) = [].
Proof.
  unfold boot, boot_pool. destruct (workerThreads o <? 0); [done|].
  destruct (can_spawn out _); [|done]. intros [= <-].
  assert (E : pending_ids (pool.start (pool.newPool (Z.to_nat (workerThreads o)) 1 (u64 (businessMaxQueueSize o)))) = []).
  { unfold pending_ids, pool.running. simpl. induction (Z.to_nat (workerThreads o)) as [|n IH]; [done|]. exact IH. }
  split; [|done]. split; [done|]. simpl. rewrite E. constructor.
Qed.

Context `{!MessageSenders St}.

Lemma boot_without u o s :
  boot o = Ok s -> (forall opts st, mysql_store out opts = Some st -> ~ sender st u) ->
  ~ sender (memory_store out) u -> without u s.
Proof.
  unfold boot, boot_pool. destruct (workerThreads o <? 0); [done|].
  destruct (can_spawn out _); [|done]. intros [= <-] Hsql Hmem. split.
  - intros id t E. simpl in E. by rewrite lookup_empty in E.
  - intros p x E. simpl in E. unfold boot_auth in E.
    destruct (boot_sessions o), (boot_redis o); simpl in E; by rewrite lookup_empty in E.
  - intros st [= <-]. unfold boot_store. destruct (mysqlEnabled o); [|done].
    destruct (mysql_store out (mysql_options o)) as [st|] eqn:E; simpl; [by eapply Hsql|done].
Qed.

(** From the moment [main] has built it, the answers and the tasks in progress
    never exceed the requests, and fall short of them only by the exceptions thrown;
    and a user whose messages the stores do not yet hold and whose token nobody
    presents is impersonated by no task, no connection and no stored message. *)
Lemma launched_server_sound args o s env rand ins :
  main args = Running o s ->
  let s' := fold_left (server_step (settings o) env rand) ins s in
  (forall c q rid, is_Some (response_of q) ->
     (responses c q rid s' + pending c q rid s' <= sum_list_with (is_request c q rid) ins
      <= responses c q rid s' + pending c q rid s' + faults (settings o) env rand s ins)%nat)
  /\ (forall u, (forall opts st, mysql_store out opts = Some st -> ~ sender st u) ->
        ~ sender (memory_store out) u -> Forall (fun i => ~ presents_token (settings o) u i) ins -> without u s').
Proof.
  intros Hm s'. apply launch_boot in Hm. destruct (boot_fresh o s Hm) as (Hw & Ho & Hp). split.
  - intros c q rid Hq. pose proof (run_balance (settings o) env rand c q rid Hq ins s Hw) as B.
    assert (responses c q rid s = 0%nat) as R0 by (unfold responses; by rewrite Ho).
    assert (pending c q rid s = 0%nat) as P0 by (unfold pending; by rewrite Hp).
    rewrite R0, P0 in B. exact B.
  - intros u Hsql Hmem Hi. apply run_without; [|done]. by apply (boot_without u o).
Qed.

End Boot.

(** ** The shipped configuration (src/conf/server.ini) *)
Definition server_ini : string :=
"[server]
port = 8888
worker_threads = 4

[thread_pool]
max_queue_size = 10000

[log]
level = info
path = logs/server_full.log
max_file_size = 104857600
max_files = 3

[heartbeat]
timeout = 30
interval = 10

[protocol]
version = 1
payload_format = json
compatible_json = true

[net]
epoll_mode = lt
tcp_nodelay = true
high_water_mark_bytes = 1048576
low_water_mark_bytes = 262144
max_output_buffer_bytes = 4194304
max_packet_bytes = 1048576

[overload]
max_connections = 10000
max_qps = 100000

[redis]
enabled = true
host = 127.0.0.1
port = 6379
timeout_ms = 2000
session_expire = 86400

[cluster]
enabled = true
node_id = node-1
node_alive_ttl_seconds = 15
route_ttl_seconds = 30

[mysql]
enabled = true
host = 127.0.0.1
port = 3306
user = root
password = 123456
database = im_server
connect_timeout_ms = 2000

[reliable]
retry_interval_ms = 5000
ack_timeout_ms = 15000
retry_backoff_ms = 3000
max_retry_count = 5
retry_batch_size = 200

[rate_limit]
enable = true
max_connect_per_ip_per_sec = 20
login_qps = 2000
p2p_qps = 10000
broadcast_qps = 200
user_send_per_sec = 50

[circuit_breaker]
enable = true
thread_pool_failure_threshold = 10
half_open_after_ms = 5000

[connection]
auth_timeout_seconds = 10
idle_timeout_seconds = 300
slow_consumer_kick_seconds = 30

[metrics]
enable = true
bind = 0.0.0.0
port = 9100
path = /metrics
".

Definition shipped : Options := read_options (load (Some server_ini) newConfig).2.

(** Every setting of the shipped file is found; those it changes against the
    defaults are the switches of Redis, the cluster, MySQL, the rate limits and
    the metrics, and the password. *)
Lemma shipped_options :
  shipped = mkOptions "logs/server_full.log" LInfo 104857600 3 8888 4 30 10 10000 100000 "lt" true 1048576
    262144 4194304 "json" true 1 true "node-1" 15 30 true "127.0.0.1" 3306 "root" "123456" "im_server" 2000
    5000 15000 3000 5 200 true 20 2000 10000 200 50 true 10 5000 10 300 30 true "0.0.0.0" 9100 "/metrics"
    10000 true "127.0.0.1" 6379 2000 86400.
Proof. vm_compute. reflexivity. Qed.

#[local] Existing Instance toy_json.
#[local] Existing Instance infra.binary64.
#[local] Existing Instance auth.no_redis.
#[local] Existing Instance auth.no_sessions.

(** The shipped file on a host without MySQL and Redis, with a disk that takes
    the log, or one that does not. *)
#[local] Instance disk_log : log.SpdLog bool := {|
  log.create_directories _ d := d;
  log.rotating_file_sink _ _ _ d := if (d : bool) then Some d else None |}.

Definition host (d : bool) : Outside (St := InMemoryMessageStore) (R := ()) (P := ()) (Fs := bool) :=
  mkOutside (fun path => if bool_decide (path = "conf/server.ini") then Some server_ini else None) None newMem
    (fun _ => None) (fun _ => (false, ())) (Some (fun _ _ _ => (false, ()))) () d
    (fun n => n <? 1000) (fun n => Z.of_nat n) log.ex_stamp "Jan  1 2026 00:00:00".
Definition alone := host true.

Lemma alone_runs : exists s, main alone [] = Running shipped s.
Proof.
  destruct (main_runs alone [] "conf/server.ini" server_ini shipped) as (s & _ & E);
    [done|done|done|..|by exists s].
  - by rewrite shipped_options.
  - rewrite shipped_options. simpl. lia.
  - by rewrite shipped_options.
Qed.

(** Without the log file the process ends at its first message. *)
Lemma no_log_no_server : main (host false) [] = Terminated NullPointer.
Proof. vm_compute. reflexivity. Qed.

Lemma launched_server_sound_witness :
  exists s, main alone [] = Running shipped s
  /\ without "alice" (fold_left (server_step (settings alone shipped) ex_env (fun _ => 42)) ex_inputs s).
Proof.
  destruct alone_runs as [s Hs]. exists s. split; [exact Hs|].
  apply (launched_server_sound alone [] shipped s ex_env (fun _ => 42) ex_inputs Hs).
  - done.
  - intros (id & m & Hm & _). cbn in Hm. by rewrite lookup_empty in Hm.
  - assert (E : settings alone shipped = mkSettings Json true None true "node-1") by (vm_compute; reflexivity).
    rewrite E. exact ex_inputs_no_alice.
Defined.

End startup.
