(* ===== verification/ConnEffects.v ===== *)
(** * ConnEffects: what the operations of a connection do to the loop

    A summary of every operation of TcpConnection.v, for the server that runs
    many connections on one loop: it touches only the connection's own channel
    of the poller, it queues only functors of the public operations, and it
    either leaves the connection open ([keeps]) or closes it, calling the close
    callback and leaving its channel without events ([closes]). *)
From S2P Require Import Prelude Buffer Poller TcpConnection.
Import buffer poller tcp.

Module conn_effects.

Definition own (w : World) : option Channel := channels (loop_poller w) !! m_channel (conn w).

Record good (w : World) : Prop := {
  gd_inv : poller_inv (loop_poller w);
  gd_own : is_Some (own w);
}.

Record moves (w w' : World) : Prop := {
  mv_channel : m_channel (conn w') = m_channel (conn w);
  mv_callback : m_closeCallback (conn w') = m_closeCallback (conn w);
  mv_good : good w -> good w';
  mv_other : good w -> forall j, j <> m_channel (conn w) ->
    channels (loop_poller w') !! j = channels (loop_poller w) !! j;
  mv_own : good w -> forall c, own w = Some c ->
    exists c', own w' = Some c' /\ m_fd c' = m_fd c /\ (m_index c <> kNew -> m_index c' <> kNew);
}.

Lemma moves_trans w1 w2 w3 : moves w1 w2 -> moves w2 w3 -> moves w1 w3.
Proof.
  intros [C1 B1 G1 O1 W1] [C2 B2 G2 O2 W2]. split; [congruence|congruence|auto|..].
  - intros G j Hj. rewrite O2 by (rewrite ?C1; auto). auto.
  - intros G c Hc. destruct (W1 G c Hc) as (c1 & H1 & F1 & I1).
    destruct (W2 (G1 G) c1 H1) as (c2 & H2 & F2 & I2). exists c2. split; [done|]. split; [congruence|auto].
Qed.

(** What remains when the channel may also be unregistered. *)
Record touches (w w' : World) : Prop := {
  tc_channel : m_channel (conn w') = m_channel (conn w);
  tc_inv : poller_inv (loop_poller w');
  tc_other : forall j, j <> m_channel (conn w) -> channels (loop_poller w') !! j = channels (loop_poller w) !! j;
  tc_own : forall c, own w = Some c -> exists c', own w' = Some c' /\ m_fd c' = m_fd c;
}.

Lemma moves_touches w w' : good w -> moves w w' -> touches w w'.
Proof.
  intros G [C B Gd O W]. split; [done|by apply Gd|by apply O|].
  intros c Hc. destruct (W G c Hc) as (c' & ? & ? & _). by exists c'.
Qed.

(** The poller and the identity of the connection are untouched. *)
Definition same_loop (w w' : World) : Prop :=
  loop_poller w' = loop_poller w /\ m_channel (conn w') = m_channel (conn w)
  /\ m_closeCallback (conn w') = m_closeCallback (conn w).

Lemma same_loop_moves w w' : same_loop w w' -> moves w w'.
Proof.
  intros (P & C & B). split; [done|done|..]; unfold own; rewrite ?P, ?C.
  - intros [I O]. split; unfold own; by rewrite ?P, ?C.
  - done.
  - intros _ c Hc. exists c. unfold own in Hc. by rewrite Hc.
Qed.

Lemma moves_refl w : moves w w.
Proof. by apply same_loop_moves. Qed.

(** Updates of the own channel. *)
Lemma update_moves f w w' :
  on_channel (fun id => channel_update id f) w = Ok w' ->
  moves w w' /\ conn w' = conn w /\ evs w' = evs w /\ pendingFunctors w' = pendingFunctors w
  /\ (good w -> exists c c', own w = Some c /\ own w' = Some c' /\ m_events c' = f (m_events c) /\ m_index c' <> kNew).
Proof.
  unfold on_channel. destruct (channel_update _ f _) as [p|] eqn:E; simpl; [|done]. intros [= <-].
  assert (K : good w -> poller_inv p /\ exists c c', own w = Some c /\ channels p = <[m_channel (conn w) := c']> (channels (loop_poller w))
    /\ m_events c' = f (m_events c) /\ m_index c' <> kNew /\ m_fd c' = m_fd c).
  { intros [I [c Hc]]. destruct (channel_update_ok _ f _ _ I Hc) as (p' & E' & I' & _ & _ & c' & Hp & Hev & Hi & Hf).
    assert (p' = p) as -> by congruence. split; [done|]. by exists c, c'. }
  split; [|split; [done|split; [done|split; [done|]]]].
  - split; [done|done|..].
    + intros G. destruct (K G) as (I & c & c' & _ & Hp & _). split; [done|]. unfold own. simpl.
      rewrite Hp, lookup_insert_eq. by eexists.
    + intros G j Hj. destruct (K G) as (_ & c & c' & _ & Hp & _). simpl. by rewrite Hp, lookup_insert_ne.
    + intros G c Hc. destruct (K G) as (_ & c0 & c' & Hc0 & Hp & _ & Hi & Hf). exists c'. unfold own. simpl.
      rewrite Hp, lookup_insert_eq. split; [done|]. split; [congruence|done].
  - intros G. destruct (K G) as (_ & c & c' & Hc & Hp & Hev & Hi & _). exists c, c'. split; [done|].
    unfold own. simpl. by rewrite Hp, lookup_insert_eq.
Qed.

(** ** The two kinds of effects *)
Definition plain (f : functor) : bool :=
  match f with ConnectEstablished | ConnectDestroyed => false | _ => true end.

Definition live (s : State) : Prop := s = kConnected \/ s = kDisconnecting.

(** Not connected, and nothing waits for the socket to become writable. *)
Definition idle (w : World) : Prop := ~ live (m_state (conn w)) /\ channel_writing w = false.

Record keeps (w w' : World) : Prop := {
  ks_moves : moves w w';
  ks_state : m_state (conn w') = m_state (conn w)
             \/ (live (m_state (conn w)) /\ m_state (conn w') = kDisconnecting);
  ks_evs : exists es, evs w' = evs w ++ es /\ existsb is_close es = false;
  ks_queue : exists fs, pendingFunctors w' = pendingFunctors w ++ fs /\ Forall (fun f => plain f = true) fs
             /\ (fs <> [] -> live (m_state (conn w)));
  ks_idle : idle w -> loop_poller w' = loop_poller w;
}.

Record closes (w w' : World) : Prop := {
  cl_moves : moves w w';
  cl_live : live (m_state (conn w));
  cl_state : m_state (conn w') = kDisconnected;
  cl_evs : exists es, evs w' = evs w ++ es /\ (m_closeCallback (conn w) = true -> existsb is_close es = true);
  cl_queue : pendingFunctors w' = pendingFunctors w;
  cl_channel : good w -> exists c, own w' = Some c /\ isNoneEvent c = true /\ m_index c <> kNew;
}.

Definition effect (w w' : World) : Prop := keeps w w' \/ closes w w'.

Lemma keeps_of_quiet w w' :
  quiet w w' -> moves w w' -> pendingFunctors w' = pendingFunctors w ->
  (idle w -> loop_poller w' = loop_poller w) -> keeps w w'.
Proof.
  intros [(Hs & _ & _) (es & He & Hn)] Hm Hq Hi. split; [done|by left| | |done].
  - exists es. split; [done|]. clear He. induction es as [|e es IH]; [done|]. simpl in Hn |- *.
    apply andb_true_iff in Hn as [He Hn]. rewrite (IH Hn), orb_false_r. unfold neutral in He.
    destruct (is_close e); [|done]. by rewrite orb_true_r in He.
  - exists []. by rewrite app_nil_r.
Qed.

Lemma quiet_keeps w w' : quiet w w' -> same_loop w w' -> pendingFunctors w' = pendingFunctors w -> keeps w w'.
Proof. intros Q L P. apply keeps_of_quiet; [done|by apply same_loop_moves|done|]. intros _. apply L. Qed.

Lemma keeps_refl w : keeps w w.
Proof. apply quiet_keeps; [apply quiet_refl|done|done]. Qed.

Lemma live_keeps w w' : keeps w w' -> live (m_state (conn w')) -> live (m_state (conn w)).
Proof. intros K. destruct (ks_state _ _ K) as [->|[L _]]; done. Qed.

Lemma idle_keeps w w' : keeps w w' -> idle w -> idle w'.
Proof.
  intros K [L C]. split; [intros L'; by apply L, (live_keeps w w')|].
  unfold channel_writing in *. by rewrite (ks_idle _ _ K), (mv_channel _ _ (ks_moves _ _ K)).
Qed.

Lemma keeps_trans w1 w2 w3 : keeps w1 w2 -> keeps w2 w3 -> keeps w1 w3.
Proof.
  intros K1 K2. pose proof (idle_keeps _ _ K1) as Hid. pose proof (live_keeps _ _ K1) as Hlv.
  destruct K1 as [M1 S1 (e1 & E1 & N1) (f1 & F1 & P1 & L1) I1], K2 as [M2 S2 (e2 & E2 & N2) (f2 & F2 & P2 & L2) I2]. split.
  - by eapply moves_trans.
  - destruct S2 as [->|[L ->]]; [done|]. right. split; [by apply Hlv|done].
  - exists (e1 ++ e2). rewrite E2, E1, app_assoc. split; [done|]. by rewrite existsb_app, N1, N2.
  - exists (f1 ++ f2). rewrite F2, F1, app_assoc. split; [done|]. split; [by apply Forall_app|].
    intros Hne. destruct f1; [|by apply L1]. by apply Hlv, L2.
  - intros Hi. rewrite I2 by (by apply Hid). by apply I1.
Qed.

Lemma keeps_closes w1 w2 w3 :
  keeps w1 w2 -> pendingFunctors w2 = pendingFunctors w1 -> closes w2 w3 -> closes w1 w3.
Proof.
  intros K Hq C. pose proof (live_keeps _ _ K) as Hlv. destruct C as [M2 L2 S2 (e2 & E2 & N2) Q2 H2].
  destruct K as [M1 S1 (e1 & E1 & N1) _ _]. split.
  - by eapply moves_trans.
  - by apply Hlv.
  - done.
  - exists (e1 ++ e2). rewrite E2, E1, app_assoc. split; [done|].
    intros Hcb. rewrite existsb_app, N2, orb_true_r; [done|]. by rewrite (mv_callback _ _ M1).
  - congruence.
  - intros G. apply H2. by apply M1.
Qed.

Lemma keeps_effect w1 w2 w3 :
  keeps w1 w2 -> pendingFunctors w2 = pendingFunctors w1 -> effect w2 w3 -> effect w1 w3.
Proof. intros K Hq [K2|C]; [left; by eapply keeps_trans|right; by eapply keeps_closes]. Qed.

(** ** The operations *)
Lemma emit_if_loop b e w : same_loop w (emit_if b e w) /\ pendingFunctors (emit_if b e w) = pendingFunctors w.
Proof. by destruct b. Qed.

Lemma evs_emit_if b e w : evs (emit_if b e w) = evs w ++ (if b then [e] else []).
Proof. destruct b; simpl; [done|]. by rewrite app_nil_r. Qed.

Lemma same_loop_trans w1 w2 w3 : same_loop w1 w2 -> same_loop w2 w3 -> same_loop w1 w3.
Proof. intros (? & ? & ?) (? & ? & ?). split; [congruence|]. split; congruence. Qed.

Lemma handleClose_effect w w' : handleClose w = Ok w' -> effect w w'.
Proof.
  unfold handleClose. case_bool_decide as Hs; [|intros [= <-]; left; apply keeps_refl].
  destruct (on_channel _ _) as [w1|] eqn:E1; cbn [res_bind]; [|done]. intros [= <-]. right.
  destruct (update_moves _ _ _ E1) as (M & Ec & Ee & Eq & Hch). simpl in Ec, Ee, Eq.
  assert (M0 : moves w w1) by (eapply moves_trans; [|exact M]; by apply same_loop_moves).
  set (w2 := emit_if (m_connectionCallback (conn w1)) (EvConnection kDisconnected) w1).
  destruct (emit_if_loop (m_connectionCallback (conn w1)) (EvConnection kDisconnected) w1) as [L2 Q2]. fold w2 in L2, Q2.
  destruct (emit_if_loop (m_closeCallback (conn w2)) EvClose w2) as [L3 Q3].
  assert (C2 : conn w2 = conn w1) by (unfold w2; by destruct (m_connectionCallback (conn w1))).
  assert (C3 : conn (emit_if (m_closeCallback (conn w2)) EvClose w2) = conn w1)
    by (unfold emit_if; destruct (m_closeCallback (conn w2)); exact C2).
  split.
  - eapply moves_trans; [exact M0|]. apply same_loop_moves. by eapply same_loop_trans.
  - done.
  - by rewrite C3, Ec.
  - exists ((if m_connectionCallback (conn w1) then [EvConnection kDisconnected] else [])
            ++ (if m_closeCallback (conn w2) then [EvClose] else [])). split.
    + rewrite evs_emit_if. unfold w2 at 1. by rewrite evs_emit_if, Ee, <- app_assoc.
    + intros Hcb. rewrite C2, Ec. cbn [m_closeCallback with_state]. rewrite Hcb, existsb_app. apply orb_true_r.
  - by rewrite Q3, Q2, Eq.
  - intros G. destruct Hch as (c & c' & _ & Hc' & Hev & Hi).
    { destruct G as [I O]. by split. }
    exists c'. split.
    + destruct L3 as (P3 & Ch3 & _), L2 as (P2 & Ch2 & _). unfold own. rewrite P3, Ch3, P2, Ch2. exact Hc'.
    + split; [|done]. unfold isNoneEvent. by rewrite Hev.
Qed.

Lemma read_effect rs received w w' : read_loop rs received w = Ok w' -> effect w w'.
Proof.
  revert received w. induction rs as [|r rs IH]; intros received w; cbn [read_loop].
  { intros [= <-]. left. case_if; [|apply keeps_refl].
    apply quiet_keeps; [by apply (quiet_emit_if true)|done|done]. }
  destruct (readFd r _) as [[[n e] b]|]; cbn [res_bind]; [|done].
  set (w1 := put_conn (with_input b (conn w)) w).
  assert (K1 : keeps w w1) by (apply quiet_keeps; [by apply quiet_same|done|done]).
  case_if; [intros H; apply IH in H; by eapply keeps_effect|].
  case_if; [intros H; apply handleClose_effect in H; by eapply keeps_effect|].
  case_if; intros [= <-]; [|by left]. eapply keeps_effect; [exact K1|done|]. left.
  case_if; [|apply keeps_refl]. apply quiet_keeps; [by apply (quiet_emit_if true)|done|done].
Qed.

Lemma write_loop_loop ws w w' :
  write_loop ws w = Ok w' -> same_loop w w' /\ pendingFunctors w' = pendingFunctors w.
Proof.
  revert w. induction ws as [|r ws IH]; intros w; cbn [write_loop].
  { case_if; by intros [= <-]. }
  case_if; [by intros [= <-]|]. destruct r as [k|e]; [|by intros [= <-]].
  case_if; [|by intros [= <-]]. destruct (retrieve _ _); cbn [res_bind]; [|done].
  intros Hr. apply IH in Hr as [L Q]. split; [|exact Q]. eapply same_loop_trans; [|exact L]. done.
Qed.

Lemma handleWrite_keeps ws w w' : handleWrite ws w = Ok w' -> keeps w w'.
Proof.
  intros H. pose proof (handleWrite_quiet _ _ _ H) as Q. unfold handleWrite in H.
  destruct (channel_writing w) eqn:Ew; [|injection H as <-; apply keeps_refl].
  destruct (write_loop ws w) as [w1|] eqn:E1; cbn [res_bind] in H; [|done].
  apply write_loop_loop in E1 as [L1 Q1].
  assert (Hid : idle w -> False) by (intros [_ Hc]; congruence).
  destruct (readableBytes _ =? 0).
  2: { injection H as <-. apply quiet_keeps; done. }
  destruct (on_channel disableWriting w1) as [w2|] eqn:E2; cbn [res_bind] in H; [|done]. injection H as <-.
  destruct (update_moves _ _ _ E2) as (M & Ec & Ee & Eq & _).
  set (w3 := emit_if _ _ w2) in *.
  destruct (emit_if_loop (m_writeCompleteCallback (conn w2)) EvWriteComplete w2) as [L3 Q3]. fold w3 in L3, Q3.
  assert (M3 : moves w w3).
  { eapply moves_trans; [by apply same_loop_moves|]. eapply moves_trans; [exact M|]. by apply same_loop_moves. }
  assert (S4 : same_loop w3 (if bool_decide (m_state (conn w3) = kDisconnecting) then shutdownInLoop w3 else w3)
               /\ pendingFunctors (if bool_decide (m_state (conn w3) = kDisconnecting) then shutdownInLoop w3 else w3)
                  = pendingFunctors w3).
  { unfold shutdownInLoop. by repeat case_match. }
  destruct S4 as [L4 Q4]. apply keeps_of_quiet; [done| | |].
  - eapply moves_trans; [exact M3|]. by apply same_loop_moves.
  - by rewrite Q4, Q3, Eq, Q1.
  - intros Hi. by destruct (Hid Hi).
Qed.

Lemma sendInLoop_keeps data r w w' :
  m_state (conn w) <> kConnecting -> sendInLoop data r w = Ok w' -> keeps w w'.
Proof.
  intros Hst H. pose proof (sendInLoop_quiet _ _ _ _ H) as Q. unfold sendInLoop in H.
  case_bool_decide as Hd; [injection H as <-; apply keeps_refl|].
  assert (Hid : idle w -> False).
  { intros [Hl _]. apply Hl. destruct (m_state (conn w)); try done; [by left|by right]. }
  destruct (if _ && _ then direct_write data r else (0%nat, false)) as [n fault].
  set (w1 := put_written (take n data) w) in *.
  match goal with H : context [emit_if ?b EvWriteComplete w1] |- _ =>
    destruct (emit_if_loop b EvWriteComplete w1) as [L2 Q2]; set (w2 := emit_if b EvWriteComplete w1) in * end.
  assert (L : same_loop w w2) by (eapply same_loop_trans; [|exact L2]; done).
  destruct (negb fault && _).
  2: { injection H as <-. apply quiet_keeps; [done|done|]. by rewrite Q2. }
  unfold buffer_rest in H. destruct (m_maxOutputBufferBytes (conn w2) <? _).
  { injection H as <-. apply quiet_keeps; [done|exact L|]. exact Q2. }
  destruct (append _ _) as [out|]; cbn [res_bind] in H; [|done].
  match type of H with context [emit_if ?b ?e ?x] =>
    destruct (emit_if_loop b e x) as [L3 Q3]; set (w3 := emit_if b e x) in *;
    assert (L3' : same_loop w2 w3) by (eapply same_loop_trans; [|exact L3]; done) end.
  destruct (negb (channel_writing w3)).
  - destruct (update_moves _ _ _ H) as (M & _ & _ & Eq & _). apply keeps_of_quiet; [done| | |].
    + eapply moves_trans; [apply same_loop_moves; by eapply same_loop_trans|exact M].
    + rewrite Eq, Q3. exact Q2.
    + intros Hi. by destruct (Hid Hi).
  - injection H as <-. apply quiet_keeps; [done|by eapply same_loop_trans|]. rewrite Q3. exact Q2.
Qed.

(** Queueing a functor for a live connection, leaving it connected or not. *)
Lemma keeps_leaving fs w :
  live (m_state (conn w)) -> Forall (fun f => plain f = true) fs ->
  keeps w (put_pending (pendingFunctors w ++ fs) (put_conn (with_state kDisconnecting (conn w)) w)).
Proof.
  intros Hl Hp. split; [by apply same_loop_moves|by right| |exists fs; by split|done].
  exists []. by rewrite app_nil_r.
Qed.

Lemma send_keeps inLoop data r w w' : send inLoop data r w = Ok w' -> keeps w w'.
Proof.
  unfold send. case_bool_decide as Hs; [|intros [= <-]; apply keeps_refl]. destruct inLoop.
  - apply sendInLoop_keeps. congruence.
  - intros [= <-]. split; [by apply same_loop_moves|by left| | |done].
    + exists []. by rewrite app_nil_r.
    + exists [SendInLoop data]. split; [done|]. split; [by repeat constructor|by left].
Qed.

Lemma shutdownInLoop_keeps w : keeps w (shutdownInLoop w).
Proof.
  unfold shutdownInLoop. case_if; [|apply keeps_refl].
  apply quiet_keeps; [by apply (quiet_emit_if true)|done|done].
Qed.

Lemma shutdown_keeps inLoop w : keeps w (shutdown inLoop w).
Proof.
  unfold shutdown. case_bool_decide as Hs; [|apply keeps_refl]. destruct inLoop.
  - eapply keeps_trans; [|apply shutdownInLoop_keeps].
    pose proof (keeps_leaving [] w (or_introl Hs) (Forall_nil_2 _)) as K. rewrite app_nil_r in K.
    destruct w. exact K.
  - apply (keeps_leaving [ShutdownInLoop] w); [by left|by repeat constructor].
Qed.

Lemma forceClose_keeps w : keeps w (forceClose w) /\ forall t, keeps w (forceCloseWithDelay t w).
Proof.
  unfold forceClose, forceCloseWithDelay. case_bool_decide as Hs; [|split; intros; apply keeps_refl].
  split; intros; apply (keeps_leaving [ForceCloseInLoop] w); (exact Hs || (constructor; [done|constructor])).
Qed.

Lemma plain_effect f r w w' :
  plain f = true -> m_state (conn w) <> kConnecting -> run_functor f r w = Ok w' -> effect w w'.
Proof.
  destruct f; simpl; try done; intros _ Hst.
  - intros H. left. by eapply sendInLoop_keeps.
  - intros [= <-]. left. apply shutdownInLoop_keeps.
  - unfold forceCloseInLoop. case_bool_decide; [apply handleClose_effect|]. intros [= <-]. left. apply keeps_refl.
Qed.

(** ** Establishing and destroying *)
Lemma established w :
  good w -> m_state (conn w) = kConnecting ->
  exists w', run_functor ConnectEstablished (WriteError EAGAIN) w = Ok w'
    /\ moves w w' /\ m_state (conn w') = kConnected /\ pendingFunctors w' = pendingFunctors w
    /\ (exists es, evs w' = evs w ++ es /\ existsb is_close es = false)
    /\ exists c, own w' = Some c /\ m_index c <> kNew.
Proof.
  intros G Hs. simpl. unfold connectEstablished. rewrite bool_decide_eq_true_2 by done.
  set (w0 := put_conn (with_state kConnected (conn w)) w).
  assert (G0 : good w0) by (destruct G; by split). destruct (gd_own _ G0) as [c Hc].
  destruct (channel_update_ok _ (fun ev => Z.lor ev kReadEvent) _ _ (gd_inv _ G0) Hc) as (p & E & _).
  assert (Eo : on_channel enableReading w0 = Ok (put_poller p w0)) by (unfold on_channel, enableReading; by rewrite E).
  rewrite Eo. cbn [res_bind]. destruct (update_moves _ _ _ Eo) as (M & Ec & Ee & Eq & Hch).
  destruct (Hch G0) as (_ & c' & _ & Hc' & _ & Hi).
  set (w1 := put_poller p w0) in *.
  destruct (emit_if_loop (m_connectionCallback (conn w1)) (EvConnection kConnected) w1) as [L Q].
  eexists. split; [reflexivity|]. split.
  { eapply moves_trans; [|apply same_loop_moves; exact L]. eapply moves_trans; [|exact M]. by apply same_loop_moves. }
  split; [by unfold emit_if; destruct (m_connectionCallback _)|]. split; [by rewrite Q|]. split.
  - exists (if m_connectionCallback (conn w1) then [EvConnection kConnected] else []).
    unfold emit_if. destruct (m_connectionCallback (conn w1)); simpl; [done|]. by rewrite app_nil_r.
  - exists c'. destruct L as (P & Ch & _). unfold own. rewrite P, Ch. by split.
Qed.

Lemma update_channels op c p : channels (update op c p) = channels p.
Proof. unfold update. destruct (epoll_ctl _ _ _ _). done. Qed.

Lemma destroyed w c :
  good w -> m_state (conn w) = kDisconnected -> own w = Some c -> isNoneEvent c = true -> m_index c <> kNew ->
  exists w', run_functor ConnectDestroyed (WriteError EAGAIN) w = Ok w' /\ conn w' = conn w /\ evs w' = evs w
    /\ written w' = written w /\ pendingFunctors w' = pendingFunctors w /\ poller_inv (loop_poller w')
    /\ channels (loop_poller w') = <[m_channel (conn w) := setIndex kNew (set_added false c)]> (channels (loop_poller w)).
Proof.
  intros G Hs Hc Hn Hi. simpl. unfold connectDestroyed. rewrite bool_decide_eq_false_2 by congruence. cbn [res_bind].
  destruct (channel_remove_ok _ _ _ (gd_inv _ G) Hc Hn Hi) as (p & E & I & _).
  unfold on_channel. rewrite E. cbn [res_bind]. eexists. split; [reflexivity|]. repeat (split; [done|]).
  simpl. unfold channel_remove in E. unfold own in Hc. rewrite Hc, Hn in E. simpl in E. unfold removeChannel in E.
  repeat (destruct (assert_ _); cbn [res_bind] in E; [|done]). injection E as <-.
  unfold put_channel. simpl. by case_bool_decide; rewrite ?update_channels.
Qed.

End conn_effects.
