(* ===== verification/OutputRoom.v ===== *)
(** * OutputRoom: the output buffer of a connection stays small

    [sendInLoop] buffers at most [m_maxOutputBufferBytes] bytes, and the vector
    below them never grows to more than about twice that: it is enlarged only
    when the readable bytes and the new ones do not fit.  So [Buffer::append]
    never meets [max_size], and a queued send cannot fail.  The limit is the one
    of the constructor (src/net/tcpConnection.cpp, src/net/buffer.h). *)
From S2P Require Import Prelude Buffer Poller TcpConnection ConnEffects.
Import buffer poller tcp conn_effects.

Module output_room.

(** The vector under a buffer of at most [m] readable bytes. *)
Definition small (m : Z) (b : Buffer) : Prop := wf b /\ size b <= 2 * m + 2048.

Lemma newBuffer_small m : 0 <= m -> small m newBuffer.
Proof.
  intros Hm. split; [apply newBuffer_wf|]. unfold size, newBuffer. cbn [m_buffer].
  rewrite length_replicate. unfold kCheapPrepend, kInitialSize. lia.
Qed.

Lemma retrieve_small m n b b' : small m b -> retrieve n b = Ok b' -> 0 <= n -> small m b'.
Proof.
  intros [Hw Hs] E Hn. destruct (Z.le_gt_cases n (blen (content b))) as [Hle|Hgt].
  - destruct (retrieve_spec n b Hw) as (b2 & E2 & Hw2 & _ & Hb & _); [done|].
    assert (b2 = b') as -> by congruence. split; [done|]. unfold size in *. by rewrite Hb.
  - by rewrite retrieve_underflow in E.
Qed.

(** The size after [ensureWritableBytes]. *)
Lemma ensure_small m len b :
  small m b -> 0 <= len -> blen (content b) + len <= m -> 3 * m + 2048 <= max_size ->
  exists b', ensureWritableBytes len b = Ok b' /\ small m b' /\ content b' = content b
    /\ len <= writableBytes b'.
Proof.
  intros [Hw Hs] Hl Hm Hmax. pose proof (content_length b Hw) as HL.
  assert (Hroom : has_room len b) by (unfold has_room; destruct Hw; lia).
  destruct (ensureWritableBytes_spec len b Hw Hl Hroom) as (b' & E & Hw' & Hc & Hwr & _).
  exists b'. splits; try done.
  unfold ensureWritableBytes in E. destruct (writableBytes b <? len) eqn:Elt; simpl in E; b2p.
  2:{ rewrite (proj2 (Z.leb_le _ _)) in E by lia. simpl in E. by injection E as <-. }
  unfold makeSpace in E. pose proof Hw as Hwf. wf_destruct Hwf.
  rewrite writableBytes_wf in * by done. unfold prependableBytes in E.
  rewrite !u64_small in E by buf_lia. destruct (_ <? len + kCheapPrepend) eqn:Eg in E; b2p.
  - destruct (resize_ok (m_writerIndex b + len) (m_buffer b)) as (tail & E1 & E2); [buf_lia|].
    rewrite E1 in E. simpl in E. destruct (len <=? _); simpl in E; [|done]. injection E as <-.
    split; [done|]. unfold size, blen, kCheapPrepend in *. simpl. rewrite E2. lia.
  - rewrite (peek_all b Hw) in E. destruct (_ =? _); simpl in E; [|done].
    destruct (len <=? _); simpl in E; [|done]. injection E as <-.
    split; [done|]. unfold size. simpl. rewrite length_write_at by buf_lia. unfold size in Hs. lia.
Qed.

Lemma append_small m d b :
  small m b -> blen (content b) + blen d <= m -> 3 * m + 2048 <= max_size ->
  exists b', append d b = Ok b' /\ small m b'.
Proof.
  intros Hb Hm Hmax.
  destruct (ensure_small m (blen d) b Hb) as (b1 & E1 & [Hw1 Hs1] & Hc & Hwr); [unfold blen; lia|done|done|].
  destruct (commit_spec d b1 Hw1 Hwr) as (b2 & E2 & Hw2 & _). exists b2.
  unfold append. fold (blen d). rewrite E1. simpl. rewrite E2. splits; [done|].
  split; [done|]. unfold hasWritten in E2. destruct (_ <=? _); simpl in E2; [|done]. injection E2 as <-.
  unfold size, writeAtWriter in *. simpl. pose proof Hw1 as Hwf. wf_destruct Hwf.
  rewrite writableBytes_wf in Hwr by done. rewrite length_write_at by buf_lia. done.
Qed.

(** ** Connections *)
Definition roomy (c : TcpConnection) : Prop :=
  m_maxOutputBufferBytes c = 4 * 1024 * 1024 /\ small (m_maxOutputBufferBytes c) (m_outputBuffer c).

Lemma newConnection_roomy ch : roomy (newConnection ch).
Proof. split; [done|]. apply newBuffer_small. simpl. lia. Qed.

Lemma roomy_same c c' :
  m_maxOutputBufferBytes c' = m_maxOutputBufferBytes c -> m_outputBuffer c' = m_outputBuffer c ->
  roomy c -> roomy c'.
Proof. intros E1 E2. unfold roomy. by rewrite E1, E2. Qed.

(** [buffer_rest] of a string returns, and keeps the buffer small. *)
Lemma buffer_rest_roomy rest w :
  roomy (conn w) -> blen rest <= max_size ->
  (forall w', buffer_rest rest w = Ok w' -> roomy (conn w'))
  /\ (good w -> exists w', buffer_rest rest w = Ok w').
Proof.
  intros [Hm [Hw Hs]] Hlen. unfold buffer_rest. pose proof (readable_content _ Hw) as Hrd.
  rewrite u64_small by (rewrite Hrd; pose proof (content_length _ Hw); pose proof Hw as Hwf; wf_destruct Hwf; buf_lia).
  destruct (m_maxOutputBufferBytes (conn w) <? _) eqn:El; b2p.
  { split; [intros w' [= <-]; by split|by eexists]. }
  destruct (append_small (m_maxOutputBufferBytes (conn w)) rest (m_outputBuffer (conn w))) as (b & -> & Hb);
    [by split|unfold blen in *; lia|rewrite Hm; unfold max_size; lia|]. cbn [res_bind].
  match goal with |- context [emit_if ?x ?e ?y] => destruct (emit_if_fields x e y) as (Ec & Ep & _);
    set (w2 := emit_if x e y) in * end.
  assert (R2 : roomy (conn w2)) by (rewrite Ec; by split).
  split.
  - intros w'. destruct (negb (channel_writing w2)); [|by intros [= <-]].
    intros [-> _]%on_channel_same. done.
  - intros [I [c Hc]]. destruct (negb (channel_writing w2)); [|by eexists].
    unfold on_channel, enableWriting. rewrite Ec, Ep. simpl. unfold own in Hc.
    destruct (channel_update_ok _ (fun ev => Z.lor ev kWriteEvent) _ _ I Hc) as (p & -> & _). by eexists.
Qed.

Lemma sendInLoop_roomy data r w :
  roomy (conn w) -> blen data <= max_size ->
  (forall w', sendInLoop data r w = Ok w' -> roomy (conn w'))
  /\ (good w -> exists w', sendInLoop data r w = Ok w').
Proof.
  intros R Hlen. unfold sendInLoop. case_bool_decide; [split; [by intros w' [= <-]|by eexists]|].
  destruct (if _ && _ then direct_write data r else (0%nat, false)) as [n fault].
  match goal with |- context [emit_if ?x EvWriteComplete ?y] =>
    destruct (emit_if_fields x EvWriteComplete y) as (Ec & Ep & _); set (w2 := emit_if x EvWriteComplete y) in * end.
  assert (R2 : roomy (conn w2)) by (by rewrite Ec).
  case_if; [|split; [by intros w' [= <-]|by eexists]].
  destruct (buffer_rest_roomy (drop n data) w2 R2) as [B1 B2].
  { unfold blen in *. rewrite length_drop. lia. }
  split; [done|]. intros [I O]. apply B2. split; [by rewrite Ep|]. unfold own in *. by rewrite Ec, Ep.
Qed.

Lemma write_loop_roomy ws w w' : roomy (conn w) -> write_loop ws w = Ok w' -> roomy (conn w').
Proof.
  revert w. induction ws as [|r ws IH]; intros w R; cbn [write_loop].
  { case_if; by intros [= <-]. }
  case_if; [by intros [= <-]|]. destruct r as [k|e]; [|by intros [= <-]].
  case_if; [|by intros [= <-]]. b2p.
  destruct (retrieve _ _) as [b|] eqn:Er; cbn [res_bind]; [|done]. apply IH.
  destruct R as [Hm Hs]. split; [done|]. simpl. eapply retrieve_small; [exact Hs|exact Er|lia].
Qed.

Lemma handleClose_same w w' :
  handleClose w = Ok w' -> m_maxOutputBufferBytes (conn w') = m_maxOutputBufferBytes (conn w)
  /\ m_outputBuffer (conn w') = m_outputBuffer (conn w).
Proof.
  unfold handleClose. case_bool_decide; [|by intros [= <-]].
  destruct (on_channel _ _) as [w1|] eqn:E1; cbn [res_bind]; [|done].
  apply on_channel_same in E1 as [Ec _]. intros [= <-].
  destruct (emit_if_fields (m_connectionCallback (conn w1)) (EvConnection kDisconnected) w1) as (C1 & _).
  match goal with |- context [emit_if ?x EvClose ?y] => destruct (emit_if_fields x EvClose y) as (C2 & _) end.
  by rewrite C2, C1, Ec.
Qed.

Lemma handleClose_roomy w w' : roomy (conn w) -> handleClose w = Ok w' -> roomy (conn w').
Proof. intros R [E1 E2]%handleClose_same. by eapply roomy_same. Qed.

Lemma read_loop_roomy rs received w w' :
  roomy (conn w) -> read_loop rs received w = Ok w' -> roomy (conn w').
Proof.
  revert received w. induction rs as [|r rs IH]; intros received w R; cbn [read_loop].
  { intros [= <-]. by case_if. }
  destruct (readFd r _) as [[[n e] b]|]; cbn [res_bind]; [|done].
  case_if; [by apply IH|]. case_if; [by apply handleClose_roomy|].
  case_if; intros [= <-]; [|done]. by case_if.
Qed.

Lemma handleWrite_roomy ws w w' : roomy (conn w) -> handleWrite ws w = Ok w' -> roomy (conn w').
Proof.
  intros R. unfold handleWrite. case_if; [|by intros [= <-]].
  destruct (write_loop ws w) as [w1|] eqn:E1; cbn [res_bind]; [|done].
  apply write_loop_roomy in E1; [|done]. case_if; [|by intros [= <-]].
  destruct (on_channel disableWriting w1) as [w2|] eqn:E2; cbn [res_bind]; [|done].
  apply on_channel_same in E2 as [Ec _]. intros [= <-].
  destruct (emit_if_fields (m_writeCompleteCallback (conn w2)) EvWriteComplete w2) as (C1 & _).
  assert (R3 : roomy (conn (emit_if (m_writeCompleteCallback (conn w2)) EvWriteComplete w2)))
    by (by rewrite C1, Ec).
  case_bool_decide; [|done]. unfold shutdownInLoop. by case_if.
Qed.

Lemma run_functor_roomy f r w w' :
  roomy (conn w) -> (forall data, f = SendInLoop data -> blen data <= max_size) ->
  run_functor f r w = Ok w' -> roomy (conn w').
Proof.
  intros R Hd. destruct f as [data| | | |]; simpl.
  - by apply (proj1 (sendInLoop_roomy data r w R (Hd data eq_refl))).
  - intros [= <-]. unfold shutdownInLoop. by case_if.
  - unfold forceCloseInLoop. case_bool_decide; [by apply handleClose_roomy|by intros [= <-]].
  - unfold connectEstablished. case_bool_decide; [|by intros [= <-]].
    destruct (on_channel _ _) as [w1|] eqn:E1; cbn [res_bind]; [|done].
    apply on_channel_same in E1 as [Ec _]. intros [= <-].
    destruct (emit_if_fields (m_connectionCallback (conn w1)) (EvConnection kConnected) w1) as (C1 & _).
    by rewrite C1, Ec.
  - unfold connectDestroyed. case_bool_decide.
    + destruct (on_channel disableAll _) as [w1|] eqn:E1; cbn [res_bind]; [|done].
      apply on_channel_same in E1 as [Ec _]. intros [-> _]%on_channel_same.
      destruct (emit_if_fields (m_connectionCallback (conn w1)) (EvConnection kDisconnected) w1) as (C1 & _).
      by rewrite C1, Ec.
    + cbn [res_bind]. by intros [-> _]%on_channel_same.
Qed.

(** ** What the operations queue *)
Lemma emit_if_queue b e w : pendingFunctors (emit_if b e w) = pendingFunctors w.
Proof. by destruct b. Qed.

Lemma on_channel_queue op w w' : on_channel op w = Ok w' -> pendingFunctors w' = pendingFunctors w.
Proof. unfold on_channel. destruct (op _ _); simpl; [|done]. by intros [= <-]. Qed.

Lemma handleClose_queue w w' : handleClose w = Ok w' -> pendingFunctors w' = pendingFunctors w.
Proof.
  unfold handleClose. case_bool_decide; [|by intros [= <-]].
  destruct (on_channel _ _) as [w1|] eqn:E1; cbn [res_bind]; [|done].
  apply on_channel_queue in E1. intros [= <-]. by rewrite !emit_if_queue.
Qed.

Lemma read_loop_queue rs received w w' :
  read_loop rs received w = Ok w' -> pendingFunctors w' = pendingFunctors w.
Proof.
  revert received w. induction rs as [|r rs IH]; intros received w; cbn [read_loop].
  { intros [= <-]. by case_if. }
  destruct (readFd r _) as [[[n e] b]|]; cbn [res_bind]; [|done].
  case_if; [by intros ->%IH|]. case_if; [by intros ->%handleClose_queue|].
  case_if; intros [= <-]; [|done]. by case_if.
Qed.

Lemma shutdownInLoop_queue w : pendingFunctors (shutdownInLoop w) = pendingFunctors w.
Proof. unfold shutdownInLoop. by case_if. Qed.

Lemma handleWrite_queue ws w w' : handleWrite ws w = Ok w' -> pendingFunctors w' = pendingFunctors w.
Proof.
  unfold handleWrite. case_if; [|by intros [= <-]].
  destruct (write_loop ws w) as [w1|] eqn:E1; cbn [res_bind]; [|done].
  apply write_loop_loop in E1 as [_ <-]. case_if; [|by intros [= <-]].
  destruct (on_channel disableWriting w1) as [w2|] eqn:E2; cbn [res_bind]; [|done].
  apply on_channel_queue in E2. intros [= <-].
  case_bool_decide; rewrite ?shutdownInLoop_queue, emit_if_queue; done.
Qed.

Lemma sendInLoop_queue data r w w' :
  sendInLoop data r w = Ok w' -> pendingFunctors w' = pendingFunctors w.
Proof.
  unfold sendInLoop. case_bool_decide; [by intros [= <-]|].
  destruct (if _ && _ then direct_write data r else (0%nat, false)) as [n fault].
  case_if; [|intros [= <-]; by rewrite emit_if_queue]. unfold buffer_rest.
  case_if; [intros [= <-]; simpl; by rewrite emit_if_queue|].
  destruct (append _ _) as [out|]; cbn [res_bind]; [|done].
  case_if; [intros ->%on_channel_queue|intros [= <-]]; by rewrite !emit_if_queue; simpl; rewrite emit_if_queue.
Qed.

Lemma run_functor_queue f r w w' : run_functor f r w = Ok w' -> pendingFunctors w' = pendingFunctors w.
Proof.
  destruct f as [data| | | |]; simpl.
  - apply sendInLoop_queue.
  - intros [= <-]. apply shutdownInLoop_queue.
  - unfold forceCloseInLoop. case_bool_decide; [apply handleClose_queue|by intros [= <-]].
  - unfold connectEstablished. case_bool_decide; [|by intros [= <-]].
    destruct (on_channel _ _) as [w1|] eqn:E1; cbn [res_bind]; [|done].
    apply on_channel_queue in E1. intros [= <-]. by rewrite emit_if_queue.
  - unfold connectDestroyed. case_bool_decide.
    + destruct (on_channel disableAll _) as [w1|] eqn:E1; cbn [res_bind]; [|done].
      apply on_channel_queue in E1. intros ->%on_channel_queue. by rewrite emit_if_queue.
    + cbn [res_bind]. apply on_channel_queue.
Qed.

End output_room.
