(* ===== verification/TcpServer.v ===== *)
(** * TcpServer: accepting connections and keeping them alive
      (src/net/tcpServer.h, src/net/tcpServer.cpp, and the loop of
       src/net/eventLoop.cpp that runs all connections)

    All connections share one loop: one poller and one queue of functors.  The
    connections are the objects of TcpConnection.v in a heap; an operation on
    one of them runs on its own fields, the shared poller and the shared queue
    ([on_object]), and when it calls the close callback the server's
    [removeConnection] runs.  Each callback, call or functor is one step, and
    the steps of the loop and of other threads interleave.

    [std::shared_ptr]s decide how long an object lives: the table of
    connections and the functors that capture one ([owns]) keep it, while
    [shutdown] and [forceClose] queue a plain [this].  The destructor may run
    when nothing of these refers to the object any more. *)
From S2P Require Import Prelude Text Buffer Poller TcpConnection.
Import text buffer poller.

Module tcp_server.

#[local] Existing Instance tcp.State_eq_dec.

Notation functor := tcp.functor.

Record Object := mkObject {
  o_conn : tcp.TcpConnection;
  o_name : string;
  o_fd : Z;
  o_written : bytes;
  o_evs : list tcp.event;
}.

Record TcpServer := mkServer {
  m_name : string;
  m_listenfd : Z;
  m_acceptChannel : nat;
  m_started : bool;
  m_nextConnId : Z;
  m_connections : gmap string nat;
  objects : gmap nat Object;              (* every TcpConnection made so far *)
  next_object : nat;
  dead : gset nat;                        (* whose destructor has run *)
  loop_poller : EpollPoller;
  round : list (nat * functor);           (* [functors] of doPendingFunctors *)
  todo : list (nat * functor);            (* those of them still to run *)
  pendingFunctors : list (nat * functor);
  open_fds : gset Z;                      (* descriptors of the process *)
}.

Definition with_loop p q s : TcpServer :=
  mkServer (m_name s) (m_listenfd s) (m_acceptChannel s) (m_started s) (m_nextConnId s) (m_connections s)
    (objects s) (next_object s) (dead s) p (round s) (todo s) q (open_fds s).
Definition with_objects os s : TcpServer :=
  mkServer (m_name s) (m_listenfd s) (m_acceptChannel s) (m_started s) (m_nextConnId s) (m_connections s)
    os (next_object s) (dead s) (loop_poller s) (round s) (todo s) (pendingFunctors s) (open_fds s).
Definition with_connections cs s : TcpServer :=
  mkServer (m_name s) (m_listenfd s) (m_acceptChannel s) (m_started s) (m_nextConnId s) cs
    (objects s) (next_object s) (dead s) (loop_poller s) (round s) (todo s) (pendingFunctors s) (open_fds s).
Definition with_round r t q s : TcpServer :=
  mkServer (m_name s) (m_listenfd s) (m_acceptChannel s) (m_started s) (m_nextConnId s) (m_connections s)
    (objects s) (next_object s) (dead s) (loop_poller s) r t q (open_fds s).
Definition with_started p s : TcpServer :=
  mkServer (m_name s) (m_listenfd s) (m_acceptChannel s) true (m_nextConnId s) (m_connections s)
    (objects s) (next_object s) (dead s) p (round s) (todo s) (pendingFunctors s) (open_fds s).
Definition with_dead i fds s : TcpServer :=
  mkServer (m_name s) (m_listenfd s) (m_acceptChannel s) (m_started s) (m_nextConnId s) (m_connections s)
    (objects s) (next_object s) ({[i]} ∪ dead s) (loop_poller s) (round s) (todo s) (pendingFunctors s) fds.

(** The constructor: a socket and its channel, which nobody watches yet. *)
Definition newServer (name : string) (listenfd : Z) (edge : bool) : TcpServer :=
  mkServer name listenfd 0 false 1 ∅ ∅ 1 ∅ (put_channel 0 (newChannel listenfd) (newPoller edge))
    [] [] [] {[listenfd]}.

(** The argument is not used. *)
Definition setThreadNum (numThreads : Z) (s : TcpServer) : TcpServer := s.

(** [listening]: the answer of [listen]. *)
Definition start (listening : bool) (s : TcpServer) : res TcpServer :=
  if m_started s then Ok s
  else if listening then p <- enableReading (m_acceptChannel s) (loop_poller s);; Ok (with_started p s)
  else Ok (with_started (loop_poller s) s).

(** [snprintf(buf, sizeof(buf), ":%s#%d", ...)] with a buffer of 64 bytes. *)
Definition connection_name (name : string) (id : Z) : string :=
  str (take 63 (chars (":" +:+ c_str name +:+ "#" +:+ dec id))).

Definition EINTR : Z := 4.
Inductive accept_result := Accepted (fd : Z) | AcceptError (errno : Z).

(** An accepted connection: its object with the callbacks of the server, its
    entry in the table, and the functor that establishes it. *)
Definition add_connection (fd : Z) (s : TcpServer) : TcpServer :=
  let i := next_object s in
  let name := connection_name (m_name s) (m_nextConnId s) in
  mkServer (m_name s) (m_listenfd s) (m_acceptChannel s) (m_started s) (m_nextConnId s + 1)
    (<[name := i]> (m_connections s))
    (<[i := mkObject (tcp.newConnection i) name fd [] []]> (objects s)) (S i) (dead s)
    (put_channel i (newChannel fd) (loop_poller s)) (round s) (todo s)
    (pendingFunctors s ++ [(i, tcp.ConnectEstablished)]) ({[fd]} ∪ open_fds s).

(** The loop of [newConnection] over the answers of [accept4]. *)
Fixpoint newConnection (rs : list accept_result) (s : TcpServer) : TcpServer :=
  match rs with
  | [] => s
  | Accepted fd :: rs => newConnection rs (add_connection fd s)
  | AcceptError e :: rs => if e =? EINTR then newConnection rs s else s
  end.

Definition removeConnection (i : nat) (o : Object) (s : TcpServer) : TcpServer :=
  with_loop (loop_poller s) (pendingFunctors s ++ [(i, tcp.ConnectDestroyed)])
    (with_connections (delete (o_name o) (m_connections s)) s).

(** The connection's view of the loop, and back. *)
Definition view (o : Object) (s : TcpServer) : tcp.World :=
  tcp.mkWorld (o_conn o) (loop_poller s) [] (o_written o) [].

Definition put_view (i : nat) (o : Object) (w : tcp.World) (s : TcpServer) : TcpServer :=
  with_objects (<[i := mkObject (tcp.conn w) (o_name o) (o_fd o) (tcp.written w) (o_evs o ++ tcp.evs w)]>
                  (objects s))
    (with_loop (tcp.loop_poller w) (pendingFunctors s ++ map (pair i) (tcp.pendingFunctors w)) s).

(** An operation of connection [i]; the close callback is [removeConnection]. *)
Definition on_object (i : nat) (op : tcp.World -> res tcp.World) (s : TcpServer) : res TcpServer :=
  match objects s !! i with
  | None => Ok s
  | Some o =>
    w <- op (view o s);;
    let s := put_view i o w s in
    Ok (if existsb tcp.is_close (tcp.evs w) then removeConnection i o s else s)
  end.

(** [doPendingFunctors] swaps the queue out and runs it. *)
Definition begin_round (s : TcpServer) : TcpServer := with_round (pendingFunctors s) (pendingFunctors s) [] s.

Definition run_next (r : tcp.write_result) (s : TcpServer) : res TcpServer :=
  match todo s with
  | [] => Ok (with_round [] [] (pendingFunctors s) s)       (* [functors] is destroyed *)
  | (i, f) :: fs => on_object i (tcp.run_functor f r) (with_round (round s) fs (pendingFunctors s) s)
  end.

(** [~TcpConnection] closes the socket of a connected connection. *)
Definition destroy (i : nat) (o : Object) (s : TcpServer) : TcpServer :=
  with_dead i (if bool_decide (tcp.m_state (o_conn o) = tcp.kConnected)
               then open_fds s ∖ {[o_fd o]} else open_fds s) s.

(** ** Steps *)
Definition owns (f : functor) : bool :=
  match f with
  | tcp.SendInLoop _ | tcp.ConnectEstablished | tcp.ConnectDestroyed => true
  | tcp.ShutdownInLoop | tcp.ForceCloseInLoop => false
  end.

Definition referenced (i : nat) (s : TcpServer) : bool :=
  existsb (fun e => bool_decide (e.2 = i)) (map_to_list (m_connections s))
  || existsb (fun e => bool_decide (e.1 = i) && owns e.2) (round s ++ pendingFunctors s).

(** The channel of a connection is known to the poller. *)
Definition registered (i : nat) (s : TcpServer) : bool :=
  match channels (loop_poller s) !! i with Some c => negb (bool_decide (m_index c = kNew)) | None => false end.

Inductive conn_call :=
| CallRead (rs : list read_result) | CallWrite (ws : list tcp.write_result) | CallClose
| CallSend (inLoop : bool) (data : bytes) (r : tcp.write_result)
| CallShutdown (inLoop : bool) | CallForceClose | CallForceCloseWithDelay (seconds : Z).

(** Channel callbacks come from the poller. *)
Definition from_channel (c : conn_call) : bool :=
  match c with CallRead _ | CallWrite _ | CallClose => true | _ => false end.

Definition call (c : conn_call) (w : tcp.World) : res tcp.World :=
  match c with
  | CallRead rs => tcp.handleRead rs w
  | CallWrite ws => tcp.handleWrite ws w
  | CallClose => tcp.handleClose w
  | CallSend inLoop data r => tcp.send inLoop data r w
  | CallShutdown inLoop => Ok (tcp.shutdown inLoop w)
  | CallForceClose => Ok (tcp.forceClose w)
  | CallForceCloseWithDelay t => Ok (tcp.forceCloseWithDelay t w)
  end.

(** What is sent is a [std::string], of at most [max_size] bytes. *)
Definition sendable (c : conn_call) : Prop :=
  match c with CallSend _ data _ => blen data <= max_size | _ => True end.

(** The kernel gives out descriptors that are not open; the connection counter
    is an [int]. *)
Fixpoint accepts_ok (rs : list accept_result) (s : TcpServer) : Prop :=
  match rs with
  | [] => True
  | Accepted fd :: rs => fd ∉ open_fds s /\ m_nextConnId s < 2 ^ 31 - 1 /\ accepts_ok rs (add_connection fd s)
  | AcceptError _ :: rs => accepts_ok rs s
  end.

Inductive step : TcpServer -> TcpServer -> Prop :=
| step_start l s s' : start l s = Ok s' -> step s s'
| step_accept rs s : accepts_ok rs s -> step s (newConnection rs s)
| step_call i c s s' :
    i ∉ dead s -> (from_channel c = true -> registered i s = true) -> sendable c ->
    on_object i (call c) s = Ok s' -> step s s'
| step_begin s : round s = [] -> step s (begin_round s)
| step_run r s s' : run_next r s = Ok s' -> step s s'
| step_destroy i o s : objects s !! i = Some o -> i ∉ dead s -> referenced i s = false -> step s (destroy i o s).

End tcp_server.
