(* ===== verification/TcpServerProofs.v ===== *)
(** * TcpServerProofs: the table of connections, lifetimes and descriptors

    An invariant of every state the server and its loop can reach, by
    induction on the steps of TcpServer.v.  A connection is in one of four
    phases: new (waiting to be established), live, closing (waiting to be
    destroyed) and gone; the phase fixes its state, the registration of its
    channel and the functors queued for it. *)
From S2P Require Import Prelude Text Buffer Poller TcpConnection ConnEffects OutputRoom TcpServer.
Import text buffer poller conn_effects output_room tcp_server.

Module tcp_server_proofs.

#[local] Existing Instance tcp.State_eq_dec.

(** ** Names *)
Lemma dec_inj x y : 0 <= x < 2 ^ 63 -> 0 <= y < 2 ^ 63 -> dec x = dec y -> x = y.
Proof. intros Hx Hy E. assert (Ok x = Ok y) by (rewrite <- !stoll_dec, E by lia; done). congruence. Qed.

(** The server's name leaves room for the number of the connection. *)
Definition short (name : string) : Prop := (length (chars (c_str name)) <= 51)%nat.

Lemma connection_name_inj name k k' :
  short name -> 0 <= k < 2 ^ 31 -> 0 <= k' < 2 ^ 31 -> connection_name name k = connection_name name k' -> k = k'.
Proof.
  intros Hs Hk Hk' E. apply (f_equal (fun s => chars s)) in E. unfold connection_name in E. rewrite !chars_str in E.
  assert (L : forall k, 0 <= k < 2 ^ 31 ->
    take 63 (chars (":" +:+ c_str name +:+ "#" +:+ dec k)) = chars ":" ++ chars (c_str name) ++ chars "#" ++ chars (dec k)).
  { clear -Hs. intros k Hk. rewrite take_ge.
    - by rewrite !chars_app.
    - rewrite !chars_app, !length_app. unfold dec. rewrite chars_str, (proj2 (Z.ltb_ge _ _)), Z.abs_eq by lia.
      pose proof (length_dec_digits 20 10 k ltac:(simpl; lia) ltac:(lia)). unfold short in Hs.
      change (length (chars ":")) with 1%nat. change (length (chars "#")) with 1%nat. cbn [app]. lia. }
  rewrite !L in E by done. apply app_inv_head, app_inv_head, app_inv_head in E.
  apply dec_inj; [lia|lia|]. rewrite <- (str_chars (dec k)), E. apply str_chars.
Qed.

(** ** The invariant *)
Definition of_conn (i : nat) (q : list (nat * functor)) : list functor :=
  map snd (filter (fun e => e.1 = i) q).

Definition queue (s : TcpServer) : list (nat * functor) := todo s ++ pendingFunctors s.

Inductive phase (st : tcp.State) (c : Channel) (q : list functor) : Prop :=
| phase_new : st = tcp.kConnecting -> m_index c = kNew -> m_events c = kNoneEvent ->
    q = [tcp.ConnectEstablished] -> phase st c q
| phase_live : live st -> m_index c <> kNew -> Forall (fun f => plain f = true) q -> phase st c q
| phase_closing l : st = tcp.kDisconnected -> m_index c <> kNew -> m_events c = kNoneEvent ->
    q = l ++ [tcp.ConnectDestroyed] -> Forall (fun f => plain f = true) l -> phase st c q
| phase_gone : st = tcp.kDisconnected -> m_index c = kNew -> m_events c = kNoneEvent ->
    m_addedToLoop c = false -> q = [] -> phase st c q.

Record object_ok (s : TcpServer) (i : nat) (o : Object) : Prop := {
  oo_channel : tcp.m_channel (o_conn o) = i;
  oo_callback : tcp.m_closeCallback (o_conn o) = true;
  oo_phase : exists c, channels (loop_poller s) !! i = Some c /\ m_fd c = o_fd o
    /\ phase (tcp.m_state (o_conn o)) c (of_conn i (queue s));
}.

(** [x]: the connection in the middle of an operation, if any. *)
Record inv (x : option nat) (s : TcpServer) : Prop := {
  si_poller : poller_inv (loop_poller s);
  si_accept : m_acceptChannel s = 0%nat /\ is_Some (channels (loop_poller s) !! 0%nat);
  si_ids : forall i o, objects s !! i = Some o -> (0 < i < next_object s)%nat;
  si_channels : forall i c, channels (loop_poller s) !! i = Some c -> (i < next_object s)%nat /\ m_fd c ∈ open_fds s;
  si_objects : forall i o, Some i <> x -> objects s !! i = Some o -> object_ok s i o;
  si_fds : forall i o, objects s !! i = Some o -> o_fd o ∈ open_fds s;
  si_table : forall n i, Some i <> x -> m_connections s !! n = Some i <->
    exists o, objects s !! i = Some o /\ o_name o = n /\ tcp.m_state (o_conn o) <> tcp.kDisconnected;
  si_names : forall i o, objects s !! i = Some o ->
    exists k, 0 < k < m_nextConnId s /\ o_name o = connection_name (m_name s) k;
  si_distinct : forall i j o o', objects s !! i = Some o -> objects s !! j = Some o' -> o_name o = o_name o' -> i = j;
  si_counter : 0 < m_nextConnId s < 2 ^ 31;
  si_name : short (m_name s);
  si_queue : Forall (fun e => is_Some (objects s !! e.1)) (queue s);
  si_next : (0 < next_object s)%nat;
  si_round : exists done, round s = done ++ todo s;
}.

Lemma of_conn_app i q q' : of_conn i (q ++ q') = of_conn i q ++ of_conn i q'.
Proof. unfold of_conn. by rewrite filter_app, map_app. Qed.

Lemma of_conn_cons i j f q : of_conn i ((j, f) :: q) = if decide (j = i) then f :: of_conn i q else of_conn i q.
Proof. unfold of_conn. rewrite filter_cons. simpl. by destruct (decide (j = i)). Qed.

Lemma of_conn_own i fs : of_conn i (map (pair i) fs) = fs.
Proof.
  induction fs as [|f fs IH]; [done|]. simpl. rewrite of_conn_cons, decide_True by done. by rewrite IH.
Qed.

Lemma of_conn_other i j fs : i <> j -> of_conn i (map (pair j) fs) = [].
Proof.
  intros Hne. induction fs as [|f fs IH]; [done|]. simpl. rewrite of_conn_cons, decide_False by congruence. done.
Qed.

Lemma of_conn_none i q : Forall (fun e : nat * functor => e.1 <> i) q -> of_conn i q = [].
Proof.
  induction 1 as [|[j f] q Hj _ IH]; [done|]. rewrite of_conn_cons, decide_False by done. done.
Qed.

Lemma inv_weaken i s : inv None s -> inv (Some i) s.
Proof. intros []. split; auto. Qed.

(** The invariant holds again when the connection has a phase and its entry. *)
Lemma inv_restore i s o :
  inv (Some i) s -> objects s !! i = Some o -> object_ok s i o ->
  (forall n, m_connections s !! n = Some i <-> o_name o = n /\ tcp.m_state (o_conn o) <> tcp.kDisconnected) ->
  inv None s.
Proof.
  intros I Ho Hok Ht. destruct I as [? ? ? ? Hobj ? Htab ? ? ? ? ? ? ?]. split; try done.
  - intros j o' _ Ho'. destruct (decide (j = i)) as [->|Hne]; [|apply Hobj; congruence]. by simplify_eq.
  - intros n j _. destruct (decide (j = i)) as [->|Hne]; [|apply Htab; congruence].
    rewrite Ht. naive_solver.
Qed.

(** ** An operation on one connection *)
Section Operation.
Context (s : TcpServer) (i : nat) (o : Object) (w : tcp.World).
Context (I : inv (Some i) s) (Ho : objects s !! i = Some o) (Hch : tcp.m_channel (o_conn o) = i).
Context (G : good (view o s)) (T : touches (view o s) w).

Notation s1 := (put_view i o w s).
Notation o1 := (mkObject (tcp.conn w) (o_name o) (o_fd o) (tcp.written w) (o_evs o ++ tcp.evs w)).

Lemma queue_put : queue s1 = queue s ++ map (pair i) (tcp.pendingFunctors w).
Proof. unfold queue. simpl. by rewrite app_assoc. Qed.

Lemma objects_put j : objects s1 !! j = if decide (j = i) then Some o1 else objects s !! j.
Proof.
  simpl. destruct (decide (j = i)) as [->|]; [by rewrite lookup_insert_eq|by rewrite lookup_insert_ne].
Qed.

Lemma channels_put j : j <> i -> channels (loop_poller s1) !! j = channels (loop_poller s) !! j.
Proof. intros Hj. apply (tc_other _ _ T). simpl. by rewrite Hch. Qed.

Lemma channel_put c : channels (loop_poller s) !! i = Some c ->
  exists c', channels (loop_poller s1) !! i = Some c' /\ m_fd c' = m_fd c.
Proof.
  intros Hc. pose proof (tc_own _ _ T c) as K. unfold own in K. simpl in K. rewrite Hch in K.
  destruct (K Hc) as (c' & Hc' & ?). rewrite (tc_channel _ _ T) in Hc'. simpl in Hc'. rewrite Hch in Hc'. by exists c'.
Qed.

Lemma put_view_inv : inv (Some i) s1.
Proof.
  pose proof (tc_inv _ _ T) as Ip. pose proof objects_put as Op.
  assert (Cp : forall j c, channels (loop_poller s1) !! j = Some c ->
    exists c0, channels (loop_poller s) !! j = Some c0 /\ m_fd c = m_fd c0).
  { intros j c Hc. destruct (decide (j = i)) as [->|Hne]; [|rewrite channels_put in Hc by done; by exists c].
    destruct (gd_own _ G) as [c0 Hc0]. unfold own in Hc0. simpl in Hc0. rewrite Hch in Hc0.
    destruct (channel_put c0 Hc0) as (c' & Hc' & Hf). exists c0. split; [done|]. congruence. }
  destruct I as [? [? Ha] Hids Hcs Hobj Hf Htab Hnm Hdis ? ? Hq ? ?]. split; try done.
  - split; [done|]. destruct (decide (0%nat = i)) as [<-|Hne]; [|by rewrite channels_put].
    pose proof (Hids _ _ Ho). lia.
  - intros j o'. rewrite Op. destruct (decide (j = i)) as [->|]; [|apply Hids]. intros _. by apply (Hids i o).
  - intros j c Hc. destruct (Cp j c Hc) as (c0 & Hc0 & ->). by apply (Hcs j c0).
  - intros j o' Hne. rewrite Op. rewrite decide_False by congruence. intros Ho'.
    destruct (Hobj j o' Hne Ho') as [O1 O2 (c & O3 & O4 & O5)]. split; [done|done|]. exists c.
    rewrite channels_put, queue_put, of_conn_app, of_conn_other, app_nil_r by congruence. done.
  - intros j o'. rewrite Op. destruct (decide (j = i)) as [->|]; [|apply Hf]. intros [= <-]. simpl. by apply (Hf i o).
  - intros n j Hne. rewrite Op. rewrite decide_False by congruence. by apply Htab.
  - intros j o'. rewrite Op. destruct (decide (j = i)) as [->|]; [|apply Hnm]. intros [= <-]. simpl. by apply (Hnm i o).
  - intros j j' oj oj'. rewrite !Op.
    destruct (decide (j = i)) as [->|], (decide (j' = i)) as [->|]; try done; intros Hj Hj' E.
    + injection Hj as <-. simpl in E. by apply (Hdis i j' o oj').
    + injection Hj' as <-. simpl in E. by apply (Hdis j i oj o).
    + by apply (Hdis j j' oj oj').
  - rewrite queue_put. apply Forall_app. split.
    + apply (Forall_impl _ _ _ Hq). intros [j f] Hj. simpl in *. destruct (decide (j = i)) as [->|].
      * rewrite lookup_insert_eq. by eexists.
      * by rewrite lookup_insert_ne.
    + apply Forall_map, Forall_true. intros f. simpl. rewrite lookup_insert_eq. by eexists.
Qed.

End Operation.

Lemma channel_index s i o w c :
  good (view o s) -> moves (view o s) w -> tcp.m_channel (o_conn o) = i -> channels (loop_poller s) !! i = Some c ->
  exists c', channels (loop_poller (put_view i o w s)) !! i = Some c' /\ m_fd c' = m_fd c
    /\ (m_index c <> kNew -> m_index c' <> kNew).
Proof.
  intros G M Hch Hc. pose proof (mv_own _ _ M G c) as K. unfold own in K. simpl in K. rewrite Hch in K.
  destruct (K Hc) as (c' & Hc' & ?). rewrite (mv_channel _ _ M) in Hc'. simpl in Hc'. rewrite Hch in Hc'. by exists c'.
Qed.

(** [removeConnection] takes the entry and queues the destruction. *)
Lemma remove_inv i o s :
  inv (Some i) s -> (exists o', objects s !! i = Some o' /\ o_name o' = o_name o) ->
  inv (Some i) (removeConnection i o s).
Proof.
  intros I (o' & Ho & Hn).
  assert (Q : queue (removeConnection i o s) = queue s ++ map (pair i) [tcp.ConnectDestroyed])
    by (unfold queue; simpl; by rewrite app_assoc).
  destruct I as [? ? ? ? Hobj ? Htab ? Hdis ? ? Hq ? ?]. split; try done.
  - intros j oj Hne Hj. destruct (Hobj j oj Hne Hj) as [O1 O2 (c & O3 & O4 & O5)]. split; [done|done|].
    exists c. rewrite Q, of_conn_app, of_conn_other, app_nil_r by congruence. done.
  - intros n j Hne. simpl. destruct (decide (o_name o = n)) as [<-|Hd].
    + rewrite lookup_delete_eq. split; [done|]. intros (oj & Hj & Hnj & _). exfalso. apply Hne. f_equal.
      apply (Hdis j i oj o' Hj Ho). congruence.
    + rewrite lookup_delete_ne by done. by apply Htab.
  - rewrite Q. apply Forall_app. split; [done|]. constructor; [|constructor]. simpl. by exists o'.
Qed.

Lemma no_events_idle s o c :
  channels (loop_poller s) !! tcp.m_channel (o_conn o) = Some c -> m_events c = kNoneEvent ->
  ~ live (tcp.m_state (o_conn o)) -> idle (view o s).
Proof.
  intros Hc He Hl. split; [done|]. unfold tcp.channel_writing. simpl. rewrite Hc. unfold isWriting. by rewrite He.
Qed.

Lemma not_live_new : ~ live tcp.kConnecting.
Proof. by intros [|]. Qed.
Lemma not_live_off : ~ live tcp.kDisconnected.
Proof. by intros [|]. Qed.

Definition entry_of (s : TcpServer) (i : nat) (o : Object) : Prop :=
  forall n, m_connections s !! n = Some i <-> o_name o = n /\ tcp.m_state (o_conn o) <> tcp.kDisconnected.

Lemma good_view s i o x :
  inv x s -> tcp.m_channel (o_conn o) = i -> is_Some (channels (loop_poller s) !! i) -> good (view o s).
Proof. intros I <- Hc. split; [apply I|done]. Qed.

(** After an operation that leaves the connection open, its phase is as before. *)
Lemma keeps_inv s i o w c :
  inv (Some i) s -> objects s !! i = Some o -> tcp.m_channel (o_conn o) = i ->
  tcp.m_closeCallback (o_conn o) = true -> entry_of s i o ->
  channels (loop_poller s) !! i = Some c -> m_fd c = o_fd o ->
  phase (tcp.m_state (o_conn o)) c (of_conn i (queue s)) ->
  keeps (view o s) w -> inv None (put_view i o w s).
Proof.
  intros I Ho Hch Hcb Ht Hc Hf Hp K.
  assert (G : good (view o s)) by (eapply good_view; [done|done|by eexists]).
  pose proof (ks_moves _ _ K) as M. pose proof (put_view_inv s i o w I Ho Hch G (moves_touches _ _ G M)) as I1.
  destruct (ks_queue _ _ K) as (fs & Eq & Hpl & Hfs). simpl in Eq, Hfs.
  destruct (channel_index s i o w c G M Hch Hc) as (c' & Hc' & Hf' & Hi').
  assert (Q : of_conn i (queue (put_view i o w s)) = of_conn i (queue s) ++ fs)
    by (rewrite queue_put, of_conn_app, of_conn_own; by rewrite Eq).
  assert (Idle : ~ live (tcp.m_state (o_conn o)) -> m_events c = kNoneEvent ->
    c' = c /\ fs = [] /\ tcp.m_state (tcp.conn w) = tcp.m_state (o_conn o)).
  { intros Hl He. pose proof (ks_idle _ _ K (no_events_idle s o c ltac:(by rewrite Hch) He Hl)) as El.
    simpl in El, Hc'. rewrite El in Hc'. split; [congruence|]. split.
    - destruct fs as [|f fs]; [done|]. by destruct Hl; apply Hfs.
    - destruct (ks_state _ _ K) as [E|[L _]]; [exact E|done]. }
  assert (St : tcp.m_state (tcp.conn w) = tcp.kDisconnected <-> tcp.m_state (o_conn o) = tcp.kDisconnected).
  { destruct (ks_state _ _ K) as [E|[L E]]; rewrite E; [done|]. simpl in L.
    split; [done|]. intros E'. rewrite E' in L. by destruct (not_live_off L). }
  apply (inv_restore i _ _ I1 (lookup_insert_eq _ _ _)).
  2: { intros n. simpl. rewrite (Ht n), St. done. }
  split; simpl; [by rewrite (mv_channel _ _ M)|by rewrite (mv_callback _ _ M)|].
  exists c'. split; [exact Hc'|]. split; [congruence|]. rewrite Q.
  destruct Hp as [Hs Hi He Hq|Hl Hi Hq|l Hs Hi He Hq Hl|Hs Hi He Hadd Hq].
  - destruct Idle as (-> & -> & ->); [rewrite Hs; apply not_live_new|done|]. rewrite app_nil_r. by apply phase_new.
  - apply phase_live; [|by apply Hi'|by apply Forall_app].
    destruct (ks_state _ _ K) as [E|[L E]]; rewrite E; [done|by right].
  - destruct Idle as (-> & -> & ->); [rewrite Hs; apply not_live_off|done|]. rewrite app_nil_r. by eapply phase_closing.
  - destruct Idle as (-> & -> & ->); [rewrite Hs; apply not_live_off|done|]. rewrite app_nil_r. by apply phase_gone.
Qed.

(** After a close the connection is out of the table and its destruction is
    the last functor queued for it. *)
Lemma closes_inv s i o w c :
  inv (Some i) s -> objects s !! i = Some o -> tcp.m_channel (o_conn o) = i ->
  tcp.m_closeCallback (o_conn o) = true -> entry_of s i o ->
  channels (loop_poller s) !! i = Some c -> m_fd c = o_fd o ->
  phase (tcp.m_state (o_conn o)) c (of_conn i (queue s)) ->
  closes (view o s) w -> inv None (removeConnection i o (put_view i o w s)).
Proof.
  intros I Ho Hch Hcb Ht Hc Hf Hp K.
  assert (G : good (view o s)) by (eapply good_view; [done|done|by eexists]).
  pose proof (cl_moves _ _ K) as M. pose proof (put_view_inv s i o w I Ho Hch G (moves_touches _ _ G M)) as I1.
  destruct (channel_index s i o w c G M Hch Hc) as (c' & Hc' & Hf' & Hi').
  assert (I2 : inv (Some i) (removeConnection i o (put_view i o w s))).
  { apply remove_inv; [done|]. eexists. split; [apply lookup_insert_eq|done]. }
  apply (inv_restore i _ _ I2 (lookup_insert_eq _ _ _)).
  2: { intros n. simpl. rewrite (cl_state _ _ K). split; [|by intros [_ []]].
       intros [Hne Hn]%lookup_delete_Some. apply Ht in Hn as [Hn _]. by destruct Hne. }
  split; simpl; [by rewrite (mv_channel _ _ M)|by rewrite (mv_callback _ _ M)|].
  destruct (cl_channel _ _ K G) as (c2 & Hc2 & He2 & Hi2). unfold own in Hc2. rewrite (mv_channel _ _ M) in Hc2.
  simpl in Hc2. rewrite Hch in Hc2. simpl in Hc'. assert (c2 = c') as -> by congruence.
  exists c'. split; [exact Hc'|]. split; [congruence|].
  assert (Q : of_conn i (queue (removeConnection i o (put_view i o w s))) = of_conn i (queue s) ++ [tcp.ConnectDestroyed]).
  { unfold queue. simpl. rewrite (cl_queue _ _ K). simpl. rewrite app_nil_r, app_assoc, of_conn_app.
    by rewrite of_conn_cons, decide_True by done. }
  rewrite Q. pose proof (cl_live _ _ K) as Hl. simpl in Hl.
  apply (phase_closing _ _ _ (of_conn i (queue s))); [apply K|done|by apply Z.eqb_eq|done|].
  destruct Hp as [Hs|_ _ Hq|l Hs|Hs]; [|done|..]; rewrite Hs in Hl;
    by (destruct (not_live_new Hl) || destruct (not_live_off Hl)).
Qed.

Lemma effect_inv s i o w c :
  inv (Some i) s -> objects s !! i = Some o -> tcp.m_channel (o_conn o) = i ->
  tcp.m_closeCallback (o_conn o) = true -> entry_of s i o ->
  channels (loop_poller s) !! i = Some c -> m_fd c = o_fd o ->
  phase (tcp.m_state (o_conn o)) c (of_conn i (queue s)) -> effect (view o s) w ->
  inv None (if existsb tcp.is_close (tcp.evs w) then removeConnection i o (put_view i o w s) else put_view i o w s).
Proof.
  intros I Ho Hch Hcb Ht Hc Hf Hp [K|C].
  - destruct (ks_evs _ _ K) as (es & Ee & Hn). simpl in Ee. rewrite Ee, Hn. by eapply keeps_inv.
  - destruct (cl_evs _ _ C) as (es & Ee & Hn). simpl in Ee. rewrite Ee, Hn by done. by eapply closes_inv.
Qed.

Lemma entry_ok s i o : inv None s -> objects s !! i = Some o -> entry_of s i o.
Proof. intros I Ho n. rewrite (si_table _ _ I n i) by done. naive_solver. Qed.

(** ** Calls and callbacks *)
Lemma call_effect c w w' : call c w = Ok w' -> effect w w'.
Proof.
  destruct c; simpl.
  - apply read_effect.
  - intros H. left. by eapply handleWrite_keeps.
  - apply handleClose_effect.
  - intros H. left. by eapply send_keeps.
  - intros [= <-]. left. apply shutdown_keeps.
  - intros [= <-]. left. apply forceClose_keeps.
  - intros [= <-]. left. apply forceClose_keeps.
Qed.

Lemma call_inv i c s s' : inv None s -> on_object i (call c) s = Ok s' -> inv None s'.
Proof.
  intros I. unfold on_object. destruct (objects s !! i) as [o|] eqn:Ho; [|by intros [= <-]].
  destruct (call c (view o s)) as [w|] eqn:Ew; cbn [res_bind]; [|done]. intros [= <-].
  destruct (si_objects _ _ I i o ltac:(done) Ho) as [Hch Hcb (ch & Hc & Hf & Hp)].
  by apply (effect_inv s i o w ch (inv_weaken i s I) Ho Hch Hcb (entry_ok s i o I Ho) Hc Hf Hp), (call_effect c).
Qed.

(** ** Running the queue *)
Notation popped fs s := (with_round (round s) fs (pendingFunctors s) s).

Lemma popped_inv i f fs s : inv None s -> todo s = (i, f) :: fs -> inv (Some i) (popped fs s).
Proof.
  intros I Et. assert (Q : queue s = (i, f) :: queue (popped fs s)) by (unfold queue; simpl; by rewrite Et).
  destruct I as [? ? ? ? Hobj ? Htab ? ? ? ? Hq ? (d & Hd)]. split; try done.
  - intros j oj Hne Hj. destruct (Hobj j oj ltac:(done) Hj) as [O1 O2 (c & O3 & O4 & O5)]. split; [done|done|].
    exists c. rewrite Q, of_conn_cons, decide_False in O5 by congruence. done.
  - intros n j _. by apply Htab.
  - rewrite Q in Hq. by inversion Hq.
  - exists (d ++ [(i, f)]). simpl. by rewrite Hd, Et, <- app_assoc.
Qed.

(** The connection is established: its phase becomes live. *)
Lemma establish_inv i fs s o c :
  inv None s -> todo s = (i, tcp.ConnectEstablished) :: fs -> objects s !! i = Some o ->
  tcp.m_channel (o_conn o) = i -> tcp.m_closeCallback (o_conn o) = true ->
  channels (loop_poller s) !! i = Some c -> m_fd c = o_fd o ->
  tcp.m_state (o_conn o) = tcp.kConnecting -> of_conn i (queue (popped fs s)) = [] ->
  exists s', run_next (tcp.WriteError tcp.EAGAIN) s = Ok s' /\ inv None s'.
Proof.
  intros I Et Ho Hch Hcb Hc Hf Hs Hq. pose proof (popped_inv _ _ _ _ I Et) as I1.
  set (s1 := popped fs s) in *.
  assert (G : good (view o s1)) by (eapply good_view; [exact I1|done|by eexists]).
  destruct (established (view o s1) G Hs) as (w & Ew & M & Hs' & Hp & (es & Ee & Hn) & (c' & Hc' & Hi')).
  pose proof (put_view_inv s1 i o w I1 Ho Hch G (moves_touches _ _ G M)) as I2.
  exists (put_view i o w s1). unfold run_next, on_object. rewrite Et. fold s1. change (objects s1) with (objects s). rewrite Ho, Ew.
  cbn [res_bind]. simpl in Ee. rewrite Ee, Hn. split; [done|].
  apply (inv_restore i _ _ I2 (lookup_insert_eq _ _ _)).
  2: { intros n. simpl. rewrite Hs'. pose proof (entry_ok s i o I Ho n) as En. rewrite Hs in En. rewrite En. naive_solver. }
  split; simpl; [by rewrite (mv_channel _ _ M)|by rewrite (mv_callback _ _ M)|].
  unfold own in Hc'. rewrite (mv_channel _ _ M) in Hc'. simpl in Hc'. rewrite Hch in Hc'.
  destruct (channel_index s1 i o w c G M Hch Hc) as (c2 & Hc2 & Hf2 & _). simpl in Hc2.
  exists c'. split; [done|]. split; [congruence|]. apply phase_live; [rewrite Hs'; by left|done|].
  rewrite queue_put, of_conn_app, Hq, Hp. constructor.
Qed.

(** The connection is destroyed: its channel leaves the poller. *)
Lemma destroyed_inv i fs s o c :
  inv None s -> todo s = (i, tcp.ConnectDestroyed) :: fs -> objects s !! i = Some o ->
  tcp.m_channel (o_conn o) = i -> tcp.m_closeCallback (o_conn o) = true ->
  channels (loop_poller s) !! i = Some c -> m_fd c = o_fd o -> tcp.m_state (o_conn o) = tcp.kDisconnected ->
  m_events c = kNoneEvent -> m_index c <> kNew -> of_conn i (queue (popped fs s)) = [] ->
  exists s', run_next (tcp.WriteError tcp.EAGAIN) s = Ok s' /\ inv None s'.
Proof.
  intros I Et Ho Hch Hcb Hc Hf Hs He Hi Hq. pose proof (popped_inv _ _ _ _ I Et) as I1.
  set (s1 := popped fs s) in *.
  assert (G : good (view o s1)) by (eapply good_view; [exact I1|done|by eexists]).
  assert (Hown : own (view o s1) = Some c) by (unfold own; simpl; by rewrite Hch).
  destruct (destroyed (view o s1) c G Hs Hown) as (w & Ew & Ec & Ee & Ewr & Eq & Ip & Hchs); [by apply Z.eqb_eq|done|].
  simpl in Ec, Ee, Eq, Hchs. rewrite Hch in Hchs.
  assert (T : touches (view o s1) w).
  { split; rewrite ?Ec; try done.
    - intros j Hj. simpl in Hj. rewrite Hch in Hj. by rewrite Hchs, lookup_insert_ne.
    - intros c0 Hc0. assert (c0 = c) as -> by congruence. unfold own. rewrite Ec, Hch, Hchs, lookup_insert_eq.
      by eexists. }
  pose proof (put_view_inv s1 i o w I1 Ho Hch G T) as I2.
  exists (put_view i o w s1). unfold run_next, on_object. rewrite Et. fold s1. change (objects s1) with (objects s). rewrite Ho, Ew.
  cbn [res_bind]. rewrite Ee. split; [done|].
  apply (inv_restore i _ _ I2 (lookup_insert_eq _ _ _)).
  2: { intros n. simpl. rewrite Ec. apply (entry_ok s i o I Ho n). }
  split; simpl; rewrite ?Ec; [done|done|]. exists (setIndex kNew (set_added false c)).
  split; [by rewrite Hchs, lookup_insert_eq|]. split; [done|].
  apply phase_gone; try done. rewrite queue_put, of_conn_app, Hq, Eq. done.
Qed.

(** The next functor: what it is follows from the phase. *)
Lemma functor_cases i f fs s :
  inv None s -> todo s = (i, f) :: fs ->
  exists o c, objects s !! i = Some o /\ object_ok s i o /\ channels (loop_poller s) !! i = Some c /\ m_fd c = o_fd o
    /\ ((f = tcp.ConnectEstablished /\ tcp.m_state (o_conn o) = tcp.kConnecting /\ of_conn i (queue (popped fs s)) = [])
        \/ (f = tcp.ConnectDestroyed /\ tcp.m_state (o_conn o) = tcp.kDisconnected /\ m_events c = kNoneEvent
            /\ m_index c <> kNew /\ of_conn i (queue (popped fs s)) = [])
        \/ (plain f = true /\ tcp.m_state (o_conn o) <> tcp.kConnecting
            /\ phase (tcp.m_state (o_conn o)) c (of_conn i (queue (popped fs s))))).
Proof.
  intros I Et. assert (Q : queue s = (i, f) :: queue (popped fs s)) by (unfold queue; simpl; by rewrite Et).
  pose proof (si_queue _ _ I) as Fq. rewrite Q in Fq. apply Forall_cons in Fq as [[o Ho] _]. simpl in Ho.
  destruct (si_objects _ _ I i o ltac:(done) Ho) as [Hch Hcb (c & Hc & Hf & Hp)].
  exists o, c. split; [done|]. split; [split; eauto|]. split; [done|]. split; [done|].
  rewrite Q, of_conn_cons, decide_True in Hp by done.
  destruct Hp as [Hs Hi He Hq|Hl Hi Hq|l Hs Hi He Hq Hl|Hs Hi He Hadd Hq].
  - left. by injection Hq as -> ->.
  - right; right. apply Forall_cons in Hq as [Hf1 Hq]. split; [done|]. split; [|by apply phase_live].
    intros E. rewrite E in Hl. by destruct (not_live_new Hl).
  - right. destruct l as [|g l]; simpl in Hq; injection Hq as -> Hq.
    + left. by rewrite Hq.
    + right. apply Forall_cons in Hl as [Hg Hl]. split; [done|]. split; [congruence|]. by eapply phase_closing.
  - done.
Qed.

Lemma functor_inv r s s' : inv None s -> run_next r s = Ok s' -> inv None s'.
Proof.
  intros I E. destruct (todo s) as [|[i f] fs] eqn:Et.
  - unfold run_next in E. rewrite Et in E. injection E as <-.
    assert (Q : queue (with_round [] [] (pendingFunctors s) s) = queue s) by (unfold queue; by rewrite Et).
    destruct I as [? ? ? ? Hobj ? ? ? ? ? ? Hq ? ?]. split; try done; [|by rewrite Q|by exists []].
    intros j o Hne Hj. destruct (Hobj j o Hne Hj) as [O1 O2 (c & O3 & O4 & O5)]. split; [done|done|].
    exists c. by rewrite Q.
  - destruct (functor_cases i f fs s I Et) as (o & c & Ho & [Hch Hcb _] & Hc & Hf & [(-> & Hs & Hq)|[(-> & Hs & He & Hi & Hq)|(Hp & Hs & Hph)]]).
    + destruct (establish_inv i fs s o c I Et Ho Hch Hcb Hc Hf Hs Hq) as (s2 & E2 & I2).
      assert (Er : run_next r s = run_next (tcp.WriteError tcp.EAGAIN) s) by (unfold run_next; by rewrite Et).
      congruence.
    + destruct (destroyed_inv i fs s o c I Et Ho Hch Hcb Hc Hf Hs He Hi Hq) as (s2 & E2 & I2).
      assert (Er : run_next r s = run_next (tcp.WriteError tcp.EAGAIN) s) by (unfold run_next; by rewrite Et).
      congruence.
    + unfold run_next in E. rewrite Et in E. unfold on_object in E.
      change (objects (popped fs s)) with (objects s) in E. rewrite Ho in E.
      destruct (tcp.run_functor f r (view o (popped fs s))) as [w|] eqn:Ew; cbn [res_bind] in E; [|done].
      injection E as <-.
      apply (effect_inv (popped fs s) i o w c (popped_inv _ _ _ _ I Et) Ho Hch Hcb (entry_ok s i o I Ho) Hc Hf Hph).
      by eapply plain_effect.
Qed.

(** ** Accepting *)
Lemma add_inv fd s :
  inv None s -> fd ∉ open_fds s -> m_nextConnId s < 2 ^ 31 - 1 -> inv None (add_connection fd s).
Proof.
  intros I Hfd Hk. set (i := next_object s).
  assert (Hfresh : objects s !! i = None /\ channels (loop_poller s) !! i = None).
  { split.
    - destruct (objects s !! i) as [o|] eqn:E; [|done]. pose proof (si_ids _ _ I i o E). unfold i in *. lia.
    - destruct (channels (loop_poller s) !! i) as [c|] eqn:E; [|done].
      destruct (si_channels _ _ I i c E). unfold i in *. lia. }
  destruct Hfresh as [Fo Fc].
  assert (Q : queue (add_connection fd s) = queue s ++ map (pair i) [tcp.ConnectEstablished])
    by (unfold queue; simpl; by rewrite app_assoc).
  assert (Qn : of_conn i (queue s) = []).
  { apply of_conn_none. apply (Forall_impl _ _ _ (si_queue _ _ I)). intros [j f] [o Hj] E. simpl in Hj, E. congruence. }
  assert (Nm : forall j o, objects s !! j = Some o -> o_name o <> connection_name (m_name s) (m_nextConnId s)).
  { intros j o Hj E. destruct (si_names _ _ I j o Hj) as (k & Hk' & En). rewrite En in E.
    pose proof (si_counter _ _ I). apply connection_name_inj in E; [lia|apply I|lia|lia]. }
  pose proof I as [Ip [Ha Hac] Hids Hcs Hobj Hf Htab Hnm Hdis Hct Hsn Hq Hnx [d Hd]].
  split; simpl; fold i.
  - apply create_inv; [done|done|]. intros j c Hj E. destruct (Hcs j c Hj) as [_ Hin]. congruence.
  - split; [done|]. rewrite lookup_insert_ne by (unfold i; lia). done.
  - intros j o [[<- <-]|[_ Hj]]%lookup_insert_Some; [unfold i; lia|]. pose proof (Hids j o Hj). unfold i. lia.
  - intros j c [[<- <-]|[_ Hj]]%lookup_insert_Some; [split; [lia|set_solver]|].
    destruct (Hcs j c Hj). split; [unfold i; lia|set_solver].
  - intros j o _ [[<- <-]|[Hne Hj]]%lookup_insert_Some.
    + split; [done|done|]. exists (newChannel fd). simpl. rewrite lookup_insert_eq. split; [done|]. split; [done|].
      fold i. rewrite Q, of_conn_app, Qn, of_conn_own. by apply phase_new.
    + destruct (Hobj j o ltac:(done) Hj) as [O1 O2 (c & O3 & O4 & O5)]. split; [done|done|]. exists c. simpl. fold i.
      rewrite lookup_insert_ne by done. rewrite Q, of_conn_app, of_conn_other, app_nil_r by congruence. done.
  - intros j o [[<- <-]|[_ Hj]]%lookup_insert_Some; [set_solver|]. pose proof (Hf j o Hj). set_solver.
  - intros n j _. destruct (decide (connection_name (m_name s) (m_nextConnId s) = n)) as [<-|Hne].
    + rewrite lookup_insert_eq. split.
      * intros [= <-]. exists (mkObject (tcp.newConnection i) (connection_name (m_name s) (m_nextConnId s)) fd [] []).
        by rewrite lookup_insert_eq.
      * intros (o & [[<- <-]|[_ Hj]]%lookup_insert_Some & En & _); [done|]. by destruct (Nm j o Hj).
    + rewrite lookup_insert_ne by done. rewrite (Htab n j) by done. split.
      * intros (o & Hj & R). exists o. rewrite lookup_insert_ne; [done|]. intros <-. congruence.
      * intros (o & [[<- <-]|[_ Hj]]%lookup_insert_Some & En & R); [by destruct Hne|]. by exists o.
  - intros j o [[<- <-]|[_ Hj]]%lookup_insert_Some.
    + exists (m_nextConnId s). split; [lia|done].
    + destruct (Hnm j o Hj) as (k & Hk' & En). exists k. split; [lia|done].
  - intros j j' o o' [[<- <-]|[_ Hj]]%lookup_insert_Some [[<- <-]|[_ Hj']]%lookup_insert_Some E; simpl in E; try done.
    + by destruct (Nm j' o' Hj').
    + by destruct (Nm j o Hj).
    + by apply (Hdis j j' o o').
  - lia.
  - done.
  - rewrite Q. apply Forall_app. split.
    + apply (Forall_impl _ _ _ Hq). intros [j f] [o Hj]. simpl in *. rewrite lookup_insert_ne; [by exists o|].
      intros <-. congruence.
    + constructor; [|constructor]. simpl. rewrite lookup_insert_eq. by eexists.
  - lia.
  - by exists d.
Qed.

Lemma accept_inv rs s : inv None s -> accepts_ok rs s -> inv None (newConnection rs s).
Proof.
  revert s. induction rs as [|[fd|e] rs IH]; intros s I H; simpl in *; [done| |].
  - destruct H as (H1 & H2 & H3). apply IH; [by apply add_inv|done].
  - destruct (e =? EINTR); [by apply IH|done].
Qed.

(** ** The other steps *)
Lemma listen_inv l s s' : inv None s -> start l s = Ok s' -> inv None s'.
Proof.
  intros I. unfold start. destruct (m_started s); [by intros [= <-]|]. destruct l.
  2: { intros [= <-]. destruct I. split; try done.
       intros j o Hne Hj. destruct (si_objects0 j o Hne Hj) as [O1 O2 O3]. by split. }
  pose proof I as [Ip [Ha [c Hc]] Hids Hcs Hobj Hf Htab Hnm Hdis Hct Hsn Hq Hnx Hr].
  rewrite Ha. unfold enableReading.
  destruct (channel_update_ok 0%nat (fun ev => Z.lor ev kReadEvent) _ _ Ip Hc)
    as (p & -> & Ip' & _ & _ & c' & Hp & _ & _ & Hfd). cbn [res_bind]. intros [= <-].
  split; try done; simpl; rewrite ?Hp.
  - split; [done|]. rewrite lookup_insert_eq. by eexists.
  - intros j d [[<- <-]|[_ Hj]]%lookup_insert_Some; [rewrite Hfd|]; by eapply Hcs.
  - intros j o Hne Hj. destruct (Hobj j o Hne Hj) as [O1 O2 (d & O3 & O4 & O5)]. split; [done|done|]. exists d.
    simpl. rewrite Hp, lookup_insert_ne by (pose proof (Hids j o Hj); lia). done.
Qed.

Lemma begin_inv s : inv None s -> round s = [] -> inv None (begin_round s).
Proof.
  intros I Hr. pose proof (si_round _ _ I) as [d Hd]. rewrite Hr in Hd. symmetry in Hd. apply app_nil in Hd as [_ Ht].
  assert (Q : queue (begin_round s) = queue s) by (unfold queue; simpl; by rewrite Ht, app_nil_r).
  destruct I as [? ? ? ? Hobj ? ? ? ? ? ? Hq ? ?]. split; try done; [|by rewrite Q|by exists []].
  intros j o Hne Hj. destruct (Hobj j o Hne Hj) as [O1 O2 (c & O3 & O4 & O5)]. split; [done|done|]. exists c. by rewrite Q.
Qed.

(** An object that nothing keeps alive is gone. *)
Lemma unreferenced_gone i o s :
  inv None s -> objects s !! i = Some o -> referenced i s = false ->
  tcp.m_state (o_conn o) = tcp.kDisconnected /\ of_conn i (queue s) = []
  /\ exists c, channels (loop_poller s) !! i = Some c /\ m_index c = kNew /\ m_addedToLoop c = false.
Proof.
  intros I Ho Hr. apply orb_false_iff in Hr as [Ht Hq].
  destruct (si_objects _ _ I i o ltac:(done) Ho) as [Hch Hcb (c & Hc & Hf & Hp)].
  assert (Hs : tcp.m_state (o_conn o) = tcp.kDisconnected).
  { destruct (decide (tcp.m_state (o_conn o) = tcp.kDisconnected)) as [|Hne]; [done|]. exfalso.
    assert (Hn : m_connections s !! o_name o = Some i) by (by apply (entry_ok s i o I Ho)).
    apply elem_of_map_to_list in Hn. apply list_elem_of_In in Hn.
    assert (Htrue : existsb (fun e : string * nat => bool_decide (e.2 = i)) (map_to_list (m_connections s)) = true)
      by (apply existsb_exists; exists (o_name o, i); split; [done|by apply bool_decide_eq_true]).
    congruence. }
  assert (Hd : tcp.ConnectDestroyed ∉ of_conn i (queue s)).
  { intros ([j f] & E & [Hj Hin]%list_elem_of_filter)%list_elem_of_fmap. simpl in E, Hj. subst f j.
    assert (Hin' : (i, tcp.ConnectDestroyed) ∈ round s ++ pendingFunctors s).
    { destruct (si_round _ _ I) as [d Hd]. rewrite Hd. unfold queue in Hin. set_solver. }
    apply list_elem_of_In in Hin'.
    assert (Htrue : existsb (fun e : nat * functor => bool_decide (e.1 = i) && owns e.2) (round s ++ pendingFunctors s) = true).
    { apply existsb_exists. exists (i, tcp.ConnectDestroyed). split; [done|]. simpl. by rewrite bool_decide_eq_true_2. }
    congruence. }
  split; [done|]. destruct Hp as [E|Hl|l Hs' Hi He Eq Hl|Hs' Hi He Hadd Eq].
  - congruence.
  - rewrite Hs in Hl. by destruct (not_live_off Hl).
  - exfalso. apply Hd. rewrite Eq. set_solver.
  - split; [done|]. by exists c.
Qed.

Lemma destroy_step_inv i o s :
  inv None s -> objects s !! i = Some o -> referenced i s = false ->
  inv None (destroy i o s) /\ open_fds (destroy i o s) = open_fds s.
Proof.
  intros I Ho Hr. destruct (unreferenced_gone i o s I Ho Hr) as (Hs & _).
  assert (E : open_fds (destroy i o s) = open_fds s).
  { unfold destroy. simpl. by rewrite bool_decide_eq_false_2 by congruence. }
  split; [|done]. destruct I as [? ? ? Hcs Hobj Hf ? ? ? ? ? ? ? ?]. split; try done; rewrite ?E; try done.
  intros j oj Hne Hj. destruct (Hobj j oj Hne Hj) as [O1 O2 O3]. by split.
Qed.

Lemma server_step_inv s s' : step s s' -> inv None s -> inv None s'.
Proof.
  destruct 1 as [l s s' H|rs s H|i c s s' _ _ _ H|s H|r s s' H|i o s Ho Hd Hr]; intros I.
  - by eapply listen_inv.
  - by apply accept_inv.
  - by eapply call_inv.
  - by apply begin_inv.
  - by eapply functor_inv.
  - by apply destroy_step_inv.
Qed.

Lemma new_inv name fd edge : short name -> inv None (newServer name fd edge).
Proof.
  intros Hs. split; simpl; try done.
  - apply create_inv; [apply newPoller_inv|done|by intros i c Hi].
  - intros i c [[<- <-]|[_ Hi]]%lookup_insert_Some; [split; [lia|set_solver]|done].
  - intros n i _. rewrite lookup_empty. split; [done|]. by intros (o & Ho & _).
  - lia.
  - by exists [].
Qed.

Lemma reach_inv name fd edge s : short name -> rtc step (newServer name fd edge) s -> inv None s.
Proof.
  intros Hs Hr. remember (newServer name fd edge) as s0 eqn:E.
  assert (I0 : inv None s0) by (subst; by apply new_inv). clear E.
  induction Hr as [s|s s1 s2 H1 _ IH]; [done|]. apply IH. by eapply server_step_inv.
Qed.

(** ** Room for the answers *)
Record room_inv (s : TcpServer) : Prop := {
  ri_objects : forall i o, objects s !! i = Some o -> roomy (o_conn o);
  ri_queue : forall i data, (i, tcp.SendInLoop data) ∈ queue s -> blen data <= max_size;
}.

Lemma call_room c w w' :
  sendable c -> call c w = Ok w' -> roomy (tcp.conn w) ->
  roomy (tcp.conn w')
  /\ exists fs, tcp.pendingFunctors w' = tcp.pendingFunctors w ++ fs
     /\ forall data, tcp.SendInLoop data ∈ fs -> blen data <= max_size.
Proof.
  intros Hc E R.
  assert (Same : forall q, q = tcp.pendingFunctors w -> exists fs, q = tcp.pendingFunctors w ++ fs
    /\ forall data, tcp.SendInLoop data ∈ fs -> blen data <= max_size).
  { intros q ->. exists []. rewrite app_nil_r. split; [done|]. by intros data Hin%elem_of_nil. }
  assert (Queue : forall f, (forall data, f = tcp.SendInLoop data -> blen data <= max_size) -> exists fs,
    tcp.pendingFunctors w ++ [f] = tcp.pendingFunctors w ++ fs
    /\ forall data, tcp.SendInLoop data ∈ fs -> blen data <= max_size).
  { intros f Hf. exists [f]. split; [done|]. intros data Hin%list_elem_of_singleton. by apply Hf. }
  destruct c as [rs|ws| |inLoop data r|inLoop| |t]; simpl in E.
  - split; [by eapply read_loop_roomy|by eapply Same, read_loop_queue].
  - split; [by eapply handleWrite_roomy|by eapply Same, handleWrite_queue].
  - split; [by eapply handleClose_roomy|by eapply Same, handleClose_queue].
  - unfold tcp.send in E. case_bool_decide; [|injection E as <-; auto]. destruct inLoop.
    + split; [by eapply (proj1 (sendInLoop_roomy data r w R Hc))|by eapply Same, sendInLoop_queue].
    + injection E as <-. split; [done|]. apply Queue. by intros d [= ->].
  - injection E as <-. unfold tcp.shutdown. case_bool_decide; [|auto]. destruct inLoop.
    + unfold tcp.shutdownInLoop. case_if; (split; [by eapply roomy_same|by apply Same]).
    + split; [by eapply roomy_same|]. by apply Queue.
  - injection E as <-. unfold tcp.forceClose. case_bool_decide; [|auto].
    split; [by eapply roomy_same|by apply Queue].
  - injection E as <-. unfold tcp.forceCloseWithDelay. case_bool_decide; [|auto].
    split; [by eapply roomy_same|by apply Queue].
Qed.

Lemma on_object_room i op s s' :
  (forall w w', op w = Ok w' -> roomy (tcp.conn w) -> tcp.pendingFunctors w = [] ->
     roomy (tcp.conn w') /\ forall data, tcp.SendInLoop data ∈ tcp.pendingFunctors w' -> blen data <= max_size) ->
  on_object i op s = Ok s' -> room_inv s -> room_inv s'.
Proof.
  intros Hop. unfold on_object. destruct (objects s !! i) as [o|] eqn:Ho; [|by intros [= <-]].
  destruct (op (view o s)) as [w|] eqn:Ew; cbn [res_bind]; [|done]. intros E R.
  destruct (Hop _ _ Ew (ri_objects _ R i o Ho) eq_refl) as [Hr Hq].
  assert (R1 : room_inv (put_view i o w s)).
  { split.
    - intros j oj Hj. simpl in Hj. apply lookup_insert_Some in Hj as [[_ <-]|[_ Hj]]; [done|by eapply R].
    - intros j data. unfold queue. simpl. rewrite app_assoc, elem_of_app.
      intros [Hin|Hin]; [by eapply R|]. apply list_elem_of_fmap in Hin as (f & [= _ <-] & Hin). by apply Hq. }
  injection E as <-. destruct (existsb tcp.is_close (tcp.evs w)); [|done].
  destruct R1 as [R1 R2]. split; [exact R1|]. intros j data. unfold queue. simpl.
  rewrite app_assoc, elem_of_app. intros [Hin|Hin%list_elem_of_singleton]; [by eapply R2|done].
Qed.

Lemma accept_room rs s : room_inv s -> room_inv (newConnection rs s).
Proof.
  revert s. induction rs as [|[fd|e] rs IH]; intros s R; simpl; [done| |case_if; auto].
  apply IH. destruct R as [R1 R2]. split.
  - intros j oj Hj. simpl in Hj. apply lookup_insert_Some in Hj as [[_ <-]|[_ Hj]];
      [apply newConnection_roomy|by eapply R1].
  - intros j data. unfold queue. simpl. rewrite app_assoc, elem_of_app.
    intros [Hin|Hin%list_elem_of_singleton]; [by eapply R2|done].
Qed.

Lemma run_next_room r s s' : run_next r s = Ok s' -> room_inv s -> room_inv s'.
Proof.
  unfold run_next. destruct (todo s) as [|[i f] fs] eqn:Et.
  - intros [= <-] [R1 R2]. split; [done|]. intros j data. unfold queue in *. simpl. intros Hin.
    apply (R2 j). rewrite Et. done.
  - intros E [R1 R2]. refine (on_object_room _ _ _ _ _ E _).
    + intros w w' Ew Rw Eq. split.
      * eapply run_functor_roomy; [done| |exact Ew]. intros data ->. apply (R2 i).
        unfold queue. rewrite Et. by left.
      * rewrite (run_functor_queue _ _ _ _ Ew), Eq. by intros data Hin%elem_of_nil.
    + split; [done|]. intros j data Hin. apply (R2 j). unfold queue in *. rewrite Et. by right.
Qed.

Lemma server_step_room s s' : step s s' -> room_inv s -> room_inv s'.
Proof.
  destruct 1 as [l s s' H|rs s H|i c s s' _ _ Hc H|s H|r s s' H|i o s Ho Hd Hr]; intros R.
  - unfold start in H. destruct (m_started s); [by injection H as <-|]. destruct l.
    + destruct (enableReading _ _); simpl in H; [|done]. injection H as <-. by destruct R.
    + injection H as <-. by destruct R.
  - by apply accept_room.
  - refine (on_object_room _ _ _ _ _ H R). intros w w' Ew Rw Eq.
    destruct (call_room c w w' Hc Ew Rw) as (Rw' & fs & Eq' & Hf). split; [done|].
    rewrite Eq', Eq. exact Hf.
  - destruct R as [R1 R2]. split; [done|]. intros j data. unfold queue. simpl. rewrite app_nil_r.
    intros Hin. apply (R2 j). unfold queue. apply elem_of_app. by right.
  - by eapply run_next_room.
  - by destruct R.
Qed.

Lemma reach_room name fd edge s : rtc step (newServer name fd edge) s -> room_inv s.
Proof.
  intros Hr. remember (newServer name fd edge) as s0 eqn:E.
  assert (I0 : room_inv s0) by (subst; split; [done|]; intros j data Hin; by apply elem_of_nil in Hin).
  clear E. induction Hr as [s|s s1 s2 H1 _ IH]; [done|]. apply IH. by eapply server_step_room.
Qed.

(** No queued functor fails. *)
Lemma functor_runs i f fs r s :
  inv None s -> room_inv s -> todo s = (i, f) :: fs -> exists s', run_next r s = Ok s'.
Proof.
  intros I R Et.
  destruct (functor_cases i f fs s I Et) as (o & c & Ho & [Hch Hcb _] & Hc & Hf & [(-> & Hs & Hq)|[(-> & Hs & He & Hi & Hq)|(Hp & Hs & Hph)]]).
  - destruct (establish_inv i fs s o c I Et Ho Hch Hcb Hc Hf Hs Hq) as (s2 & E2 & _). exists s2.
    rewrite <- E2. unfold run_next. by rewrite Et.
  - destruct (destroyed_inv i fs s o c I Et Ho Hch Hcb Hc Hf Hs He Hi Hq) as (s2 & E2 & _). exists s2.
    rewrite <- E2. unfold run_next. by rewrite Et.
  - unfold run_next. rewrite Et. unfold on_object. change (objects (popped fs s)) with (objects s). rewrite Ho.
    assert (E : exists w, tcp.run_functor f r (view o (popped fs s)) = Ok w).
    { destruct f as [data| | | |]; simpl; try done.
      - apply (sendInLoop_roomy data r (view o (popped fs s)) (ri_objects _ R i o Ho)).
        + apply (ri_queue _ R i). unfold queue. rewrite Et. by left.
        + split; [apply I|]. unfold own. simpl. rewrite Hch. by eexists.
      - by eexists.
      - unfold tcp.forceCloseInLoop, tcp.handleClose. case_bool_decide; [|by eexists].
        unfold tcp.on_channel, disableAll. simpl. rewrite Hch.
        destruct (channel_update_ok i (fun _ => kNoneEvent) _ _ (si_poller _ _ I) Hc) as (p & -> & _).
        by eexists. }
    destruct E as [w ->]. by eexists.
Qed.


(** The server never closes the descriptor of a connection: the destructor
    closes the socket of a connection that is still connected, but a connection
    is only destroyed after it was disconnected.  Every descriptor ever accepted
    stays open, also after the destructor has run. *)
Lemma closed_connections_leak_descriptors name fd edge s :
  short name -> rtc step (newServer name fd edge) s ->
  forall i o, objects s !! i = Some o -> o_fd o ∈ open_fds s.
Proof. intros Hs Hr i o. apply (reach_inv name fd edge s Hs Hr). Qed.

(** ** A concrete run: a client connects, leaves, and its object is destroyed *)
Definition run_step (f : TcpServer -> res TcpServer) (s : TcpServer) : TcpServer :=
  match f s with Ok s' => s' | Err _ => s end.

Definition ex0 : TcpServer := newServer "TCPServer" 3 false.
Definition ex1 : TcpServer := run_step (start true) ex0.
Definition ex2 : TcpServer := newConnection [Accepted 7] ex1.
Definition ex3 : TcpServer := begin_round ex2.
Definition ex4 : TcpServer := run_step (run_next (tcp.WriteError tcp.EAGAIN)) ex3.
Definition ex5 : TcpServer := run_step (run_next (tcp.WriteError tcp.EAGAIN)) ex4.
Definition ex6 : TcpServer := run_step (on_object 1 (call (CallRead [ReadData []]))) ex5.
Definition ex7 : TcpServer := begin_round ex6.
Definition ex8 : TcpServer := run_step (run_next (tcp.WriteError tcp.EAGAIN)) ex7.
Definition ex9 : TcpServer := run_step (run_next (tcp.WriteError tcp.EAGAIN)) ex8.

Lemma ex_short : short "TCPServer".
Proof. unfold short. vm_compute. lia. Qed.

(** A step whose operation succeeds. *)
Definition succeeds (f : TcpServer -> res TcpServer) (s : TcpServer) : bool :=
  match f s with Ok _ => true | Err _ => false end.
Lemma ran f s : succeeds f s = true -> f s = Ok (run_step f s).
Proof. unfold succeeds, run_step. by destruct (f s). Qed.

Notation next := (run_next (tcp.WriteError tcp.EAGAIN)).

Lemma next_step s : succeeds next s = true -> step s (run_step next s).
Proof. intros H. by eapply step_run, ran. Qed.

Lemma ex_steps : rtc step ex0 ex9.
Proof.
  apply (rtc_l _ _ ex1); [exact (step_start true ex0 ex1 (ran (start true) ex0 eq_refl))|].
  apply (rtc_l _ _ ex2); [apply step_accept; vm_compute; split; [set_solver|done]|].
  apply (rtc_l _ _ ex3); [apply step_begin; reflexivity|].
  apply (rtc_l _ _ ex4); [apply (next_step ex3); vm_compute; reflexivity|].
  apply (rtc_l _ _ ex5); [apply (next_step ex4); vm_compute; reflexivity|].
  apply (rtc_l _ _ ex6).
  { apply (step_call 1 (CallRead [ReadData []]) ex5 ex6); [set_solver|intros _; vm_compute; reflexivity|done|].
    apply (ran (on_object 1 (call (CallRead [ReadData []]))) ex5). vm_compute. reflexivity. }
  apply (rtc_l _ _ ex7); [apply step_begin; vm_compute; reflexivity|].
  apply (rtc_l _ _ ex8); [apply (next_step ex7); vm_compute; reflexivity|].
  apply rtc_once. apply (next_step ex8). vm_compute. reflexivity.
Qed.


Lemma ex_destroyed : exists o, objects ex9 !! 1%nat = Some o /\ o_fd o = 7 /\ rtc step ex0 (destroy 1 o ex9).
Proof.
  eexists. split; [vm_compute; reflexivity|]. split; [reflexivity|].
  transitivity ex9; [exact ex_steps|]. apply rtc_once, step_destroy; [vm_compute; reflexivity|set_solver|vm_compute; reflexivity].
Qed.

Lemma closed_connections_leak_descriptors_witness :
  exists o, objects ex9 !! 1%nat = Some o /\ 7 ∈ open_fds (destroy 1 o ex9).
Proof.
  destruct ex_destroyed as (o & Ho & Hf & Hr). exists o. split; [exact Ho|]. rewrite <- Hf.
  exact (closed_connections_leak_descriptors "TCPServer" 3 false _ ex_short Hr 1%nat o Ho).
Defined.

End tcp_server_proofs.
