(* ===== verification/Dispatch.v ===== *)
(** * Dispatch: the loop hands the events of the kernel to the connections
      (EventLoop::loop and doPendingFunctors of src/net/eventLoop.cpp,
       EpollPoller::poll of src/net/epollPoller.cpp, Channel::handleEvent of
       src/net/channel.cpp, over the server of TcpServer.v)

    One turn of the loop asks the poller for active channels, which it keeps
    as plain pointers, calls [handleEvent] of each, and then runs the queued
    functors.  A channel lives in its connection, so a pointer dangles when the
    connection is destroyed before the list is finished.  The steps of the turn
    interleave with calls of other threads and with destructors, which run as
    soon as nothing keeps an object alive.  The channels are the listening one and
    those of the connections; the loop's own wake-up channel, a member of the loop
    that no callback of theirs touches, is in EventLoop.v and LoopThreads.v. *)
From S2P Require Import Prelude Buffer Poller TcpConnection ConnEffects TcpServer TcpServerProofs.
Import buffer poller conn_effects tcp_server tcp_server_proofs.

Module dispatch.

(** ** EpollPoller::poll *)
Definition kInitEventListSize : Z := 16.

(** The answers of [epoll_wait]: events of channels (the pointers given with
    [epoll_ctl]), a timeout, or an error. *)
Inductive wait_result := Events (evs : list (nat * Z)) | WaitError (errno : Z).

(** [size] is [m_events.size()]; the result holds the active channels and the
    size of the array for the next call. *)
Definition poll (r : wait_result) (size : Z) (p : EpollPoller) : res (EpollPoller * list nat * Z) :=
  match r with
  | Events (e :: evs) =>
    let numEvents := Z.of_nat (length (e :: evs)) in
    _ <- assert_ (numEvents <=? size) ;;
    let '(p', activeChannels) := fillActiveChannels (e :: evs) p in
    Ok (p', activeChannels, if numEvents =? size then size * 2 else size)
  | Events [] | WaitError _ => Ok (p, [], size)
  end.

(** What epoll_wait(2) promises: no more events than asked for, each for a
    descriptor in the interest list with the pointer given for it, and only
    events asked for or POLLERR and POLLHUP. *)
Definition reported (size : Z) (p : EpollPoller) (r : wait_result) : Prop :=
  match r with
  | Events evs =>
    Z.of_nat (length evs) <= size /\
    Forall (fun e => exists c w, channels p !! e.1 = Some c /\ kernel p !! m_fd c = Some w
      /\ Z.land e.2 (Z.lnot (Z.lor w (Z.lor POLLERR POLLHUP))) = 0) evs
  | WaitError _ => True
  end.

(** ** EventLoop::loop *)
Inductive place :=
| Before                                                   (* [loop] has not been called *)
| Poll                                                     (* about to poll *)
| Active (rest : list nat) (cur : list nat) (cbs : list callback)
| Functors                                                 (* in doPendingFunctors *)
| Stopped.

(** [Active rest [i] cbs]: channel [i] is in [handleEvent] with the callbacks
    [cbs] to go, and then come the channels [rest]. *)
Record Loop := mkLoop { srv : TcpServer; events_size : Z; at_ : place }.

Definition newLoop (s : TcpServer) : Loop := mkLoop s kInitEventListSize Before.

Definition with_poller (p : EpollPoller) (s : TcpServer) : TcpServer := with_loop p (pendingFunctors s) s.

(** What the kernel answers inside a callback. *)
Record answers := mkAnswers { a_accepts : list accept_result; a_reads : list read_result; a_writes : list tcp.write_result }.

(** The callbacks of the channels: the listening channel has a read callback
    only, [handleError] only logs. *)
Definition run_callback (i : nat) (cb : callback) (a : answers) (s : TcpServer) : res TcpServer :=
  if bool_decide (i = m_acceptChannel s) then
    match cb with CbRead => Ok (newConnection (a_accepts a) s) | _ => Ok s end
  else
    match cb with
    | CbClose => on_object i (call CallClose) s
    | CbError => Ok s
    | CbRead => on_object i (call (CallRead (a_reads a))) s
    | CbWrite => on_object i (call (CallWrite (a_writes a))) s
    end.

Inductive step : Loop -> Loop -> Prop :=
| step_listen l s s' n : start l s = Ok s' -> step (mkLoop s n Before) (mkLoop s' n Before)
| step_enter s n : step (mkLoop s n Before) (mkLoop s n Poll)
| step_quit s n : step (mkLoop s n Poll) (mkLoop s n Stopped)
| step_poll r s n p active n' :
    reported n (loop_poller s) r -> poll r n (loop_poller s) = Ok (p, active, n') ->
    step (mkLoop s n Poll) (mkLoop (with_poller p s) n' (Active active [] []))
| step_next i rest cur c s n :
    channels (loop_poller s) !! i = Some c ->
    step (mkLoop s n (Active (i :: rest) cur [])) (mkLoop s n (Active rest [i] (handleEvent c)))
| step_callback i rest cb cbs a s s' n :
    accepts_ok (a_accepts a) s -> run_callback i cb a s = Ok s' ->
    step (mkLoop s n (Active rest [i] (cb :: cbs))) (mkLoop s' n (Active rest [i] cbs))
| step_swap cur s n : step (mkLoop s n (Active [] cur [])) (mkLoop (begin_round s) n Functors)
| step_functor r s s' n :
    todo s <> [] -> run_next r s = Ok s' -> step (mkLoop s n Functors) (mkLoop s' n Functors)
| step_round_over r s s' n :
    todo s = [] -> run_next r s = Ok s' -> step (mkLoop s n Functors) (mkLoop s' n Poll)
| step_other i c s s' n l :
    i ∉ dead s -> from_channel c = false -> on_object i (call c) s = Ok s' -> step (mkLoop s n l) (mkLoop s' n l)
| step_dies i o s n l :
    objects s !! i = Some o -> i ∉ dead s -> referenced i s = false -> step (mkLoop s n l) (mkLoop (destroy i o s) n l).

(** ** Pointers of the turn *)
Definition pointers (l : place) : list nat :=
  match l with Active rest cur _ => cur ++ rest | _ => [] end.

(** A pointer to the listening channel, or to the channel of an object whose
    destructor has not run. *)
Definition valid (s : TcpServer) (i : nat) : Prop :=
  registered i s = true /\ (i = m_acceptChannel s \/ (is_Some (objects s !! i) /\ i ∉ dead s)).

Lemma registered_channel i s :
  registered i s = true <-> exists c, channels (loop_poller s) !! i = Some c /\ m_index c <> kNew.
Proof.
  unfold registered. destruct (channels (loop_poller s) !! i) as [c|].
  - rewrite negb_true_iff, bool_decide_eq_false. split; [by exists c|]. intros (c' & [= <-] & H). exact H.
  - split; [done|]. by intros (c & ? & _).
Qed.

(** ** What keeps pointers valid *)
(** The fields of the channels but the reported events are those of before. *)
Definition same_channels (p p' : EpollPoller) : Prop :=
  m_channels p' = m_channels p /\ kernel p' = kernel p /\ m_useEdgeTrigger p' = m_useEdgeTrigger p
  /\ forall i, option_relation (fun c' c => exists r, c' = setRevents r c) (fun _ => False) (fun _ => False)
       (channels p' !! i) (channels p !! i).

Lemma same_channels_refl p : same_channels p p.
Proof.
  unfold same_channels. split; [done|split; [done|split; [done|]]]. intros i. destruct (channels p !! i) as [c|]; [|done]. exists (m_revents c). by destruct c.
Qed.

Lemma same_channels_put p0 p i c r :
  same_channels p0 p -> channels p !! i = Some c -> same_channels p0 (put_channel i (setRevents r c) p).
Proof.
  intros (M & K & E & R) Hc. unfold same_channels. split; [done|split; [done|split; [done|]]]. intros j. simpl. destruct (decide (j = i)) as [->|Hne].
  - rewrite lookup_insert_eq. specialize (R i). rewrite Hc in R.
    destruct (channels p0 !! i) as [c0|]; [|done]. destruct R as [r0 ->]. by exists r.
  - by rewrite lookup_insert_ne.
Qed.

Lemma fill_same evs p : same_channels p (fillActiveChannels evs p).1.
Proof.
  unfold fillActiveChannels. simpl.
  assert (G : forall p1, same_channels p p1 -> same_channels p (foldl (fun p '(id, ev) =>
    match channels p !! id with Some c => put_channel id (setRevents ev c) p | None => p end) p1 evs)).
  { induction evs as [|[i ev] evs IH]; intros p1 S; simpl; [done|]. apply IH.
    destruct (channels p1 !! i) as [c|] eqn:Hc; [|done]. by apply same_channels_put. }
  apply G, same_channels_refl.
Qed.

Lemma same_channel p p' i c' : same_channels p p' -> channels p' !! i = Some c' ->
  exists c r, channels p !! i = Some c /\ c' = setRevents r c.
Proof.
  intros (_ & _ & _ & R) Hc. specialize (R i). rewrite Hc in R. destruct (channels p !! i) as [c|]; [|done].
  destruct R as [r ->]. by exists c, r.
Qed.

Lemma same_channel_back p p' i c : same_channels p p' -> channels p !! i = Some c ->
  exists r, channels p' !! i = Some (setRevents r c).
Proof.
  intros (_ & _ & _ & R) Hc. specialize (R i). rewrite Hc in R. destruct (channels p' !! i) as [c'|]; [|done].
  destruct R as [r ->]. by exists r.
Qed.

Lemma same_poller_inv p p' : same_channels p p' -> poller_inv p -> poller_inv p'.
Proof.
  intros S I. pose proof S as (M & K & E & _). split.
  - intros i j c d Hc Hd Hf. destruct (same_channel _ _ _ _ S Hc) as (c0 & r & Hc0 & ->).
    destruct (same_channel _ _ _ _ S Hd) as (d0 & r' & Hd0 & ->). by eapply (pi_distinct p I).
  - intros i c Hc. destruct (same_channel _ _ _ _ S Hc) as (c0 & r & Hc0 & ->). rewrite M, K, E.
    exact (pi_index p I i c0 Hc0).
  - intros fd i. rewrite M. intros Hm. destruct (pi_owner p I fd i Hm) as (c & Hc & Hf & Hi).
    destruct (same_channel_back _ _ _ _ S Hc) as [r Hr]. by exists (setRevents r c).
  - intros fd ev. rewrite K, M. intros Hk. destruct (pi_kernel p I fd ev Hk) as (i & c & Hm & Hc & Hi).
    destruct (same_channel_back _ _ _ _ S Hc) as [r Hr]. by exists i, (setRevents r c).
Qed.

Lemma same_phase st c q r : phase st c q -> phase st (setRevents r c) q.
Proof.
  destruct 1; [eapply phase_new|eapply phase_live|eapply phase_closing|eapply phase_gone]; eauto.
Qed.

Lemma polled_inv p s : same_channels (loop_poller s) p -> inv None s -> inv None (with_poller p s).
Proof.
  intros S I. destruct I as [Ip [Ha [c0 Hc0]] ? Hcs Hobj ? ? ? ? ? ? Hq ? ?]. split; try done.
  - by apply (same_poller_inv (loop_poller s)).
  - split; [done|]. destruct (same_channel_back _ _ _ _ S Hc0) as [r Hr]. by eexists.
  - intros i c Hc. destruct (same_channel _ _ _ _ S Hc) as (c1 & r & Hc1 & ->). by apply (Hcs i c1).
  - intros i o Hne Ho. destruct (Hobj i o Hne Ho) as [O1 O2 (c & Hc & Hf & Hp)]. split; [done|done|].
    destruct (same_channel_back _ _ _ _ S Hc) as [r Hr]. exists (setRevents r c). splits; try done. by apply same_phase.
Qed.

Definition keeps_valid (s s' : TcpServer) : Prop := forall i, valid s i -> valid s' i.

Lemma keeps_valid_refl s : keeps_valid s s.
Proof. by intros i. Qed.

Lemma polled_keeps p s : same_channels (loop_poller s) p -> keeps_valid s (with_poller p s).
Proof.
  intros S i [(c & Hc & Hi)%registered_channel Hv]. split; [|exact Hv]. apply registered_channel.
  destruct (same_channel_back _ _ _ _ S Hc) as [r Hr]. by exists (setRevents r c).
Qed.

Lemma effect_moves w w' : effect w w' -> moves w w'.
Proof. intros [K|C]; [apply K|apply C]. Qed.

(** An operation of a connection leaves every channel registered that was. *)
Lemma call_keeps i c s s' : inv None s -> on_object i (call c) s = Ok s' -> keeps_valid s s'.
Proof.
  intros I. unfold on_object. destruct (objects s !! i) as [o|] eqn:Ho; [|intros [= <-]; by intros j].
  destruct (call c (view o s)) as [w|] eqn:Ew; cbn [res_bind]; [|done]. intros [= <-].
  destruct (si_objects _ _ I i o ltac:(done) Ho) as [Hch _ (ch & Hc & _)].
  pose proof (effect_moves _ _ (call_effect c _ _ Ew)) as M.
  pose proof (good_view s i o None I Hch (mk_is_Some _ _ Hc)) as G.
  assert (K : keeps_valid s (put_view i o w s)).
  { intros j [(cj & Hcj & Hi)%registered_channel Hv]. split.
    - apply registered_channel. destruct (decide (j = i)) as [->|Hne].
      + destruct (channel_index s i o w cj G M Hch Hcj) as (c' & Hc' & _ & Hk). exists c'. auto.
      + exists cj. rewrite (channels_put s i o w Hch (moves_touches _ _ G M)) by done. done.
    - destruct Hv as [->|[[oj Hj] Hd]]; [by left|]. right. split; [|exact Hd].
      rewrite objects_put. destruct (decide (j = i)); by eexists. }
  by destruct (existsb tcp.is_close (tcp.evs w)).
Qed.

Lemma accept_keeps rs s : inv None s -> accepts_ok rs s -> keeps_valid s (newConnection rs s).
Proof.
  revert s. induction rs as [|[fd|e] rs IH]; intros s I Ha; simpl in *; [by intros i| |].
  - destruct Ha as (Hf & Hk & Ha). intros i Hi. apply IH; [by apply add_inv|done|].
    destruct Hi as [(c & Hc & Hn)%registered_channel Hv].
    assert (Hne : next_object s <> i) by (pose proof (proj1 (si_channels _ _ I i c Hc)); lia).
    split; [apply registered_channel; exists c; simpl; by rewrite lookup_insert_ne|].
    destruct Hv as [->|[Ho Hd]]; [by left|]. right. split; [|done]. simpl. by rewrite lookup_insert_ne.
  - destruct (e =? EINTR); [by apply IH|by intros i].
Qed.

(** The destructor never runs on an object whose channel is registered. *)
Lemma destroy_keeps i o s :
  inv None s -> objects s !! i = Some o -> referenced i s = false -> keeps_valid s (destroy i o s).
Proof.
  intros I Ho Hr j [Hreg Hv]. split; [exact Hreg|]. destruct Hv as [->|[Hj Hd]]; [by left|]. right.
  split; [exact Hj|]. destruct (decide (j = i)) as [->|Hne]; [|unfold destroy, with_dead; simpl; set_solver].
  apply registered_channel in Hreg as (c & Hc & Hi).
  destruct (unreferenced_gone i o s I Ho Hr) as (_ & _ & c' & Hc' & Hi' & _). congruence.
Qed.

Lemma callback_keeps i cb a s s' :
  inv None s -> accepts_ok (a_accepts a) s -> run_callback i cb a s = Ok s' -> inv None s' /\ keeps_valid s s'.
Proof.
  intros I Ha. unfold run_callback. case_bool_decide.
  - pose proof (keeps_valid_refl s). destruct cb; intros [= <-]; try done.
    split; [by apply accept_inv|by apply accept_keeps].
  - destruct cb; try (intros E; split; [by eapply call_inv|by eapply call_keeps]).
    intros [= <-]. split; [exact I|apply keeps_valid_refl].
Qed.

(** ** Which objects there are, and which are gone *)
Definition all_objects (s : TcpServer) : Prop := forall i, (0 < i < next_object s)%nat -> is_Some (objects s !! i).

(** Disconnected, with nothing queued. *)
Definition gone (i : nat) (s : TcpServer) : Prop :=
  exists o, objects s !! i = Some o /\ tcp.m_state (o_conn o) = tcp.kDisconnected /\ of_conn i (queue s) = [].

Lemma gone_unregistered i s : inv None s -> gone i s -> registered i s = false.
Proof.
  intros I (o & Ho & Hs & Hq). destruct (si_objects _ _ I i o ltac:(done) Ho) as [_ _ (c & Hc & _ & Hp)].
  unfold registered. rewrite Hc. rewrite Hs, Hq in Hp.
  destruct Hp as [|Hl|l _ _ _ Eq|_ Hi]; [done|by destruct (not_live_off Hl)|by destruct l|]. by rewrite Hi.
Qed.

(** The objects made, those destroyed, and what is left to do for one of them. *)
Definition steady (j : option nat) (s s' : TcpServer) : Prop :=
  next_object s' = next_object s /\ dead s' = dead s /\ m_acceptChannel s' = m_acceptChannel s /\ round s' = round s
  /\ (forall i, is_Some (objects s !! i) -> is_Some (objects s' !! i))
  /\ (forall i, Some i <> j -> gone i s -> gone i s').

Lemma steady_refl j s : steady j s s.
Proof. unfold steady. splits; auto. Qed.

Lemma steady_objects j s s' : steady j s s' -> all_objects s -> all_objects s'.
Proof. intros (N & _ & _ & _ & O & _) A i. rewrite N. intros Hi. by apply O, A. Qed.

Lemma on_object_steady j op s s' : on_object j op s = Ok s' -> steady (Some j) s s'.
Proof.
  unfold on_object. destruct (objects s !! j) as [o|] eqn:Ho; [|intros [= <-]; apply steady_refl].
  destruct (op (view o s)) as [w|]; cbn [res_bind]; [|done]. intros [= <-].
  assert (S : steady (Some j) s (put_view j o w s)).
  { unfold steady. splits; try done.
    - intros i Hi. rewrite objects_put. destruct (decide (i = j)); [by eexists|exact Hi].
    - intros i Hne (oi & Hi & Hs & Hq). exists oi. rewrite objects_put, decide_False by congruence.
      rewrite queue_put, of_conn_app, of_conn_other by congruence. by rewrite Hq. }
  destruct (existsb tcp.is_close (tcp.evs w)); [|exact S].
  destruct S as (S1 & S2 & S3 & SR & S4 & S5). unfold steady. splits; try done.
  intros i Hne Hg. destruct (S5 i Hne Hg) as (oi & Hi & Hs & Hq). exists oi. split; [exact Hi|]. split; [exact Hs|].
  unfold queue in *. cbn [removeConnection with_loop with_connections todo pendingFunctors].
  rewrite app_assoc, of_conn_app, Hq, of_conn_cons, decide_False by congruence. done.
Qed.

Lemma run_next_steady r s s' : inv None s -> run_next r s = Ok s' ->
  next_object s' = next_object s /\ dead s' = dead s
  /\ (forall i, is_Some (objects s !! i) -> is_Some (objects s' !! i)) /\ (forall i, gone i s -> gone i s').
Proof.
  intros I E. destruct (todo s) as [|[j f] fs] eqn:Et; unfold run_next in E; rewrite Et in E.
  - injection E as <-. splits; try done. intros i (o & Ho & Hs & Hq). exists o. unfold queue in *. by rewrite Et in Hq.
  - destruct (on_object_steady _ _ _ _ E) as (S1 & S2 & S3 & SR & S4 & S5). splits; try done.
    intros i Hg. assert (Hne : j <> i).
    { intros ->. destruct Hg as (o & Ho & Hs & Hq). unfold queue in Hq. rewrite Et in Hq.
      simpl in Hq. by rewrite of_conn_cons, decide_True in Hq. }
    apply S5; [congruence|]. destruct Hg as (o & Ho & Hs & Hq). exists o. split; [done|]. split; [done|].
    unfold queue in *. rewrite Et in Hq. simpl in Hq. by rewrite of_conn_cons, decide_False in Hq.
Qed.

(** Accepting adds objects and touches no other. *)
Lemma add_objects fd s : all_objects s -> all_objects (add_connection fd s).
Proof.
  intros A i. simpl. intros Hi. destruct (decide (i = next_object s)) as [->|Hne]; [rewrite lookup_insert_eq; by eexists|].
  rewrite lookup_insert_ne by congruence. apply A. lia.
Qed.

Lemma add_gone fd s i : inv None s -> gone i s -> gone i (add_connection fd s).
Proof.
  intros I (o & Ho & Hs & Hq). pose proof (si_ids _ _ I i o Ho). exists o. simpl.
  rewrite lookup_insert_ne by lia. split; [done|]. split; [done|].
  unfold queue in *. simpl. rewrite app_assoc, of_conn_app, Hq, of_conn_cons, decide_False by lia. done.
Qed.

Lemma accept_objects rs s :
  inv None s -> accepts_ok rs s -> all_objects s -> (forall i, i ∈ dead s -> gone i s) ->
  all_objects (newConnection rs s) /\ (forall i, i ∈ dead (newConnection rs s) -> gone i (newConnection rs s)).
Proof.
  revert s. induction rs as [|[fd|e] rs IH]; intros s I Ha A D; simpl in *; [done| |].
  - destruct Ha as (Hf & Hk & Ha). apply IH; [by apply add_inv|done|by apply add_objects|].
    intros i Hi. apply add_gone; [exact I|]. by apply D.
  - destruct (e =? EINTR); [by apply IH|done].
Qed.

(** ** The invariant of the loop *)
Record loop_ok (d : Loop) : Prop := {
  lo_inv : inv None (srv d);
  lo_objects : all_objects (srv d);
  lo_dead : forall i, i ∈ dead (srv d) -> gone i (srv d);
  lo_pointers : Forall (valid (srv d)) (pointers (at_ d));
  lo_size : 0 < events_size d;
  lo_round : at_ d <> Functors -> round (srv d) = [];
}.

Lemma registered_valid s i :
  inv None s -> all_objects s -> (forall i, i ∈ dead s -> gone i s) -> registered i s = true -> valid s i.
Proof.
  intros I A D Hr. split; [exact Hr|]. pose proof Hr as (c & Hc & _)%registered_channel.
  destruct (si_channels _ _ I i c Hc) as [Hlt _]. destruct (si_accept _ _ I) as [-> _].
  destruct (decide (i = 0%nat)) as [|Hne]; [by left|]. right. split; [apply A; lia|].
  intros Hd. pose proof (gone_unregistered i s I (D i Hd)). congruence.
Qed.

(** Every channel [epoll_wait] may report is valid. *)
Lemma reported_valid size s r :
  inv None s -> all_objects s -> (forall i, i ∈ dead s -> gone i s) ->
  reported size (loop_poller s) r -> match r with Events evs => Forall (valid s) evs.*1 | WaitError _ => True end.
Proof.
  intros I A D. destruct r as [evs|e]; [|done]. intros [_ F]. apply Forall_fmap.
  apply (Forall_impl _ _ _ F). intros [i ev] (c & w & Hc & Hk & _). simpl in *. apply registered_valid; try done.
  apply registered_channel. exists c. split; [exact Hc|]. intros Hn.
  destruct (new_fd_free _ i c (si_poller _ _ I) Hc Hn). congruence.
Qed.

Lemma poll_spec r size p :
  0 < size -> reported size p r ->
  exists p' active size', poll r size p = Ok (p', active, size') /\ same_channels p p' /\ 0 < size'
    /\ active = match r with Events evs => evs.*1 | WaitError _ => [] end.
Proof.
  intros Hs Hr. destruct r as [[|e evs]|err]; simpl.
  1, 3: (eexists _, _, _; split; [reflexivity|]; split; [apply same_channels_refl|done]).
  destruct Hr as [Hl _]. rewrite (proj2 (Z.leb_le _ _)) by (simpl in *; lia). cbn [assert_ res_bind].
  eexists _, _, _. split; [reflexivity|]. split; [apply (fill_same (e :: evs))|]. split; [case_match; lia|done].
Qed.

Lemma accept_round rs s : round (newConnection rs s) = round s.
Proof.
  revert s. induction rs as [|[fd|e] rs IH]; intros s; simpl; [done|by rewrite IH|]. destruct (e =? EINTR); [apply IH|done].
Qed.

Lemma polled_ok r s n p active n' :
  loop_ok (mkLoop s n Poll) -> reported n (loop_poller s) r -> poll r n (loop_poller s) = Ok (p, active, n') ->
  loop_ok (mkLoop (with_poller p s) n' (Active active [] [])).
Proof.
  intros [I A D _ Hn R] Hr Hp. simpl in *.
  destruct (poll_spec r n (loop_poller s) Hn Hr) as (p1 & a1 & n1 & Hp1 & S & Hn1 & Ha).
  rewrite Hp in Hp1. injection Hp1 as <- <- <-.
  split; simpl; [by apply polled_inv|exact A|exact D| |exact Hn1|by intros _; apply R].
  pose proof (reported_valid n s r I A D Hr) as V. rewrite Ha. destruct r as [evs|e]; [|constructor].
  apply (Forall_impl _ _ _ V), (polled_keeps p s S).
Qed.

(** An operation of a connection that has not been destroyed. *)
Lemma steady_ok i s s' :
  steady (Some i) s s' -> i ∉ dead s -> all_objects s -> (forall j, j ∈ dead s -> gone j s) ->
  all_objects s' /\ (forall j, j ∈ dead s' -> gone j s') /\ round s' = round s.
Proof.
  intros S Hd A D. split; [by eapply steady_objects|]. destruct S as (_ & Ed & _ & R & _ & G). rewrite Ed.
  split; [|exact R]. intros j Hj. apply G; [congruence|by apply D].
Qed.

Lemma callback_ok i rest cb cbs a s s' n :
  loop_ok (mkLoop s n (Active rest [i] (cb :: cbs))) -> accepts_ok (a_accepts a) s -> run_callback i cb a s = Ok s' ->
  loop_ok (mkLoop s' n (Active rest [i] cbs)).
Proof.
  intros [I A D Hp Hn R] Ha E. simpl in *.
  destruct (callback_keeps i cb a s s' I Ha E) as [I' K].
  assert (O : all_objects s' /\ (forall j, j ∈ dead s' -> gone j s') /\ round s' = round s).
  { apply Forall_cons in Hp as [[_ Hv] _]. unfold run_callback in E. case_bool_decide as Hi.
    - destruct cb; injection E as <-; try done. rewrite accept_round.
      destruct (accept_objects (a_accepts a) s I Ha A D). done.
    - destruct Hv as [|[_ Hd]]; [done|].
      apply (steady_ok i s); try done.
      destruct cb; first [by eapply on_object_steady|injection E as <-; apply steady_refl]. }
  destruct O as (A' & D' & R'). split; simpl; try done; [apply (Forall_impl _ _ _ Hp), K|].
  intros _. rewrite R'. by apply R.
Qed.

Lemma functor_step_ok r s s' n l :
  loop_ok (mkLoop s n Functors) -> run_next r s = Ok s' -> pointers l = [] -> (l <> Functors -> round s' = []) ->
  loop_ok (mkLoop s' n l).
Proof.
  intros [I A D Hp Hn R] E Hl Hr. destruct (run_next_steady r s s' I E) as (N & Ed & O & G). simpl in *.
  split; simpl; [by eapply functor_inv| | |by rewrite Hl|done|done].
  - intros i. rewrite N. intros Hi. by apply O, A.
  - intros i. rewrite Ed. intros Hi. by apply G, D.
Qed.

Lemma place_ok s n l l' : loop_ok (mkLoop s n l) -> l <> Functors -> pointers l' = [] -> loop_ok (mkLoop s n l').
Proof. intros [I A D Hp Hn R] Hl Hl'. split; simpl; [done|done|done|by rewrite Hl'|done|by intros _; apply R]. Qed.

Lemma loop_step_ok d d' : step d d' -> loop_ok d -> loop_ok d'.
Proof.
  destruct 1 as [l s s' n E|s n|s n|r s n p active n' Hr Hp|i rest cur c s n Hc|i rest cb cbs a s s' n Ha E
    |cur s n|r s s' n Ht E|r s s' n Ht E|i c s s' n l Hd Hc E|i o s n l Ho Hd Hr]; intros L.
  - destruct L as [I A D Hp Hn R]. simpl in *. split; simpl; try done; [by eapply listen_inv|..].
    all: unfold start in E; destruct (m_started s); [by injection E as <-|].
    all: destruct l; [destruct (enableReading (m_acceptChannel s) (loop_poller s)) as [p|]; [|done]|]; by injection E as <-.
  - by eapply place_ok.
  - by eapply place_ok.
  - by eapply polled_ok.
  - destruct L as [I A D Hp Hn R]. split; simpl in *; try done; [|by intros _; apply R]. apply Forall_app in Hp. apply Hp.
  - by eapply callback_ok.
  - destruct L as [I A D Hp Hn R]. simpl in *. assert (Er : round s = []) by (by apply R).
    assert (Et : todo s = []) by (destruct (si_round _ _ I) as [t Et]; rewrite Er in Et; by destruct t, (todo s)).
    split; simpl; try done; [by apply begin_inv|].
    intros i Hi. destruct (D i Hi) as (o & Ho & Hs & Hq). exists o. split; [exact Ho|]. split; [exact Hs|].
    unfold queue in *. rewrite Et in Hq. simpl in *. by rewrite app_nil_r.
  - by eapply functor_step_ok.
  - eapply functor_step_ok; [done|done|done|]. intros _. unfold run_next in E. rewrite Ht in E. by injection E as <-.
  - destruct L as [I A D Hp Hn R]. simpl in *.
    destruct (steady_ok i s s' (on_object_steady _ _ _ _ E) Hd A D) as (A' & D' & R').
    split; simpl; try done; [by eapply call_inv| |by rewrite R'].
    apply (Forall_impl _ _ _ Hp), (call_keeps i c s s' I E).
  - destruct L as [I A D Hp Hn R]. simpl in *.
    destruct (unreferenced_gone i o s I Ho Hr) as (Hs & Hq & _).
    split; simpl; try done; [by apply destroy_step_inv| |apply (Forall_impl _ _ _ Hp), (destroy_keeps i o s I Ho Hr)].
    intros j [->%elem_of_singleton|Hj]%elem_of_union; [by exists o|by apply D].
Qed.

Lemma new_loop_ok name fd edge : short name -> loop_ok (newLoop (newServer name fd edge)).
Proof.
  intros Hs. split; simpl; [by apply new_inv|intros i Hi; simpl in Hi; lia|set_solver|constructor|done|done].
Qed.

Lemma reach_loop_ok name fd edge d : short name -> rtc step (newLoop (newServer name fd edge)) d -> loop_ok d.
Proof.
  intros Hs Hr. remember (newLoop (newServer name fd edge)) as d0 eqn:E.
  assert (L0 : loop_ok d0) by (subst; by apply new_loop_ok). clear E.
  induction Hr as [d|d d1 d2 H1 _ IH]; [done|]. apply IH. by eapply loop_step_ok.
Qed.

(** ** Which callbacks a report leads to *)
Lemma has_bits_pow x n : 0 <= n -> has_bits x (2 ^ n) = Z.testbit x n.
Proof.
  intros Hn. unfold has_bits. destruct (Z.testbit x n) eqn:E.
  - apply negb_true_iff, Z.eqb_neq. intros H0. apply (f_equal (fun z => Z.testbit z n)) in H0.
    by rewrite Z.land_spec, E, Z.pow2_bits_true, Z.bits_0 in H0.
  - apply negb_false_iff, Z.eqb_eq, Z.bits_inj'. intros m Hm. rewrite Z.land_spec, Z.bits_0.
    destruct (decide (m = n)) as [->|Hne]; [by rewrite E|]. rewrite Z.pow2_bits_false by done. apply andb_false_r.
Qed.

Lemma asked_for ev w n :
  0 <= n -> Z.land ev (Z.lnot (Z.lor w (Z.lor POLLERR POLLHUP))) = 0 -> n <> 3 -> n <> 4 ->
  Z.testbit ev n = true -> Z.testbit w n = true.
Proof.
  intros Hn H0 H3 H4 He. apply (f_equal (fun z => Z.testbit z n)) in H0.
  rewrite Z.land_spec, Z.lnot_spec, !Z.lor_spec, Z.bits_0, He in H0 by done. change POLLERR with (2 ^ 3) in H0.
  change POLLHUP with (2 ^ 4) in H0. rewrite !Z.pow2_bits_false in H0 by done. by destruct (Z.testbit w n).
Qed.

Lemma write_asked size s evs i ev c :
  inv None s -> reported size (loop_poller s) (Events evs) -> (i, ev) ∈ evs -> channels (loop_poller s) !! i = Some c ->
  CbWrite ∈ handleEvent (setRevents ev c) -> isWriting c = true.
Proof.
  intros I [_ F] Hin Hc Hw. rewrite Forall_forall in F. destruct (F _ Hin) as (c' & w & Hc' & Hk & Hb). simpl in *.
  assert (c' = c) as -> by congruence. pose proof (pi_index _ (si_poller _ _ I) i c Hc) as Hi.
  assert (Ew : w = wanted_events (m_useEdgeTrigger (loop_poller s)) (m_events c)).
  { destruct (m_index c) eqn:Ei; [|destruct Hi; congruence|destruct Hi; congruence].
    destruct (new_fd_free _ i c (si_poller _ _ I) Hc Ei). congruence. }
  assert (Hb2 : Z.testbit ev 2 = true).
  { rewrite <- has_bits_pow by done. unfold handleEvent in Hw. simpl in Hw. change POLLOUT with (2 ^ 2) in Hw.
    destruct (has_bits ev (2 ^ 2)); [done|]. repeat case_match; set_solver. }
  pose proof (asked_for ev w 2 ltac:(done) Hb ltac:(done) ltac:(done) Hb2) as Hw2.
  unfold isWriting. change kWriteEvent with (2 ^ 2). rewrite has_bits_pow by done.
  rewrite Ew in Hw2. unfold wanted_events in Hw2. destruct (m_useEdgeTrigger (loop_poller s)); [|done].
  by rewrite Z.lor_spec, orb_false_r in Hw2.
Qed.

(** C15: No callback runs on a destroyed connection.  In every state the loop
    reaches, whatever the kernel accepts, reports and answers and however other
    threads and destructors interleave with the turn, each pointer of the list
    of active channels, the channel in [handleEvent] included (the loop's own
    wake-up channel, which lives as long as the loop, left aside), belongs to the
    listening socket or to a connection whose destructor has not run, and its
    channel is registered; the next poll fails no assertion for any report the
    kernel may give; and a write callback follows only for a channel that waits
    for writability. *)
Theorem dispatch_only_live name fd edge d :
  short name -> rtc step (newLoop (newServer name fd edge)) d ->
  (forall i, i ∈ pointers (at_ d) -> registered i (srv d) = true
     /\ (i = m_acceptChannel (srv d) \/ exists o, objects (srv d) !! i = Some o /\ i ∉ dead (srv d)))
  /\ (forall r, reported (events_size d) (loop_poller (srv d)) r ->
        exists p active n, poll r (events_size d) (loop_poller (srv d)) = Ok (p, active, n))
  /\ (forall evs i ev c, reported (events_size d) (loop_poller (srv d)) (Events evs) -> (i, ev) ∈ evs ->
        channels (loop_poller (srv d)) !! i = Some c -> CbWrite ∈ handleEvent (setRevents ev c) -> isWriting c = true).
Proof.
  intros Hs Hr. pose proof (reach_loop_ok name fd edge d Hs Hr) as [I A D Hp Hn _]. split; [|split].
  - rewrite Forall_forall in Hp. intros i Hi. destruct (Hp i Hi) as [Hreg [|[[o Ho] Hd]]]; eauto.
  - intros r Hrep. destruct (poll_spec r _ _ Hn Hrep) as (p & a & n & E & _). eauto.
  - intros evs i ev c. by apply write_asked.
Qed.

(** ** A concrete run: a client connects, then sends its end of stream *)
Definition turn (r : wait_result) (s : TcpServer) : TcpServer :=
  match poll r kInitEventListSize (loop_poller s) with Ok (p, _, _) => with_poller p s | Err _ => s end.

Definition r1 : wait_result := Events [(0%nat, POLLIN)].
Definition r2 : wait_result := Events [(1%nat, POLLIN)].
Definition w0 : TcpServer := run_step (start true) ex0.
Definition w1 : TcpServer := turn r1 w0.
Definition w2 : TcpServer := newConnection [Accepted 7] w1.
Definition w3 : TcpServer := run_step (run_next (tcp.WriteError tcp.EAGAIN)) (begin_round w2).
Definition w4 : TcpServer := run_step (run_next (tcp.WriteError tcp.EAGAIN)) w3.
Definition w5 : TcpServer := turn r2 w4.
Definition w6 : TcpServer := run_step (run_callback 1 CbRead (mkAnswers [] [ReadData []] [])) w5.

Lemma ex_connected : rtc step (newLoop ex0) (mkLoop w4 16 Poll).
Proof.
  apply (rtc_l _ _ (mkLoop w0 16 Before)); [apply (step_listen true), (ran (start true)); vm_compute; reflexivity|].
  apply (rtc_l _ _ (mkLoop w0 16 Poll)); [apply step_enter|].
  apply (rtc_l _ _ (mkLoop w1 16 (Active [0%nat] [] []))).
  { apply (step_poll r1 w0 16 (loop_poller w1)); [|vm_compute; reflexivity]. split; [done|].
    apply Forall_singleton. eexists _, _. split; [vm_compute; reflexivity|]. split; vm_compute; reflexivity. }
  apply (rtc_l _ _ (mkLoop w1 16 (Active [] [0%nat] [CbRead]))).
  { apply (step_next 0%nat [] [] (setRevents POLLIN (mkChannel 3 kReadEvent 0 kAdded true)) w1 16). vm_compute. reflexivity. }
  apply (rtc_l _ _ (mkLoop w2 16 (Active [] [0%nat] []))).
  { apply (step_callback 0%nat [] CbRead [] (mkAnswers [Accepted 7] [] [])); [vm_compute; split; [set_solver|done]|reflexivity]. }
  apply (rtc_l _ _ (mkLoop (begin_round w2) 16 Functors)); [apply step_swap|].
  apply (rtc_l _ _ (mkLoop w3 16 Functors)); [apply (step_functor (tcp.WriteError tcp.EAGAIN)); [discriminate|apply (ran next); vm_compute; reflexivity]|].
  apply rtc_once, (step_round_over (tcp.WriteError tcp.EAGAIN)); [vm_compute; reflexivity|apply (ran next); vm_compute; reflexivity].
Qed.

Lemma ex_dispatch : rtc step (newLoop ex0) (mkLoop w6 16 (Active [] [1%nat] [])).
Proof.
  transitivity (mkLoop w4 16 Poll); [exact ex_connected|].
  apply (rtc_l _ _ (mkLoop w5 16 (Active [1%nat] [] []))).
  { apply (step_poll r2 w4 16 (loop_poller w5)); [|vm_compute; reflexivity]. split; [done|].
    apply Forall_singleton. eexists _, _. split; [vm_compute; reflexivity|]. split; vm_compute; reflexivity. }
  apply (rtc_l _ _ (mkLoop w5 16 (Active [] [1%nat] [CbRead]))).
  { apply (step_next 1%nat [] [] (setRevents POLLIN (mkChannel 7 kReadEvent 0 kAdded true)) w5 16).
    vm_compute. reflexivity. }
  apply rtc_once, (step_callback 1%nat [] CbRead [] (mkAnswers [] [ReadData []] [])); [done|].
  apply (ran (run_callback 1 CbRead (mkAnswers [] [ReadData []] []))). vm_compute. reflexivity.
Qed.

(** The connection has left the table, and its channel is still being handled. *)
Lemma dispatch_only_live_witness :
  m_connections w6 = ∅ /\ registered 1 w6 = true
  /\ exists o, objects w6 !! 1%nat = Some o /\ 1%nat ∉ dead w6.
Proof.
  split; [vm_compute; reflexivity|].
  destruct (dispatch_only_live "TCPServer" 3 false _ ex_short ex_dispatch) as (L & _).
  destruct (L 1%nat) as [Hr [Ha|Ho]]; [simpl; set_solver|vm_compute in Ha; discriminate|]. exact (conj Hr Ho).
Defined.

End dispatch.
