(* ===== verification/Shutdown.v ===== *)
(** * Shutdown: what happens after the loop has returned
      (the end of main in src/server_full.cpp, TcpServer::~TcpServer of
       src/net/tcpServer.cpp, TcpConnection::~TcpConnection of
       src/net/tcpConnection.cpp, Channel::~Channel of src/net/channel.cpp)

    [loop.loop()] returns, main stops its services and then its objects are
    destroyed in reverse order.  Until the thread pool has stopped, worker
    threads go on calling connections; afterwards [~TcpServer] forgets the
    listening channel and asks every connection to close, the loop drops its
    queue of functors, and the last reference to each connection goes away. *)
From S2P Require Import Prelude Buffer Poller TcpConnection ConnEffects TcpServer TcpServerProofs Dispatch.
Import buffer poller conn_effects tcp_server tcp_server_proofs dispatch.

Module shutdown.

#[local] Existing Instance tcp.State_eq_dec.

(** ** After the loop *)
(** Calls that other threads make: what they send is queued in the loop. *)
Definition other_thread (c : conn_call) : bool :=
  match c with
  | CallSend inLoop _ _ | CallShutdown inLoop => negb inLoop
  | CallForceClose | CallForceCloseWithDelay _ => true
  | CallRead _ | CallWrite _ | CallClose => false
  end.

Inductive late_step : TcpServer -> TcpServer -> Prop :=
| late_call i c s s' :
    i ∉ dead s -> other_thread c = true -> on_object i (call c) s = Ok s' -> late_step s s'
| late_dies i o s : objects s !! i = Some o -> i ∉ dead s -> referenced i s = false -> late_step s (destroy i o s).

(** ** Destructors *)
(** [~Channel]; [m_eventHandling] is false outside [handleEvent]. *)
Definition destroy_channel (id : nat) (p : EpollPoller) : res () :=
  match channels p !! id with
  | None => Ok ()
  | Some c => assert_ (negb (m_addedToLoop c))
  end.

(** [~TcpConnection] and its channel. *)
Definition destroy_connection (i : nat) (s : TcpServer) : res TcpServer :=
  match objects s !! i with
  | None => Ok s
  | Some o => _ <- destroy_channel i (loop_poller s) ;; Ok (destroy i o s)
  end.

Definition close_listener (s : TcpServer) : TcpServer :=
  mkServer (m_name s) (m_listenfd s) (m_acceptChannel s) (m_started s) (m_nextConnId s) (m_connections s)
    (objects s) (next_object s) (dead s) (loop_poller s) (round s) (todo s) (pendingFunctors s)
    (open_fds s ∖ {[m_listenfd s]}).

Fixpoint forceClose_all (ids : list nat) (s : TcpServer) : res TcpServer :=
  match ids with
  | [] => Ok s
  | i :: ids => s <- on_object i (call CallForceClose) s ;; forceClose_all ids s
  end.

(** [~TcpServer], its members included: the table, then the listening channel. *)
Definition destroy_server (s : TcpServer) : res TcpServer :=
  p <- disableAll (m_acceptChannel s) (loop_poller s) ;;
  p <- channel_remove (m_acceptChannel s) p ;;
  s <- forceClose_all (map_to_list (m_connections s)).*2 (close_listener (with_poller p s)) ;;
  _ <- destroy_channel (m_acceptChannel s) (loop_poller s) ;;
  Ok (with_connections ∅ s).

(** [~EventLoop] drops the functors it holds. *)
Definition destroy_loop (s : TcpServer) : TcpServer := with_round [] [] [] s.

Fixpoint destroy_all (ids : list nat) (s : TcpServer) : res TcpServer :=
  match ids with
  | [] => Ok s
  | i :: ids => s <- destroy_connection i s ;; destroy_all ids s
  end.

(** The objects that are left when main returns, in any order. *)
Definition remaining (s : TcpServer) : list nat := elements (dom (objects s) ∖ dead s).

Definition end_of_main (s : TcpServer) : res TcpServer :=
  s <- destroy_server s ;; destroy_all (remaining s) (destroy_loop s).

(** ** [m_addedToLoop] follows the registration *)
Definition flags_ok (p : EpollPoller) : Prop :=
  forall i c, channels p !! i = Some c -> m_addedToLoop c = negb (bool_decide (m_index c = kNew)).

Lemma flags_put i c p :
  flags_ok p -> m_addedToLoop c = negb (bool_decide (m_index c = kNew)) -> flags_ok (put_channel i c p).
Proof. intros F Hc j d. simpl. intros [[<- <-]|[_ Hd]]%lookup_insert_Some; [done|by apply (F j)]. Qed.

Lemma flags_channels p p' : channels p' = channels p -> flags_ok p -> flags_ok p'.
Proof. unfold flags_ok. by intros ->. Qed.

Lemma ctl_channels op c p : channels (update op c p) = channels p.
Proof. unfold update. by destruct (epoll_ctl _ _ _ _). Qed.

Lemma flags_update i f p p' : channel_update i f p = Ok p' -> flags_ok p -> flags_ok p'.
Proof.
  unfold channel_update. destruct (channels p !! i) as [c|] eqn:Hc; [|by intros [= <-]]. unfold updateChannel. simpl.
  intros E F. destruct (m_index c) eqn:Ei.
  - destruct (assert_ _); simpl in E; [|done]. injection E as <-.
    eapply flags_channels; [apply ctl_channels|]. apply flags_put; [exact F|done].
  - destruct (assert_ _); simpl in E; [|done]. destruct (assert_ _); simpl in E; [|done].
    destruct (isNoneEvent _); injection E as <-.
    + apply flags_put; [|done]. eapply flags_channels; [apply ctl_channels|]. apply flags_put; [exact F|]. simpl. by rewrite Ei.
    + eapply flags_channels; [apply ctl_channels|]. apply flags_put; [exact F|]. simpl. by rewrite Ei.
  - destruct (assert_ _); simpl in E; [|done]. destruct (assert_ _); simpl in E; [|done]. injection E as <-.
    eapply flags_channels; [apply ctl_channels|]. apply flags_put; [exact F|done].
Qed.

Lemma flags_remove i p p' : channel_remove i p = Ok p' -> flags_ok p -> flags_ok p'.
Proof.
  unfold channel_remove. destruct (channels p !! i) as [c|] eqn:Hc; [|by intros [= <-]]. unfold removeChannel.
  repeat (destruct (assert_ _); simpl; [|done]). intros [= <-] F. apply flags_put; [|done].
  case_bool_decide; [eapply flags_channels; [apply ctl_channels|]|]; exact F.
Qed.

(** A connection changes the poller through its channel only. *)
Section Invariant.
Variable P : EpollPoller -> Prop.
Hypothesis P_update : forall i f p p', channel_update i f p = Ok p' -> P p -> P p'.
Hypothesis P_remove : forall i p p', channel_remove i p = Ok p' -> P p -> P p'.

Definition preserves (op : tcp.World -> res tcp.World) : Prop :=
  forall w w', op w = Ok w' -> P (tcp.loop_poller w) -> P (tcp.loop_poller w').

Lemma preserves_on_update f w w' :
  tcp.on_channel (fun id => channel_update id f) w = Ok w' -> P (tcp.loop_poller w) -> P (tcp.loop_poller w').
Proof.
  unfold tcp.on_channel. destruct (channel_update _ _ _) eqn:E; [|done]. intros [= <-]. by apply (P_update _ _ _ _ E).
Qed.

Lemma preserves_close : preserves tcp.handleClose.
Proof.
  intros w w'. unfold tcp.handleClose. case_bool_decide; [|by intros [= <-]].
  destruct (tcp.on_channel _ _) as [w1|] eqn:E; [|done]. cbn [res_bind]. intros [= <-] Hp.
  apply (preserves_on_update _ _ _ E) in Hp. unfold tcp.emit_if. by repeat case_match.
Qed.

Lemma preserves_read rs : preserves (tcp.handleRead rs).
Proof.
  unfold tcp.handleRead. generalize false. induction rs as [|r rs IH]; intros rc w w'; simpl.
  { intros [= <-]. by case_match. }
  destruct (readFd r _) as [[[n e] b]|]; [|done]. cbn [res_bind].
  case_match; [intros E Hp; by apply (IH true _ _ E)|].
  case_match; [intros E Hp; by apply (preserves_close _ _ E)|].
  case_match; intros [= <-]; [by case_match|done].
Qed.

Lemma write_loop_poller ws w w' : tcp.write_loop ws w = Ok w' -> tcp.loop_poller w' = tcp.loop_poller w.
Proof.
  revert w. induction ws as [|r ws IH]; intros w; simpl; (case_match; [by intros [= <-]|]); [by intros [= <-]|].
  destruct r; [|by intros [= <-]]. case_match; [|by intros [= <-]].
  destruct (retrieve _ _); [|done]. cbn [res_bind]. intros E. by rewrite (IH _ E).
Qed.

Lemma preserves_write ws : preserves (tcp.handleWrite ws).
Proof.
  intros w w'. unfold tcp.handleWrite. case_match; [|by intros [= <-]].
  destruct (tcp.write_loop ws w) as [w1|] eqn:E1; [|done]. cbn [res_bind]. apply write_loop_poller in E1.
  case_match; [|intros [= <-]; by rewrite E1].
  destruct (tcp.on_channel _ _) as [w2|] eqn:E2; [|done]. cbn [res_bind]. intros [= <-] Hp. rewrite <- E1 in Hp.
  apply (preserves_on_update _ _ _ E2) in Hp. unfold tcp.emit_if, tcp.shutdownInLoop. by repeat case_match.
Qed.

Lemma emit_if_poller b e w : tcp.loop_poller (tcp.emit_if b e w) = tcp.loop_poller w.
Proof. by destruct b. Qed.

Lemma preserves_buffer rest : preserves (tcp.buffer_rest rest).
Proof.
  intros w w'. unfold tcp.buffer_rest. destruct (_ <? _); [by intros [= <-]|].
  destruct (append _ _) as [out|]; [|done]. cbn [res_bind].
  destruct (negb (tcp.channel_writing _)).
  - intros E Hp. apply (preserves_on_update _ _ _ E). by rewrite emit_if_poller.
  - intros [= <-]. by rewrite emit_if_poller.
Qed.

Lemma preserves_send data r : preserves (tcp.sendInLoop data r).
Proof.
  intros w w'. unfold tcp.sendInLoop. case_bool_decide; [by intros [= <-]|].
  destruct (if _ && _ then _ else _) as [nw fl]. destruct (negb fl && _).
  - intros E Hp. apply (preserves_buffer _ _ _ E). by rewrite emit_if_poller.
  - intros [= <-]. by rewrite emit_if_poller.
Qed.

Lemma preserves_call c : preserves (call c).
Proof.
  destruct c; simpl; [apply preserves_read|apply preserves_write|apply preserves_close|..].
  - intros w w'. cbn [call]. unfold tcp.send. case_bool_decide; [|by intros [= <-]]. destruct inLoop; [apply preserves_send|by intros [= <-]].
  - intros w w'. cbn [call]. intros [= <-]. unfold tcp.shutdown, tcp.shutdownInLoop. by repeat case_match.
  - intros w w'. cbn [call]. intros [= <-]. unfold tcp.forceClose. by case_match.
  - intros w w'. cbn [call]. intros [= <-]. unfold tcp.forceCloseWithDelay. by case_match.
Qed.

Lemma preserves_functor f r : preserves (tcp.run_functor f r).
Proof.
  destruct f; simpl.
  - apply preserves_send.
  - intros w w'. cbn [tcp.run_functor]. intros [= <-]. unfold tcp.shutdownInLoop. by case_match.
  - intros w w'. cbn [tcp.run_functor]. unfold tcp.forceCloseInLoop. case_match; [apply preserves_close|by intros [= <-]].
  - intros w w'. cbn [tcp.run_functor]. unfold tcp.connectEstablished. case_bool_decide; [|by intros [= <-]].
    destruct (tcp.on_channel _ _) as [w1|] eqn:E; [|done]. cbn [res_bind]. intros [= <-] Hp.
    apply (preserves_on_update _ _ _ E) in Hp. unfold tcp.emit_if. by case_match.
  - intros w w'. cbn [tcp.run_functor]. unfold tcp.connectDestroyed. intros E Hp.
    destruct (if bool_decide _ then _ else _) as [w1|] eqn:E1 in E; [|done]. cbn [res_bind] in E.
    assert (Hp1 : P (tcp.loop_poller w1)).
    { case_bool_decide; [|by injection E1 as <-]. destruct (tcp.on_channel _ _) as [w2|] eqn:E2; [|done].
      injection E1 as <-. apply (preserves_on_update _ _ _ E2) in Hp. unfold tcp.emit_if. by case_match. }
    unfold tcp.on_channel in E. destruct (channel_remove _ _) eqn:Er; [|done]. injection E as <-. by apply (P_remove _ _ _ Er).
Qed.

Lemma preserves_object i op s s' :
  preserves op -> on_object i op s = Ok s' -> P (loop_poller s) -> P (loop_poller s').
Proof.
  intros Hop. unfold on_object. destruct (objects s !! i) as [o|]; [|by intros [= <-]].
  destruct (op (view o s)) as [w|] eqn:E; [|done]. cbn [res_bind]. intros [= <-] Hp.
  apply (Hop _ _ E) in Hp. by case_match.
Qed.

End Invariant.

(** ** Every state of the loop, and of the time after it *)
Lemma flags_same p p' : same_channels p p' -> flags_ok p -> flags_ok p'.
Proof.
  intros S F i c Hc. destruct (same_channel _ _ _ _ S Hc) as (c0 & r & Hc0 & ->). exact (F i c0 Hc0).
Qed.

Lemma flags_accept rs s : flags_ok (loop_poller s) -> flags_ok (loop_poller (newConnection rs s)).
Proof.
  revert s. induction rs as [|[fd|e] rs IH]; intros s F; simpl; [done| |destruct (e =? EINTR); [by apply IH|done]].
  apply IH. simpl. by apply flags_put.
Qed.

Lemma flags_start l s s' : start l s = Ok s' -> flags_ok (loop_poller s) -> flags_ok (loop_poller s').
Proof.
  unfold start. destruct (m_started s); [by intros [= <-]|]. destruct l; [|by intros [= <-]].
  destruct (enableReading _ _) eqn:E; [|done]. intros [= <-]. by apply (flags_update _ _ _ _ E).
Qed.

Definition flags_object {i op s s'} := preserves_object flags_ok i op s s'.

Lemma flags_call i c s s' : on_object i (call c) s = Ok s' -> flags_ok (loop_poller s) -> flags_ok (loop_poller s').
Proof. apply flags_object, preserves_call, flags_update. Qed.

Lemma flags_run r s s' : run_next r s = Ok s' -> flags_ok (loop_poller s) -> flags_ok (loop_poller s').
Proof.
  unfold run_next. destruct (todo s) as [|[i f] fs]; [by intros [= <-]|]. intros E F.
  apply (flags_object (preserves_functor _ flags_update flags_remove f r) E F).
Qed.

Lemma flags_step d d' : dispatch.step d d' -> loop_ok d -> flags_ok (loop_poller (srv d)) -> flags_ok (loop_poller (srv d')).
Proof.
  destruct 1 as [l s s' n E|s n|s n|r s n p active n' Hr Hp|i rest cur c s n Hc|i rest cb cbs a s s' n Ha E
    |cur s n|r s s' n Ht E|r s s' n Ht E|i c s s' n l Hd Hc E|i o s n l Ho Hd Hr]; intros L F; simpl in *; try done.
  - by apply (flags_start _ _ _ E).
  - destruct (poll_spec r n _ (lo_size _ L) Hr) as (p1 & a1 & n1 & Hp1 & S & _).
    simpl in Hp1. rewrite Hp in Hp1. injection Hp1 as <- <- <-. by apply (flags_same _ _ S).
  - unfold run_callback in E. case_bool_decide.
    + destruct cb; injection E as <-; try done. by apply flags_accept.
    + destruct cb; try by apply (flags_call _ _ _ _ E). by injection E as <-.
  - by apply (flags_run _ _ _ E).
  - by apply (flags_run _ _ _ E).
  - by apply (flags_call _ _ _ _ E).
Qed.

Record settled (s : TcpServer) : Prop := {
  st_inv : inv None s;
  st_objects : all_objects s;
  st_dead : forall i, i ∈ dead s -> gone i s;
  st_flags : flags_ok (loop_poller s);
}.

Lemma late_is_step n s s' : late_step s s' -> dispatch.step (mkLoop s n Stopped) (mkLoop s' n Stopped).
Proof.
  destruct 1 as [i c s s' Hd Hc E|i o s Ho Hd Hr]; [|by apply step_dies].
  apply (step_other i c); try done. by destruct c.
Qed.

Lemma reach_settled name fd edge d s :
  short name -> rtc dispatch.step (newLoop (newServer name fd edge)) d -> at_ d = Stopped ->
  rtc late_step (srv d) s -> settled s.
Proof.
  intros Hs Hr Ha Hl.
  assert (R : rtc dispatch.step (newLoop (newServer name fd edge)) (mkLoop s (events_size d) Stopped)).
  { etransitivity; [exact Hr|]. destruct d as [s0 n l]. simpl in *. subst l. clear Hr.
    induction Hl as [s0|s0 s1 s2 H1 _ IH]; [done|]. eapply rtc_l; [by apply late_is_step|exact IH]. }
  assert (G : forall d0 d1, rtc dispatch.step d0 d1 -> loop_ok d0 -> flags_ok (loop_poller (srv d0)) ->
    loop_ok d1 /\ flags_ok (loop_poller (srv d1))).
  { intros d0 d1. induction 1 as [d0|d0 d1 d2 H1 _ IH]; intros L F; [done|].
    apply IH; [by eapply loop_step_ok|by eapply flags_step]. }
  destruct (G _ _ R) as [[I A D _ _ _] F]; [by apply new_loop_ok| |by split].
  intros i c. simpl. intros [[<- <-]|[_ Hc]]%lookup_insert_Some; [done|by rewrite lookup_empty in Hc].
Qed.

(** ** What the end leaves untouched *)
(** The poller, and per connection its descriptor and the bytes written. *)
Definition untouched (s s' : TcpServer) : Prop :=
  loop_poller s' = loop_poller s /\ m_acceptChannel s' = m_acceptChannel s /\ dom (objects s') = dom (objects s)
  /\ forall i o, objects s !! i = Some o ->
       exists o', objects s' !! i = Some o' /\ o_written o' = o_written o.

Lemma untouched_same s s' :
  loop_poller s' = loop_poller s -> m_acceptChannel s' = m_acceptChannel s -> objects s' = objects s -> untouched s s'.
Proof. intros P A O. unfold untouched. rewrite O. splits; try done. intros i o Ho. by exists o. Qed.

Lemma untouched_trans s1 s2 s3 : untouched s1 s2 -> untouched s2 s3 -> untouched s1 s3.
Proof.
  intros (P1 & A1 & D1 & O1) (P2 & A2 & D2 & O2). unfold untouched. splits; try congruence.
  intros i o Ho. destruct (O1 i o Ho) as (o1 & Ho1 & E1). destruct (O2 i o1 Ho1) as (o2 & Ho2 & E2).
  exists o2. split; [done|congruence].
Qed.

Lemma late_view c w :
  other_thread c = true -> exists w', call c w = Ok w' /\ tcp.loop_poller w' = tcp.loop_poller w
    /\ tcp.written w' = tcp.written w /\ tcp.evs w' = tcp.evs w.
Proof.
  destruct c; simpl; try done.
  - destruct inLoop; [done|]. intros _. unfold tcp.send. case_bool_decide; by eexists.
  - destruct inLoop; [done|]. intros _. unfold tcp.shutdown. case_bool_decide; by eexists.
  - intros _. unfold tcp.forceClose. case_bool_decide; by eexists.
  - intros _. unfold tcp.forceCloseWithDelay. case_bool_decide; by eexists.
Qed.

Lemma late_object i c s :
  other_thread c = true -> exists s', on_object i (call c) s = Ok s' /\ untouched s s' /\ dead s' = dead s.
Proof.
  intros Hc. unfold on_object. destruct (objects s !! i) as [o|] eqn:Ho; [|exists s; split; [done|split; [by apply untouched_same|done]]].
  destruct (late_view c (view o s) Hc) as (w & -> & Ep & Ew & Ee). cbn [res_bind]. simpl in Ee. rewrite Ee. simpl.
  eexists. split; [reflexivity|]. split; [|done]. unfold untouched. simpl. splits; [done|done| |].
  - rewrite dom_insert_L. apply elem_of_dom_2 in Ho. set_solver.
  - intros j oj Hj. destruct (decide (j = i)) as [->|Hne]; [|rewrite lookup_insert_ne by done; by exists oj].
    rewrite lookup_insert_eq. eexists. split; [done|]. simpl. rewrite Ew. simpl. congruence.
Qed.

Lemma late_step_untouched s s' : late_step s s' -> untouched s s'.
Proof.
  destruct 1 as [i c s s' _ Hc E|i o s _ _ _]; [|by apply untouched_same].
  destruct (late_object i c s Hc) as (s1 & E1 & U & _). congruence.
Qed.

Lemma late_untouched s s' : rtc late_step s s' -> untouched s s'.
Proof.
  induction 1 as [s|s s1 s2 H1 _ IH]; [by apply untouched_same|]. eapply untouched_trans; [by apply late_step_untouched|exact IH].
Qed.

Lemma forceClose_all_ok ids s :
  exists s', forceClose_all ids s = Ok s' /\ untouched s s' /\ dead s' = dead s.
Proof.
  revert s. induction ids as [|i ids IH]; intros s; cbn [forceClose_all].
  { exists s. split; [done|]. split; [by apply untouched_same|done]. }
  destruct (late_object i CallForceClose s eq_refl) as (s1 & E1 & U1 & D1).
  rewrite E1. cbn [res_bind].
  destruct (IH s1) as (s2 & E2 & U2 & D2). exists s2. split; [done|]. split; [by eapply untouched_trans|congruence].
Qed.

(** ** The destructors *)
Lemma remove_channels i p p' c :
  channel_remove i p = Ok p' -> channels p !! i = Some c ->
  channels p' = <[i := setIndex kNew (set_added false c)]> (channels p).
Proof.
  unfold channel_remove. intros E Hc. rewrite Hc in E. unfold removeChannel in E.
  repeat (destruct (assert_ _); simpl in E; [|done]). injection E as <-. simpl. case_bool_decide; [|done]. by rewrite ctl_channels.
Qed.

(** [~TcpServer] fails no assertion, and leaves the channels of connections. *)
Lemma destroy_server_ok s :
  settled s -> exists s1, destroy_server s = Ok s1 /\ dead s1 = dead s /\ dom (objects s1) = dom (objects s)
    /\ (forall i, i <> m_acceptChannel s -> channels (loop_poller s1) !! i = channels (loop_poller s) !! i)
    /\ (forall i o, objects s !! i = Some o -> exists o', objects s1 !! i = Some o' /\ o_written o' = o_written o).
Proof.
  intros [I _ _ _]. destruct (si_accept _ _ I) as [_ [c0 Hc0]]. pose proof (proj1 (si_accept _ _ I)) as E0.
  rewrite <- E0 in Hc0. unfold destroy_server.
  destruct (channel_update_ok _ (fun _ => kNoneEvent) _ c0 (si_poller _ _ I) Hc0)
    as (p1 & E1 & I1 & _ & _ & c1 & Hch1 & Hev1 & Hn1 & _).
  unfold disableAll. rewrite E1. cbn [res_bind].
  assert (Hc1 : channels p1 !! m_acceptChannel s = Some c1) by (by rewrite Hch1, lookup_insert_eq).
  destruct (channel_remove_ok _ p1 c1 I1 Hc1) as (p2 & E2 & _); [by apply Z.eqb_eq|done|].
  rewrite E2. cbn [res_bind]. pose proof (remove_channels _ _ _ _ E2 Hc1) as Hch2.
  destruct (forceClose_all_ok (map_to_list (m_connections s)).*2 (close_listener (with_poller p2 s)))
    as (s1 & E3 & (P3 & A3 & D3 & O3) & Dd). rewrite E3. cbn [res_bind].
  unfold destroy_channel. rewrite P3, A3. simpl. rewrite Hch2, lookup_insert_eq. simpl.
  eexists. split; [reflexivity|]. simpl. rewrite Dd, D3, P3. splits; try done.
  intros i Hi. simpl. by rewrite Hch2, lookup_insert_ne, Hch1, lookup_insert_ne by done.
Qed.

(** Destroying the connections one after the other. *)
Lemma destroy_all_ok ids s :
  (exists s', destroy_all ids s = Ok s') <->
  Forall (fun i => is_Some (objects s !! i) -> destroy_channel i (loop_poller s) = Ok ()) ids.
Proof.
  revert s. induction ids as [|i ids IH]; intros s; simpl.
  { split; [constructor|by exists s]. }
  unfold destroy_connection. rewrite Forall_cons. destruct (objects s !! i) as [o|] eqn:Ho; cbn [res_bind].
  - destruct (destroy_channel i (loop_poller s)) as [[]|] eqn:Ed; cbn [res_bind].
    + rewrite (IH (destroy i o s)). simpl. tauto.
    + split; [by intros [? ?]|]. intros [H1 _]. by specialize (H1 ltac:(by eexists)).
  - rewrite (IH s). split; [intros H1|intros [_ H1]]; [split; [by intros [? ?]|]|]; exact H1.
Qed.

Lemma destroy_all_untouched ids s s' : destroy_all ids s = Ok s' -> untouched s s'.
Proof.
  revert s. induction ids as [|i ids IH]; intros s; simpl; [intros [= <-]; by apply untouched_same|].
  unfold destroy_connection. destruct (objects s !! i) as [o|]; cbn [res_bind]; [|apply IH].
  destruct (destroy_channel i (loop_poller s)); [|done]. cbn [res_bind]. intros E.
  eapply untouched_trans; [|by apply IH]. by apply untouched_same.
Qed.

Lemma destroy_channel_registered i s c :
  flags_ok (loop_poller s) -> channels (loop_poller s) !! i = Some c ->
  destroy_channel i (loop_poller s) = Ok () <-> registered i s = false.
Proof.
  intros F Hc. unfold destroy_channel, registered. rewrite Hc, (F i c Hc).
  by destruct (bool_decide (m_index c = kNew)).
Qed.

Lemma end_of_main_ok s :
  settled s -> (exists s', end_of_main s = Ok s') <->
  (forall i o, objects s !! i = Some o -> i ∉ dead s -> registered i s = false).
Proof.
  intros St. pose proof St as [I _ _ F]. destruct (destroy_server_ok s St) as (s1 & E1 & D1 & O1 & C1 & _).
  unfold end_of_main. rewrite E1. cbn [res_bind]. rewrite destroy_all_ok, Forall_forall.
  unfold remaining. simpl. rewrite O1, D1.
  assert (K : forall i o, objects s !! i = Some o ->
    destroy_channel i (loop_poller s1) = Ok () <-> registered i s = false).
  { intros i o Ho. destruct (si_objects _ _ I i o ltac:(done) Ho) as [_ _ (c & Hc & _)].
    rewrite <- (destroy_channel_registered i s c F Hc). unfold destroy_channel. rewrite C1; [done|].
    pose proof (si_ids _ _ I i o Ho). rewrite (proj1 (si_accept _ _ I)). lia. }
  split; intros H.
  - intros i o Ho Hd. apply (K i o Ho), H.
    + apply elem_of_elements, elem_of_difference. split; [by eapply elem_of_dom_2|exact Hd].
    + apply elem_of_dom. rewrite O1. by eapply elem_of_dom_2.
  - intros i [[o Ho]%elem_of_dom Hd]%elem_of_elements%elem_of_difference _. by apply (K i o Ho), (H i o).
Qed.

Lemma live_registered s i o :
  inv None s -> objects s !! i = Some o -> live (tcp.m_state (o_conn o)) -> registered i s = true.
Proof.
  intros I Ho Hl. destruct (si_objects _ _ I i o ltac:(done) Ho) as [_ _ (c & Hc & _ & Hp)].
  apply registered_channel. exists c. split; [exact Hc|].
  destruct Hp as [E|_ Hn|l E|E]; [|exact Hn|..]; rewrite E in Hl; by destruct Hl.
Qed.

(** C16: When the process can end cleanly.  After the loop has returned and
    whatever other threads still call, the destructors at the end of main pass
    their assertions exactly when no connection that is left has a registered
    channel; in particular they abort the process as soon as one connection is
    still open, because its channel is only removed by a functor that the loop
    does not run any more. *)
Theorem clean_exit_iff_unregistered name fd edge d s :
  short name -> rtc dispatch.step (newLoop (newServer name fd edge)) d -> at_ d = Stopped ->
  rtc late_step (srv d) s ->
  ((exists s', end_of_main s = Ok s') <->
     (forall i o, objects s !! i = Some o -> i ∉ dead s -> registered i s = false))
  /\ (forall i o s', objects s !! i = Some o -> live (tcp.m_state (o_conn o)) -> end_of_main s <> Ok s').
Proof.
  intros Hs Hr Ha Hl. pose proof (reach_settled name fd edge d s Hs Hr Ha Hl) as St.
  split; [by apply end_of_main_ok|]. intros i o s' Ho Hlive E.
  pose proof (proj1 (end_of_main_ok s St) (ex_intro _ s' E) i o Ho) as Hu.
  rewrite (live_registered s i o (st_inv s St) Ho Hlive) in Hu.
  assert (i ∈ dead s) as Hd by (destruct (decide (i ∈ dead s)) as [|Hn]; [done|by specialize (Hu Hn)]).
  destruct (st_dead s St i Hd) as (o' & Ho' & Hs' & _). assert (o' = o) as -> by congruence.
  rewrite Hs' in Hlive. by destruct (not_live_off Hlive).
Qed.

(** C17: Answers that are finished after the loop has returned are lost.  The
    pool drains its tasks after [loop] has returned, and what they send is
    queued in the loop: whatever other threads call then, and after the
    destructors of main, no connection has had one more byte written than when
    the loop returned. *)
Theorem late_answers_not_written name fd edge d s :
  short name -> rtc dispatch.step (newLoop (newServer name fd edge)) d -> at_ d = Stopped ->
  rtc late_step (srv d) s ->
  forall i o, objects (srv d) !! i = Some o ->
    exists o', objects s !! i = Some o' /\ o_written o' = o_written o
    /\ forall s', end_of_main s = Ok s' -> exists o'', objects s' !! i = Some o'' /\ o_written o'' = o_written o.
Proof.
  intros Hs Hr Ha Hl i o Ho. pose proof (reach_settled name fd edge d s Hs Hr Ha Hl) as St.
  destruct (late_untouched _ _ Hl) as (_ & _ & _ & O). destruct (O i o Ho) as (o' & Ho' & Ew).
  exists o'. split; [exact Ho'|]. split; [exact Ew|]. intros s' E. unfold end_of_main in E.
  destruct (destroy_server_ok s St) as (s1 & E1 & _ & _ & _ & O1). rewrite E1 in E. cbn [res_bind] in E.
  destruct (O1 i o' Ho') as (o1 & Ho1 & Ew1). destruct (destroy_all_untouched _ _ _ E) as (_ & _ & _ & O2).
  destruct (O2 i o1 Ho1) as (o2 & Ho2 & Ew2). exists o2. split; [exact Ho2|congruence].
Qed.

(** ** Concrete ends: with an open connection, and after it has closed *)
Definition z0 : TcpServer := w4.
Definition z1 : TcpServer := run_step (on_object 1 (call (CallSend false (chars "h") (tcp.WriteError tcp.EAGAIN)))) z0.

Lemma ex_open : rtc dispatch.step (newLoop ex0) (mkLoop z0 16 Stopped).
Proof. eapply rtc_r; [exact ex_connected|apply step_quit]. Qed.

Lemma ex_late : rtc late_step z0 z1.
Proof.
  apply rtc_once, (late_call 1 (CallSend false (chars "h") (tcp.WriteError tcp.EAGAIN))); [set_solver|done|].
  apply (ran (on_object 1 (call (CallSend false (chars "h") (tcp.WriteError tcp.EAGAIN))))). vm_compute. reflexivity.
Qed.

Definition y1 : TcpServer := run_step (run_next (tcp.WriteError tcp.EAGAIN)) (begin_round w6).
Definition y2 : TcpServer := run_step (run_next (tcp.WriteError tcp.EAGAIN)) y1.

Lemma ex_closed : rtc dispatch.step (newLoop ex0) (mkLoop y2 16 Stopped).
Proof.
  transitivity (mkLoop w6 16 (Active [] [1%nat] [])); [exact ex_dispatch|].
  apply (rtc_l _ _ (mkLoop (begin_round w6) 16 Functors)); [apply step_swap|].
  apply (rtc_l _ _ (mkLoop y1 16 Functors)); [apply (step_functor (tcp.WriteError tcp.EAGAIN)); [discriminate|apply (ran next); vm_compute; reflexivity]|].
  apply (rtc_l _ _ (mkLoop y2 16 Poll)); [apply (step_round_over (tcp.WriteError tcp.EAGAIN)); [vm_compute; reflexivity|apply (ran next); vm_compute; reflexivity]|].
  apply rtc_once, step_quit.
Qed.

Lemma clean_exit_iff_unregistered_witness :
  (exists s', end_of_main y2 = Ok s') /\ (forall s', end_of_main z1 <> Ok s').
Proof.
  split.
  - apply (clean_exit_iff_unregistered "TCPServer" 3 false _ y2 ex_short ex_closed eq_refl (rtc_refl _ _)).
    assert (K : forallb (fun e => negb (registered e.1 y2)) (map_to_list (objects y2)) = true) by (vm_compute; reflexivity).
    rewrite forallb_forall in K. intros i o Ho _. apply negb_true_iff, (K (i, o)), list_elem_of_In.
    by apply elem_of_map_to_list.
  - destruct (clean_exit_iff_unregistered "TCPServer" 3 false _ z1 ex_short ex_open eq_refl ex_late) as [_ N].
    assert (Ho : exists o, objects z1 !! 1%nat = Some o /\ live (tcp.m_state (o_conn o)))
      by (eexists; split; [vm_compute; reflexivity|by left]).
    destruct Ho as (o & Ho & Hl). intros s'. exact (N 1%nat o s' Ho Hl).
Defined.

Lemma late_answers_not_written_witness :
  pendingFunctors z1 <> [] /\ exists o, objects z1 !! 1%nat = Some o /\ o_written o = [].
Proof.
  split; [vm_compute; discriminate|].
  assert (Ho : exists o, objects z0 !! 1%nat = Some o /\ o_written o = [])
    by (eexists; split; [vm_compute; reflexivity|reflexivity]).
  destruct Ho as (o & Ho & Hw).
  destruct (late_answers_not_written "TCPServer" 3 false _ z1 ex_short ex_open eq_refl ex_late 1%nat o Ho)
    as (o' & Ho' & E & _).
  exists o'. split; [exact Ho'|congruence].
Defined.

End shutdown.
