(* ===== verification/StopOrder.v ===== *)
(** * StopOrder: the threads of the services while main stops
      (the end of main in src/server_full.cpp, start and stop of
       src/service/messageService.cpp and src/service/heartbeatService.cpp)

    The message service keeps its retry thread and joins it in [stop]; the
    heartbeat service detaches its thread, and [stop] only clears the flag the
    thread reads.  One step is one access to a flag, a sleep or a round. *)
From S2P Require Import Prelude.

Module stop_order.

(** Where a service thread is: at the test of its loop, asleep, at the test
    after the sleep, in its round, or finished. *)
Inductive thread := TTest | TSleep | TRecheck | TRound | TEnd.

Definition thread_step (running : bool) (t : thread) : thread :=
  match t with
  | TTest => if running then TSleep else TEnd
  | TSleep => TRecheck
  | TRecheck => if running then TRound else TTest
  | TRound => TTest
  | TEnd => TEnd
  end.

(** The retry thread leaves its loop at the second test. *)
Definition retry_step (running : bool) (t : thread) : thread :=
  match t with
  | TRecheck => if running then TRound else TEnd
  | _ => thread_step running t
  end.

(** Main after [loop.loop()]: [messageService->stop()] clears the flag and
    joins, [heartbeatService->stop()] clears the flag, [threadPool.stop()],
    [metricsServer->stop()] and [redisClient->disconnect()] follow, and main
    returns, which destroys the services. *)
Inductive stage := StopMessage | JoinRetry | StopHeartbeat | StopPool | StopMetrics | Disconnect | Returned.

Record Process := mkProcess {
  at_ : stage;
  retry : thread;
  heart : thread;
  m_retryRunning : bool;
  m_running : bool;
}.

(** The services were started, and their threads are anywhere in their loops. *)
Definition started (r h : thread) : Process := mkProcess StopMessage r h true true.

Definition main_step (p : Process) : option Process :=
  match at_ p with
  | StopMessage =>
    Some (mkProcess (if m_retryRunning p then JoinRetry else StopHeartbeat) (retry p) (heart p) false (m_running p))
  | JoinRetry =>
    match retry p with
    | TEnd => Some (mkProcess StopHeartbeat (retry p) (heart p) (m_retryRunning p) (m_running p))
    | _ => None
    end
  | StopHeartbeat => Some (mkProcess StopPool (retry p) (heart p) (m_retryRunning p) false)
  | StopPool => Some (mkProcess StopMetrics (retry p) (heart p) (m_retryRunning p) (m_running p))
  | StopMetrics => Some (mkProcess Disconnect (retry p) (heart p) (m_retryRunning p) (m_running p))
  | Disconnect => Some (mkProcess Returned (retry p) (heart p) (m_retryRunning p) (m_running p))
  | Returned => None
  end.

Inductive step : Process -> Process -> Prop :=
| step_main p p' : main_step p = Some p' -> step p p'
| step_retry p : retry p <> TEnd ->
    step p (mkProcess (at_ p) (retry_step (m_retryRunning p) (retry p)) (heart p) (m_retryRunning p) (m_running p))
| step_heart p : heart p <> TEnd ->
    step p (mkProcess (at_ p) (retry p) (thread_step (m_running p) (heart p)) (m_retryRunning p) (m_running p)).

Definition order (s : stage) : nat :=
  match s with
  | StopMessage => 0 | JoinRetry => 1 | StopHeartbeat => 2 | StopPool => 3 | StopMetrics => 4 | Disconnect => 5 | Returned => 6
  end.

(** A thread that reads its service, which [Returned] has destroyed. *)
Definition reads_service (t : thread) : bool := match t with TSleep | TEnd => false | _ => true end.

(** ** The retry thread is gone before anything it uses *)
Definition ok (p : Process) : Prop :=
  m_retryRunning p = (order (at_ p) =? 0)%nat /\ m_running p = (order (at_ p) <=? 2)%nat
  /\ ((2 <= order (at_ p))%nat -> retry p = TEnd).

Lemma step_ok p p' : step p p' -> ok p -> ok p'.
Proof.
  destruct 1 as [p p' E|p Hr|p Hh]; intros (H1 & H2 & H3); destruct p as [s r h b1 b2]; unfold ok in *; simpl in *; subst.
  - unfold main_step in E. destruct s; simpl in *; simplify_eq/=; try (destruct r; simplify_eq/=); splits; try done; intros; try lia; apply H3; lia.
  - splits; try done. intros Ho. by destruct Hr; apply H3.
  - done.
Qed.

(** From the time [messageService->stop()] returns, the retry thread has
    ended, so it uses no connection, store or service that main destroys. *)
Lemma retry_joined r h p : rtc step (started r h) p -> (2 <= order (at_ p))%nat -> retry p = TEnd.
Proof.
  assert (G : forall p0 p1, rtc step p0 p1 -> ok p0 -> ok p1).
  { induction 1 as [|p0 p1 p2 H1 _ IH]; intros H; [done|]. apply IH. by eapply step_ok. }
  intros Hr. apply (G _ _ Hr). unfold ok. simpl. splits; try done. lia.
Qed.

(** [join] returns: with the flag off the thread ends within two accesses. *)
Lemma retry_ends t : exists n, (n <= 2)%nat /\ Nat.iter n (retry_step false) t = TEnd.
Proof. destruct t; [exists 1%nat|exists 2%nat|exists 1%nat|exists 2%nat|exists 0%nat]; split; (lia || done). Qed.

(** ** The heartbeat thread outlives its service *)
(** Main stops and returns while the thread sleeps; when it wakes it tests the
    flag of a service that has been destroyed. *)
Lemma heartbeat_thread_reads_destroyed_service :
  exists p p', rtc step (started TEnd TSleep) p /\ at_ p = Returned /\ heart p = TSleep
    /\ step p p' /\ reads_service (heart p') = true.
Proof.
  eexists (mkProcess Returned TEnd TSleep false false), _. split; [|split; [done|split; [done|split]]].
  - do 6 (eapply rtc_l; [apply step_main; reflexivity|simpl]). apply rtc_refl.
  - by apply step_heart.
  - done.
Qed.

End stop_order.
