(* ===== verification/RedisClient.v ===== *)
(** * RedisClient: the Redis client (src/base/redisClient.h, redisClient.cpp)

    The functions of hiredis are the members of the class [Hiredis] over a world
    [W] (the library, the server and the network).  The client keeps a context
    and its last error.  A reply is a pointer with the C structure it points to,
    so that releasing replies is visible.  Calling the library with a null
    context is [Err NullPointer]. *)
From S2P Require Import Prelude Text.
Import text.

Module redis.

(** ** hiredis *)
(** [redisReply]: type, integer, str with its length, element. *)
Inductive redisReply :=
  mkReply (type integer : Z) (str : option string) (element : list redisReply).

Definition type (r : redisReply) : Z := let 'mkReply t _ _ _ := r in t.
Definition integer (r : redisReply) : Z := let 'mkReply _ i _ _ := r in i.
Definition reply_str (r : redisReply) : option string := let 'mkReply _ _ s _ := r in s.
Definition element (r : redisReply) : list redisReply := let 'mkReply _ _ _ l := r in l.

Definition REDIS_REPLY_STRING : Z := 1.
Definition REDIS_REPLY_ARRAY : Z := 2.
Definition REDIS_REPLY_INTEGER : Z := 3.
Definition REDIS_REPLY_NIL : Z := 4.
Definition REDIS_REPLY_STATUS : Z := 5.
Definition REDIS_REPLY_ERROR : Z := 6.

(** What fills [%s], [%d] and [%lld] of a format. *)
Inductive arg := ArgS (s : string) | ArgD (n : Z) | ArgLLD (n : Z).

Class Hiredis (W : Type) := {
  redisConnectWithTimeout : string -> Z -> Z * Z -> W -> option Z * W;
  context_err : Z -> W -> Z;
  context_errstr : Z -> W -> string;
  redisFree : Z -> W -> W;
  redisCommand : Z -> string -> list arg -> W -> option (Z * redisReply) * W;
  freeReplyObject : Z -> W -> W;
}.

(** ** The client *)
Record RedisClient := mkClient { m_context : option Z; m_lastError : string }.

Definition newClient : RedisClient := mkClient None "".

Section Client.
Context {W : Type} `{Hiredis W}.

Record Conn := mkConn { client : RedisClient; world : W }.

Definition C (A : Type) := Conn -> res (A * Conn).
Definition ret {A} (a : A) : C A := fun s => Ok (a, s).
Definition bind {A B} (m : C A) (f : A -> C B) : C B := fun s => '(a, s') <- m s;; f a s'.

Notation "'let!' x := m 'in' k" := (bind m (fun x => k))
  (at level 200, x pattern, m at level 100, k at level 200).

Definition lib {A} (f : W -> A * W) : C A :=
  fun s => let '(a, w) := f (world s) in Ok (a, mkConn (client s) w).
Definition set_context (h : option Z) : C () :=
  fun s => Ok ((), mkConn (mkClient h (m_lastError (client s))) (world s)).
Definition set_error (e : string) : C () :=
  fun s => Ok ((), mkConn (mkClient (m_context (client s)) e) (world s)).
Definition context : C (option Z) := fun s => Ok (m_context (client s), s).
Definition getLastError (s : Conn) : string := m_lastError (client s).

(** [/] and [%] of [int] truncate. *)
Definition connect (host : string) (port timeoutMs : Z) : C bool :=
  let! h := lib (redisConnectWithTimeout (c_str host) port
                   (Z.quot timeoutMs 1000, Z.rem timeoutMs 1000 * 1000)) in
  let! _ := set_context h in
  match h with
  | None => let! _ := set_error "Failed to allocate redis context" in ret false
  | Some h =>
    let! e := lib (fun w => (context_err h w, w)) in
    if e =? 0 then ret true
    else
      let! text := lib (fun w => (context_errstr h w, w)) in
      let! _ := set_error text in
      let! _ := lib (fun w => ((), redisFree h w)) in
      let! _ := set_context None in ret false
  end.

Definition disconnect : C () :=
  let! h := context in
  match h with
  | Some h => let! _ := lib (fun w => ((), redisFree h w)) in set_context None
  | None => ret ()
  end.

Definition isConnected (s : Conn) : bool :=
  match m_context (client s) with Some h => context_err h (world s) =? 0 | None => false end.

(** [redisCommand(m_context, ...)]. *)
Definition executeCommand (format : string) (args : list arg) : C (option (Z * redisReply)) :=
  let! h := context in
  match h with
  | Some h => lib (redisCommand h format args)
  | None => fun _ => Err NullPointer
  end.

Definition freeReply (reply : option (Z * redisReply)) : C () :=
  match reply with
  | Some (p, _) => lib (fun w => ((), freeReplyObject p w))
  | None => ret ()
  end.

Definition checkReply (reply : option (Z * redisReply)) : C bool :=
  match reply with
  | None => let! _ := set_error "Redis reply is null" in ret false
  | Some (_, r) =>
    if type r =? REDIS_REPLY_ERROR then
      let! _ := set_error (match reply_str r with Some s => c_str s | None => "Unknown error" end) in ret false
    else ret true
  end.

(** [success = checkReply(reply); freeReply(reply); return success]. *)
Definition succeeds (format : string) (args : list arg) : C bool :=
  let! reply := executeCommand format args in
  let! success := checkReply reply in
  let! _ := freeReply reply in ret success.

(** The result of a reply of type [t], and [result] when there is none. *)
Definition reads {A} (t : Z) (read : redisReply -> A) (result : A) (format : string) (args : list arg) : C A :=
  let! reply := executeCommand format args in
  let! ok := checkReply reply in
  let result := match reply with
                | Some (_, r) => if ok && (type r =? t) then read r else result
                | None => result
                end in
  let! _ := freeReply reply in ret result.

(** [std::string(reply->str, reply->len)]; a null pointer comes with length 0. *)
Definition text_of (r : redisReply) : string := default "" (reply_str r).

Definition set (key value : string) : C bool := succeeds "SET %s %s" [ArgS (c_str key); ArgS (c_str value)].
Definition setex (key value : string) (expireSeconds : Z) : C bool :=
  succeeds "SETEX %s %d %s" [ArgS (c_str key); ArgD expireSeconds; ArgS (c_str value)].
Definition get (key : string) : C string := reads REDIS_REPLY_STRING text_of "" "GET %s" [ArgS (c_str key)].
Definition del (key : string) : C bool := succeeds "DEL %s" [ArgS (c_str key)].
Definition exists_ (key : string) : C bool :=
  reads REDIS_REPLY_INTEGER (fun r => integer r =? 1) false "EXISTS %s" [ArgS (c_str key)].
Definition expire (key : string) (seconds : Z) : C bool :=
  succeeds "EXPIRE %s %d" [ArgS (c_str key); ArgD seconds].
Definition ttl (key : string) : C Z :=
  reads REDIS_REPLY_INTEGER (fun r => i32 (integer r)) (-1) "TTL %s" [ArgS (c_str key)].

Definition incr (key : string) : C Z := reads REDIS_REPLY_INTEGER integer 0 "INCR %s" [ArgS (c_str key)].
Definition decr (key : string) : C Z := reads REDIS_REPLY_INTEGER integer 0 "DECR %s" [ArgS (c_str key)].
Definition incrBy (key : string) (increment : Z) : C Z :=
  reads REDIS_REPLY_INTEGER integer 0 "INCRBY %s %lld" [ArgS (c_str key); ArgLLD increment].

Definition hset (key field value : string) : C bool :=
  succeeds "HSET %s %s %s" [ArgS (c_str key); ArgS (c_str field); ArgS (c_str value)].
Definition hget (key field : string) : C string :=
  reads REDIS_REPLY_STRING text_of "" "HGET %s %s" [ArgS (c_str key); ArgS (c_str field)].
Definition hdel (key field : string) : C bool :=
  succeeds "HDEL %s %s" [ArgS (c_str key); ArgS (c_str field)].

(** The loop over [element[i]], [element[i + 1]] of [hgetall]. *)
Fixpoint field_values (l : list redisReply) (result : gmap string string) : gmap string string :=
  match l with
  | f :: v :: l' => field_values l' (<[text_of f := text_of v]> result)
  | _ => result
  end.
Definition hgetall (key : string) : C (gmap string string) :=
  reads REDIS_REPLY_ARRAY (fun r => field_values (element r) ∅) ∅ "HGETALL %s" [ArgS (c_str key)].

Definition lpush (key value : string) : C Z :=
  reads REDIS_REPLY_INTEGER integer 0 "LPUSH %s %s" [ArgS (c_str key); ArgS (c_str value)].
Definition rpush (key value : string) : C Z :=
  reads REDIS_REPLY_INTEGER integer 0 "RPUSH %s %s" [ArgS (c_str key); ArgS (c_str value)].
Definition lpop (key : string) : C string := reads REDIS_REPLY_STRING text_of "" "LPOP %s" [ArgS (c_str key)].
Definition rpop (key : string) : C string := reads REDIS_REPLY_STRING text_of "" "RPOP %s" [ArgS (c_str key)].
Definition lrange (key : string) (start stop : Z) : C (list string) :=
  reads REDIS_REPLY_ARRAY (fun r => map text_of (element r)) [] "LRANGE %s %lld %lld"
    [ArgS (c_str key); ArgLLD start; ArgLLD stop].

Definition sadd (key member : string) : C bool :=
  succeeds "SADD %s %s" [ArgS (c_str key); ArgS (c_str member)].
Definition srem (key member : string) : C bool :=
  succeeds "SREM %s %s" [ArgS (c_str key); ArgS (c_str member)].
Definition sismember (key member : string) : C bool :=
  reads REDIS_REPLY_INTEGER (fun r => integer r =? 1) false "SISMEMBER %s %s"
    [ArgS (c_str key); ArgS (c_str member)].
Definition smembers (key : string) : C (list string) :=
  reads REDIS_REPLY_ARRAY (fun r => map text_of (element r)) [] "SMEMBERS %s" [ArgS (c_str key)].

End Client.

End redis.
