(* ===== verification/RedisSpec.v ===== *)
(** * RedisSpec: what a Redis client promises, and that [RedisClient] keeps it

    The documented behaviour of the commands the client sends ([exec], over
    typed values with deadlines), the documented behaviour of hiredis over such
    a server ([HiredisLaws]: a command is answered, or the context fails and
    stays failed), the contract of the client's operations ([contract], without
    formats and replies), and the theorems that relate them.  A toy library
    satisfies the laws. *)
From S2P Require Import Prelude Text RedisClient.
Import text redis.

Module redis_spec.

(** ** Values *)
Inductive Value :=
| VStr (s : string) | VHash (h : gmap string string) | VList (l : list string) | VSet (m : gset string).

(** A value and the time in milliseconds at which it expires. *)
Record Entry := mkEntry { value_of : Value; deadline : option Z }.

Notation DB := (gmap string Entry).

(** The entry of a key, unless it has expired. *)
Definition live (now : Z) (d : DB) (k : string) : option Entry :=
  e ← d !! k; match deadline e with
              | Some t => if now <? t then Some e else None
              | None => Some e
              end.

(** The value of a key for a command of one type; a missing key is an empty
    value, [None] is a value of another type. *)
Definition as_str (e : option Entry) : option (option string) :=
  match e with None => Some None | Some (mkEntry (VStr s) _) => Some (Some s) | _ => None end.
Definition as_hash (e : option Entry) : option (gmap string string) :=
  match e with None => Some ∅ | Some (mkEntry (VHash h) _) => Some h | _ => None end.
Definition as_list (e : option Entry) : option (list string) :=
  match e with None => Some [] | Some (mkEntry (VList l) _) => Some l | _ => None end.
Definition as_set (e : option Entry) : option (gset string) :=
  match e with None => Some ∅ | Some (mkEntry (VSet m) _) => Some m | _ => None end.

(** Store a value and keep the deadline; empty containers disappear. *)
Definition put (now : Z) (k : string) (v : Value) (d : DB) : DB :=
  let empty := match v with
               | VStr _ => false | VHash h => bool_decide (h = ∅)
               | VList l => bool_decide (l = []) | VSet m => bool_decide (m = ∅)
               end in
  if empty then delete k d else <[k := mkEntry v (e ← live now d k; deadline e)]> d.

(** An integer as Redis stores it: exactly its decimal text. *)
Definition int_of (s : string) : option Z :=
  match stoll s with Ok z => if bool_decide (dec z = s) then Some z else None | Err _ => None end.

Definition fits64 (z : Z) : bool := (- 2 ^ 63 <=? z) && (z <? 2 ^ 63).

(** The new value of a counter. *)
Definition counted (e : option Entry) (by_ : Z) : option Z :=
  s ← as_str e; z ← match s with None => Some 0 | Some s => int_of s end;
  if fits64 (z + by_) then Some (z + by_) else None.

(** LRANGE: indices from 0, negative ones from the end, clipped. *)
Definition range (l : list string) (start stop : Z) : list string :=
  let n := Z.of_nat (length l) in
  let a := Z.max 0 (if start <? 0 then start + n else start) in
  let b := Z.min (n - 1) (if stop <? 0 then stop + n else stop) in
  if b <? a then [] else take (Z.to_nat (b - a + 1)) (drop (Z.to_nat a) l).

Definition pop_back (l : list string) : list string := take (length l - 1) l.

(** ** The server *)
Inductive Reply := RStatus (s : string) | RError (s : string) | RInteger (n : Z) | RBulk (s : string) | RNil
| RArray (l : list string).

(** What the documentation leaves open: the order of the members of a
    collection, and the rounding of a time to seconds. *)
Record Choice := mkChoice { order : list string -> list string; secs : Z -> Z }.
Definition choice_ok (ch : Choice) : Prop :=
  (forall l, order ch l ≡ₚ l) /\ forall ms, ms - 1000 < 1000 * secs ch ms < ms + 1000.

Definition WRONGTYPE : Reply := RError "WRONGTYPE Operation against a key holding the wrong kind of value".
Definition ERR_INT : Reply := RError "ERR value is not an integer or out of range".
Definition bulk (s : option string) : Reply := match s with Some s => RBulk s | None => RNil end.
Definition RBool (b : bool) : Reply := RInteger (if b then 1 else 0).

(** Reply and new contents, or the wrong type. *)
Definition on {A} (v : option A) (d : DB) (f : A -> Reply * DB) : Reply * DB :=
  match v with Some a => f a | None => (WRONGTYPE, d) end.

Section Exec.
Variables (ch : Choice) (now : Z).

Definition exec_counter (k : string) (by_ : Z) (d : DB) : Reply * DB :=
  on (as_str (live now d k)) d (fun _ =>
    match counted (live now d k) by_ with
    | Some z => (RInteger z, put now k (VStr (dec z)) d)
    | None => (ERR_INT, d)
    end).

Definition exec1 (cmd k : string) (d : DB) : Reply * DB :=
  let e := live now d k in
  if bool_decide (cmd = "GET") then on (as_str e) d (fun s => (bulk s, d))
  else if bool_decide (cmd = "DEL") then (RBool (bool_decide (is_Some e)), delete k d)
  else if bool_decide (cmd = "EXISTS") then (RBool (bool_decide (is_Some e)), d)
  else if bool_decide (cmd = "TTL") then
    (RInteger (match e with
               | None => -2
               | Some e => match deadline e with Some t => secs ch (t - now) | None => -1 end
               end), d)
  else if bool_decide (cmd = "INCR") then exec_counter k 1 d
  else if bool_decide (cmd = "DECR") then exec_counter k (-1) d
  else if bool_decide (cmd = "HGETALL") then
    on (as_hash e) d (fun h => (RArray (mbind (fun f => [f; default "" (h !! f)]) (order ch (map_to_list h).*1)), d))
  else if bool_decide (cmd = "LPOP") then
    on (as_list e) d (fun l => match l with [] => (RNil, d) | x :: l => (RBulk x, put now k (VList l) d) end)
  else if bool_decide (cmd = "RPOP") then
    on (as_list e) d (fun l => match list.last l with
                               | None => (RNil, d)
                               | Some x => (RBulk x, put now k (VList (pop_back l)) d)
                               end)
  else if bool_decide (cmd = "SMEMBERS") then on (as_set e) d (fun m => (RArray (order ch (elements m)), d))
  else (RError "ERR unknown command", d).

Definition exec2 (cmd k x : string) (d : DB) : Reply * DB :=
  let e := live now d k in
  if bool_decide (cmd = "SET") then (RStatus "OK", <[k := mkEntry (VStr x) None]> d)
  else if bool_decide (cmd = "EXPIRE") then
    match int_of x with
    | None => (ERR_INT, d)
    | Some s =>
      match e with
      | None => (RInteger 0, d)
      | Some e => (RInteger 1, if s <=? 0 then delete k d
                               else <[k := mkEntry (value_of e) (Some (now + 1000 * s))]> d)
      end
    end
  else if bool_decide (cmd = "INCRBY") then
    match int_of x with Some n => exec_counter k n d | None => (ERR_INT, d) end
  else if bool_decide (cmd = "HGET") then on (as_hash e) d (fun h => (bulk (h !! x), d))
  else if bool_decide (cmd = "HDEL") then
    on (as_hash e) d (fun h => if bool_decide (is_Some (h !! x))
                               then (RInteger 1, put now k (VHash (delete x h)) d) else (RInteger 0, d))
  else if bool_decide (cmd = "LPUSH") then
    on (as_list e) d (fun l => (RInteger (Z.of_nat (S (length l))), put now k (VList (x :: l)) d))
  else if bool_decide (cmd = "RPUSH") then
    on (as_list e) d (fun l => (RInteger (Z.of_nat (S (length l))), put now k (VList (l ++ [x])) d))
  else if bool_decide (cmd = "SADD") then
    on (as_set e) d (fun m => (RBool (bool_decide (x ∉ m)), put now k (VSet ({[x]} ∪ m)) d))
  else if bool_decide (cmd = "SREM") then
    on (as_set e) d (fun m => if bool_decide (x ∈ m)
                              then (RInteger 1, put now k (VSet (m ∖ {[x]})) d) else (RInteger 0, d))
  else if bool_decide (cmd = "SISMEMBER") then on (as_set e) d (fun m => (RBool (bool_decide (x ∈ m)), d))
  else (RError "ERR unknown command", d).

Definition exec3 (cmd k x y : string) (d : DB) : Reply * DB :=
  let e := live now d k in
  if bool_decide (cmd = "SETEX") then
    match int_of x with
    | None => (ERR_INT, d)
    | Some s => if s <=? 0 then (RError "ERR invalid expire time in 'setex' command", d)
                else (RStatus "OK", <[k := mkEntry (VStr y) (Some (now + 1000 * s))]> d)
    end
  else if bool_decide (cmd = "HSET") then
    on (as_hash e) d (fun h => (RBool (bool_decide (h !! x = None)), put now k (VHash (<[x := y]> h)) d))
  else if bool_decide (cmd = "LRANGE") then
    match int_of x, int_of y with
    | Some a, Some b => on (as_list e) d (fun l => (RArray (range l a b), d))
    | _, _ => (ERR_INT, d)
    end
  else (RError "ERR unknown command", d).

Definition exec (argv : list string) (d : DB) : Reply * DB :=
  match argv with
  | [cmd; k] => exec1 cmd k d
  | [cmd; k; x] => exec2 cmd k x d
  | [cmd; k; x; y] => exec3 cmd k x y d
  | _ => (RError "ERR wrong number of arguments", d)
  end.

(** ** The contract of the client's operations *)
Inductive op :=
| OSet (k v : string) | OSetex (k v : string) (s : Z) | OGet (k : string) | ODel (k : string)
| OExists (k : string) | OExpire (k : string) (s : Z) | OTtl (k : string)
| OIncr (k : string) | ODecr (k : string) | OIncrBy (k : string) (n : Z)
| OHset (k f v : string) | OHget (k f : string) | OHdel (k f : string) | OHgetall (k : string)
| OLpush (k v : string) | ORpush (k v : string) | OLpop (k : string) | ORpop (k : string)
| OLrange (k : string) (a b : Z)
| OSadd (k m : string) | OSrem (k m : string) | OSismember (k m : string) | OSmembers (k : string).

Inductive result :=
| Flag (b : bool) | Num (z : Z) | Txt (s : string) | Map (m : gmap string string) | Txts (l : list string).

(** The answer of a call that failed. *)
Definition neutral (o : op) : result :=
  match o with
  | OSet _ _ | OSetex _ _ _ | ODel _ | OExists _ | OExpire _ _ | OHset _ _ _ | OHdel _ _
  | OSadd _ _ | OSrem _ _ | OSismember _ _ => Flag false
  | OTtl _ => Num (-1)
  | OIncr _ | ODecr _ | OIncrBy _ _ | OLpush _ _ | ORpush _ _ => Num 0
  | OGet _ | OHget _ _ | OLpop _ | ORpop _ => Txt ""
  | OHgetall _ => Map ∅
  | OLrange _ _ _ | OSmembers _ => Txts []
  end.

Definition contract (o : op) (d : DB) : result * DB :=
  let typed {A} (v : option A) (f : A -> result * DB) :=
    match v with Some a => f a | None => (neutral o, d) end in
  let count k n := match counted (live now d k) n with
                   | Some z => (Num z, put now k (VStr (dec z)) d)
                   | None => (Num 0, d)
                   end in
  match o with
  | OSet k v => (Flag true, <[k := mkEntry (VStr v) None]> d)
  | OSetex k v s => if s <=? 0 then (Flag false, d)
                    else (Flag true, <[k := mkEntry (VStr v) (Some (now + 1000 * s))]> d)
  | OGet k => typed (as_str (live now d k)) (fun s => (Txt (default "" s), d))
  | ODel k => (Flag true, delete k d)
  | OExists k => (Flag (bool_decide (is_Some (live now d k))), d)
  | OExpire k s => (Flag true, match live now d k with
                               | None => d
                               | Some e => if s <=? 0 then delete k d
                                           else <[k := mkEntry (value_of e) (Some (now + 1000 * s))]> d
                               end)
  | OTtl k => (Num (i32 (match live now d k with
                         | None => -2
                         | Some e => match deadline e with Some t => secs ch (t - now) | None => -1 end
                         end)), d)
  | OIncr k => count k 1
  | ODecr k => count k (-1)
  | OIncrBy k n => count k n
  | OHset k f v => typed (as_hash (live now d k)) (fun h => (Flag true, put now k (VHash (<[f := v]> h)) d))
  | OHget k f => typed (as_hash (live now d k)) (fun h => (Txt (default "" (h !! f)), d))
  | OHdel k f => typed (as_hash (live now d k)) (fun h =>
      (Flag true, if bool_decide (is_Some (h !! f)) then put now k (VHash (delete f h)) d else d))
  | OHgetall k => typed (as_hash (live now d k)) (fun h => (Map h, d))
  | OLpush k v => typed (as_list (live now d k)) (fun l =>
      (Num (Z.of_nat (S (length l))), put now k (VList (v :: l)) d))
  | ORpush k v => typed (as_list (live now d k)) (fun l =>
      (Num (Z.of_nat (S (length l))), put now k (VList (l ++ [v])) d))
  | OLpop k => typed (as_list (live now d k)) (fun l =>
      match l with [] => (Txt "", d) | x :: l => (Txt x, put now k (VList l) d) end)
  | ORpop k => typed (as_list (live now d k)) (fun l =>
      match list.last l with None => (Txt "", d) | Some x => (Txt x, put now k (VList (pop_back l)) d) end)
  | OLrange k a b => typed (as_list (live now d k)) (fun l => (Txts (range l a b), d))
  | OSadd k m => typed (as_set (live now d k)) (fun s => (Flag true, put now k (VSet ({[m]} ∪ s)) d))
  | OSrem k m => typed (as_set (live now d k)) (fun s =>
      (Flag true, if bool_decide (m ∈ s) then put now k (VSet (s ∖ {[m]})) d else d))
  | OSismember k m => typed (as_set (live now d k)) (fun s => (Flag (bool_decide (m ∈ s)), d))
  | OSmembers k => typed (as_set (live now d k)) (fun s => (Txts (order ch (elements s)), d))
  end.

End Exec.

(** ** hiredis over such a server *)
(** The words of a format, separated by single blanks. *)
Fixpoint words (acc : bytes) (l : bytes) : list string :=
  match l with
  | [] => [str (rev acc)]
  | c :: l => if bool_decide (c = " "%char) then str (rev acc) :: words [] l else words (c :: acc) l
  end.

(** The arguments of a command: a directive that is a word of its own becomes
    one argument, whatever bytes the text has. *)
Fixpoint fill (ws : list string) (args : list arg) : option (list string) :=
  match ws with
  | [] => match args with [] => Some [] | _ => None end
  | w :: ws =>
    if bool_decide (w = "%s") then
      match args with ArgS s :: args => cons s <$> fill ws args | _ => None end
    else if bool_decide (w = "%d") then
      match args with ArgD n :: args => cons (dec n) <$> fill ws args | _ => None end
    else if bool_decide (w = "%lld") then
      match args with ArgLLD n :: args => cons (dec n) <$> fill ws args | _ => None end
    else if bool_decide ("%"%char ∈ chars w) then None
    else cons w <$> fill ws args
  end.

Definition argv (format : string) (args : list arg) : option (list string) := fill (words [] (chars format)) args.

(** The C structure of a reply. *)
Definition bulk_reply (s : string) : redisReply := mkReply REDIS_REPLY_STRING 0 (Some s) [].
Definition reply_of (r : Reply) : redisReply :=
  match r with
  | RStatus s => mkReply REDIS_REPLY_STATUS 0 (Some s) []
  | RError s => mkReply REDIS_REPLY_ERROR 0 (Some s) []
  | RInteger n => mkReply REDIS_REPLY_INTEGER n None []
  | RBulk s => bulk_reply s
  | RNil => mkReply REDIS_REPLY_NIL 0 None []
  | RArray l => mkReply REDIS_REPLY_ARRAY 0 None (map bulk_reply l)
  end.

(** A command is answered with what the server executed, in a new reply; or
    the call returns null and leaves an error in the context, whether or not
    the server got to execute it.  A context with an error never sends again.
    Releasing a reply does nothing else. *)
Class HiredisLaws (W : Type) `{Hiredis W} := {
  db : W -> DB;
  now : W -> Z;
  allocated : W -> gset Z;
  command_law h format args av w : argv format args = Some av ->
    let '(r, w') := redisCommand h format args w in
    now w <= now w' /\
    ((context_err h w = 0 /\ context_err h w' = 0
     /\ exists p ch R, r = Some (p, reply_of R) /\ p ∉ allocated w /\ allocated w' = {[p]} ∪ allocated w
          /\ choice_ok ch /\ exec ch (now w) av (db w) = (R, db w'))
    \/ (r = None /\ context_err h w' <> 0 /\ allocated w' = allocated w
        /\ (db w' = db w
            \/ context_err h w = 0
               /\ exists ch, choice_ok ch /\ db w' = (exec ch (now w) av (db w)).2)));
  free_law p w :
    let w' := freeReplyObject p w in
    now w <= now w' /\ db w' = db w /\ allocated w' = allocated w ∖ {[p]} /\ forall h, context_err h w' = context_err h w;
}.

(** ** The operations of the client *)
Section Client.
Context {W : Type} `{HiredisLaws W}.

Notation State := (Conn (W := W)).

Definition fmap_res {A B} (f : A -> B) (m : C (W := W) A) : C (W := W) B := bind m (fun a => ret (f a)).

Definition run_op (o : op) : C (W := W) result :=
  match o with
  | OSet k v => fmap_res Flag (set k v)
  | OSetex k v s => fmap_res Flag (setex k v s)
  | OGet k => fmap_res Txt (get k)
  | ODel k => fmap_res Flag (del k)
  | OExists k => fmap_res Flag (exists_ k)
  | OExpire k s => fmap_res Flag (expire k s)
  | OTtl k => fmap_res Num (ttl k)
  | OIncr k => fmap_res Num (incr k)
  | ODecr k => fmap_res Num (decr k)
  | OIncrBy k n => fmap_res Num (incrBy k n)
  | OHset k f v => fmap_res Flag (hset k f v)
  | OHget k f => fmap_res Txt (hget k f)
  | OHdel k f => fmap_res Flag (hdel k f)
  | OHgetall k => fmap_res Map (hgetall k)
  | OLpush k v => fmap_res Num (lpush k v)
  | ORpush k v => fmap_res Num (rpush k v)
  | OLpop k => fmap_res Txt (lpop k)
  | ORpop k => fmap_res Txt (rpop k)
  | OLrange k a b => fmap_res Txts (lrange k a b)
  | OSadd k m => fmap_res Flag (sadd k m)
  | OSrem k m => fmap_res Flag (srem k m)
  | OSismember k m => fmap_res Flag (sismember k m)
  | OSmembers k => fmap_res Txts (smembers k)
  end.

(** The call with the texts as the C library sees them. *)
Definition c_op (o : op) : op :=
  match o with
  | OSet k v => OSet (c_str k) (c_str v)
  | OSetex k v s => OSetex (c_str k) (c_str v) s
  | OGet k => OGet (c_str k)
  | ODel k => ODel (c_str k)
  | OExists k => OExists (c_str k)
  | OExpire k s => OExpire (c_str k) s
  | OTtl k => OTtl (c_str k)
  | OIncr k => OIncr (c_str k)
  | ODecr k => ODecr (c_str k)
  | OIncrBy k n => OIncrBy (c_str k) n
  | OHset k f v => OHset (c_str k) (c_str f) (c_str v)
  | OHget k f => OHget (c_str k) (c_str f)
  | OHdel k f => OHdel (c_str k) (c_str f)
  | OHgetall k => OHgetall (c_str k)
  | OLpush k v => OLpush (c_str k) (c_str v)
  | ORpush k v => ORpush (c_str k) (c_str v)
  | OLpop k => OLpop (c_str k)
  | ORpop k => ORpop (c_str k)
  | OLrange k a b => OLrange (c_str k) a b
  | OSadd k m => OSadd (c_str k) (c_str m)
  | OSrem k m => OSrem (c_str k) (c_str m)
  | OSismember k m => OSismember (c_str k) (c_str m)
  | OSmembers k => OSmembers (c_str k)
  end.

(** The arguments are of their types [int] and [long long]. *)
Definition op_ok (o : op) : bool :=
  match o with
  | OSetex _ _ s | OExpire _ s => (- 2 ^ 31 <=? s) && (s <? 2 ^ 31)
  | OIncrBy _ n => fits64 n
  | OLrange _ a b => fits64 a && fits64 b
  | _ => true
  end.

(** ** One command *)
(** What happens between a call and its result: the command was answered by
    [R], or the context failed. *)
Definition answered (h : Z) (av : list string) (s s' : State) (R : option Reply) : Prop :=
  m_context (client s') = Some h /\ now (world s) <= now (world s')
  /\ allocated (world s') = allocated (world s)
  /\ match R with
     | Some R => context_err h (world s) = 0 /\ context_err h (world s') = 0
         /\ exists ch, choice_ok ch /\ exec ch (now (world s)) av (db (world s)) = (R, db (world s'))
     | None => context_err h (world s') <> 0
         /\ (db (world s') = db (world s) \/ context_err h (world s) = 0
             /\ exists ch, choice_ok ch /\ db (world s') = (exec ch (now (world s)) av (db (world s))).2)
     end.

Definition is_error (R : Reply) : bool := match R with RError _ => true | _ => false end.

Lemma type_error R : (type (reply_of R) =? REDIS_REPLY_ERROR) = is_error R.
Proof. by destruct R. Qed.

(** The common part of all operations: send, check, free. *)
Lemma command_spec {A} (f : option Reply -> A) format args av h s (m : bool -> option (Z * redisReply) -> A) :
  m_context (client s) = Some h -> argv format args = Some av ->
  m false None = f None ->
  (forall p R, m (negb (is_error R)) (Some (p, reply_of R)) = f (Some R)) ->
  exists R s',
    bind (executeCommand format args) (fun reply =>
      bind (checkReply reply) (fun ok => bind (freeReply reply) (fun _ => ret (m ok reply)))) s
    = Ok (f R, s') /\ answered h av s s' R.
Proof.
  intros Hh Hav Hn Hs. unfold executeCommand, context, bind, lib. cbn [res_bind]. rewrite Hh.
  pose proof (command_law h format args av (world s) Hav) as L.
  destruct (redisCommand h format args (world s)) as [r w]. cbn [res_bind].
  destruct L as [Ht [(E0 & E1 & p & ch & R & -> & Hp & Ha & Hch & Hx)|(-> & E1 & Ha & Hd)]].
  - pose proof (free_law p w) as (Ft & Fd & Fa & Fe). exists (Some R).
    assert (Hall : allocated (freeReplyObject p w) = allocated (world s)) by (rewrite Fa, Ha; set_solver).
    assert (HA : forall c, m_context c = Some h -> answered h av s (mkConn c (freeReplyObject p w)) (Some R)).
    { intros c Hc. unfold answered. cbn. rewrite Fe, Fd. repeat split; eauto; lia. }
    specialize (Hs p R). cbn [checkReply]. rewrite type_error.
    destruct (is_error R); cbn in Hs |- *; (eexists; split; [by rewrite Hs|by apply HA]).
  - exists None. eexists. cbn. split; [by rewrite Hn|]. repeat split; done.
Qed.

Lemma succeeds_spec format args av h s :
  m_context (client s) = Some h -> argv format args = Some av ->
  exists R s', succeeds format args s = Ok (from_option (fun R => negb (is_error R)) false R, s')
    /\ answered h av s s' R.
Proof.
  intros Hh Hav.
  apply (command_spec (from_option (fun R => negb (is_error R)) false) _ _ _ _ _ (fun ok _ => ok) Hh Hav); done.
Qed.

Definition read_as {A} (t : Z) (read : redisReply -> A) (d : A) (R : Reply) : A :=
  if negb (is_error R) && (type (reply_of R) =? t) then read (reply_of R) else d.

Lemma reads_spec {A} t (read : redisReply -> A) d format args av h s :
  m_context (client s) = Some h -> argv format args = Some av ->
  exists R s', reads t read d format args s = Ok (from_option (read_as t read d) d R, s') /\ answered h av s s' R.
Proof.
  intros Hh Hav.
  apply (command_spec (from_option (read_as t read d) d) _ _ _ _ _
           (fun ok reply => match reply with
                            | Some (_, r) => if ok && (type r =? t) then read r else d
                            | None => d
                            end) Hh Hav); done.
Qed.

(** ** Every operation *)
Definition op_argv (o : op) : list string :=
  match o with
  | OSet k v => ["SET"; k; v]
  | OSetex k v s => ["SETEX"; k; dec s; v]
  | OGet k => ["GET"; k]
  | ODel k => ["DEL"; k]
  | OExists k => ["EXISTS"; k]
  | OExpire k s => ["EXPIRE"; k; dec s]
  | OTtl k => ["TTL"; k]
  | OIncr k => ["INCR"; k]
  | ODecr k => ["DECR"; k]
  | OIncrBy k n => ["INCRBY"; k; dec n]
  | OHset k f v => ["HSET"; k; f; v]
  | OHget k f => ["HGET"; k; f]
  | OHdel k f => ["HDEL"; k; f]
  | OHgetall k => ["HGETALL"; k]
  | OLpush k v => ["LPUSH"; k; v]
  | ORpush k v => ["RPUSH"; k; v]
  | OLpop k => ["LPOP"; k]
  | ORpop k => ["RPOP"; k]
  | OLrange k a b => ["LRANGE"; k; dec a; dec b]
  | OSadd k m => ["SADD"; k; m]
  | OSrem k m => ["SREM"; k; m]
  | OSismember k m => ["SISMEMBER"; k; m]
  | OSmembers k => ["SMEMBERS"; k]
  end.

Definition decode (o : op) (R : Reply) : result :=
  match o with
  | OSet _ _ | OSetex _ _ _ | ODel _ | OExpire _ _ | OHset _ _ _ | OHdel _ _ | OSadd _ _ | OSrem _ _ =>
    Flag (negb (is_error R))
  | OExists _ | OSismember _ _ => Flag (read_as REDIS_REPLY_INTEGER (fun r => integer r =? 1) false R)
  | OTtl _ => Num (read_as REDIS_REPLY_INTEGER (fun r => i32 (integer r)) (-1) R)
  | OIncr _ | ODecr _ | OIncrBy _ _ | OLpush _ _ | ORpush _ _ => Num (read_as REDIS_REPLY_INTEGER integer 0 R)
  | OGet _ | OHget _ _ | OLpop _ | ORpop _ => Txt (read_as REDIS_REPLY_STRING text_of "" R)
  | OHgetall _ => Map (read_as REDIS_REPLY_ARRAY (fun r => field_values (element r) ∅) ∅ R)
  | OLrange _ _ _ | OSmembers _ => Txts (read_as REDIS_REPLY_ARRAY (fun r => map text_of (element r)) [] R)
  end.

Lemma run_op_spec o h s :
  m_context (client s) = Some h ->
  exists R s', run_op o s = Ok (from_option (decode o) (neutral o) R, s') /\ answered h (op_argv (c_op o)) s s' R.
Proof.
  intros Hh. assert (L : forall A (f : A -> result) g d (m : C A),
    (exists R s', m s = Ok (from_option g d R, s') /\ answered h (op_argv (c_op o)) s s' R) ->
    (forall R, f (g R) = decode o R) -> f d = neutral o ->
    exists R s', fmap_res f m s = Ok (from_option (decode o) (neutral o) R, s')
      /\ answered h (op_argv (c_op o)) s s' R).
  { intros A f g d m (R & s' & E & HA) Hg Hd. exists R, s'. split; [|done].
    unfold fmap_res, bind, ret. rewrite E. destruct R; cbn; by rewrite ?Hg, ?Hd. }
  destruct o; (eapply L; [first [apply succeeds_spec | apply reads_spec]; [done|reflexivity] | done | done]).
Qed.

End Client.

(** ** The server's answers meet the contract *)
Ltac command_name :=
  repeat match goal with
  | |- context [@bool_decide (?x = ?y) ?i] =>
    let v := eval vm_compute in (@bool_decide (x = y) i) in
    match v with true => idtac | false => idtac end;
    change (@bool_decide (x = y) i) with v; cbn match
  end.

Lemma int_of_dec z : fits64 z = true -> int_of (dec z) = Some z.
Proof.
  intros Hf. unfold fits64 in Hf. b2p. unfold int_of. rewrite stoll_dec by lia. by rewrite bool_decide_eq_true_2.
Qed.

Lemma text_of_bulk l : map text_of (map bulk_reply l) = l.
Proof. induction l as [|x l IH]; cbn; congruence. Qed.

Lemma field_values_lookup (h : gmap string string) l acc f :
  Forall (fun f => is_Some (h !! f)) l ->
  field_values (map bulk_reply (mbind (fun f => [f; default "" (h !! f)]) l)) acc !! f
  = if bool_decide (f ∈ l) then h !! f else acc !! f.
Proof.
  intros Hl. revert acc; induction Hl as [|g l [v Hv] _ IH]; intros acc; [done|].
  cbn. rewrite IH, Hv. cbn.
  destruct (decide (f = g)) as [->|Hne].
  - rewrite Hv, lookup_insert_eq. rewrite (bool_decide_eq_true_2 (g ∈ g :: l)) by left. by case_bool_decide.
  - rewrite lookup_insert_ne by done.
    rewrite (bool_decide_ext (f ∈ g :: l) (f ∈ l)); [done|]. rewrite elem_of_cons. tauto.
Qed.

Lemma field_values_map (ch : Choice) (h : gmap string string) :
  choice_ok ch ->
  field_values (map bulk_reply (mbind (fun f => [f; default "" (h !! f)]) (order ch (map_to_list h).*1))) ∅ = h.
Proof.
  intros [Hp _]. specialize (Hp (map_to_list h).*1).
  assert (D : forall f, f ∈ order ch (map_to_list h).*1 <-> is_Some (h !! f)).
  { intros f. rewrite Hp, list_elem_of_fmap. split.
    - intros ([k v] & -> & Hkv%elem_of_map_to_list). by exists v.
    - intros [v Hv]. exists (f, v). split; [done|]. by apply elem_of_map_to_list. }
  apply map_eq. intros f. rewrite field_values_lookup by (apply Forall_forall; intros g Hg; by apply D).
  case_bool_decide as E; [done|]. rewrite D in E. rewrite lookup_empty. destruct (h !! f); [|done]. by destruct E; eexists.
Qed.

(** The result of a command on a value of one type. *)
Lemma decode_on {A} o (v : option A) d f (g : A -> result * DB) :
  decode o WRONGTYPE = neutral o ->
  (forall a, let '(R, d') := f a in g a = (decode o R, d')) ->
  let '(R, d') := on v d f in match v with Some a => g a | None => (neutral o, d) end = (decode o R, d').
Proof. intros Hw Hf. destruct v as [a|]; cbn; [apply Hf|by rewrite Hw]. Qed.

Lemma counter_contract now k n d o :
  (forall R, decode o R = Num (read_as REDIS_REPLY_INTEGER integer 0 R)) ->
  let '(R, d') := exec_counter now k n d in
  match counted (live now d k) n with Some z => (Num z, put now k (VStr (dec z)) d) | None => (Num 0, d) end
  = (decode o R, d').
Proof.
  intros Ho. unfold exec_counter, counted, on. destruct (as_str (live now d k)) as [s|]; cbn; [|by rewrite Ho].
  destruct (match s with Some _ => _ | None => _ end) as [z|]; cbn; [|by rewrite Ho].
  destruct (fits64 (z + n)); cbn; by rewrite Ho.
Qed.

Lemma i32_fits64 z : (- 2 ^ 31 <=? z) && (z <? 2 ^ 31) = true -> fits64 z = true.
Proof. intros Hz. unfold fits64. b2p. apply andb_true_intro. split; [apply Z.leb_le|apply Z.ltb_lt]; lia. Qed.

Lemma exec_contract ch now o d :
  choice_ok ch -> op_ok o = true ->
  let '(R, d') := exec ch now (op_argv o) d in contract ch now o d = (decode o R, d').
Proof.
  intros Hch Hok. destruct o; cbn [op_argv exec]; cbv zeta beta delta [exec1 exec2 exec3]; command_name;
    cbn [contract].
  all: cbn [op_ok] in Hok; lazymatch type of Hok with
       | fits64 _ && fits64 _ = true => apply andb_true_iff in Hok as [Hok Hok2]
       | _ => try apply i32_fits64 in Hok
       end.
  all: rewrite ?int_of_dec by done.
  all: try (apply decode_on; [done|intros l]).
  all: try by apply counter_contract.
  all: first [done | by case_if | by case_bool_decide | by destruct (_ !! _) | by destruct (live _ _ _)
             | by destruct (list.last l) | by destruct l | cbn; unfold read_as; cbn].
  - by rewrite field_values_map.
  - by rewrite text_of_bulk.
  - by rewrite text_of_bulk.
Qed.

(** ** Types of values *)
Inductive tag := TStr | THash | TList | TSet.
#[export] Instance tag_eq_dec : EqDecision tag.
Proof. solve_decision. Defined.

Definition tag_of (v : Value) : tag :=
  match v with VStr _ => TStr | VHash _ => THash | VList _ => TList | VSet _ => TSet end.

Definition op_key (o : op) : string :=
  match o with
  | OSet k _ | OSetex k _ _ | OGet k | ODel k | OExists k | OExpire k _ | OTtl k | OIncr k | ODecr k
  | OIncrBy k _ | OHset k _ _ | OHget k _ | OHdel k _ | OHgetall k | OLpush k _ | ORpush k _ | OLpop k
  | ORpop k | OLrange k _ _ | OSadd k _ | OSrem k _ | OSismember k _ | OSmembers k => k
  end.

(** The type an operation works on; [None]: any. *)
Definition op_tag (o : op) : option tag :=
  match o with
  | OSet _ _ | OSetex _ _ _ | ODel _ | OExists _ | OExpire _ _ | OTtl _ => None
  | OGet _ | OIncr _ | ODecr _ | OIncrBy _ _ => Some TStr
  | OHset _ _ _ | OHget _ _ | OHdel _ _ | OHgetall _ => Some THash
  | OLpush _ _ | ORpush _ _ | OLpop _ | ORpop _ | OLrange _ _ _ => Some TList
  | OSadd _ _ | OSrem _ _ | OSismember _ _ | OSmembers _ => Some TSet
  end.

Definition overwrites (o : op) : bool := match o with OSet _ _ | OSetex _ _ _ => true | _ => false end.

Lemma contract_wrong_type ch now o d e t :
  live now d (op_key o) = Some e -> op_tag o = Some t -> t <> tag_of (value_of e) ->
  contract ch now o d = (neutral o, d).
Proof.
  intros He Ht Hne. destruct e as [v l].
  destruct o; cbn in He, Ht; simplify_eq; cbn; unfold counted; rewrite He; by destruct v.
Qed.

Lemma put_frame now k v d k' : k' <> k -> put now k v d !! k' = d !! k'.
Proof.
  intros Hk. unfold put. case_if; [by apply lookup_delete_ne|by apply lookup_insert_ne].
Qed.

#[local] Arguments put : simpl never.

Lemma contract_frame ch now o d k : k <> op_key o -> (contract ch now o d).2 !! k = d !! k.
Proof.
  intros Hk. destruct o; cbn in Hk |- *;
    repeat first
      [ done | progress cbn [snd] | rewrite put_frame by done | rewrite lookup_insert_ne by done | rewrite lookup_delete_ne by done
      | case_if | case_match ].
Qed.

(** The entry of [k] is gone, or of type [t]. *)
Definition has_tag (t : tag) (d : DB) (k : string) : Prop :=
  forall e, d !! k = Some e -> tag_of (value_of e) = t.

Lemma put_tag now k v d : has_tag (tag_of v) (put now k v d) k.
Proof.
  intros e. unfold put. case_if; [by rewrite lookup_delete_eq|]. rewrite lookup_insert_eq. by intros [= <-].
Qed.

Lemma live_lookup now d k e : live now d k = Some e -> d !! k = Some e.
Proof.
  unfold live. destruct (d !! k) as [e'|]; cbn; [|done]. destruct (deadline e') as [t|]; [case_if|]; congruence.
Qed.

Lemma contract_keeps_type ch now o d e :
  live now d (op_key o) = Some e -> overwrites o = false ->
  has_tag (tag_of (value_of e)) (contract ch now o d).2 (op_key o).
Proof.
  intros He Ho. pose proof (live_lookup _ _ _ _ He) as Hd. destruct e as [v l].
  destruct o; cbn in He, Hd, Ho; try done; cbn; unfold counted; rewrite ?He; destruct v; cbn.
  all: repeat first [ progress cbn [snd] | apply put_tag | case_if | case_match ].
  all: try by (intros ?; rewrite ?lookup_delete_eq, ?lookup_insert_eq, ?Hd; by intros [= <-]).
Qed.

(** ** The client *)
Section Meets.
Context {W : Type} `{HiredisLaws W}.

Notation State := (Conn (W := W)).

(** An operation follows the contract, or the context failed: then the result
    is the neutral one and the contents changed as agreed or not at all. *)
Lemma run_op_meets o h (s : State) :
  m_context (client s) = Some h -> op_ok o = true ->
  exists r s', run_op o s = Ok (r, s') /\ m_context (client s') = Some h
    /\ now (world s) <= now (world s') /\ allocated (world s') = allocated (world s)
    /\ ((isConnected s' = true /\ isConnected s = true
          /\ exists ch, choice_ok ch /\ contract ch (now (world s)) (c_op o) (db (world s)) = (r, db (world s')))
        \/ (isConnected s' = false /\ r = neutral o
            /\ (db (world s') = db (world s)
                \/ isConnected s = true /\ exists ch, choice_ok ch
                   /\ db (world s') = (contract ch (now (world s)) (c_op o) (db (world s))).2))).
Proof.
  intros Hh Hok. destruct (run_op_spec o h s Hh) as (R & s' & E & Hh' & Ht & Ha & HR). eexists _, s'.
  split; [exact E|]. split; [done|]. split; [done|]. split; [done|].
  assert (Hok' : op_ok (c_op o) = true) by by destruct o.
  assert (Hdec : forall R, decode (c_op o) R = decode o R) by by destruct o.
  assert (X : forall ch, choice_ok ch -> forall R d,
    exec ch (now (world s)) (op_argv (c_op o)) (db (world s)) = (R, d) ->
    contract ch (now (world s)) (c_op o) (db (world s)) = (decode o R, d)).
  { intros ch Hch R' d Hx. pose proof (exec_contract ch (now (world s)) (c_op o) (db (world s)) Hch Hok') as L.
    rewrite Hx in L. by rewrite L, Hdec. }
  unfold isConnected. rewrite Hh, Hh'. destruct R as [R|]; cbn.
  - destruct HR as (E0 & E1 & ch & Hch & Hx). left. rewrite E0, E1. eauto 8.
  - destruct HR as (E1 & Hd). right. split; [by apply Z.eqb_neq|]. split; [done|].
    destruct Hd as [Hd|(E0 & ch & Hch & Hd)]; [by left|right]. rewrite E0. split; [done|]. exists ch.
    split; [done|]. rewrite Hd. destruct (exec _ _ _ _) as [R' d] eqn:Hx. by rewrite (X ch Hch R' d Hx).
Qed.

(** C18: Every operation of the Redis client returns, over any server that
    behaves as documented and any network: it frees its reply exactly once,
    keeps its context, and either gives the result of the typed store for the
    texts up to their first NUL byte, or gives the neutral result because the
    context failed; a failed context stays failed, and the operations on it
    change nothing. *)
Theorem redis_client_meets_contract o h (s : State) :
  m_context (client s) = Some h -> op_ok o = true ->
  exists r s', run_op o s = Ok (r, s') /\ m_context (client s') = Some h
    /\ now (world s) <= now (world s') /\ allocated (world s') = allocated (world s)
    /\ ((isConnected s' = true /\ isConnected s = true
          /\ exists ch, choice_ok ch /\ contract ch (now (world s)) (c_op o) (db (world s)) = (r, db (world s')))
        \/ (isConnected s' = false /\ r = neutral o
            /\ (db (world s') = db (world s)
                \/ isConnected s = true /\ exists ch, choice_ok ch
                   /\ db (world s') = (contract ch (now (world s)) (c_op o) (db (world s))).2))).
Proof. apply run_op_meets. Qed.

(** Values keep their type: an operation on a key that holds a value of
    another type returns the neutral result and changes nothing; an operation
    other than SET and SETEX leaves the key with a value of the same type or
    without one; and no operation touches another key. *)
Lemma redis_values_keep_type o h (s : State) e :
  m_context (client s) = Some h -> op_ok o = true ->
  live (now (world s)) (db (world s)) (c_str (op_key o)) = Some e ->
  exists r s', run_op o s = Ok (r, s')
    /\ (forall t, op_tag o = Some t -> t <> tag_of (value_of e) -> r = neutral o /\ db (world s') = db (world s))
    /\ (overwrites o = false -> has_tag (tag_of (value_of e)) (db (world s')) (c_str (op_key o)))
    /\ (forall k, k <> c_str (op_key o) -> db (world s') !! k = db (world s) !! k).
Proof.
  intros Hh Hok He. destruct (run_op_meets o h s Hh Hok) as (r & s' & E & _ & _ & _ & HR).
  exists r, s'. split; [done|].
  assert (Hkey : op_key (c_op o) = c_str (op_key o)) by by destruct o.
  assert (Htag : op_tag (c_op o) = op_tag o) by by destruct o.
  assert (Hneu : neutral (c_op o) = neutral o) by by destruct o.
  assert (Hov : overwrites (c_op o) = overwrites o) by by destruct o.
  rewrite <- Hkey in *. rewrite <- Htag, <- Hneu, <- Hov.
  assert (Hsame : has_tag (tag_of (value_of e)) (db (world s)) (op_key (c_op o))).
  { intros e'. rewrite (live_lookup _ _ _ _ He). by intros [= <-]. }
  set (d := db (world s)) in *.
  assert (HD : db (world s') = d \/ exists ch, db (world s') = (contract ch (now (world s)) (c_op o) d).2).
  { destruct HR as [(_ & _ & ch & _ & Hx)|(_ & _ & [Hd|(_ & ch & _ & Hd)])]; [right|by left|right]; exists ch;
      [by rewrite Hx|done]. }
  split; [|split].
  - intros t Ht Hne. destruct HR as [(_ & _ & ch & _ & Hx)|(_ & -> & HR)].
    + rewrite (contract_wrong_type _ _ _ _ _ _ He Ht Hne) in Hx. by simplify_eq.
    + split; [by symmetry|]. destruct HD as [->|[ch ->]]; [done|].
      by rewrite (contract_wrong_type _ _ _ _ _ _ He Ht Hne).
  - intros Ho. destruct HD as [->|[ch ->]]; [done|]. by apply contract_keeps_type.
  - intros k Hk. destruct HD as [->|[ch ->]]; [done|]. by apply contract_frame.
Qed.

End Meets.

(** ** A library that satisfies the laws *)
(** Contexts in [t_broken] have failed; the next commands fail as [t_faults]
    says. *)
Record Toy := mkToy { t_db : DB; t_now : Z; t_alloc : gset Z; t_broken : gset Z; t_faults : list bool }.

Definition toy_choice : Choice := mkChoice id (fun ms => (ms + 500) / 1000).

Definition toy_break (h : Z) (w : Toy) : Toy :=
  mkToy (t_db w) (t_now w) (t_alloc w) ({[h]} ∪ t_broken w) (tail (t_faults w)).

Definition toy_command (h : Z) (format : string) (args : list arg) (w : Toy) : option (Z * redisReply) * Toy :=
  if bool_decide (h ∈ t_broken w) then (None, w)
  else match argv format args, t_faults w with
       | None, _ | _, true :: _ => (None, toy_break h w)
       | Some av, _ =>
         let '(R, d) := exec toy_choice (t_now w) av (t_db w) in
         let p := fresh (t_alloc w) in
         (Some (p, reply_of R), mkToy d (t_now w) ({[p]} ∪ t_alloc w) (t_broken w) (tail (t_faults w)))
       end.

#[export] Instance toy_hiredis : Hiredis Toy := {
  redisConnectWithTimeout _ port _ w := (Some port, w);
  context_err h w := if bool_decide (h ∈ t_broken w) then 1 else 0;
  context_errstr _ _ := "Connection refused";
  redisFree _ w := w;
  redisCommand := toy_command;
  freeReplyObject p w := mkToy (t_db w) (t_now w) (t_alloc w ∖ {[p]}) (t_broken w) (t_faults w);
}.

Lemma toy_choice_ok : choice_ok toy_choice.
Proof.
  split; [done|]. intros ms. cbn. pose proof (Z.div_mod (ms + 500) 1000). pose proof (Z.mod_pos_bound (ms + 500) 1000).
  lia.
Qed.

Lemma toy_command_law h format args av w :
  argv format args = Some av ->
  let '(r, w') := toy_command h format args w in
  t_now w <= t_now w' /\
  ((context_err h w = 0 /\ context_err h w' = 0
   /\ exists p ch R, r = Some (p, reply_of R) /\ p ∉ t_alloc w /\ t_alloc w' = {[p]} ∪ t_alloc w
        /\ choice_ok ch /\ exec ch (t_now w) av (t_db w) = (R, t_db w'))
  \/ (r = None /\ context_err h w' <> 0 /\ t_alloc w' = t_alloc w
      /\ (t_db w' = t_db w
          \/ context_err h w = 0 /\ exists ch, choice_ok ch /\ t_db w' = (exec ch (t_now w) av (t_db w)).2))).
Proof.
  intros Hav. cbn. unfold toy_command. rewrite Hav.
  destruct (decide (h ∈ t_broken w)) as [Hb|Hb].
  { rewrite bool_decide_eq_true_2 by done. split; [done|]. right. rewrite bool_decide_eq_true_2 by done. auto. }
  rewrite bool_decide_eq_false_2 by done.
  assert (F : forall t, let '(r, w') :=
      (let '(R, d) := exec toy_choice (t_now w) av (t_db w) in
       (Some (fresh (t_alloc w), reply_of R), mkToy d (t_now w) ({[fresh (t_alloc w)]} ∪ t_alloc w) (t_broken w) t)) in
    t_now w = t_now w' /\ 0 = 0 /\ (if bool_decide (h ∈ t_broken w') then 1 else 0) = 0
    /\ exists p ch R, r = Some (p, reply_of R) /\ p ∉ t_alloc w /\ t_alloc w' = {[p]} ∪ t_alloc w
         /\ choice_ok ch /\ exec ch (t_now w) av (t_db w) = (R, t_db w')).
  { intros t. destruct (exec toy_choice _ _ _) as [R d] eqn:Ex. cbn. rewrite bool_decide_eq_false_2 by done.
    split; [done|]. split; [done|]. split; [done|]. eexists _, toy_choice, R. split; [done|]. split; [apply is_fresh|].
    split; [done|]. split; [apply toy_choice_ok|exact Ex]. }
  destruct (t_faults w) as [|[] fs].
  - specialize (F []). destruct (exec toy_choice _ _ _), F as [_ F]. split; [done|]. left. exact F.
  - cbn. split; [done|]. right. rewrite bool_decide_eq_true_2 by set_solver. auto.
  - specialize (F fs). destruct (exec toy_choice _ _ _), F as [_ F]. split; [done|]. left. exact F.
Qed.

#[export] Instance toy_hiredis_laws : HiredisLaws Toy.
Proof.
  refine {| db := t_db; now := t_now; allocated := t_alloc; command_law := toy_command_law |}.
  intros p w. split; [apply Z.le_refl|]. split; [reflexivity|]. split; reflexivity.
Defined.

(** A key that holds a list. *)
Definition ex_world : Toy := mkToy {["queue" := mkEntry (VList ["a"]) None]} 5000 ∅ ∅ [].
Definition ex_conn : Conn := mkConn (mkClient (Some 6379) "") ex_world.

Lemma redis_client_meets_contract_witness :
  exists r s', run_op (OSetex "route:bob" "node-1" 30) ex_conn = Ok (r, s') /\ m_context (client s') = Some 6379
    /\ allocated (world s') = allocated (world ex_conn).
Proof.
  destruct (redis_client_meets_contract (OSetex "route:bob" "node-1" 30) 6379 ex_conn eq_refl eq_refl)
    as (r & s' & E & Hc & _ & Ha & _). eauto.
Defined.

Lemma redis_values_keep_type_witness :
  exists r s', run_op (OGet "queue") ex_conn = Ok (r, s') /\ r = Txt "" /\ db (world s') = db (world ex_conn).
Proof.
  destruct (redis_values_keep_type (OGet "queue") 6379 ex_conn (mkEntry (VList ["a"]) None) eq_refl eq_refl)
    as (r & s' & E & Ht & _); [reflexivity|].
  exists r, s'. split; [exact E|]. by apply (Ht TStr).
Defined.

(** The operations, run one after the other. *)
Fixpoint run_ops (os : list op) (s : Conn (W := Toy)) : list result :=
  match os with
  | [] => []
  | o :: os => match run_op o s with Ok (r, s') => r :: run_ops os s' | Err _ => [] end
  end.

Lemma client_session :
  run_ops [OSetex "k" "7" 30; OIncr "k"; OTtl "k"; OGet "k"; ORpush "queue" "b"; OLrange "queue" 0 (-1); OGet "queue";
           OHset "h" "f" "v"; OHgetall "h"; OSadd "s" "x"; OSismember "s" "x"; OSmembers "s"; ODel "k"; OExists "k"]
    ex_conn
  = [Flag true; Num 8; Num 30; Txt "8"; Num 2; Txts ["a"; "b"]; Txt ""; Flag true; Map {["f" := "v"]}; Flag true;
     Flag true; Txts ["x"]; Flag true; Flag false].
Proof. vm_compute. reflexivity. Qed.

(** After one lost connection every later operation fails: nothing connects
    again. *)
Lemma lost_connection_is_final :
  run_ops [OSet "k" "v"; OGet "k"; OGet "k"; OSet "k" "w"]
    (mkConn (mkClient (Some 6379) "") (mkToy ∅ 5000 ∅ ∅ [false; true]))
  = [Flag true; Txt ""; Txt ""; Flag false].
Proof. vm_compute. reflexivity. Qed.

End redis_spec.
