(* ===== verification/RedisServices.v ===== *)
(** * RedisServices: sessions and routes shared through Redis
      (src/service/authService.cpp and routingService.cpp over
       src/base/redisClient.cpp)

    [RedisClient] implements the interface [Redis] the services were modelled
    against.  Several nodes share one server: each has a client of its own, and
    all of them act on the same world.  The theorems follow a session and a
    route from the node that writes them to another node that reads them. *)
From S2P Require Import Prelude Text Serializer Heartbeat Auth RedisClient RedisSpec.
Import text serializer redis redis_spec.

Module redis_services.

(** What the services rely on of the text of a JSON document: control
    characters are escaped, and the empty text is no document. *)
Class JsonText `{JsonLib} := {
  dump_no_nul j t : dump j = Some t -> c_str t = t;
  parse_empty : parse "" = None;
}.

(** A call without a context ends the program; the services call the client
    only after it has connected ([Err] does not occur then). *)
Definition or_else {A W} (a : A) (m : C (W := W) A) `{Hiredis W} (s : Conn) : A * Conn :=
  match m s with Ok r => r | Err _ => (a, s) end.

#[export] Instance redis_client `{Hiredis W} : auth.Redis (Conn (W := W)) := {
  auth.redis_isConnected := isConnected;
  auth.redis_get k := or_else "" (get k);
  auth.redis_setex k v t := or_else false (setex k v t);
  auth.redis_del k := or_else false (del k);
}.

Section Ops.
Context {W : Type} `{HiredisLaws W}.

Notation State := (Conn (W := W)).

Definition text_at (k : string) (w : W) : string :=
  match as_str (live (now w) (db w) (c_str k)) with Some (Some t) => t | _ => "" end.

(** The context is kept, time passes, and when the client is still connected
    it was connected before. *)
Definition advances (s s' : State) : Prop :=
  m_context (client s') = m_context (client s) /\ now (world s) <= now (world s')
  /\ (isConnected s' = true -> isConnected s = true).

#[export] Instance advances_trans : Transitive advances.
Proof. intros a b c (?&?&?) (?&?&?). split; [congruence|]. split; [lia|auto]. Qed.

Lemma get_answer k (s : State) h :
  m_context (client s) = Some h ->
  let '(v, s') := auth.redis_get k s in
  advances s s' /\ (isConnected s' = true -> db (world s') = db (world s) /\ v = text_at k (world s)).
Proof.
  intros Hh. destruct (run_op_meets (OGet k) h s Hh eq_refl) as (r & s' & E & Hh' & Ht & _ & HR).
  cbn [run_op] in E. unfold fmap_res, bind, ret in E. cbn [auth.redis_get redis_client]. unfold or_else.
  destruct (get k s) as [[v s1]|]; [|done]. cbn [res_bind] in E. injection E as <- <-.
  split; [|intros Hc].
  - split; [by rewrite Hh, Hh'|]. split; [done|]. intros Hc.
    destruct HR as [(_ & ? & _)|(Hc' & _)]; [done|congruence].
  - destruct HR as [(_ & _ & ch & _ & Hx)|(Hc' & _)]; [|congruence]. cbn in Hx. unfold text_at.
    destruct (as_str _) as [[t|]|]; by simplify_eq.
Qed.

Lemma setex_answer k v t (s : State) h :
  m_context (client s) = Some h -> 0 < t < 2 ^ 31 ->
  let '(ok, s') := auth.redis_setex k v t s in
  advances s s' /\ (ok = true -> isConnected s' = true)
  /\ (isConnected s' = true -> ok = true
      /\ db (world s') = <[c_str k := mkEntry (VStr (c_str v)) (Some (now (world s) + 1000 * t))]> (db (world s))).
Proof.
  intros Hh Ht. assert (Hok : op_ok (OSetex k v t) = true).
  { cbn. apply andb_true_intro. split; [apply Z.leb_le|apply Z.ltb_lt]; lia. }
  destruct (run_op_meets (OSetex k v t) h s Hh Hok) as (r & s' & E & Hh' & Hn & _ & HR).
  cbn [run_op] in E. unfold fmap_res, bind, ret in E. cbn [auth.redis_setex redis_client]. unfold or_else.
  destruct (setex k v t s) as [[ok s1]|]; [|done]. cbn [res_bind] in E. injection E as <- <-.
  split; [|split].
  - split; [by rewrite Hh, Hh'|]. split; [done|]. intros Hc.
    destruct HR as [(_ & ? & _)|(Hc' & _)]; [done|congruence].
  - intros ->. destruct HR as [(? & _)|(_ & Hr & _)]; [done|by cbn in Hr].
  - intros Hc. destruct HR as [(_ & _ & ch & _ & Hx)|(Hc' & _)]; [|congruence].
    cbn in Hx. rewrite (proj2 (Z.leb_gt t 0)) in Hx by lia. by simplify_eq.
Qed.

End Ops.

(** ** Routes *)
Section Routes.
Context {W : Type} `{HiredisLaws W}.

(** The route a node binds is found by every other node: when the binding
    has succeeded, a node that has no route of its own for the user and still
    reaches Redis finds it, as long as nobody rewrote the entry, until the
    configured time has passed, and not any more after that (nothing renews
    it). *)
Lemma route_visible_on_other_nodes u n (sA : auth.RoutingService) connA hA sA' :
  auth.m_redisClient sA = Some connA -> isConnected connA = true -> m_context (client connA) = Some hA ->
  c_str n = n -> n <> "" -> 0 < auth.m_routeTtlSeconds sA < 2 ^ 31 ->
  auth.bindUserRoute u n sA = (true, sA') ->
  exists connA', auth.m_redisClient sA' = Some connA'
  /\ forall (sB : auth.RoutingService) connB hB,
       auth.m_redisClient sB = Some connB -> isConnected connB = true -> m_context (client connB) = Some hB ->
       auth.m_localRoutes sB !! u = None ->
       db (world connB) !! c_str (auth.makeRouteKey u) = db (world connA') !! c_str (auth.makeRouteKey u) ->
       let '(route, sB') := auth.lookupUserRoute u sB in
       forall connB', auth.m_redisClient sB' = Some connB' -> isConnected connB' = true ->
       route = if now (world connB) <? now (world connA) + 1000 * auth.m_routeTtlSeconds sA then Some n else None.
Proof.
  intros HA Hc HhA Hn Hne Ht Hb. unfold auth.bindUserRoute, auth.connected_client in Hb.
  rewrite HA in Hb. cbn [mbind option_bind auth.redis_isConnected redis_client] in Hb. rewrite Hc in Hb.
  pose proof (setex_answer (auth.makeRouteKey u) n (auth.m_routeTtlSeconds sA) connA hA HhA Ht) as X.
  destruct (auth.redis_setex (auth.makeRouteKey u) n (auth.m_routeTtlSeconds sA) connA) as [ok connA'].
  injection Hb as -> <-. destruct X as (_ & Hup & Hdb). destruct (Hdb (Hup eq_refl)) as [_ Hd].
  exists connA'. split; [done|]. intros sB connB hB HB HcB HhB Hloc Hsame.
  rewrite Hd, lookup_insert_eq, Hn in Hsame.
  unfold auth.lookupUserRoute, auth.connected_client. rewrite Hloc, HB.
  cbn [mbind option_bind auth.redis_isConnected redis_client]. rewrite HcB.
  pose proof (get_answer (auth.makeRouteKey u) connB hB HhB) as G.
  destruct (auth.redis_get (auth.makeRouteKey u) connB) as [v connB1]. destruct G as [_ G].
  assert (Hv : isConnected connB1 = true ->
    v = if now (world connB) <? now (world connA) + 1000 * auth.m_routeTtlSeconds sA then n else "").
  { intros Hc1. destruct (G Hc1) as [_ ->]. unfold text_at, live. rewrite Hsame. cbn.
    by destruct (_ <? _). }
  case_bool_decide as Hv0; intros connB' [= <-] Hc1; specialize (Hv Hc1); destruct (_ <? _); congruence.
Qed.

End Routes.

(** ** Sessions *)
Lemma prefixed_keys_differ u sid : c_str (auth.userKey u) <> c_str (auth.sessionKey sid).
Proof. unfold auth.userKey, auth.sessionKey. intros E. discriminate E. Qed.

Section Sessions.
Context `{JsonLaws} `{!JsonText} {W P : Type} `{HiredisLaws W} `{auth.SessionRepository P}.

Notation State := (Conn (W := W)).
Notation World := (auth.World (R := State) (P := P)).

Lemma session_text c data :
  auth.serializeSession c = Some data -> c_str data = data /\ data <> "".
Proof.
  intros Hs. split; [by eapply dump_no_nul|]. intros ->. destruct (parse_dump _ _ Hs) as (j & Hp & _).
  by rewrite parse_empty in Hp.
Qed.

(** The entry of session [c] under [sid] is in the database until [t]. *)
Definition stored_until (sid : string) (c : auth.UserContext) (t : Z) (w : W) : Prop :=
  exists data, auth.serializeSession c = Some data
    /\ db w !! c_str (auth.sessionKey sid) = Some (mkEntry (VStr data) (Some t)).

(** What a node reads of a stored session. *)
Lemma redis_session_answer sid c t (w : World) h :
  fits I64 (auth.u_loginTime c) = true ->
  m_context (client (auth.redis w)) = Some h ->
  (isConnected (auth.redis w) = true -> stored_until sid c t (world (auth.redis w))) ->
  let '(r, w') := auth.redis_session sid w in
  auth.auth w' = auth.auth w /\ advances (auth.redis w) (auth.redis w')
  /\ (isConnected (auth.redis w') = true ->
      db (world (auth.redis w')) = db (world (auth.redis w))
      /\ r = if now (world (auth.redis w)) <? t then Some c else None).
Proof.
  intros Hfit Hh Hst. unfold auth.redis_session. pose proof (get_answer (auth.sessionKey sid) (auth.redis w) h Hh) as G.
  destruct (auth.redis_get (auth.sessionKey sid) (auth.redis w)) as [v s1]. destruct G as [Ha G].
  assert (Hv : isConnected s1 = true -> exists data, auth.serializeSession c = Some data
    /\ v = if now (world (auth.redis w)) <? t then data else "").
  { intros Hc. destruct (Hst (proj2 (proj2 Ha) Hc)) as (data & Hs & Hdb). exists data. split; [done|].
    destruct (G Hc) as [_ ->]. unfold text_at, live. rewrite Hdb. cbn. by destruct (_ <? _). }
  assert (Hd : isConnected s1 = true -> db (world s1) = db (world (auth.redis w))) by (intros Hc; by apply G).
  case_bool_decide as Hv0; [|destruct (auth.deserializeSession v _) as [[] c'|] eqn:Ed].
  all: split; [done|]; split; [done|]; intros Hc; split; [by apply Hd|];
    destruct (Hv Hc) as (data & Hs & Hv'); pose proof (session_text c data Hs) as [_ Hne];
    destruct (_ <? _); subst v; try done.
  all: rewrite (auth.session_roundtrip c _ data Hfit Hs) in Ed; by simplify_eq.
Qed.

Lemma stored_insert sid c t w k e :
  stored_until sid c t w -> k <> c_str (auth.sessionKey sid) ->
  forall w', db w' = <[k := e]> (db w) -> stored_until sid c t w'.
Proof.
  intros (data & Hs & Hd) Hk w' Hw'. exists data. split; [done|]. by rewrite Hw', lookup_insert_ne.
Qed.

(** Rebinding a stored session to the node it is on keeps it, perhaps longer. *)
Lemma bind_keeps_session sid c t (w : World) h r w' :
  fits I64 (auth.u_loginTime c) = true -> auth.m_useRedis (auth.auth w) = true ->
  0 < auth.m_sessionExpire (auth.auth w) < 2 ^ 31 ->
  m_context (client (auth.redis w)) = Some h ->
  (isConnected (auth.redis w) = true -> stored_until sid c t (world (auth.redis w))) ->
  auth.bindSessionToNode sid (auth.u_nodeId c) w = (Some r, w') ->
  advances (auth.redis w) (auth.redis w')
  /\ (isConnected (auth.redis w') = true ->
      exists t', stored_until sid c t' (world (auth.redis w'))
        /\ (t' = t \/ now (world (auth.redis w)) + 1000 * auth.m_sessionExpire (auth.auth w) <= t'
                      <= now (world (auth.redis w')) + 1000 * auth.m_sessionExpire (auth.auth w))).
Proof.
  intros Hfit Hr He Hh Hst Hb. unfold auth.bindSessionToNode in Hb. rewrite Hr in Hb.
  pose proof (redis_session_answer sid c t w h Hfit Hh Hst) as A.
  destruct (auth.redis_session sid w) as [c' w1]. destruct A as (Hau & Hadv & Hget).
  assert (Hsame : forall w2 : World, auth.redis w2 = auth.redis w1 -> isConnected (auth.redis w2) = true ->
    exists t', stored_until sid c t' (world (auth.redis w2)) /\ (t' = t \/
      now (world (auth.redis w)) + 1000 * auth.m_sessionExpire (auth.auth w) <= t'
                      <= now (world (auth.redis w2)) + 1000 * auth.m_sessionExpire (auth.auth w))).
  { intros w2 -> Hc. exists t. split; [|by left]. destruct (Hst (proj2 (proj2 Hadv) Hc)) as (data & Hs & Hd). exists data. split; [done|].
    by destruct (Hget Hc) as [-> _]. }
  destruct c' as [c'|].
  - destruct (auth.serializeSession (auth.set_node (auth.u_nodeId c) c')) as [data|] eqn:Es; [|done].
    assert (Hh1 : m_context (client (auth.redis w1)) = Some h) by (destruct Hadv; congruence).
    rewrite Hau in Hb.
    pose proof (setex_answer (auth.sessionKey sid) data _ (auth.redis w1) h Hh1 He) as X.
    destruct (auth.redis_setex _ _ _ _) as [ok r2]. destruct X as (Ha2 & _ & Hput).
    injection Hb as <- <-. cbn. split; [by etransitivity|]. intros Hc.
    destruct (Hput Hc) as [_ Hd2]. destruct Ha2 as (_ & Hn2 & Hc2). destruct (Hget (Hc2 Hc)) as [_ Hc'].
    destruct (_ <? t); [|done]. injection Hc' as ->.
    assert (Hid : auth.set_node (auth.u_nodeId c) c = c) by by destruct c.
    rewrite Hid in Es. eexists. split.
    + exists data. split; [exact Es|]. rewrite Hd2, lookup_insert_eq. by rewrite (proj1 (session_text c data Es)).
    + right. destruct Hadv as (_ & Hn1 & _). lia.
  - unfold auth.bind_local in Hb. destruct (auth.find_session _ _); injection Hb as <- <-; (split; [exact Hadv|]);
      by apply Hsame.
Qed.

(** What a login over Redis leaves in the database. *)
Lemma login_stores_session conn u tok dev rand t1 t2 (w w' : World) h sid err :
  auth.m_useRedis (auth.auth w) = true -> m_context (client (auth.redis w)) = Some h ->
  0 < auth.m_sessionExpire (auth.auth w) < 2 ^ 31 -> fits I64 t2 = true ->
  auth.login conn u tok dev rand t1 t2 w = (Some (true, sid, err), w') -> isConnected (auth.redis w') = true ->
  exists c t', auth.u_userId c = u /\ auth.u_loginTime c = t2 /\ stored_until sid c t' (world (auth.redis w'))
    /\ now (world (auth.redis w)) + 1000 * auth.m_sessionExpire (auth.auth w) <= t'
         <= now (world (auth.redis w')) + 1000 * auth.m_sessionExpire (auth.auth w).
Proof.
  intros Hr Hh He Ht Hl Hc. unfold auth.login in Hl. destruct (auth.validateToken u tok); [|done].
  cbn [negb auth.m_useRedis auth.m_hasSessionRepository auth.m_sessionExpire auth.u_sessionId auth.u_nodeId] in Hl.
  set (c := auth.mkContext u (auth.generateSessionId rand t1) dev (auth.m_nodeId (auth.auth w)) t2 true) in *.
  set (w1 := if auth.m_hasSessionRepository (auth.auth w) then _ else _) in Hl.
  assert (E1 : auth.redis w1 = auth.redis w) by (unfold w1; by destruct (auth.m_hasSessionRepository _)).
  assert (A1 : auth.m_useRedis (auth.auth w1) = true /\ auth.m_sessionExpire (auth.auth w1)
               = auth.m_sessionExpire (auth.auth w)).
  { unfold w1. by destruct (auth.m_hasSessionRepository _). }
  clearbody w1. destruct A1 as [R1 X1]. rewrite Hr in Hl.
  destruct (auth.serializeSession c) as [data|] eqn:Es; [|done]. rewrite E1 in Hl.
  pose proof (setex_answer (auth.sessionKey (auth.generateSessionId rand t1)) data _ (auth.redis w) h Hh He) as S1.
  destruct (auth.redis_setex _ data _ (auth.redis w)) as [ok1 r1]. destruct S1 as (V1 & _ & P1).
  assert (C1 : m_context (client r1) = Some h) by (destruct V1; congruence).
  pose proof (setex_answer (auth.userKey u) (auth.generateSessionId rand t1) _ r1 h C1 He) as S2.
  destruct (auth.redis_setex (auth.userKey u) _ _ r1) as [ok2 r2]. destruct S2 as (V2 & _ & P2).
  assert (C2 : m_context (client r2) = Some h) by (destruct V2; congruence).
  destruct (auth.bindSessionToNode _ _ _) as [[b|] w3] eqn:Eb; [|done]. injection Hl as <- <- <-.
  assert (St : isConnected r2 = true ->
    stored_until (auth.generateSessionId rand t1) c
      (now (world (auth.redis w)) + 1000 * auth.m_sessionExpire (auth.auth w)) (world r2)).
  { intros Hc2. destruct (P2 Hc2) as [_ D2]. destruct V2 as (_ & _ & B2). destruct (P1 (B2 Hc2)) as [_ D1].
    eapply stored_insert; [|apply prefixed_keys_differ|exact D2]. exists data. split; [done|].
    rewrite D1, lookup_insert_eq. by rewrite (proj1 (session_text c data Es)). }
  destruct (bind_keeps_session (auth.generateSessionId rand t1) c
              (now (world (auth.redis w)) + 1000 * auth.m_sessionExpire (auth.auth w)) (auth.with_redis r2 w1) h b w3
              Ht R1) as [V3 K3]; [cbn; by rewrite X1|exact C2|exact St|exact Eb|]. cbn in V3, K3, Eb. rewrite X1 in K3.
  destruct (K3 Hc) as (t' & Hst & Hb). exists c, t'. split; [done|]. split; [done|]. split; [exact Hst|].
  destruct V1 as (_ & ? & _), V2 as (_ & ? & _), V3 as (_ & ? & _). lia.
Qed.

(** C19: A session created on one node is valid on the nodes that check
    sessions in Redis alone: when a login over Redis has succeeded and the node
    still reaches Redis afterwards, there is a deadline, one expiry time after a
    moment of the login, such that any node that keeps no session table, reaches
    Redis, and finds there the entry as the login left it accepts the session for
    the user before the deadline and rejects it from then on.  (A node with a
    session table asks that table, which has no expiry check.) *)
Theorem session_valid_on_other_nodes conn u tok dev rand t1 t2 (wA wA' : World) hA sid err :
  auth.m_useRedis (auth.auth wA) = true -> m_context (client (auth.redis wA)) = Some hA ->
  0 < auth.m_sessionExpire (auth.auth wA) < 2 ^ 31 -> fits I64 t2 = true ->
  auth.login conn u tok dev rand t1 t2 wA = (Some (true, sid, err), wA') -> isConnected (auth.redis wA') = true ->
  exists deadline,
    now (world (auth.redis wA)) + 1000 * auth.m_sessionExpire (auth.auth wA) <= deadline
      <= now (world (auth.redis wA')) + 1000 * auth.m_sessionExpire (auth.auth wA)
    /\ forall (wB : World) hB,
      auth.m_useRedis (auth.auth wB) = true -> auth.m_hasSessionRepository (auth.auth wB) = false ->
      m_context (client (auth.redis wB)) = Some hB ->
      db (world (auth.redis wB)) !! c_str (auth.sessionKey sid)
      = db (world (auth.redis wA')) !! c_str (auth.sessionKey sid) ->
      let '(valid, user, wB') := auth.validateSession sid "" wB in
      isConnected (auth.redis wB') = true ->
      (valid, user) = if now (world (auth.redis wB)) <? deadline then (true, u) else (false, "").
Proof.
  intros Hr Hh He Ht Hl Hc.
  assert (L : exists c t', auth.u_userId c = u /\ auth.u_loginTime c = t2
    /\ stored_until sid c t' (world (auth.redis wA'))
    /\ now (world (auth.redis wA)) + 1000 * auth.m_sessionExpire (auth.auth wA) <= t'
         <= now (world (auth.redis wA')) + 1000 * auth.m_sessionExpire (auth.auth wA))
    by by eapply login_stores_session.
  destruct L as (c & t' & <- & <- & Hst & Hb). exists t'. split; [done|]. intros wB hB HrB HpB HhB Hsame.
  assert (HstB : stored_until sid c t' (world (auth.redis wB))).
  { destruct Hst as (data & Hs & Hd). exists data. split; [done|]. by rewrite Hsame. }
  unfold auth.validateSession. rewrite HpB, HrB.
  pose proof (redis_session_answer sid c t' wB hB Ht HhB (fun _ => HstB)) as A.
  destruct (auth.redis_session sid wB) as [c' wB']. destruct A as (_ & _ & A).
  destruct c' as [c'|]; intros HcB; destruct (A HcB) as [_ Hc']; destruct (_ <? _); by simplify_eq.
Qed.

End Sessions.

(** ** Concrete runs over the toy library: two nodes, one server *)
Lemma pos_string_no_nul p : c_str (pos_string p) = pos_string p.
Proof. induction p as [p IH|p IH|]; cbn; [|..|done]; rewrite bool_decide_eq_false_2 by done; congruence. Qed.

#[export] Instance toy_json_text : JsonText (H := toy_json).
Proof.
  split; [|reflexivity]. intros j t. cbn. intros [= <-]. apply pos_string_no_nul.
Qed.

Definition ex_client (w : Toy) : Conn := mkConn (mkClient (Some 6379) "") w.
Definition ex_shared : Toy := mkToy ∅ 5000 ∅ ∅ [].
Definition ex_route (node : string) (w : Toy) : auth.RoutingService := auth.mkRouting (Some (ex_client w)) node 30 ∅.
Definition ex_bound (u : string) : auth.RoutingService := (auth.bindUserRoute u "node-1" (ex_route "node-1" ex_shared)).2.
Definition ex_after (s : auth.RoutingService (R := Conn (W := Toy))) (ms : Z) : Toy :=
  match auth.m_redisClient s with
  | Some c => let w := world c in mkToy (t_db w) (t_now w + ms) (t_alloc w) (t_broken w) (t_faults w)
  | None => ex_shared
  end.

Lemma route_visible_on_other_nodes_witness :
  (auth.lookupUserRoute "bob" (ex_route "node-2" (ex_after (ex_bound "bob") 29999))).1 = Some "node-1".
Proof.
  assert (E : auth.bindUserRoute "bob" "node-1" (ex_route "node-1" ex_shared) = (true, ex_bound "bob"))
    by (vm_compute; reflexivity).
  destruct (route_visible_on_other_nodes "bob" "node-1" (ex_route "node-1" ex_shared) (ex_client ex_shared) 6379
              (ex_bound "bob")) as (connA' & HA & V);
    [done|vm_compute; reflexivity|done|done|done|cbn; lia|exact E|].
  specialize (V (ex_route "node-2" (ex_after (ex_bound "bob") 29999)) (ex_client (ex_after (ex_bound "bob") 29999)) 6379).
  replace connA' with (ex_client (ex_after (ex_bound "bob") 0)) in V
    by (apply (inj Some); rewrite <- HA; vm_compute; reflexivity).
  assert (V' := V eq_refl ltac:(vm_compute; reflexivity) eq_refl eq_refl ltac:(vm_compute; reflexivity)).
  destruct (auth.lookupUserRoute _ _) as [r sB'] eqn:El. cbn [fst].
  assert (Hc : exists c, auth.m_redisClient sB' = Some c /\ isConnected c = true).
  { replace sB' with (auth.lookupUserRoute "bob" (ex_route "node-2" (ex_after (ex_bound "bob") 29999))).2
      by by rewrite El. eexists. split; vm_compute; reflexivity. }
  destruct Hc as (c & Hc1 & Hc2). rewrite (V' c Hc1 Hc2). vm_compute. reflexivity.
Defined.

#[local] Existing Instance auth.no_sessions.
#[local] Existing Instance toy_json.
#[local] Existing Instance serializer.toy_laws.

Definition ex_node (w : Toy) : auth.World (R := Conn (W := Toy)) (P := ()) :=
  auth.mkWorld (auth.newAuth true false) (ex_client w) ().
Definition ex_login := auth.login (heartbeat.mkConn 5%nat 5) "bob" "valid_token_bob" "phone" 7 1000 1000 (ex_node ex_shared).
Definition ex_sid : string := auth.generateSessionId 7 1000.
Definition ex_other (ms : Z) : auth.World (R := Conn (W := Toy)) (P := ()) :=
  let w := world (auth.redis ex_login.2) in
  ex_node (mkToy (t_db w) (t_now w + ms) (t_alloc w) (t_broken w) (t_faults w)).

Lemma session_valid_on_other_nodes_witness :
  (auth.validateSession ex_sid "" (ex_other 86399999)).1 = (true, "bob").
Proof.
  assert (E : ex_login = (Some (true, ex_sid, ""), ex_login.2)) by (vm_compute; reflexivity).
  destruct (session_valid_on_other_nodes (heartbeat.mkConn 5%nat 5) "bob" "valid_token_bob" "phone" 7 1000 1000
              (ex_node ex_shared) ex_login.2 6379 ex_sid "") as (t & [Ht _] & V);
    [done|done|cbn; lia|done|exact E|vm_compute; reflexivity|].
  specialize (V (ex_other 86399999) 6379 eq_refl eq_refl eq_refl eq_refl).
  destruct (auth.validateSession _ _ _) as [[valid user] wB'] eqn:Ev. cbn [fst].
  rewrite V.
  - replace (now (world (auth.redis (ex_other 86399999)))) with (5000 + 86399999) by (vm_compute; reflexivity).
    cbn in Ht. by rewrite (proj2 (Z.ltb_lt _ _)) by lia.
  - replace wB' with (auth.validateSession ex_sid "" (ex_other 86399999)).2 by by rewrite Ev.
    vm_compute. reflexivity.
Defined.

(** Names that agree up to a NUL byte, which a JSON request can carry, share
    their entries: another user's login redirects the routes of bob. *)
Definition nul_bob : string := "bob" +:+ String nul "x".

Lemma nul_in_name_takes_over_route :
  (auth.lookupUserRoute "bob" (ex_route "node-2" (ex_after (ex_bound nul_bob) 0))).1 = Some "node-1".
Proof. vm_compute. reflexivity. Qed.

End redis_services.
