(* ===== verification/MetricsText.v ===== *)
(** * MetricsText: the text of the metrics
      (MetricsRegistry::renderPrometheus of src/infra/metricsRegistry.cpp)

    The registry of Infra.v printed in the exposition format: every [oss << ...
    << "\n"] is one line.  The maps are unordered, so the order of their entries
    is an argument.  A [double] is printed as an [ostream] prints it by default,
    with six significant digits.  A reader of the format, independent of the
    code, recovers the samples. *)
From Stdlib Require Import Floats.SpecFloat.
From S2P Require Import Prelude Util Text Infra.
Import util text infra.
#[local] Existing Instance binary64.

Module metrics_text.

(** ** [ostream << double]: the conversion %g with precision 6 *)
Definition round_half_even (n d : Z) : Z :=
  let q := n / d in
  let r := n mod d in
  if 2 * r <? d then q else if d <? 2 * r then q + 1 else if Z.even q then q else q + 1.

(** The decimal exponent of [n / d]; a double needs fewer than 400 steps. *)
Fixpoint scale_up (fuel : nat) (n d : Z) : Z :=
  match fuel with O => 0 | S f => if n <? d then 1 + scale_up f (10 * n) d else 0 end.
Fixpoint scale_down (fuel : nat) (n d : Z) : Z :=
  match fuel with O => 0 | S f => if n <? 10 * d then 0 else 1 + scale_down f n (10 * d) end.
Definition exponent10 (n d : Z) : Z := if n <? d then - scale_up 400 n d else scale_down 400 n d.

(** Six significant digits and the exponent of the first. *)
Definition significant (n d : Z) : Z * Z :=
  let x := exponent10 n d in
  let s := if x <=? 5 then round_half_even (n * 10 ^ (5 - x)) d else round_half_even n (d * 10 ^ (x - 5)) in
  if s =? 10 ^ 6 then (10 ^ 5, x + 1) else (s, x).

Definition zero : ascii := "0"%char.
Fixpoint drop_zeros (l : bytes) : bytes :=
  match l with c :: l' => if bool_decide (c = zero) then drop_zeros l' else l | [] => [] end.
Definition point (i f : bytes) : bytes :=
  i ++ match rev (drop_zeros (rev f)) with [] => [] | f' => "."%char :: f' end.

Definition show_positive (n d : Z) : bytes :=
  let '(s, x) := significant n d in
  let ds := dec_digits 6 s in
  if (-4 <=? x) && (x <? 6) then
    if 0 <=? x then point (take (Z.to_nat (x + 1)) ds) (drop (Z.to_nat (x + 1)) ds)
    else point [zero] (replicate (Z.to_nat (- x - 1)) zero ++ ds)
  else
    point (take 1 ds) (drop 1 ds) ++ "e"%char :: (if x <? 0 then "-"%char else "+"%char)
      :: (if Z.abs x <? 10 then [zero] else []) ++ dec_digits 3 (Z.abs x).

Definition show_double (f : spec_float) : string :=
  let sign (s : bool) (b : bytes) := str ((if s then ["-"%char] else []) ++ b) in
  match f with
  | S754_zero s => sign s [zero]
  | S754_infinity s => sign s (chars "inf")
  | S754_nan => "nan"
  | S754_finite s m e =>
    sign s (if 0 <=? e then show_positive (Zpos m * 2 ^ e) 1 else show_positive (Zpos m) (2 ^ (- e)))
  end.

(** ** renderPrometheus *)
Definition quote : ascii := "034"%char.

Definition header_lines (name type help : string) : list bytes :=
  [chars ("# HELP " +:+ name +:+ " " +:+ sanitizeHelp help); chars ("# TYPE " +:+ name +:+ " " +:+ type)].

Definition counter_lines (item : string * CounterMetric) : list bytes :=
  let '(name, metric) := item in
  header_lines name "counter" (c_help metric) ++ [chars (name +:+ " " +:+ show_double (c_value metric))].

Definition gauge_lines (item : string * GaugeMetric) : list bytes :=
  let '(name, metric) := item in
  header_lines name "gauge" (g_help metric) ++ [chars (name +:+ " " +:+ show_double (g_value metric))].

Definition bucket_line (name le : string) (count : Z) : bytes :=
  chars (name +:+ "_bucket{le=" +:+ str [quote] +:+ le +:+ str [quote] +:+ "} " +:+ dec count).

(** The loop over the bounds, and [cumulative] at its end. *)
Fixpoint bucket_lines (name : string) (bs : list spec_float) (counts : list Z) (cumulative : Z) : list bytes * Z :=
  match bs, counts with
  | b :: bs, c :: counts =>
    let cumulative := u64 (cumulative + c) in
    let '(ls, total) := bucket_lines name bs counts cumulative in
    (bucket_line name (show_double b) cumulative :: ls, total)
  | _, _ => ([], cumulative)
  end.

Definition histogram_lines (item : string * HistogramMetric) : list bytes :=
  let '(name, metric) := item in
  let '(ls, cumulative) := bucket_lines name (bounds metric) (bucketCounts metric) 0 in
  let cumulative := u64 (cumulative + default 0 (list.last (bucketCounts metric))) in
  header_lines name "histogram" (h_help metric) ++ ls
  ++ [bucket_line name "+Inf" cumulative;
      chars (name +:+ "_sum " +:+ show_double (sum metric));
      chars (name +:+ "_count " +:+ dec (h_count metric))].

(** The entries of the three maps, in the order they are visited. *)
Definition renderPrometheus (cs : list (string * CounterMetric)) (gs : list (string * GaugeMetric))
    (hs : list (string * HistogramMetric)) : string :=
  str (mjoin (map (fun l => l ++ [newline]) (mbind counter_lines cs ++ mbind gauge_lines gs ++ mbind histogram_lines hs))).

(** ** A reader of the format *)
(** Name, labels and value of a sample. *)
Record Sample := mkSample { s_name : string; s_labels : string; s_value : string }.

Fixpoint span (p : ascii -> bool) (l : bytes) : bytes * bytes :=
  match l with
  | c :: l' => if p c then let '(a, b) := span p l' in (c :: a, b) else ([], l)
  | [] => ([], [])
  end.

Definition not_ (d c : ascii) : bool := negb (bool_decide (c = d)).
Definition blank : ascii := " "%char.

Definition read_sample (l : bytes) : option Sample :=
  let '(name, rest) := span valid_char l in
  let '(labels, rest) :=
    match rest with
    | c :: rest' => if bool_decide (c = "{"%char) then
                      let '(ls, r) := span (not_ "}"%char) rest' in (ls, drop 1 r)
                    else ([], rest)
    | [] => ([], [])
    end in
  match rest with
  | c :: value =>
    if bool_decide (c = blank) && negb (bool_decide (name = [])) && negb (bool_decide (value = []))
       && negb (bool_decide (blank ∈ value))
    then Some (mkSample (str name) (str labels) (str value)) else None
  | [] => None
  end.

(** A line is empty, a comment, or a sample. *)
Definition read_line (l : bytes) : option (list Sample) :=
  match l with
  | [] => Some []
  | c :: _ => if bool_decide (c = "#"%char) then Some [] else (fun s => [s]) <$> read_sample l
  end.

Fixpoint read_lines (ls : list bytes) : option (list Sample) :=
  match ls with
  | [] => Some []
  | l :: ls => a ← read_line l; b ← read_lines ls; Some (a ++ b)
  end.

Definition read_text (text : string) : option (list Sample) := read_lines (getline_all newline [] (chars text)).

(** ** The samples of a registry *)
Definition counter_samples (i : string * CounterMetric) : list Sample := [mkSample i.1 "" (show_double (c_value i.2))].
Definition gauge_samples (i : string * GaugeMetric) : list Sample := [mkSample i.1 "" (show_double (g_value i.2))].

Definition le_label (b : string) : string := "le=" +:+ str [quote] +:+ b +:+ str [quote].

(** One sample per bound with the number of observations up to it, and the
    total as that of "+Inf". *)
Definition histogram_samples (i : string * HistogramMetric) : list Sample :=
  let '(name, m) := i in
  zip_with (fun b c => mkSample (name +:+ "_bucket") (le_label (show_double b)) (dec c))
    (bounds m) (cumulative_counts 0 (bucketCounts m))
  ++ [mkSample (name +:+ "_bucket") (le_label "+Inf") (dec (h_count m));
      mkSample (name +:+ "_sum") "" (show_double (sum m));
      mkSample (name +:+ "_count") "" (dec (h_count m))].

Definition samples cs gs hs : list Sample :=
  mbind counter_samples cs ++ mbind gauge_samples gs ++ mbind histogram_samples hs.

(** ** Characters *)
Definition plain (c : ascii) : bool := (33 <=? byte_val c) && (byte_val c <=? 122).

Lemma plain_not c : plain c = true -> c <> newline /\ c <> blank /\ c <> "}"%char.
Proof. unfold plain. intros Hc. splits; intros ->; discriminate Hc. Qed.

Lemma valid_plain c : valid_char c = true -> plain c = true /\ c <> "#"%char.
Proof.
  unfold valid_char, plain. intros Hv. split.
  - repeat rewrite ?orb_true_iff, ?andb_true_iff, ?Z.leb_le, ?Z.eqb_eq in Hv.
    rewrite andb_true_iff, !Z.leb_le. lia.
  - intros ->. discriminate Hv.
Qed.

Lemma digit_plain c : is_digit c = true -> plain c = true.
Proof.
  unfold is_digit, plain. rewrite !andb_true_iff, !Z.leb_le. lia.
Qed.

Definition word (s : bytes) : Prop := Forall (fun c => plain c = true) s /\ s <> [].

Lemma word_app a b : word a -> Forall (fun c => plain c = true) b -> word (a ++ b).
Proof. intros [Ha Hn] Hb. split; [by apply Forall_app|]. destruct a; done. Qed.

Lemma word_digits fuel n : (0 < fuel)%nat -> 0 <= n -> word (dec_digits fuel n).
Proof.
  intros Hf Hn. split; [|by apply dec_digits_nonempty]. eapply Forall_impl; [by apply dec_digits_digits|].
  apply digit_plain.
Qed.

Lemma plain_sign (s : bool) b : word b -> word ((if s then ["-"%char] else []) ++ b).
Proof. intros Hb. destruct s; [|done]. by apply (word_app ["-"%char]); [by split; [repeat constructor|]|apply Hb]. Qed.

Lemma word_dec z : word (chars (dec z)).
Proof.
  unfold dec. rewrite chars_str.
  apply plain_sign, word_digits; lia.
Qed.

Lemma plain_drop_zeros l : Forall (fun c => plain c = true) l -> Forall (fun c => plain c = true) (drop_zeros l).
Proof. induction 1 as [|c l Hc Hl IH]; simpl; [constructor|]. case_if; [done|by constructor]. Qed.

Lemma word_point i f : word i -> Forall (fun c => plain c = true) f -> word (point i f).
Proof.
  intros Hi Hf. unfold point. apply word_app; [done|].
  assert (Hr : Forall (fun c => plain c = true) (rev (drop_zeros (rev f)))).
  { apply Forall_rev, plain_drop_zeros, Forall_rev, Hf. }
  destruct (rev (drop_zeros (rev f))); [constructor|by constructor].
Qed.

Lemma round_half_even_nonneg n d : 0 <= n -> 0 < d -> 0 <= round_half_even n d.
Proof.
  intros Hn Hd. unfold round_half_even. pose proof (Z.div_pos n d Hn Hd). repeat case_if; lia.
Qed.

Lemma significant_nonneg n d : 0 <= n -> 0 < d -> 0 <= (significant n d).1.
Proof.
  intros Hn Hd. unfold significant. destruct (Z.leb_spec (exponent10 n d) 5) as [L|L].
  - pose proof (round_half_even_nonneg (n * 10 ^ (5 - exponent10 n d)) d). case_if; cbn; nia.
  - assert (0 < 10 ^ (exponent10 n d - 5)) by (apply Z.pow_pos_nonneg; lia).
    pose proof (round_half_even_nonneg n (d * 10 ^ (exponent10 n d - 5))). case_if; cbn; nia.
Qed.

Lemma word_take k l : (0 < k)%nat -> word l -> word (take k l).
Proof.
  intros Hk [Hl Hn]. split; [by apply Forall_take|]. destruct k; [lia|]. by destruct l.
Qed.

Lemma word_show_positive n d : 0 <= n -> 0 < d -> word (show_positive n d).
Proof.
  intros Hn Hd. unfold show_positive. pose proof (significant_nonneg n d Hn Hd) as Hs.
  destruct (significant n d) as [sg x]. cbn in Hs.
  assert (D : word (dec_digits 6 sg)) by (apply word_digits; lia).
  assert (Z0 : word [zero]) by by split; [repeat constructor|].
  generalize dependent (dec_digits 6 sg). intros ds D. case_if; [case_if|].
  - b2p. apply word_point; [apply word_take; [lia|done]|]. apply Forall_drop, D.
  - apply word_point; [done|]. apply Forall_app. split; [by apply Forall_replicate|apply D].
  - apply word_app; [apply word_point; [by apply word_take; [lia|]|apply Forall_drop, D]|].
    constructor; [done|]. constructor; [by destruct (x <? 0)|]. apply Forall_app.
    split; [destruct (Z.abs x <? 10); repeat constructor|apply word_digits; lia].
Qed.

Lemma word_show_double f : word (chars (show_double f)).
Proof.
  destruct f as [sg|sg| |sg m e]; cbn [show_double]; rewrite ?chars_str.
  - apply plain_sign. by split; [repeat constructor|].
  - apply plain_sign. split; [|done]. by repeat constructor.
  - split; [|done]. by repeat constructor.
  - apply plain_sign. case_if; b2p; apply word_show_positive; lia.
Qed.

(** ** Reading a line *)
Definition metric_name (s : string) : Prop := Forall (fun c => valid_char c = true) (chars s) /\ s <> "".

Lemma span_stop p a c b :
  Forall (fun x => p x = true) a -> p c = false -> span p (a ++ c :: b) = (a, c :: b).
Proof. intros Ha Hc. induction Ha as [|x a Hx _ IH]; simpl; [by rewrite Hc|]. by rewrite Hx, IH. Qed.

Lemma name_nonempty s : metric_name s -> chars s <> [].
Proof. intros [_ Hn] E. apply Hn. rewrite <- (str_chars s), E. done. Qed.

Lemma word_no_blank v : word v -> blank ∉ v.
Proof. intros [Hv _] Hin. rewrite Forall_forall in Hv. by destruct (plain_not _ (Hv _ Hin)) as (_ & ? & _). Qed.

Lemma sample_line name v :
  metric_name name -> word (chars v) -> read_line (chars (name +:+ " " +:+ v)) = Some [mkSample name "" v].
Proof.
  intros Hn Hv. rewrite chars_app. pose proof (name_nonempty name Hn) as Hne.
  unfold read_line. destruct (chars name) as [|c l] eqn:E; [done|].
  assert (Hc : valid_char c = true) by (destruct Hn as [Hf _]; rewrite E in Hf; by inversion Hf).
  destruct (valid_plain c Hc) as [_ Hh]. change ((c :: l) ++ chars (" " +:+ v)) with (c :: (l ++ chars (" " +:+ v))).
  cbv iota beta. rewrite bool_decide_eq_false_2 by done.
  change (c :: (l ++ chars (" " +:+ v))) with ((c :: l) ++ blank :: chars v). rewrite <- E.
  unfold read_sample. rewrite span_stop by (apply Hn || done).
  rewrite (bool_decide_eq_false_2 (blank = "{"%char)) by done.
  rewrite (bool_decide_eq_true_2 (blank = blank)) by done.
  rewrite (bool_decide_eq_false_2 (chars name = [])) by by rewrite E.
  rewrite (bool_decide_eq_false_2 (chars v = [])) by apply Hv.
  rewrite (bool_decide_eq_false_2 (blank ∈ chars v)) by by apply word_no_blank.
  cbn. by rewrite !str_chars.
Qed.

Lemma comment_line t : read_line (chars ("# " +:+ t)) = Some [].
Proof. done. Qed.

Lemma read_lines_app a b :
  read_lines (a ++ b) = x ← read_lines a; y ← read_lines b; Some (x ++ y).
Proof.
  induction a as [|l a IH]; simpl; [by destruct (read_lines b)|].
  destruct (read_line l); cbn; [|done]. rewrite IH. destruct (read_lines a), (read_lines b); cbn; try done.
  by rewrite app_assoc.
Qed.

Lemma suffix_name name t : metric_name name -> forallb valid_char (chars t) = true -> metric_name (name +:+ t).
Proof.
  intros [Hv Hn] Ht. split.
  - rewrite chars_app. apply Forall_app. split; [done|]. apply Forall_forall. intros c Hc.
    eapply forallb_forall in Ht; [done|by apply list_elem_of_In].
  - destruct name; done.
Qed.

Lemma bucket_line_read name le n :
  metric_name name -> word (chars le) ->
  read_line (bucket_line name le n) = Some [mkSample (name +:+ "_bucket") (le_label le) (dec n)].
Proof.
  intros Hn Hle. set (nm := name +:+ "_bucket").
  assert (Hnm : metric_name nm) by by apply suffix_name.
  assert (E : bucket_line name le n = chars nm ++ "{"%char :: (chars (le_label le) ++ "}"%char :: blank :: chars (dec n))).
  { unfold bucket_line, nm, le_label. rewrite !chars_app, <- !app_assoc. done. }
  pose proof (name_nonempty nm Hnm) as Hne. rewrite E. unfold read_line.
  destruct (chars nm) as [|c l] eqn:Ec; [done|]. rewrite <- app_comm_cons.
  assert (Hc : valid_char c = true) by (destruct Hnm as [Hf _]; rewrite Ec in Hf; by inversion Hf).
  destruct (valid_plain c Hc) as [_ Hh]. rewrite bool_decide_eq_false_2 by done.
  rewrite app_comm_cons, <- Ec. unfold read_sample. rewrite span_stop by (apply Hnm || done).
  rewrite bool_decide_eq_true_2 by done.
  rewrite span_stop; [|clear E|done].
  - cbn [drop]. rewrite (bool_decide_eq_true_2 (blank = blank)) by done.
    rewrite (bool_decide_eq_false_2 (chars nm = [])) by by rewrite Ec.
    rewrite (bool_decide_eq_false_2 (chars (dec n) = [])) by apply word_dec.
    rewrite (bool_decide_eq_false_2 (blank ∈ chars (dec n))) by by apply word_no_blank, word_dec.
    cbn [negb andb]. cbn [fmap option_fmap option_map]. by rewrite !str_chars.
  - assert (P : forall c, plain c = true -> not_ "}"%char c = true).
    { intros c' Hp. unfold not_. rewrite bool_decide_eq_false_2; [done|]. by apply plain_not. }
    unfold le_label. rewrite !chars_app, !chars_str. apply Forall_app. split; [by repeat constructor|].
    apply Forall_app. split; [by repeat constructor|]. apply Forall_app. split; [|by repeat constructor].
    eapply Forall_impl; [apply Hle|exact P].
Qed.

(** ** Lines have no newline *)
Definition one_line (s : string) : Prop := newline ∉ chars s.

Lemma one_line_app a b : one_line a -> one_line b -> one_line (a +:+ b).
Proof. unfold one_line. rewrite chars_app. set_solver. Qed.

Lemma one_line_word s : Forall (fun c => plain c = true) (chars s) -> one_line s.
Proof. intros Hs Hin. rewrite Forall_forall in Hs. by destruct (plain_not _ (Hs _ Hin)) as (? & _). Qed.

Lemma one_line_name s : metric_name s -> one_line s.
Proof. intros [Hs _]. apply one_line_word. eapply Forall_impl; [exact Hs|]. apply valid_plain. Qed.

Lemma one_line_double f : one_line (show_double f).
Proof. apply one_line_word, word_show_double. Qed.
Lemma one_line_dec z : one_line (dec z).
Proof. apply one_line_word, word_dec. Qed.

Lemma one_line_lit s : bool_decide (newline ∈ chars s) = false -> one_line s.
Proof. by intros ?%bool_decide_eq_false. Qed.

Lemma one_line_help h : one_line (sanitizeHelp h).
Proof.
  unfold sanitizeHelp. case_bool_decide; [by apply one_line_lit|].
  unfold one_line. rewrite chars_str. intros (c & Hc & _)%list_elem_of_fmap. by case_bool_decide.
Qed.

#[local] Hint Resolve one_line_app one_line_name one_line_double one_line_dec one_line_help : one_line.
#[local] Hint Extern 9 (one_line _) => apply one_line_lit; reflexivity : one_line.

(** What is said of the lines of an entry: they have no newline and read as
    its samples. *)
Definition reads_as (ls : list bytes) (ss : list Sample) : Prop :=
  Forall (fun l => newline ∉ l) ls /\ read_lines ls = Some ss.

Lemma reads_as_app a b sa sb : reads_as a sa -> reads_as b sb -> reads_as (a ++ b) (sa ++ sb).
Proof. intros [Na Ra] [Nb Rb]. split; [by apply Forall_app|]. by rewrite read_lines_app, Ra, Rb. Qed.

Lemma reads_as_bind {A} (f : A -> list bytes) (g : A -> list Sample) l :
  Forall (fun a => reads_as (f a) (g a)) l -> reads_as (mbind f l) (mbind g l).
Proof. induction 1 as [|a l Ha _ IH]; [by split|]. exact (reads_as_app _ _ _ _ Ha IH). Qed.

Lemma reads_as_one l ss : newline ∉ l -> read_line l = Some ss -> reads_as [l] ss.
Proof. intros Hn Hr. split; [by constructor|]. cbn. rewrite Hr. cbn. by rewrite app_nil_r. Qed.

Lemma header_reads name type help : metric_name name -> one_line type -> reads_as (header_lines name type help) [].
Proof.
  intros Hn Ht. split; [|done]. constructor; [|constructor; [|constructor]]; fold (one_line ("# HELP " +:+ name +:+ " " +:+ sanitizeHelp help));
    fold (one_line ("# TYPE " +:+ name +:+ " " +:+ type)); auto 8 with one_line.
Qed.

Lemma sample_reads name v :
  metric_name name -> word (chars v) -> reads_as [chars (name +:+ " " +:+ v)] [mkSample name "" v].
Proof.
  intros Hn Hv. apply reads_as_one; [|by apply sample_line]. fold (one_line (name +:+ " " +:+ v)).
  pose proof (one_line_word v (proj1 Hv)). auto 8 with one_line.
Qed.

Lemma counter_reads i : metric_name i.1 -> reads_as (counter_lines i) (counter_samples i).
Proof.
  destruct i as [name m]. intros Hn. apply (reads_as_app _ _ []); [apply header_reads; auto with one_line|].
  apply sample_reads; [done|apply word_show_double].
Qed.

Lemma gauge_reads i : metric_name i.1 -> reads_as (gauge_lines i) (gauge_samples i).
Proof.
  destruct i as [name m]. intros Hn. apply (reads_as_app _ _ []); [apply header_reads; auto with one_line|].
  apply sample_reads; [done|apply word_show_double].
Qed.

Lemma bucket_reads name le n :
  metric_name name -> word (chars le) ->
  reads_as [bucket_line name le n] [mkSample (name +:+ "_bucket") (le_label le) (dec n)].
Proof.
  intros Hn Hle. apply reads_as_one; [|by apply bucket_line_read]. pose proof (one_line_word le (proj1 Hle)).
  unfold bucket_line. apply one_line_app; auto 12 with one_line.
Qed.

Lemma bucket_lines_read name bs counts acc :
  metric_name name -> length counts = S (length bs) ->
  let '(ls, total) := bucket_lines name bs counts acc in
  reads_as ls (zip_with (fun b c => mkSample (name +:+ "_bucket") (le_label (show_double b)) (dec c))
                 bs (cumulative_counts acc counts))
  /\ Some (u64 (total + default 0 (list.last counts))) = list.last (cumulative_counts acc counts).
Proof.
  intros Hn. revert counts acc. induction bs as [|b bs IH]; intros [|c counts] acc Hl; try done.
  - destruct counts; [|done]. cbn. by split.
  - cbn [bucket_lines cumulative_counts]. injection Hl as Hl. specialize (IH counts (u64 (acc + c)) Hl).
    destruct (bucket_lines name bs counts (u64 (acc + c))) as [ls total]. destruct IH as [IH1 IH2]. split.
    + apply (reads_as_app [_] ls [_]); [apply bucket_reads; [done|apply word_show_double]|exact IH1].
    + destruct counts as [|c' counts]; [done|]. exact IH2.
Qed.

Lemma histogram_reads i :
  metric_name i.1 -> histogram_ok i.2 -> h_count i.2 < 2 ^ 64 -> reads_as (histogram_lines i) (histogram_samples i).
Proof.
  destruct i as [name m]. cbn [fst snd]. intros Hn (_ & Hl & HF & Ht) Hc. unfold histogram_lines, histogram_samples.
  pose proof (bucket_lines_read name (bounds m) (bucketCounts m) 0 Hn Hl) as B.
  destruct (bucket_lines name (bounds m) (bucketCounts m) 0) as [ls total]. destruct B as [B1 B2].
  rewrite cumulative_last in B2 by (done || lia).
  destruct (bucketCounts m) as [|c0 counts] eqn:Eb; [done|]. rewrite <- Eb in *. injection B2 as B2.
  apply (reads_as_app _ _ []); [apply header_reads; auto with one_line|]. apply reads_as_app; [exact B1|].
  rewrite B2. replace (0 + infra.total (bucketCounts m)) with (h_count m) by lia.
  apply (reads_as_app [_] _ [_]); [apply bucket_reads; [done|by split; [repeat constructor|]]|].
  apply (reads_as_app [_] [_] [_] [_]).
  - replace (name +:+ "_sum " +:+ show_double (sum m)) with ((name +:+ "_sum") +:+ " " +:+ show_double (sum m))
      by by rewrite str_app_assoc.
    apply sample_reads; [by apply suffix_name|apply word_show_double].
  - replace (name +:+ "_count " +:+ dec (h_count m)) with ((name +:+ "_count") +:+ " " +:+ dec (h_count m))
      by by rewrite str_app_assoc.
    apply sample_reads; [by apply suffix_name|apply word_dec].
Qed.

(** ** Registries *)
Inductive metric_op :=
| OpEnable (b : bool)
| OpInc (name : string) (delta : spec_float) (help : string)
| OpSet (name : string) (value : spec_float) (help : string)
| OpObserve (name : string) (value : spec_float) (help : string).

Definition metric_step (r : MetricsRegistry) (o : metric_op) : MetricsRegistry :=
  match o with
  | OpEnable b => setEnabled b r
  | OpInc n d h => incCounter n d h r
  | OpSet n v h => setGauge n v h r
  | OpObserve n v h => observe n v h r
  end.

Lemma sanitized_name n : metric_name (sanitizeName n).
Proof.
  unfold sanitizeName. case_bool_decide as E; split; try done.
  - by repeat constructor.
  - rewrite chars_str. apply Forall_map, Forall_forall. intros c _. by destruct (valid_char c) eqn:Hc.
Qed.

(** All names are valid, and every histogram agrees with its count. *)
Definition names_ok {A} (m : gmap string A) : Prop := forall k a, m !! k = Some a -> metric_name k.

Definition rendered_ok (n : Z) (r : MetricsRegistry) : Prop :=
  names_ok (m_counters r) /\ names_ok (m_gauges r) /\ names_ok (m_histograms r) /\ registry_ok n r.

Lemma names_insert {A} (m : gmap string A) n a : names_ok m -> names_ok (<[sanitizeName n := a]> m).
Proof.
  intros Hm k b. intros [[<- _]|[_ E]]%lookup_insert_Some; [apply sanitized_name|by eapply Hm].
Qed.

Lemma metric_step_ok n r o : rendered_ok n r -> 0 <= n -> n + 1 < 2 ^ 64 -> rendered_ok (n + 1) (metric_step r o).
Proof.
  intros (Hc & Hg & Hh & Hr) Hn Hlt.
  assert (Hr' : registry_ok (n + 1) r) by (intros k h E; destruct (Hr k h E); split; [done|lia]).
  unfold rendered_ok. destruct o as [b|x d h|x v h|x v h]; cbn [metric_step].
  - by splits.
  - unfold incCounter. destruct (negb _); splits; cbn [m_counters m_gauges m_histograms]; try done. by apply names_insert.
  - unfold setGauge. destruct (negb _); splits; cbn [m_counters m_gauges m_histograms]; try done. by apply names_insert.
  - pose proof (observe_ok n x v h r Hr Hn Hlt) as Ho. unfold observe in *. destruct (negb _); [by splits|].
    destruct (match bounds _ with [] => _ | _ => _ end) as [bs counts]. splits; cbn [m_counters m_gauges m_histograms]; try done. by apply names_insert.
Qed.

Lemma metric_steps_ok ops :
  Z.of_nat (length ops) < 2 ^ 64 - 1 ->
  rendered_ok (Z.of_nat (length ops)) (foldl metric_step (mkRegistry false ∅ ∅ ∅) ops).
Proof.
  induction ops as [|o ops IH] using rev_ind; intros Hl.
  - assert (N : forall A, names_ok (∅ : gmap string A)) by (intros A k a; by rewrite lookup_empty).
    split; [apply N|]. split; [apply N|]. split; [apply N|]. intros k h E. cbn in E. by rewrite lookup_empty in E.
  - rewrite foldl_app. rewrite length_app in *. cbn in *. rewrite Nat2Z.inj_add. apply metric_step_ok; [apply IH|..]; lia.
Qed.

Lemma entries_ok {A} (m : gmap string A) l (P : string * A -> Prop) :
  l ≡ₚ map_to_list m -> (forall k a, m !! k = Some a -> P (k, a)) -> Forall P l.
Proof.
  intros Hl HP. rewrite Hl. apply Forall_forall. intros [k a] Hin. by apply HP, elem_of_map_to_list.
Qed.

(** Whatever counters, gauges and observations were recorded, a reader of the
    exposition format finds the samples. *)
Lemma metrics_text_reads_back ops cs gs hs :
  let r := foldl metric_step (mkRegistry false ∅ ∅ ∅) ops in
  Z.of_nat (length ops) < 2 ^ 64 - 1 ->
  cs ≡ₚ map_to_list (m_counters r) -> gs ≡ₚ map_to_list (m_gauges r) -> hs ≡ₚ map_to_list (m_histograms r) ->
  read_text (renderPrometheus cs gs hs) = Some (samples cs gs hs).
Proof.
  intros r Hl Hc Hg Hh. destruct (metric_steps_ok ops Hl) as (Nc & Ng & Nh & Hr). fold r in Nc, Ng, Nh, Hr.
  assert (R : reads_as (mbind counter_lines cs ++ mbind gauge_lines gs ++ mbind histogram_lines hs) (samples cs gs hs)).
  { apply reads_as_app; [|apply reads_as_app]; apply reads_as_bind.
    - eapply entries_ok; [exact Hc|]. intros k a E. apply counter_reads. by eapply Nc.
    - eapply entries_ok; [exact Hg|]. intros k a E. apply gauge_reads. by eapply Ng.
    - eapply entries_ok; [exact Hh|]. intros k a E. destruct (Hr k a E) as [Hok Hn].
      apply histogram_reads; [by eapply Nh|done|cbn; lia]. }
  unfold read_text, renderPrometheus. rewrite chars_str. destruct R as [Hnl Hrd]. by rewrite getline_file.
Qed.

Definition ex_metrics : list metric_op :=
  [OpEnable true; OpInc "im requests" (dint 3) "Requests"; OpSet "im_online" (dint 2) ""; OpObserve "lat" (dint 7) "ms"].

(** Six digits are not enough for large counters: an increment of a counter
    above a million does not show. *)
Lemma large_counter_loses_digits : show_double (dint 1234567) = show_double (dint 1234568).
Proof. vm_compute. reflexivity. Qed.

End metrics_text.
