(* ===== verification/MetricsServer.v ===== *)
(** * MetricsServer: the HTTP endpoint of the metrics
      (src/http/metricsServer.h, metricsServer.cpp, the Linux branch)

    [respond] is one turn of the serving loop on the bytes received; a reader of
    HTTP responses recovers status and body.  The life of the server is a step
    relation between the thread that serves, the thread that starts, stops and
    destroys it, and the rest of the process, which opens and closes
    descriptors of its own. *)
From S2P Require Import Prelude Util Text Infra MetricsText.
Import text infra metrics_text.
#[local] Existing Instance binary64.

Module metrics_server.

(** ** One request *)
Definition cr : ascii := "013"%char.
Definition lf : ascii := "010"%char.
Definition crlf : string := str [cr; lf].

(** [request]: what [recv] delivered, [None] when it returned zero or less. *)
Definition respond (path : string) (request : option bytes) (metrics : string) : string :=
  let expectedPrefix := "GET " +:+ path +:+ " " in
  let '(statusLine, responseBody) :=
    match request with
    | Some r => if bool_decide (chars expectedPrefix `prefix_of` r) then ("HTTP/1.1 200 OK" +:+ crlf, metrics)
                else ("HTTP/1.1 404 Not Found" +:+ crlf, "not found" +:+ str [lf])
    | None => ("HTTP/1.1 404 Not Found" +:+ crlf, "not found" +:+ str [lf])
    end in
  statusLine +:+ "Content-Type: text/plain; version=0.0.4; charset=utf-8" +:+ crlf
  +:+ "Content-Length: " +:+ dec (Z.of_nat (length (chars responseBody))) +:+ crlf
  +:+ "Connection: close" +:+ crlf +:+ crlf +:+ responseBody.

(** ** A reader of responses *)
Fixpoint take_line (l : bytes) : option (bytes * bytes) :=
  match l with
  | [] => None
  | c :: l' =>
    match l' with
    | d :: rest => if bool_decide (c = cr) && bool_decide (d = lf) then Some ([], rest)
                   else r ← take_line l'; Some (c :: r.1, r.2)
    | [] => None
    end
  end.

(** The header lines up to the empty one, and what follows. *)
Fixpoint take_headers (fuel : nat) (l : bytes) : option (list bytes * bytes) :=
  match fuel with
  | O => None
  | S f =>
    line ← take_line l;
    match line.1 with
    | [] => Some ([], line.2)
    | h => r ← take_headers f line.2; Some (h :: r.1, r.2)
    end
  end.

Definition header_value (name : string) (h : bytes) : option bytes :=
  if bool_decide (chars (name +:+ ": ") `prefix_of` h) then Some (drop (length (chars (name +:+ ": "))) h) else None.

(** The status code and a body of the announced length. *)
Definition read_response (text : string) : option (Z * string) :=
  status ← take_line (chars text);
  r ← take_headers (length status.2) status.2;
  code ← (if bool_decide (chars "HTTP/1.1 " `prefix_of` status.1) then strto (str (drop 9 status.1)) else None);
  n ← head (omap (header_value "Content-Length") r.1) ≫= fun v => strto (str v);
  if n.2 =? Z.of_nat (length r.2) then Some (code.2, str r.2) else None.

(** ** Reading what was written *)
Lemma take_line_end line rest :
  cr ∉ line -> take_line (line ++ cr :: lf :: rest) = Some (line, rest).
Proof.
  induction line as [|c line IH]; intros Hc; [done|]. apply not_elem_of_cons in Hc as [Hc Hl].
  specialize (IH Hl). cbn [app take_line]. destruct (line ++ cr :: lf :: rest) as [|d l] eqn:E; [by destruct line|].
  rewrite (bool_decide_eq_false_2 (c = cr)) by congruence. cbn [andb]. by rewrite IH.
Qed.

Lemma take_headers_lines hs body fuel :
  Forall (fun h => cr ∉ h /\ h <> []) hs -> (length hs < fuel)%nat ->
  take_headers fuel (mjoin (map (fun h => h ++ [cr; lf]) hs) ++ cr :: lf :: body) = Some (hs, body).
Proof.
  intros Hh. revert fuel; induction Hh as [|h hs [Hc Hn] _ IH]; intros [|f] Hf; cbn in Hf; try lia; [done|].
  cbn [map mjoin list_join app take_headers]. rewrite <- !app_assoc. cbn [app].
  rewrite take_line_end by done. cbn. destruct h as [|c h]; [done|]. rewrite IH by lia. done.
Qed.

Definition length_header (n : Z) : bytes := chars ("Content-Length: " +:+ dec n).

Definition head_lines (n : Z) : list bytes :=
  [chars "Content-Type: text/plain; version=0.0.4; charset=utf-8"; length_header n; chars "Connection: close"].

(** The text of a response, as its parts. *)
Definition response_text (status body : string) : string :=
  (status +:+ crlf) +:+ "Content-Type: text/plain; version=0.0.4; charset=utf-8" +:+ crlf
  +:+ "Content-Length: " +:+ dec (Z.of_nat (length (chars body))) +:+ crlf
  +:+ "Connection: close" +:+ crlf +:+ crlf +:+ body.

Lemma response_parts status body :
  chars (response_text status body)
  = chars status ++ cr :: lf :: (mjoin (map (fun h => h ++ [cr; lf]) (head_lines (Z.of_nat (length (chars body)))))
      ++ cr :: lf :: chars body).
Proof.
  unfold response_text, head_lines, length_header. rewrite !chars_app. cbn [map mjoin list_join app].
  rewrite <- !app_assoc. reflexivity.
Qed.

Lemma dec_no_cr z : cr ∉ chars (dec z).
Proof.
  destruct (word_dec z) as [Hp _]. intros Hin. rewrite Forall_forall in Hp. by specialize (Hp _ Hin).
Qed.

Lemma no_cr_lit s : bool_decide (cr ∈ chars s) = false -> cr ∉ chars s.
Proof. by intros ?%bool_decide_eq_false. Qed.

Lemma read_response_text code text body :
  cr ∉ chars (text : string) -> strto (text : string) = Some (false, code) ->
  Z.of_nat (length (chars body)) < 10 ^ 20 ->
  read_response (response_text ("HTTP/1.1 " +:+ text) body) = Some (code, body).
Proof.
  intros Ht Hc Hn. unfold read_response. rewrite response_parts, take_line_end.
  2:{ rewrite chars_app. apply not_elem_of_app. split; [by apply no_cr_lit|done]. }
  cbn [mbind option_bind fst snd]. rewrite take_headers_lines; cycle 1.
  { constructor; [by split; [apply no_cr_lit|]|]. constructor; [|constructor; [by split; [apply no_cr_lit|]|done]].
    split; [|done]. unfold length_header. rewrite chars_app. apply not_elem_of_app.
    split; [by apply no_cr_lit|apply dec_no_cr]. }
  { rewrite length_app. cbn [head_lines length map mjoin list_join]. rewrite !length_app. cbn. lia. }
  cbn [mbind option_bind fst snd]. rewrite chars_app.
  rewrite bool_decide_eq_true_2 by (exists (chars text); done).
  change (drop 9 (chars "HTTP/1.1 " ++ chars text)) with (chars text). rewrite !str_chars, Hc. cbn [mbind option_bind fst snd].
  cbn [head_lines omap list_omap].
  assert (Hh : header_value "Content-Length" (length_header (Z.of_nat (length (chars body))))
               = Some (chars (dec (Z.of_nat (length (chars body)))))).
  { unfold header_value, length_header. rewrite chars_app.
    rewrite bool_decide_eq_true_2 by (eexists; reflexivity). done. }
  change (header_value "Content-Length" (chars "Content-Type: text/plain; version=0.0.4; charset=utf-8")) with (@None bytes).
  cbv iota. rewrite Hh. cbn [head mbind option_bind]. rewrite str_chars, strto_dec by lia. cbn [mbind option_bind fst snd].
  rewrite Z.abs_eq by lia. by rewrite Z.eqb_refl.
Qed.

(** C22: A scrape returns the metrics: whatever was recorded, under whatever
    names and help texts and in whatever order the maps are visited, the answer
    to a request that begins with GET and the configured path is a well-formed
    response with status 200 whose body has the announced length and, in the
    exposition format, holds exactly one sample per counter and gauge, and per
    histogram its cumulative counts, its sum and its number of observations,
    also as the bucket of +Inf; every other request is answered with 404. *)
Theorem scrape_returns_samples path request ops cs gs hs :
  let r := foldl metric_step (mkRegistry false ∅ ∅ ∅) ops in
  let text := renderPrometheus cs gs hs in
  Z.of_nat (length ops) < 2 ^ 64 - 1 -> Z.of_nat (length (chars text)) < 10 ^ 20 ->
  cs ≡ₚ map_to_list (m_counters r) -> gs ≡ₚ map_to_list (m_gauges r) -> hs ≡ₚ map_to_list (m_histograms r) ->
  (chars ("GET " +:+ path +:+ " ") `prefix_of` request ->
     exists body, read_response (respond path (Some request) text) = Some (200, body)
       /\ read_text body = Some (samples cs gs hs))
  /\ (~ chars ("GET " +:+ path +:+ " ") `prefix_of` request ->
     read_response (respond path (Some request) text) = Some (404, "not found" +:+ str [lf]))
  /\ read_response (respond path None text) = Some (404, "not found" +:+ str [lf]).
Proof.
  intros r text Hl Hlen Hc Hg Hh.
  assert (N : read_response (response_text ("HTTP/1.1 " +:+ "404 Not Found") ("not found" +:+ str [lf]))
              = Some (404, "not found" +:+ str [lf])).
  { apply read_response_text; [by apply no_cr_lit|reflexivity|vm_compute; reflexivity]. }
  split; [|split]; [intros Hp|intros Hp|exact N]; unfold respond.
  - rewrite bool_decide_eq_true_2 by done. exists text. split.
    + apply (read_response_text 200 "200 OK" text); [by apply no_cr_lit|reflexivity|done].
    + by apply (metrics_text_reads_back ops).
  - rewrite bool_decide_eq_false_2 by done. exact N.
Qed.

Lemma scrape_returns_samples_witness :
  let r := foldl metric_step (mkRegistry false ∅ ∅ ∅) ex_metrics in
  exists body, read_response (respond "/metrics" (Some (chars "GET /metrics HTTP/1.1"))
      (renderPrometheus (map_to_list (m_counters r)) (map_to_list (m_gauges r)) (map_to_list (m_histograms r))))
    = Some (200, body)
  /\ exists ss, read_text body = Some ss /\ length ss = 14%nat.
Proof.
  intros r.
  destruct (scrape_returns_samples "/metrics" (chars "GET /metrics HTTP/1.1") ex_metrics (map_to_list (m_counters r))
              (map_to_list (m_gauges r)) (map_to_list (m_histograms r))) as [H200 _];
    [vm_compute; reflexivity|vm_compute; reflexivity|reflexivity|reflexivity|reflexivity|].
  destruct H200 as (body & E & Hs); [by eexists|].
  exists body. split; [exact E|]. eexists. split; [exact Hs|]. vm_compute. reflexivity.
Defined.

(** ** Starting and stopping *)
(** Where the serving thread is; the descriptor is its local [listenFd]. *)
Inductive pc := SSocket | SStore (fd : Z) | SBind (fd : Z) | SListen (fd : Z) | SLoop (fd : Z) | SDone.
Inductive control := Idle | Closing | Joining | Terminated | Destroyed.
Inductive owner := Mine | Others.

Record MetricsServer := mkServer {
  m_running : bool;
  m_thread : option pc;            (* [Some]: joinable *)
  m_listenFd : Z;
  ctl : control;                   (* the thread that owns the server *)
  fds : gmap Z owner;              (* open descriptors of the process *)
  wrong_close : bool;              (* a descriptor of others was closed *)
}.

Definition newMetricsServer (others : gmap Z owner) : MetricsServer := mkServer false None (-1) Idle others false.

(** [CloseSocket]: closing a descriptor that is not open does nothing. *)
Definition CloseSocket (fd : Z) (s : MetricsServer) : MetricsServer :=
  if fd =? -1 then s
  else mkServer (m_running s) (m_thread s) (m_listenFd s) (ctl s) (delete fd (fds s))
         (wrong_close s || match fds s !! fd with Some Others => true | _ => false end).

Definition with_thread p s : MetricsServer :=
  mkServer (m_running s) p (m_listenFd s) (ctl s) (fds s) (wrong_close s).
Definition with_running b s : MetricsServer :=
  mkServer b (m_thread s) (m_listenFd s) (ctl s) (fds s) (wrong_close s).
Definition with_listenFd fd s : MetricsServer :=
  mkServer (m_running s) (m_thread s) fd (ctl s) (fds s) (wrong_close s).
Definition with_ctl c s : MetricsServer :=
  mkServer (m_running s) (m_thread s) (m_listenFd s) c (fds s) (wrong_close s).
Definition with_fds f s : MetricsServer :=
  mkServer (m_running s) (m_thread s) (m_listenFd s) (ctl s) f (wrong_close s).

(** Assigning a new thread to one that is joinable ends the program. *)
Definition start (s : MetricsServer) : MetricsServer :=
  if m_running s then s
  else match m_thread s with
       | None => with_thread (Some SSocket) (with_running true s)
       | Some _ => with_ctl Terminated (with_running true s)
       end.

Definition stop_begin (s : MetricsServer) : MetricsServer :=
  if m_running s then with_ctl Closing (with_running false s) else s.
Definition stop_close (s : MetricsServer) : MetricsServer :=
  with_ctl Joining (with_listenFd (-1) (CloseSocket (m_listenFd s) s)).

(** The destructor, after its [stop]: a thread that is still joinable ends the
    program. *)
Definition destroy (s : MetricsServer) : MetricsServer :=
  with_ctl (match m_thread s with None => Destroyed | Some _ => Terminated end) s.

(** [bind] or [listen] failed. *)
Definition abandon (fd : Z) (s : MetricsServer) : MetricsServer :=
  with_thread (Some SDone) (with_running false (with_listenFd (-1) (CloseSocket fd s))).

(** One step of [serveLoop]; [ok] is the kernel's answer, [fd] a new
    descriptor.  A turn of the loop serves one request and changes nothing. *)
Definition serve (ok : bool) (fd : Z) (p : pc) (s : MetricsServer) : MetricsServer :=
  match p with
  | SSocket => if ok then with_thread (Some (SStore fd)) (with_fds (<[fd := Mine]> (fds s)) s)
               else with_thread (Some SDone) (with_running false s)
  | SStore l => with_thread (Some (SBind l)) (with_listenFd l s)
  | SBind l => if ok then with_thread (Some (SListen l)) s else abandon l s
  | SListen l => if ok then with_thread (Some (SLoop l)) s else abandon l s
  | SLoop l => if m_running s then s
               else with_thread (Some SDone) (with_listenFd (-1) (CloseSocket l s))
  | SDone => s
  end.

Inductive step : MetricsServer -> MetricsServer -> Prop :=
| step_start s : ctl s = Idle -> step s (start s)
| step_stop s : ctl s = Idle -> step s (stop_begin s)
| step_close s : ctl s = Closing -> step s (stop_close s)
| step_join s : ctl s = Joining -> m_thread s = Some SDone -> step s (with_ctl Idle (with_thread None s))
| step_destroy s : ctl s = Idle -> m_running s = false -> step s (destroy s)
| step_serve ok fd p s : m_thread s = Some p -> (p = SSocket -> 0 <= fd /\ fds s !! fd = None) -> step s (serve ok fd p s)
| step_open fd s : 0 <= fd -> fds s !! fd = None -> step s (with_fds (<[fd := Others]> (fds s)) s)
| step_release fd s : fds s !! fd = Some Others -> step s (with_fds (delete fd (fds s)) s).

(** Once [stop] waits, the serving thread ends after at most five of its own
    steps, whatever the kernel answers and whatever happens in between. *)
Definition rank (p : pc) : nat :=
  match p with SSocket => 5 | SStore _ => 4 | SBind _ => 3 | SListen _ => 2 | SLoop _ => 1 | SDone => 0 end.

Lemma stop_ends_thread ok fd p s :
  m_running s = false -> p <> SDone ->
  exists p', m_thread (serve ok fd p s) = Some p' /\ (rank p' < rank p)%nat /\ m_running (serve ok fd p s) = false.
Proof.
  intros Hr Hp. destruct p; cbn [serve]; try done; unfold abandon, CloseSocket; destruct ok; rewrite ?Hr;
    try (eexists; split; [reflexivity|split; [cbn; lia|done]]);
    destruct (_ =? _); (eexists; split; [reflexivity|split; [cbn; lia|done]]).
Qed.

(** When the address is in use, the destructor ends the program: [stop] sees
    that the server does not run and leaves the finished thread unjoined. *)
Lemma failed_setup_terminates :
  exists s, rtc step (newMetricsServer ∅) s /\ ctl s = Terminated.
Proof.
  set (s1 := start (newMetricsServer ∅)). set (s2 := serve true 5 SSocket s1). set (s3 := serve true 0 (SStore 5) s2).
  set (s4 := serve false 0 (SBind 5) s3). exists (destroy (stop_begin s4)). split; [|done].
  eapply rtc_l; [by apply (step_start (newMetricsServer ∅))|].
  eapply rtc_l; [by apply (step_serve true 5 SSocket s1)|].
  eapply rtc_l; [by apply (step_serve true 0 (SStore 5) s2)|].
  eapply rtc_l; [by apply (step_serve false 0 (SBind 5) s3)|].
  eapply rtc_l; [by apply (step_stop s4)|]. by apply rtc_once, step_destroy.
Qed.

(** [stop] closes the listening socket and the serving thread closes its copy
    of the descriptor again: when the process opened another file in between,
    that file is closed. *)
Lemma listener_closed_twice :
  exists s, rtc step (newMetricsServer ∅) s /\ ctl s = Joining /\ wrong_close s = true.
Proof.
  set (s1 := start (newMetricsServer ∅)). set (s2 := serve true 5 SSocket s1). set (s3 := serve true 0 (SStore 5) s2).
  set (s4 := serve true 0 (SBind 5) s3). set (s5 := serve true 0 (SListen 5) s4).
  set (s6 := stop_close (stop_begin s5)). set (s7 := with_fds (<[5 := Others]> (fds s6)) s6).
  exists (serve true 0 (SLoop 5) s7). split; [|done].
  eapply rtc_l; [by apply (step_start (newMetricsServer ∅))|].
  eapply rtc_l; [by apply (step_serve true 5 SSocket s1)|].
  eapply rtc_l; [by apply (step_serve true 0 (SStore 5) s2)|].
  eapply rtc_l; [by apply (step_serve true 0 (SBind 5) s3)|].
  eapply rtc_l; [by apply (step_serve true 0 (SListen 5) s4)|].
  eapply rtc_l; [by apply (step_stop s5)|]. eapply rtc_l; [by apply (step_close (stop_begin s5))|].
  eapply rtc_l; [by apply (step_open 5 s6)|]. by apply rtc_once, step_serve.
Qed.

End metrics_server.
