(* ===== verification/EventLoop.v ===== *)
(** * EventLoop: the loop, its queue of functors and the wake-up descriptor
      (src/net/eventLoop.h, eventLoop.cpp)

    One thread loops: it waits in [poll], handles the active channels and runs
    the functors queued so far.  Other threads queue functors and ask the loop
    to quit; each of these calls has two steps, the change and the write to the
    wake-up descriptor, and everything interleaves.  The descriptor is an
    eventfd: a counter that [write] raises and [read] takes.  A functor is a
    value; what it and the handlers queue in turn is up to them. *)
From S2P Require Import Prelude.

Module event_loop.

Section Loop.
Context {Functor : Type}.

(** Where the looping thread is.  [PHandle w]: among the active channels, and
    [w] says whether that of the wake-up descriptor is still to be handled. *)
Inductive phase := PInit | PCheck | PPoll | PHandle (wake : bool) | PRun (functors : list Functor) | PStopped.

Record EventLoop := mkLoop {
  m_quit : bool;
  m_callingPendingFunctors : bool;
  m_pendingFunctors : list Functor;
  m_wakeupFd : Z;                  (* the counter of the eventfd *)
  at_ : phase;
  writers : nat;                   (* calls of other threads before their write *)
  queued : list Functor;           (* every functor queued so far, in order *)
  ran : list Functor;              (* every functor run so far *)
}.

Definition newLoop : EventLoop := mkLoop false false [] 0 PInit 0 [] [].

Definition with_quit b s := mkLoop b (m_callingPendingFunctors s) (m_pendingFunctors s) (m_wakeupFd s) (at_ s)
                              (writers s) (queued s) (ran s).
Definition with_phase p s := mkLoop (m_quit s) (m_callingPendingFunctors s) (m_pendingFunctors s) (m_wakeupFd s) p
                               (writers s) (queued s) (ran s).
Definition with_fd n s := mkLoop (m_quit s) (m_callingPendingFunctors s) (m_pendingFunctors s) n (at_ s)
                            (writers s) (queued s) (ran s).
Definition with_writers n s := mkLoop (m_quit s) (m_callingPendingFunctors s) (m_pendingFunctors s) (m_wakeupFd s)
                                 (at_ s) n (queued s) (ran s).

(** [write] of 1 to the eventfd, which refuses to pass its maximum. *)
Definition wakeup (s : EventLoop) : EventLoop :=
  with_fd (if m_wakeupFd s <? 2 ^ 64 - 2 then m_wakeupFd s + 1 else m_wakeupFd s) s.

(** [read]: the counter is taken. *)
Definition handleRead (s : EventLoop) : EventLoop := with_fd 0 s.

Definition push (f : Functor) (s : EventLoop) : EventLoop :=
  mkLoop (m_quit s) (m_callingPendingFunctors s) (m_pendingFunctors s ++ [f]) (m_wakeupFd s) (at_ s) (writers s)
    (queued s ++ [f]) (ran s).

(** On the looping thread, or the first step of a call on another thread. *)
Definition queueInLoop (inLoop : bool) (f : Functor) (s : EventLoop) : EventLoop :=
  let s := push f s in
  if inLoop then (if m_callingPendingFunctors s then wakeup s else s) else with_writers (S (writers s)) s.

Definition quit (inLoop : bool) (s : EventLoop) : EventLoop :=
  let s := with_quit true s in if inLoop then s else with_writers (S (writers s)) s.

(** The write of a call on another thread. *)
Definition finish_call (s : EventLoop) : EventLoop := wakeup (with_writers (pred (writers s)) s).

(** [loop()] up to the test of the while. *)
Definition enter (s : EventLoop) : EventLoop := with_phase PCheck (with_quit false s).
Definition check (s : EventLoop) : EventLoop := with_phase (if m_quit s then PStopped else PPoll) s.
Definition poll (s : EventLoop) : EventLoop := with_phase (PHandle (0 <? m_wakeupFd s)) s.

(** [doPendingFunctors]: the queue is swapped out, the functors run in order. *)
Definition swap (s : EventLoop) : EventLoop :=
  mkLoop (m_quit s) true [] (m_wakeupFd s) (PRun (m_pendingFunctors s)) (writers s) (queued s) (ran s).
Definition run (f : Functor) (fs : list Functor) (s : EventLoop) : EventLoop :=
  mkLoop (m_quit s) (m_callingPendingFunctors s) (m_pendingFunctors s) (m_wakeupFd s) (PRun fs) (writers s)
    (queued s) (ran s ++ [f]).
Definition finish_round (s : EventLoop) : EventLoop :=
  mkLoop (m_quit s) false (m_pendingFunctors s) (m_wakeupFd s) PCheck (writers s) (queued s) (ran s).

Inductive step : EventLoop -> EventLoop -> Prop :=
| step_enter s : at_ s = PInit -> step s (enter s)
| step_check s : at_ s = PCheck -> step s (check s)
| step_poll s : at_ s = PPoll -> step s (poll s)
| step_read s : at_ s = PHandle true -> step s (with_phase (PHandle false) (handleRead s))
| step_swap s : at_ s = PHandle false -> step s (swap s)
| step_run f fs s : at_ s = PRun (f :: fs) -> step s (run f fs s)
| step_round s : at_ s = PRun [] -> step s (finish_round s)
| step_own_queue f s : (exists w, at_ s = PHandle w) \/ (exists fs, at_ s = PRun fs) -> step s (queueInLoop true f s)
| step_own_quit s : (exists w, at_ s = PHandle w) \/ (exists fs, at_ s = PRun fs) -> step s (quit true s)
| step_queue f s : step s (queueInLoop false f s)
| step_quit s : step s (quit false s)
| step_write s : (0 < writers s)%nat -> step s (finish_call s).

Definition todo (s : EventLoop) : list Functor := match at_ s with PRun fs => fs | _ => [] end.

(** The next [poll] returns at once, or a call is about to make it return. *)
Definition woken (s : EventLoop) : Prop := 0 < m_wakeupFd s \/ (0 < writers s)%nat.

(** Before the loop looks at its queue again it waits only if it is woken. *)
Record inv (s : EventLoop) : Prop := {
  inv_order : queued s = ran s ++ todo s ++ m_pendingFunctors s;
  inv_fd : 0 <= m_wakeupFd s;
  inv_calling : m_callingPendingFunctors s = match at_ s with PRun _ => true | _ => false end;
  inv_wake : match at_ s with PHandle _ => True | _ => m_pendingFunctors s <> [] -> woken s end;
  inv_quit : at_ s = PPoll -> m_quit s = true -> woken s;
}.

Lemma wakeup_positive s : 0 <= m_wakeupFd s -> 0 < m_wakeupFd (wakeup s).
Proof. unfold wakeup. cbn. case_if; b2p; lia. Qed.

Lemma push_inv b f s :
  inv s -> (b = true -> (exists w, at_ s = PHandle w) \/ (exists fs, at_ s = PRun fs)) -> inv (queueInLoop b f s).
Proof.
  intros [Ho Hf Hc Hw Hq] Hb.
  assert (O : queued s ++ [f] = ran s ++ todo s ++ m_pendingFunctors s ++ [f]) by by rewrite Ho, <- !app_assoc.
  destruct b; cbn.
  - destruct (Hb eq_refl) as [[w E]|[fs E]]; rewrite Hc, E; split; cbn; unfold todo in *; cbn in *; rewrite ?E in *;
      try done; try (pose proof (wakeup_positive s Hf); unfold wakeup in *; cbn in *; unfold woken; cbn; lia).
  - split; cbn; unfold todo in *; cbn; try done; try lia.
    + destruct (at_ s); try done; intros _; right; cbn; lia.
    + intros _ _. right. cbn. lia.
Qed.

Lemma quit_inv b s :
  inv s -> (b = true -> (exists w, at_ s = PHandle w) \/ (exists fs, at_ s = PRun fs)) -> inv (quit b s).
Proof.
  intros [Ho Hf Hc Hw Hq] Hb. destruct b; cbn; split; cbn; try done.
  - intros E. destruct (Hb eq_refl) as [[? E']|[? E']]; congruence.
  - destruct (at_ s); try done; intros _; right; cbn; lia.
  - intros _ _. right. cbn. lia.
Qed.

Lemma write_inv s : inv s -> inv (finish_call s).
Proof.
  intros [Ho Hf Hc Hw Hq]. pose proof (wakeup_positive s Hf) as Hp.
  unfold finish_call, wakeup in *. cbn in *.
  split; cbn; try done; try lia.
  - destruct (at_ s); try done; intros _; left; cbn; lia.
  - intros _ _. left. cbn. lia.
Qed.

Lemma loop_step_inv s s' : step s s' -> inv s -> inv s'.
Proof.
  intros Hs Hi. destruct Hs as [s E|s E|s E|s E|s E|f fs s E|s E|f s E|s E|f s|s|s E].
  8: by apply push_inv. 8: by apply quit_inv. 8: by apply push_inv. 8: by apply quit_inv. 8: by apply write_inv.
  all: destruct Hi as [Ho Hf Hc Hw Hq]; split; cbn; unfold todo in *; cbn; rewrite ?E in *; cbn in *; try done.
  all: try (destruct (m_quit s); cbn; done).
  - rewrite Ho. by rewrite app_nil_r.
  - rewrite Ho. by rewrite <- app_assoc.
Qed.

Lemma newLoop_inv : inv newLoop.
Proof. split; cbn; done. Qed.

Lemma reach_loop_inv s : rtc step newLoop s -> inv s.
Proof.
  intros Hr. assert (L : forall a b, rtc step a b -> inv a -> inv b).
  { induction 1 as [|a b c Hab _ IH]; [done|]. intros Ha. eapply IH, loop_step_inv; done. }
  exact (L _ _ Hr newLoop_inv).
Qed.

(** Running the functors of a round one after the other. *)
Lemma run_all fs s :
  at_ s = PRun fs ->
  exists s', rtc step s s' /\ at_ s' = PRun [] /\ ran s' = ran s ++ fs /\ queued s' = queued s.
Proof.
  revert s; induction fs as [|f fs IH]; intros s E.
  - exists s. split; [constructor|]. by rewrite app_nil_r.
  - destruct (IH (run f fs s) eq_refl) as (s' & Hr & Ha & Hn & Hq). exists s'.
    split; [eapply rtc_l; [by apply step_run|exact Hr]|]. split; [done|]. split; [|done].
    rewrite Hn. cbn. by rewrite <- app_assoc.
Qed.

(** One turn of the loop from a [poll] that returns. *)
Lemma turn s :
  at_ s = PPoll -> 0 < m_wakeupFd s ->
  exists s', rtc step s s' /\ at_ s' = PCheck /\ ran s' = ran s ++ m_pendingFunctors s /\ queued s' = queued s.
Proof.
  intros E Hf. set (s1 := poll s). set (s2 := with_phase (PHandle false) (handleRead s1)).
  assert (E1 : at_ s1 = PHandle true) by (unfold s1, poll; cbn; by rewrite (proj2 (Z.ltb_lt _ _))).
  destruct (run_all (m_pendingFunctors s) (swap s2) eq_refl) as (s3 & Hr & Ha & Hn & Hq).
  exists (finish_round s3). split; [|by repeat split].
  eapply rtc_l; [by apply step_poll|]. eapply rtc_l; [by apply step_read|].
  eapply rtc_l; [by apply step_swap|]. eapply rtc_r; [exact Hr|by apply step_round].
Qed.

(** C20: No functor is lost, reordered or run twice, and no wake-up is lost:
    whatever other threads queue and whenever they ask to quit, the functors
    run are a prefix of those queued, in order; when the loop waits in poll
    although a functor is queued or it was asked to quit, the wake-up
    descriptor is readable or the write to it is still to come; and once it is
    readable, one turn of the loop runs everything queued so far. *)
Theorem no_functor_or_wakeup_lost s :
  rtc step newLoop s ->
  queued s = ran s ++ todo s ++ m_pendingFunctors s
  /\ (at_ s = PPoll -> m_pendingFunctors s <> [] \/ m_quit s = true -> woken s)
  /\ (at_ s = PPoll -> 0 < m_wakeupFd s ->
      exists s', rtc step s s' /\ at_ s' = PCheck /\ ran s' = queued s /\ queued s' = queued s).
Proof.
  intros Hr. pose proof (reach_loop_inv s Hr) as [Ho Hf Hc Hw Hq]. split; [done|]. split.
  - intros E [Hp|Hp]; [|by apply Hq]. rewrite E in Hw. by apply Hw.
  - intros E Hfd. destruct (turn s E Hfd) as (s' & Hs & Ha & Hn & Hqd). exists s'. split; [done|]. split; [done|].
    split; [|done]. rewrite Hn, Ho. unfold todo. by rewrite E.
Qed.

End Loop.

(** A functor queued by another thread while the loop waits. *)
Definition ex_waiting : EventLoop (Functor := nat) := queueInLoop false 7%nat (check (enter newLoop)).

Lemma no_functor_or_wakeup_lost_witness :
  woken ex_waiting
  /\ exists s', rtc step (finish_call ex_waiting) s' /\ at_ s' = PCheck /\ ran s' = [7%nat].
Proof.
  assert (R : rtc step newLoop ex_waiting).
  { eapply rtc_l; [by apply step_enter|]. eapply rtc_l; [by apply step_check|]. apply rtc_once, step_queue. }
  destruct (no_functor_or_wakeup_lost ex_waiting R) as (_ & W & _). split.
  - apply W; [reflexivity|left]. vm_compute. discriminate.
  - destruct (no_functor_or_wakeup_lost (finish_call ex_waiting)) as (_ & _ & T).
    + eapply rtc_r; [exact R|]. apply step_write. vm_compute. lia.
    + destruct T as (s' & Hs & Ha & Hn & _); [reflexivity|vm_compute; reflexivity|].
      exists s'. split; [exact Hs|]. split; [exact Ha|]. rewrite Hn. reflexivity.
Defined.

(** A request to quit before the loop starts is forgotten: [loop] clears it. *)
Lemma quit_before_loop_is_lost :
  m_quit (enter (finish_call (quit false (newLoop (Functor := nat))))) = false.
Proof. reflexivity. Qed.

(** A signal handled by the looping thread between the test of [m_quit] and
    [poll] wakes nobody: the loop waits for an event or the time-out. *)
Lemma signal_before_poll_waits :
  let s := quit true (check (enter (newLoop (Functor := nat)))) in
  at_ s = PPoll /\ m_quit s = true /\ ~ woken s.
Proof. cbn. split; [done|]. split; [done|]. unfold woken. cbn. lia. Qed.

End event_loop.
