(* ===== verification/LoopThreads.v ===== *)
(** * LoopThreads: the thread a loop belongs to
      (src/net/currentThread.h, currentThread.cpp; the thread checks, the
       channels, the constructor and the destructor of src/net/eventLoop.cpp)

    A loop remembers the kernel's id of the thread that made it; a thread knows
    its own id from a thread-local variable filled by the first system call.
    On these two numbers rests that channels are changed and functors run on
    one thread only: [runInLoop] compares them and either calls or queues.
    Here the functors are programs of such calls, run by interleaved threads,
    over the queue and the wake-up descriptor of EventLoop.v. *)
From S2P Require Import Prelude Poller EventLoop.
Import event_loop.

Module current_thread.

Section Tid.
(** [gettid(2)] of a thread, and the threads of the process. *)
Variable gettid : nat -> Z.
Variable threads : gset nat.

(** [t_cached_tid]: one variable per thread, zero when the thread starts. *)
Notation Cache := (gmap nat Z).
Definition t_cached_tid (t : nat) (m : Cache) : Z := default 0 (m !! t).

Definition cacheTid (t : nat) (m : Cache) : Cache :=
  if t_cached_tid t m =? 0 then <[t := i32 (gettid t)]> m else m.

Definition tid (t : nat) (m : Cache) : Z * Cache :=
  let m := if t_cached_tid t m =? 0 then cacheTid t m else m in (t_cached_tid t m, m).

(** Linux numbers threads from 1, below [PID_MAX_LIMIT]. *)
Definition kernel_ids : Prop := forall t, t ∈ threads -> 0 < gettid t < 2 ^ 22.

Definition cache_ok (m : Cache) : Prop := forall t v, m !! t = Some v -> v = gettid t.

Lemma i32_id z : - 2 ^ 31 <= z < 2 ^ 31 -> i32 z = z.
Proof. intros H. unfold i32. rewrite Z.mod_small; lia. Qed.

Lemma cache_empty_ok : cache_ok ∅.
Proof. intros t v. by rewrite lookup_empty. Qed.

(** Every call answers the kernel's id, the first of a thread and the cached
    ones. *)
Lemma tid_ok t m : kernel_ids -> t ∈ threads -> cache_ok m -> exists m', tid t m = (gettid t, m') /\ cache_ok m'.
Proof.
  intros Hk Ht Hm. specialize (Hk t Ht). unfold tid, cacheTid, t_cached_tid. destruct (m !! t) as [v|] eqn:E; cbn [default from_option].
  - pose proof (Hm t v E) as ->. change (id (gettid t)) with (gettid t).
    rewrite (proj2 (Z.eqb_neq _ _)) by lia. rewrite E. by exists m.
  - cbn [Z.eqb]. rewrite lookup_insert_eq. cbn [default from_option]. eexists. split; [f_equal; apply i32_id; lia|].
    intros u v [[<- <-]|[_ H]]%lookup_insert_Some; [apply i32_id; lia|by apply Hm].
Qed.

End Tid.
End current_thread.

(** ** The loop object and its wake-up channel *)
Module loop_object.
Import poller current_thread.
#[local] Notation Cache := (gmap nat Z).

Section Object.
Variable gettid : nat -> Z.

Record LoopObject := mkObject {
  m_threadId : Z;
  m_looping : bool;
  m_poller : EpollPoller;
  m_currentActiveChannel : option nat;
  m_wakeupFd : Z;
  m_wakeupChannel : nat;
}.

(** The process: its threads' variables, the live loops, the descriptors closed
    by destructors, and the critical log lines. *)
Record Process := mkProcess {
  cache : Cache;
  t_loop_in_this_thread : gmap nat nat;
  loops : gmap nat LoopObject;
  closed : list Z;
  fatal : nat;
}.

Definition log_fatal (w : Process) : Process :=
  mkProcess (cache w) (t_loop_in_this_thread w) (loops w) (closed w) (S (fatal w)).

(** [enableReading] on a descriptor: [epoll_ctl] refuses a negative one, which
    the poller only logs. *)
Definition watch (id : nat) (fd : Z) (p : EpollPoller) : res EpollPoller :=
  p' <- enableReading id p ;;
  Ok (if fd <? 0 then mkPoller (channels p') (m_channels p') (kernel p) (m_useEdgeTrigger p') (S (ctl_errors p)) else p').

(** Constructor of loop [l] on thread [t], whose wake-up channel is [ch];
    [fd] is the answer of [eventfd]. *)
Definition construct (t l ch : nat) (fd : Z) (w : Process) : res Process :=
  let '(id, m) := tid gettid t (cache w) in
  let w := mkProcess m (t_loop_in_this_thread w) (loops w) (closed w) (fatal w) in
  let w := match t_loop_in_this_thread w !! t with
           | Some _ => log_fatal w
           | None => mkProcess (cache w) (<[t := l]> (t_loop_in_this_thread w)) (loops w) (closed w) (fatal w)
           end in
  let w := if fd <? 0 then log_fatal w else w in
  p <- watch ch fd (put_channel ch (newChannel fd) (newPoller false)) ;;
  Ok (mkProcess (cache w) (t_loop_in_this_thread w) (<[l := mkObject id false p None fd ch]> (loops w)) (closed w) (fatal w)).

(** [removeChannel]: forgets the channel as the active one. *)
Definition removeChannel_object (ch : nat) (o : LoopObject) : res LoopObject :=
  p <- channel_remove ch (m_poller o) ;;
  Ok (mkObject (m_threadId o) (m_looping o) p
        (if bool_decide (m_currentActiveChannel o = Some ch) then None else m_currentActiveChannel o)
        (m_wakeupFd o) (m_wakeupChannel o)).

Definition disable_object (ch : nat) (o : LoopObject) : res LoopObject :=
  p <- disableAll ch (m_poller o) ;;
  Ok (mkObject (m_threadId o) (m_looping o) p (m_currentActiveChannel o) (m_wakeupFd o) (m_wakeupChannel o)).

(** Destructor on thread [t]: also answers the loop as its members are
    destroyed after the body. *)
Definition destruct_loop (t l : nat) (w : Process) : res (Process * option LoopObject) :=
  match loops w !! l with
  | None => Ok (w, None)
  | Some o =>
    _ <- assert_ (negb (m_looping o)) ;;
    o <- disable_object (m_wakeupChannel o) o ;;
    o <- removeChannel_object (m_wakeupChannel o) o ;;
    let closed' := if 0 <=? m_wakeupFd o then closed w ++ [m_wakeupFd o] else closed w in
    Ok (mkProcess (cache w) (delete t (t_loop_in_this_thread w)) (delete l (loops w)) closed' (fatal w), Some o)
  end.

(** The first and the last lines of [loop]. *)
Definition with_looping (b : bool) (o : LoopObject) : LoopObject :=
  mkObject (m_threadId o) b (m_poller o) (m_currentActiveChannel o) (m_wakeupFd o) (m_wakeupChannel o).
Definition loop_begin (o : LoopObject) : res LoopObject :=
  _ <- assert_ (negb (m_looping o)) ;; Ok (with_looping true o).
Definition loop_end (o : LoopObject) : LoopObject := with_looping false o.

Definition getEventLoopOfCurrentThread (t : nat) (w : Process) : option nat := t_loop_in_this_thread w !! t.

(** The poller of a loop with its wake-up channel only, before and after
    [disableAll]. *)
Definition woken_by (ch : nat) (fd ev : Z) (i : Index) (k : gmap Z Z) : EpollPoller :=
  mkPoller {[ch := mkChannel fd ev 0 i true]} {[fd := ch]} k false 0.

Lemma watch_new ch fd :
  0 <= fd ->
  watch ch fd (put_channel ch (newChannel fd) (newPoller false))
  = Ok (woken_by ch fd kReadEvent kAdded {[fd := kReadEvent]}).
Proof.
  intros Hfd. unfold watch, enableReading, channel_update.
  cbn [put_channel channels newPoller]. rewrite lookup_insert_eq. unfold updateChannel. cbn.
  rewrite (proj2 (Z.ltb_ge _ _)) by lia. unfold update. cbn. rewrite lookup_empty. cbn.
  unfold woken_by. by rewrite insert_insert_eq, !insert_empty.
Qed.

Lemma disableAll_watched ch fd :
  disableAll ch (woken_by ch fd kReadEvent kAdded {[fd := kReadEvent]}) = Ok (woken_by ch fd kNoneEvent kDeleted ∅).
Proof.
  unfold disableAll, channel_update, woken_by. cbn [channels]. rewrite lookup_singleton_eq. unfold updateChannel. cbn.
  rewrite !bool_decide_eq_true_2 by (rewrite ?lookup_singleton_eq; eauto). cbn.
  unfold update, put_channel. cbn. rewrite lookup_singleton_eq. cbn.
  by rewrite insert_insert_eq, insert_singleton_eq, delete_singleton_eq.
Qed.

Lemma remove_disabled ch fd :
  exists p, channel_remove ch (woken_by ch fd kNoneEvent kDeleted ∅) = Ok p
    /\ kernel p = ∅ /\ m_channels p = ∅ /\ ctl_errors p = 0%nat.
Proof.
  unfold channel_remove, woken_by. cbn [channels]. rewrite lookup_singleton_eq. unfold removeChannel. cbn.
  rewrite !bool_decide_eq_true_2 by (rewrite ?lookup_singleton_eq; eauto). cbn.
  eexists. split; [reflexivity|]. cbn. by rewrite delete_singleton_eq.
Qed.

(** A loop that is made and destroyed on a thread without one leaves nothing
    behind: no channel in its poller, no watched descriptor, its own descriptor
    closed once, and the thread without a loop again. *)
Lemma loop_lifetime_clean t l ch fd w :
  0 <= fd -> t_loop_in_this_thread w !! t = None ->
  exists w1, construct t l ch fd w = Ok w1 /\ getEventLoopOfCurrentThread t w1 = Some l /\ fatal w1 = fatal w
    /\ exists w2 o, destruct_loop t l w1 = Ok (w2, Some o)
       /\ kernel (m_poller o) = ∅ /\ m_channels (m_poller o) = ∅ /\ ctl_errors (m_poller o) = 0%nat
       /\ closed w2 = closed w ++ [fd] /\ t_loop_in_this_thread w2 = t_loop_in_this_thread w
       /\ loops w2 = delete l (loops w).
Proof.
  intros Hfd Hn. unfold construct. destruct (tid gettid t (cache w)) as [id m]. cbn [t_loop_in_this_thread]. rewrite Hn.
  rewrite (proj2 (Z.ltb_ge _ _)), watch_new by lia. cbn [res_bind].
  eexists. split; [reflexivity|]. unfold getEventLoopOfCurrentThread. cbn [t_loop_in_this_thread fatal].
  rewrite lookup_insert_eq. split; [done|]. split; [done|].
  unfold destruct_loop. cbn [loops]. rewrite lookup_insert_eq. cbn [m_looping negb assert_ res_bind].
  unfold disable_object. cbn [m_poller m_wakeupChannel]. rewrite disableAll_watched. cbn [res_bind].
  unfold removeChannel_object. cbn [m_poller m_wakeupChannel].
  destruct (remove_disabled ch fd) as (p & -> & Hk & Hm & He). cbn [res_bind m_wakeupFd].
  rewrite (proj2 (Z.leb_le _ _)) by lia. do 2 eexists. split; [reflexivity|]. cbn.
  rewrite delete_insert_id by done. rewrite delete_insert_eq. by splits.
Qed.

(** A loop is not destroyed while it loops: the destructor aborts. *)
Lemma destruct_while_looping t l w o o' :
  loop_begin o = Ok o' -> loops w !! l = Some o' -> destruct_loop t l w = Err AssertionFailed.
Proof.
  unfold loop_begin. destruct (m_looping o); [done|]. intros [= <-] Hl. unfold destruct_loop. by rewrite Hl.
Qed.

(** A second loop on a thread is only reported; when it is destroyed the thread
    no longer knows the first one, which is still there. *)
Lemma second_loop_hides_first t l1 l2 ch1 ch2 fd1 fd2 w :
  0 <= fd1 -> 0 <= fd2 -> l1 <> l2 -> t_loop_in_this_thread w !! t = None ->
  exists w1, construct t l1 ch1 fd1 w = Ok w1 /\
  exists w2, construct t l2 ch2 fd2 w1 = Ok w2
    /\ fatal w2 = S (fatal w) /\ getEventLoopOfCurrentThread t w2 = Some l1 /\
  exists w3 o, destruct_loop t l2 w2 = Ok (w3, Some o)
    /\ getEventLoopOfCurrentThread t w3 = None /\ is_Some (loops w3 !! l1).
Proof.
  intros H1 H2 Hne Hn. unfold construct. destruct (tid gettid t (cache w)) as [id m].
  cbn [t_loop_in_this_thread]. rewrite Hn, (proj2 (Z.ltb_ge fd1 0)), watch_new by lia. cbn [res_bind].
  eexists. split; [reflexivity|]. cbn [cache]. destruct (tid gettid t m) as [id2 m2].
  cbn [t_loop_in_this_thread]. rewrite lookup_insert_eq, (proj2 (Z.ltb_ge fd2 0)), watch_new by lia. cbn [res_bind].
  eexists. split; [reflexivity|]. split; [reflexivity|]. unfold getEventLoopOfCurrentThread. cbn [t_loop_in_this_thread log_fatal].
  rewrite lookup_insert_eq. split; [done|].
  unfold destruct_loop. cbn [loops]. rewrite lookup_insert_eq. cbn [m_looping negb assert_ res_bind].
  unfold disable_object. cbn [m_poller m_wakeupChannel]. rewrite disableAll_watched. cbn [res_bind].
  unfold removeChannel_object. cbn [m_poller m_wakeupChannel].
  destruct (remove_disabled ch2 fd2) as (p & -> & _). cbn [res_bind m_wakeupFd]. do 2 eexists. split; [reflexivity|]. cbn.
  rewrite lookup_delete_eq, lookup_delete_ne, lookup_insert_ne, lookup_insert_eq by done. by eauto.
Qed.

(** When [eventfd] fails the loop is made all the same, and nothing watches its
    wake-up descriptor: other threads cannot wake it. *)
Lemma failed_eventfd_cannot_wake t l ch w :
  exists w1 o, construct t l ch (-1) w = Ok w1 /\ loops w1 !! l = Some o
    /\ kernel (m_poller o) = ∅ /\ ctl_errors (m_poller o) = 1%nat.
Proof.
  unfold construct. destruct (tid gettid t (cache w)) as [id m].
  unfold watch, enableReading, channel_update. cbn [put_channel channels newPoller]. rewrite lookup_insert_eq.
  unfold updateChannel. cbn [res_bind set_added set_events newChannel m_index m_fd m_channels put_channel newPoller].
  rewrite bool_decide_eq_true_2 by done. cbn [assert_ res_bind].
  do 2 eexists. split; [reflexivity|]. cbn [loops]. rewrite lookup_insert_eq. split; [reflexivity|]. done.
Qed.

End Object.
End loop_object.

(** ** Threads that call the loop *)
Module loop_threads.
Import current_thread.

(** What code does to a loop; a functor is the list of what it does. *)
Inductive call :=
| RunInLoop (cb : list call)
| QueueInLoop (cb : list call)
| Quit
| UpdateChannel (id : nat) (events : Z)
| RemoveChannel (id : nat).

Notation Functor := (list call).

Record World := mkWorld {
  cache : gmap nat Z;
  m_threadId : Z;
  base : EventLoop (Functor := Functor);
  m_poller : poller.EpollPoller;
  m_currentActiveChannel : option nat;
  todo : gmap nat Functor;       (* what each thread is about to call *)
  waking : gset nat;             (* threads between their change and their write *)
  aborts : list nat;             (* threads [abortNotInLoopThread] was called on *)
  done_by : list (nat * call);   (* channel operations and functors, with the thread that ran them *)
}.

Definition with_cache m w := mkWorld m (m_threadId w) (base w) (m_poller w) (m_currentActiveChannel w) (todo w) (waking w) (aborts w) (done_by w).
Definition with_base b w := mkWorld (cache w) (m_threadId w) b (m_poller w) (m_currentActiveChannel w) (todo w) (waking w) (aborts w) (done_by w).
Definition with_poller p w := mkWorld (cache w) (m_threadId w) (base w) p (m_currentActiveChannel w) (todo w) (waking w) (aborts w) (done_by w).
Definition with_current c w := mkWorld (cache w) (m_threadId w) (base w) (m_poller w) c (todo w) (waking w) (aborts w) (done_by w).
Definition with_todo t cs w := mkWorld (cache w) (m_threadId w) (base w) (m_poller w) (m_currentActiveChannel w) (<[t := cs]> (todo w)) (waking w) (aborts w) (done_by w).
Definition with_waking s w := mkWorld (cache w) (m_threadId w) (base w) (m_poller w) (m_currentActiveChannel w) (todo w) s (aborts w) (done_by w).
Definition with_done t c w := mkWorld (cache w) (m_threadId w) (base w) (m_poller w) (m_currentActiveChannel w) (todo w) (waking w) (aborts w) (done_by w ++ [(t, c)]).

Definition calls (t : nat) (w : World) : Functor := default [] (todo w !! t).

(** [abortNotInLoopThread] writes a log line and returns. *)
Definition abortNotInLoopThread (t : nat) (w : World) : World :=
  mkWorld (cache w) (m_threadId w) (base w) (m_poller w) (m_currentActiveChannel w) (todo w) (waking w) (aborts w ++ [t]) (done_by w).

Section Threads.
Variable gettid : nat -> Z.
Variable threads : gset nat.

Definition isInLoopThread (t : nat) (w : World) : bool * World :=
  let '(id, m) := tid gettid t (cache w) in (m_threadId w =? id, with_cache m w).

Definition assertInLoopThread (t : nat) (w : World) : World :=
  let '(here, w) := isInLoopThread t w in if here then w else abortNotInLoopThread t w.

(** The push and, on the loop's thread, the wake-up; another thread writes to
    the wake-up descriptor in its next step. *)
Definition queueInLoop (t : nat) (cb : Functor) (w : World) : World :=
  let '(here, w) := isInLoopThread t w in
  let w := with_base (event_loop.queueInLoop here cb (base w)) w in
  if here then w else with_waking ({[t]} ∪ waking w) w.

Definition quit (t : nat) (w : World) : World :=
  let '(here, w) := isInLoopThread t w in
  let w := with_base (event_loop.quit here (base w)) w in
  if here then w else with_waking ({[t]} ∪ waking w) w.

(** [cb()] at once: its calls come before the caller's next one. *)
Definition runInLoop (t : nat) (cb : Functor) (w : World) : World :=
  let '(here, w) := isInLoopThread t w in
  if here then with_done t (RunInLoop cb) (with_todo t (cb ++ calls t w) w) else queueInLoop t cb w.

Definition updateChannel (t id : nat) (events : Z) (w : World) : res World :=
  let w := assertInLoopThread t w in
  p <- poller.channel_update id (fun _ => events) (m_poller w) ;;
  Ok (with_done t (UpdateChannel id events) (with_poller p w)).

Definition removeChannel (t id : nat) (w : World) : res World :=
  let w := assertInLoopThread t w in
  let w := if bool_decide (m_currentActiveChannel w = Some id) then with_current None w else w in
  p <- poller.channel_remove id (m_poller w) ;;
  Ok (with_done t (RemoveChannel id) (with_poller p w)).

Definition exec (t : nat) (c : call) (w : World) : res World :=
  match c with
  | RunInLoop cb => Ok (runInLoop t cb w)
  | QueueInLoop cb => Ok (queueInLoop t cb w)
  | Quit => Ok (quit t w)
  | UpdateChannel id events => updateChannel t id events w
  | RemoveChannel id => removeChannel t id w
  end.

(** [loop()] up to its while, on thread [t]. *)
Definition enter_loop (t : nat) (w : World) : World :=
  let w := assertInLoopThread t w in with_base (event_loop.enter (base w)) w.

(** What the header allows on any thread. *)
Definition any_thread (c : call) : bool :=
  match c with RunInLoop _ | QueueInLoop _ | Quit => true | _ => false end.

(** The loop's own moves between the calls it makes. *)
Inductive loop_move : EventLoop (Functor := Functor) -> EventLoop -> Prop :=
| move_check b : at_ b = PCheck -> loop_move b (event_loop.check b)
| move_poll b : at_ b = PPoll -> loop_move b (event_loop.poll b)
| move_read b : at_ b = PHandle true -> loop_move b (with_phase (PHandle false) (event_loop.handleRead b))
| move_swap b : at_ b = PHandle false -> loop_move b (event_loop.swap b)
| move_round b : at_ b = PRun [] -> loop_move b (event_loop.finish_round b).

(** [me] is the thread the loop was made on.  A failed assertion ends the
    process: there is no step. *)
Inductive step (me : nat) : World -> World -> Prop :=
| step_enter w : at_ (base w) = PInit -> calls me w = [] -> step me w (enter_loop me w)
| step_move w b : calls me w = [] -> loop_move (base w) b -> step me w (with_base b w)
| step_handler w wk ch cb : at_ (base w) = PHandle wk -> calls me w = [] ->
    step me w (with_current (Some ch) (with_todo me cb w))
| step_run w f fs : at_ (base w) = PRun (f :: fs) -> calls me w = [] ->
    step me w (with_done me (RunInLoop f) (with_todo me f (with_base (event_loop.run f fs (base w)) w)))
| step_other w t cb : t ∈ threads -> t <> me -> calls t w = [] -> forallb any_thread cb = true -> step me w (with_todo t cb w)
| step_call w t c cs w' : calls t w = c :: cs -> t ∉ waking w -> exec t c (with_todo t cs w) = Ok w' -> step me w w'
| step_write w t : t ∈ waking w ->
    step me w (with_base (event_loop.finish_call (base w)) (with_waking (waking w ∖ {[t]}) w)).

(** A loop made on thread [me], with the poller its owner has set up. *)
Definition newWorld (me : nat) (p : poller.EpollPoller) : World :=
  let '(id, m) := tid gettid me ∅ in mkWorld m id event_loop.newLoop p None ∅ ∅ [] [].

Record confined (me : nat) (w : World) : Prop := {
  cf_cache : cache_ok gettid (cache w);
  cf_id : m_threadId w = gettid me;
  cf_aborts : aborts w = [];
  cf_done : Forall (fun e => e.1 = me) (done_by w);
  cf_others : forall t, t <> me -> forallb any_thread (calls t w) = true;
  cf_threads : forall t, calls t w <> [] -> t ∈ threads;
  cf_me : me ∉ waking w;
  cf_phase : calls me w <> [] -> (exists wk, at_ (base w) = PHandle wk) \/ (exists fs, at_ (base w) = PRun fs);
  cf_waking : writers (base w) = size (waking w);
  cf_loop : rtc event_loop.step event_loop.newLoop (base w);
}.

Section Confined.
Variable me : nat.
Hypothesis ids : kernel_ids gettid threads.
Hypothesis distinct : forall t u, t ∈ threads -> u ∈ threads -> gettid t = gettid u -> t = u.
Hypothesis mine : me ∈ threads.

Definition in_calls (w : World) : Prop :=
  (exists wk, at_ (base w) = PHandle wk) \/ (exists fs, at_ (base w) = PRun fs).

(** The comparison of the two numbers tells the loop's thread. *)
Lemma isInLoopThread_ok t w :
  confined me w -> t ∈ threads -> exists m, isInLoopThread t w = (bool_decide (t = me), with_cache m w) /\ confined me (with_cache m w).
Proof.
  intros [H1 H2 H3 H4 H5 HT H6 H7 H8 H9] Hin. unfold isInLoopThread.
  destruct (tid_ok gettid threads t (cache w) ids Hin H1) as (m & -> & Hm). exists m. split; [|by split].
  f_equal. rewrite H2. case_bool_decide as Ht; [subst t; apply Z.eqb_refl|]. apply Z.eqb_neq. auto.
Qed.

Lemma calls_with_todo t u cs w : calls u (with_todo t cs w) = if bool_decide (u = t) then cs else calls u w.
Proof.
  unfold calls. cbn [todo with_todo]. case_bool_decide as H; [subst; by rewrite lookup_insert_eq|by rewrite lookup_insert_ne].
Qed.

Lemma confined_todo t cs w :
  confined me w -> (t = me -> cs <> [] -> in_calls w) -> (t <> me -> forallb any_thread cs = true) ->
  (cs <> [] -> t ∈ threads) -> confined me (with_todo t cs w).
Proof.
  intros [H1 H2 H3 H4 H5 HT H6 H7 H8 H9] Hme Hother Hin. split; try done.
  - intros u Hu. rewrite calls_with_todo. case_bool_decide; subst; auto.
  - intros u. rewrite calls_with_todo. case_bool_decide; subst; auto.
  - rewrite calls_with_todo. case_bool_decide as E; [intros Hne; exact (Hme (eq_sym E) Hne)|exact H7].
Qed.

Lemma confined_done c w : confined me w -> confined me (with_done me c w).
Proof. intros [H1 H2 H3 H4 H5 HT H6 H7 H8 H9]. split; try done. cbn. apply Forall_app. by repeat constructor. Qed.

(** A step of the loop below that leaves the counts alone. *)
Lemma confined_base b w :
  confined me w -> event_loop.step (base w) b -> writers b = writers (base w) ->
  (calls me w <> [] -> in_calls (with_base b w)) -> confined me (with_base b w).
Proof.
  intros [H1 H2 H3 H4 H5 HT H6 H7 H8 H9] Hs Hw Hc. split; try done; cbn; [congruence|by eapply rtc_r].
Qed.

(** A change by another thread, which then has to write. *)
Lemma confined_waking t b w :
  confined me w -> t <> me -> t ∉ waking w -> event_loop.step (base w) b -> writers b = S (writers (base w)) ->
  at_ b = at_ (base w) -> confined me (with_waking ({[t]} ∪ waking w) (with_base b w)).
Proof.
  intros [H1 H2 H3 H4 H5 HT H6 H7 H8 H9] Ht Hn Hs Hw Ha. split; try done; cbn.
  - set_solver.
  - unfold in_calls. rewrite Ha. done.
  - rewrite size_union, size_singleton by set_solver. lia.
  - by eapply rtc_r.
Qed.

Lemma queueInLoop_confined t cb w :
  confined me w -> (t = me -> in_calls w) -> t ∈ threads -> t ∉ waking w -> confined me (queueInLoop t cb w).
Proof.
  intros Hw Hc Hin Hn. unfold queueInLoop. destruct (isInLoopThread_ok t w Hw Hin) as (m & -> & Hm).
  case_bool_decide as Ht.
  - specialize (Hc Ht). apply confined_base; [done|by apply step_own_queue| |intros _; unfold in_calls];
      cbn; by destruct (m_callingPendingFunctors _).
  - apply (confined_waking t _ (with_cache m w)); [done..|apply step_queue|done|done].
Qed.

Lemma quit_confined t w :
  confined me w -> (t = me -> in_calls w) -> t ∈ threads -> t ∉ waking w -> confined me (quit t w).
Proof.
  intros Hw Hc Hin Hn. unfold quit. destruct (isInLoopThread_ok t w Hw Hin) as (m & -> & Hm).
  case_bool_decide as Ht.
  - specialize (Hc Ht). by apply confined_base; [|apply step_own_quit| |].
  - apply (confined_waking t _ (with_cache m w)); [done..|apply step_quit|done|done].
Qed.

Lemma runInLoop_confined t cb w :
  confined me w -> (t = me -> in_calls w) -> t ∈ threads -> t ∉ waking w -> confined me (runInLoop t cb w).
Proof.
  intros Hw Hc Hin Hn. unfold runInLoop. destruct (isInLoopThread_ok t w Hw Hin) as (m & -> & Hm).
  case_bool_decide as Ht.
  - subst t. specialize (Hc eq_refl). apply confined_done, confined_todo; [done..|congruence|done].
  - by apply queueInLoop_confined.
Qed.

Lemma assertInLoopThread_ok w : confined me w -> exists m, assertInLoopThread me w = with_cache m w /\ confined me (with_cache m w).
Proof.
  intros Hw. unfold assertInLoopThread. destruct (isInLoopThread_ok me w Hw mine) as (m & -> & Hm).
  rewrite bool_decide_eq_true_2 by done. by exists m.
Qed.

Lemma confined_poller p c w : confined me w -> confined me (with_poller p (with_current c w)).
Proof. intros [H1 H2 H3 H4 H5 HT H6 H7 H8 H9]. by split. Qed.

Lemma updateChannel_confined id ev w w' :
  confined me w -> updateChannel me id ev w = Ok w' -> confined me w'.
Proof.
  intros Hw. unfold updateChannel. destruct (assertInLoopThread_ok w Hw) as (m & -> & Hm).
  destruct (poller.channel_update _ _ _) as [p|]; [|done]. intros [= <-]. apply confined_done.
  apply (confined_poller p (m_currentActiveChannel w) (with_cache m w)). done.
Qed.

Lemma removeChannel_confined id w w' :
  confined me w -> removeChannel me id w = Ok w' -> confined me w'.
Proof.
  intros Hw. unfold removeChannel. destruct (assertInLoopThread_ok w Hw) as (m & -> & Hm).
  destruct (poller.channel_remove _ _) as [p|]; [|done]. intros [= <-]. apply confined_done.
  case_bool_decide; [by apply confined_poller|].
  apply (confined_poller p (m_currentActiveChannel w) (with_cache m w)). done.
Qed.

Lemma exec_confined t c cs w w' :
  confined me w -> calls t w = c :: cs -> t ∉ waking w -> exec t c (with_todo t cs w) = Ok w' -> confined me w'.
Proof.
  intros Hw Hc Hn He.
  assert (Ht : t ∈ threads) by (apply (cf_threads me w Hw); by rewrite Hc).
  assert (Hin : t = me -> in_calls w) by (intros ->; apply (cf_phase me w Hw); by rewrite Hc).
  assert (Hsafe : t <> me -> any_thread c && forallb any_thread cs = true)
    by (intros Hne; pose proof (cf_others me w Hw t Hne) as H; by rewrite Hc in H).
  assert (Hp : confined me (with_todo t cs w)).
  { apply confined_todo; [done|auto| |done]. intros Hne. specialize (Hsafe Hne). b2p. done. }
  assert (Hme : any_thread c = false -> t = me).
  { intros Ha. destruct (decide (t = me)) as [|Hne]; [done|]. specialize (Hsafe Hne). b2p. congruence. }
  destruct c as [cb|cb| |id ev|id]; cbn [exec] in He.
  - injection He as <-. by apply runInLoop_confined.
  - injection He as <-. by apply queueInLoop_confined.
  - injection He as <-. by apply quit_confined.
  - assert (t = me) as -> by (by apply Hme). exact (updateChannel_confined _ _ _ _ Hp He).
  - assert (t = me) as -> by (by apply Hme). exact (removeChannel_confined _ _ _ Hp He).
Qed.

Lemma loop_move_step b b' : loop_move b b' -> event_loop.step b b' /\ writers b' = writers b.
Proof.
  intros [?|?|?|?|?]; (split; [|done]);
    [by apply event_loop.step_check|by apply event_loop.step_poll|by apply step_read|by apply step_swap|by apply step_round].
Qed.

Lemma confined_step w w' : step me w w' -> confined me w -> confined me w'.
Proof.
  intros Hs Hw. destruct Hs as [w Ha Hc|w b Hc Hm|w wk ch cb Ha Hc|w f fs Ha Hc|w t cb Hin Ht Hc Hcb|w t c cs w' Hc Hn He|w t Ht].
  - unfold enter_loop. destruct (assertInLoopThread_ok w Hw) as (m & -> & Hm).
    apply confined_base; [done|by apply event_loop.step_enter|done|]. intros H. by destruct H.
  - destruct (loop_move_step _ _ Hm) as [Hs Hwr]. apply confined_base; [done..|]. intros H. by destruct H.
  - assert (H : confined me (with_todo me cb w)) by (apply confined_todo; [done|intros _ _; left; eauto|done|done]).
    exact (confined_poller (m_poller w) (Some ch) _ H).
  - apply confined_done, confined_todo; [|intros _ _; right; cbn; eauto|done|done].
    apply confined_base; [done|by apply event_loop.step_run|done|]. intros H. by destruct H.
  - by apply confined_todo.
  - exact (exec_confined t c cs w w' Hw Hc Hn He).
  - destruct Hw as [H1 H2 H3 H4 H5 HT H6 H7 H8 H9].
    assert (Hsz : (size (waking w) = S (size (waking w ∖ {[t]})))%nat).
    { rewrite (union_difference_L {[t]} (waking w)) at 1 by set_solver. by rewrite size_union, size_singleton by set_solver. }
    split; try done; cbn; [set_solver|rewrite H8; lia|].
    eapply rtc_r; [exact H9|]. apply event_loop.step_write. lia.
Qed.

Lemma newWorld_confined p : confined me (newWorld me p).
Proof.
  unfold newWorld. destruct (tid_ok gettid threads me ∅ ids mine (cache_empty_ok gettid)) as (m & -> & Hm).
  by split; cbn.
Qed.

(** C21: A loop is confined to its thread.  While other threads call only what the
    header offers them ([runInLoop], [queueInLoop], [quit]) and whatever the
    functors and handlers they pass in turn call, in every interleaving: no
    thread check fails; every channel operation and every functor is executed
    by the thread the loop was made on, also when [runInLoop] is nested; the
    functors queued run in order and once; and when the loop waits in [poll]
    with a functor queued or asked to quit, its wake-up descriptor is readable
    or one of the threads recorded as waking is about to write to it. *)
Theorem loop_confined_to_thread p w :
  rtc (step me) (newWorld me p) w ->
  aborts w = [] /\ Forall (fun e => e.1 = me) (done_by w)
  /\ queued (base w) = ran (base w) ++ event_loop.todo (base w) ++ m_pendingFunctors (base w)
  /\ (at_ (base w) = PPoll -> m_pendingFunctors (base w) <> [] \/ m_quit (base w) = true ->
      0 < m_wakeupFd (base w) \/ waking w <> ∅).
Proof.
  intros Hr. assert (Hw : confined me w).
  { remember (newWorld me p) as w0 eqn:E. assert (H0 : confined me w0) by (subst w0; apply newWorld_confined). clear E.
    induction Hr as [|a b c Hab _ IH]; [done|]. by apply IH, (confined_step a). }
  destruct (reach_loop_inv (base w) (cf_loop me w Hw)) as [Ho Hf Hc Hwk Hq].
  split; [apply Hw|]. split; [apply Hw|]. split; [exact Ho|]. intros Ha Hp.
  assert (Hwo : woken (base w)) by (rewrite Ha in Hwk; destruct Hp; auto).
  destruct Hwo as [H|H]; [by left|right]. rewrite (cf_waking me w Hw) in H. intros E. rewrite E, size_empty in H. lia.
Qed.

End Confined.

(** A thread check that fails stops nothing: a channel is changed from the wrong
    thread, and the only trace is a log line. *)
Lemma wrong_thread_only_logged me t id fd :
  kernel_ids gettid threads -> me ∈ threads -> t ∈ threads -> gettid t <> gettid me ->
  let p := poller.put_channel id (poller.newChannel fd) (poller.newPoller false) in
  exists w', exec t (UpdateChannel id poller.kReadEvent) (newWorld me p) = Ok w'
    /\ aborts w' = [t] /\ done_by w' = [(t, UpdateChannel id poller.kReadEvent)]
    /\ is_Some (poller.kernel (m_poller w') !! fd).
Proof.
  intros Hk Hme Ht Hne p. unfold newWorld. destruct (tid_ok gettid threads me ∅ Hk Hme (cache_empty_ok gettid)) as (m & -> & Hm).
  cbn [exec]. unfold updateChannel, assertInLoopThread, isInLoopThread. cbn [cache m_threadId].
  destruct (tid_ok gettid threads t m Hk Ht Hm) as (m' & -> & _). rewrite (proj2 (Z.eqb_neq _ _)) by congruence.
  subst p. cbn [m_poller abortNotInLoopThread with_cache]. unfold poller.channel_update.
  cbn [poller.put_channel poller.channels poller.newPoller]. rewrite lookup_insert_eq. unfold poller.updateChannel. cbn.
  unfold poller.update. cbn. rewrite !lookup_empty. cbn.
  eexists. split; [reflexivity|]. split; [done|]. split; [done|]. cbn. rewrite lookup_insert_eq. by eauto.
Qed.

End Threads.
(** Thread 1 owns the loop; thread 2 passes it a functor that watches channel 5
    inside a nested [runInLoop], and the loop runs it. *)
Definition ex_gettid (t : nat) : Z := 100 + Z.of_nat t.
Definition ex_threads : gset nat := {[1%nat; 2%nat]}.
Definition ex_poller : poller.EpollPoller := poller.put_channel 5 (poller.newChannel 9) (poller.newPoller false).
Definition ex_functor : list call := [RunInLoop [UpdateChannel 5 poller.kReadEvent]].

Lemma ex_kernel_ids : kernel_ids ex_gettid ex_threads.
Proof.
  intros t Ht. unfold ex_threads in Ht. unfold ex_gettid.
  apply elem_of_union in Ht as [Ht%elem_of_singleton|Ht%elem_of_singleton]; subst t; lia.
Qed.

Definition get {A} (d : A) (r : res A) : A := match r with Ok a => a | Err _ => d end.

Definition w0 := newWorld ex_gettid 1 ex_poller.
Definition w1 := enter_loop ex_gettid 1 w0.
Definition w2 := with_base (event_loop.check (base w1)) w1.
Definition w3 := with_todo 2 [RunInLoop ex_functor] w2.
Definition w4 := get w3 (exec ex_gettid 2 (RunInLoop ex_functor) (with_todo 2 [] w3)).
Definition w5 := with_base (event_loop.finish_call (base w4)) (with_waking (waking w4 ∖ {[2%nat]}) w4).
Definition w6 := with_base (event_loop.poll (base w5)) w5.
Definition w7 := with_base (with_phase (PHandle false) (event_loop.handleRead (base w6))) w6.
Definition w8 := with_base (event_loop.swap (base w7)) w7.
Definition w9 := with_done 1 (RunInLoop ex_functor) (with_todo 1 ex_functor (with_base (event_loop.run ex_functor [] (base w8)) w8)).
Definition w10 := get w9 (exec ex_gettid 1 (RunInLoop [UpdateChannel 5 poller.kReadEvent]) (with_todo 1 [] w9)).
Definition w11 := get w10 (exec ex_gettid 1 (UpdateChannel 5 poller.kReadEvent) (with_todo 1 [] w10)).

Lemma ex_run_steps : rtc (step ex_gettid ex_threads 1) w0 w11.
Proof.
  eapply rtc_l; [apply (step_enter _ _ _ w0); vm_compute; reflexivity|].
  eapply rtc_l; [apply (step_move _ _ _ w1); [vm_compute; reflexivity|apply move_check; vm_compute; reflexivity]|].
  eapply rtc_l; [apply (step_other _ _ _ w2 2 [RunInLoop ex_functor]);
    [by apply elem_of_union_r, elem_of_singleton|done|vm_compute; reflexivity|vm_compute; reflexivity]|].
  eapply rtc_l; [apply (step_call _ _ _ w3 2 (RunInLoop ex_functor) [] w4);
    [vm_compute; reflexivity|vm_compute; discriminate|vm_compute; reflexivity]|].
  eapply rtc_l; [apply (step_write _ _ _ w4 2); apply (bool_decide_unpack _); vm_compute; exact I|].
  eapply rtc_l; [apply (step_move _ _ _ w5); [vm_compute; reflexivity|apply move_poll; vm_compute; reflexivity]|].
  eapply rtc_l; [apply (step_move _ _ _ w6); [vm_compute; reflexivity|apply move_read; vm_compute; reflexivity]|].
  eapply rtc_l; [apply (step_move _ _ _ w7); [vm_compute; reflexivity|apply move_swap; vm_compute; reflexivity]|].
  eapply rtc_l; [apply (step_run _ _ _ w8 ex_functor []); vm_compute; reflexivity|].
  eapply rtc_l; [apply (step_call _ _ _ w9 1 (RunInLoop [UpdateChannel 5 poller.kReadEvent]) [] w10);
    [vm_compute; reflexivity|apply (bool_decide_unpack _); vm_compute; exact I|vm_compute; reflexivity]|].
  apply rtc_once. apply (step_call _ _ _ w10 1 (UpdateChannel 5 poller.kReadEvent) [] w11);
    [vm_compute; reflexivity|apply (bool_decide_unpack _); vm_compute; exact I|vm_compute; reflexivity].
Qed.

Lemma loop_confined_to_thread_witness :
  done_by w11 = [(1%nat, RunInLoop ex_functor); (1%nat, RunInLoop [UpdateChannel 5 poller.kReadEvent]);
                 (1%nat, UpdateChannel 5 poller.kReadEvent)]
  /\ aborts w11 = [] /\ Forall (fun e => e.1 = 1%nat) (done_by w11).
Proof.
  split; [vm_compute; reflexivity|].
  destruct (loop_confined_to_thread ex_gettid ex_threads 1) with (p := ex_poller) (w := w11) as (H1 & H2 & _).
  - exact ex_kernel_ids.
  - intros t u _ _. unfold ex_gettid. lia.
  - by apply elem_of_union_l, elem_of_singleton.
  - exact ex_run_steps.
  - split; [exact H1|exact H2].
Defined.

End loop_threads.
