(* ===== verification/BasicServer.v ===== *)
(** * BasicServer: the smaller server (src/server.cpp)

    It handles logins and heartbeats on the loop's thread, without the thread
    pool and the message service.  Its callbacks are composed from the same
    services as the full server's. *)
From S2P Require Import Prelude Protocol Buffer Codec Serializer Infra Overload Heartbeat Auth.
From S2P Require Import ThreadPool Address Config.
Import protocol buffer codec serializer heartbeat config.

Module basic_server.

Section Server.
Context `{JsonLib} `{infra.Double} {R P : Type} `{auth.Redis R} `{auth.SessionRepository P}.

Inductive output := Sent (conn : ConnId) (data : bytes) | ForceClose (conn : ConnId) | Health (e : heartbeat.event).

Record BasicServer := mkServer {
  b_auth : auth.World (R := R) (P := P);
  b_heartbeat : HeartbeatService;
  b_overload : overload.OverloadProtectService;
  b_out : list output;
}.

(** [redis_build]: whether USE_REDIS is defined. *)
Variable redis_build : bool.

Definition emit (os : list output) (s : BasicServer) : BasicServer :=
  mkServer (b_auth s) (b_heartbeat s) (b_overload s) (b_out s ++ os).
Definition on_heartbeat (r : HeartbeatService * list heartbeat.event) (s : BasicServer) : BasicServer :=
  mkServer (b_auth s) r.1 (b_overload s) (b_out s ++ map Health r.2).
Definition with_auth w (s : BasicServer) : BasicServer := mkServer w (b_heartbeat s) (b_overload s) (b_out s).
Definition with_overload o (s : BasicServer) : BasicServer := mkServer (b_auth s) (b_heartbeat s) o (b_out s).

(** The payload packed into a new buffer and sent; [None] when the message
    cannot be serialised or packed (an exception leaves the callback). *)
Definition reply (conn : Conn) (command seqId : Z) (payload : option string) (s : BasicServer) : option BasicServer :=
  data ← payload;
  match packCommand command seqId (chars data) newBuffer with
  | Ok b => Some (emit [Sent (conn_obj conn) (content b)] s)
  | Err _ => None
  end.

Definition login_response (success : bool) (sessionId errorMsg : string) : LoginResp :=
  mkLoginResp (if success then 0 else 1) (if success then "success" else errorMsg) sessionId.

(** What the login callback does with the answer of the auth service. *)
Definition login_callback (conn : Conn) (seqId : Z) (userId : string) (answer : bool * string * string)
    (s : BasicServer) : option BasicServer :=
  let '(success, sessionId, errorMsg) := answer in
  s ← reply conn CmdLoginResp seqId (Serialize_LoginResp (login_response success sessionId errorMsg)) s;
  Some (if redis_build && success
        then on_heartbeat (registerUserId (connIdOf conn) userId (b_heartbeat s)) s else s).

(** The result of [Deserialize] is not looked at; [None] is undefined
    behaviour or an exception. *)
Definition onPacket (conn : Conn) (command seqId : Z) (message : string) (rand t1 t2 : Z) (s : BasicServer)
    : option BasicServer :=
  if command =? CmdLoginReq then
    match Deserialize_LoginReq message (mkLoginReq "" "" "") with
    | Undefined => None
    | Done _ req =>
      let '(answer, w) := auth.login conn (lreq_userId req) (lreq_token req) (lreq_deviceId req) rand t1 t2 (b_auth s) in
      a ← answer; login_callback conn seqId (lreq_userId req) a (with_auth w s)
    end
  else if command =? CmdHeartbeatReq then
    let s := on_heartbeat (onHeartbeat conn t1 t2 (b_heartbeat s)) s in
    reply conn CmdHeartbeatResp seqId (Serialize_HeartbeatResp (mkHeartbeatResp t2)) s
  else Some s.

Definition onConnection (conn : Conn) (connected : bool) (t1 t2 : Z) (s : BasicServer) : BasicServer :=
  if connected then
    if negb (overload.canAcceptConnection (b_overload s)) then emit [ForceClose (conn_obj conn)] s
    else
      let s := with_overload (overload.onConnectionAccepted (b_overload s)) s in
      on_heartbeat (heartbeat.onConnection conn true t1 t2 (b_heartbeat s)) s
  else
    let s := with_overload (overload.onConnectionClosed (b_overload s)) s in
    let s := on_heartbeat (heartbeat.onConnection conn false t1 t2 (b_heartbeat s)) s in
    with_auth (auth.logout conn (b_auth s)) s.

(** The services as [main] builds them, the heartbeat service with its default
    limits and the kick callback; [redis] is the session expiry when a client is
    connected. *)
Definition boot (heartbeatTimeout heartbeatInterval maxConnections maxQps now : Z) (redis : option Z) (r : R) (p : P)
    : BasicServer :=
  let connected := bool_decide (is_Some redis) in
  let hb := mkHeartbeat heartbeatTimeout heartbeatInterval ∅ ∅ ∅ ∅ connected "single-node" 15 10 300 30 false true in
  let a := auth.newAuth connected false in
  mkServer (auth.mkWorld (match redis with Some expire => auth.setSessionExpire expire a | None => a end) r p)
    (heartbeat.start hb).2 (overload.newOverload (u64 maxConnections) (u64 maxQps) now) [].

(** [connect] of the Redis client, in a build with USE_REDIS. *)
Definition boot_redis (connect : string -> Z -> Z -> bool * R) (none : R) (c : Config) : option Z * R :=
  if redis_build && getBool "redis" "enabled" false c then
    let '(ok, r) := connect (getString "redis" "host" "127.0.0.1" c) (getInt "redis" "port" 6379 c)
                      (getInt "redis" "timeout_ms" 2000 c) in
    if ok then (Some (getInt "redis" "session_expire" 86400 c), r) else (None, none)
  else (None, none).

(** How [main] begins: no configuration file (return -1), an exception of the
    thread pool (a negative number of threads is a huge [size_t]), or the loop
    with the listening address, the pool and the services. *)
Inductive launch := NoConfig | Terminated (e : err) | Running (addr : address.InetAddress) (p : pool.ThreadPool) (s : BasicServer).

Definition main (file : option string) (connect : string -> Z -> Z -> bool * R) (none : R) (table : P) (now : Z) : launch :=
  match load file newConfig with
  | (false, _) => NoConfig
  | (true, c) =>
    let workerThreads := getInt "server" "worker_threads" 4 c in
    if workerThreads <? 0 then Terminated LengthError
    else
      let '(redis, r) := boot_redis connect none c in
      Running (address.listenOn (getInt "server" "port" 8888 c))
        (pool.start (pool.newPool (Z.to_nat workerThreads) 1 0))
        (boot (getInt "heartbeat" "timeout" 30 c) (getInt "heartbeat" "interval" 10 c)
           (getInt "overload" "max_connections" 10000 c) (getInt "overload" "max_qps" 100000 c) now redis r table)
  end.

Inductive input :=
| IPacket (conn : Conn) (command seqId : Z) (message : string) (rand t1 t2 : Z)
| IConnection (conn : Conn) (connected : bool) (t1 t2 : Z)
| ICheck (now : Z).

(** An exception that leaves a callback ends the program. *)
Definition basic_step (i : input) (s : BasicServer) : option BasicServer :=
  match i with
  | IPacket c cmd q m rand t1 t2 => onPacket c cmd q m rand t1 t2 s
  | IConnection c up t1 t2 => Some (onConnection c up t1 t2 s)
  | ICheck now => Some (on_heartbeat (checkHeartbeat now (b_heartbeat s)) s)
  end.

Fixpoint basic_run (ins : list input) (s : BasicServer) : option BasicServer :=
  match ins with [] => Some s | i :: ins => s ← basic_step i s; basic_run ins s end.

(** ** Nobody is ever authenticated for the heartbeat service *)
Definition anonymous (h : HeartbeatService) : Prop :=
  m_authTimeoutSeconds h = 10
  /\ forall c x, m_connectionHealth h !! c = Some x -> authenticated x = false.

Lemma anonymous_heartbeat conn t1 t2 h : anonymous h -> anonymous (onHeartbeat conn t1 t2 h).1.
Proof.
  intros [Ht Ha]. unfold onHeartbeat. cbn. split; [done|]. intros c x. cbn.
  destruct (m_connectionHealth h !! connIdOf conn) as [y|] eqn:E; [|apply Ha].
  intros [[<- <-]|[_ Hx]]%lookup_insert_Some; [|by eapply Ha].
  rewrite (Ha _ _ E). cbn. done.
Qed.

Lemma anonymous_connection conn up t1 t2 h : anonymous h -> anonymous (heartbeat.onConnection conn up t1 t2 h).1.
Proof.
  intros [Ht Ha]. unfold heartbeat.onConnection. destruct up; cbn; (split; [done|]); intros c x; cbn.
  - intros [[<- <-]|[_ Hx]]%lookup_insert_Some; [done|by eapply Ha].
  - intros [_ Hx]%lookup_delete_Some. by eapply Ha.
Qed.

Lemma anonymous_check now h : anonymous h -> anonymous (checkHeartbeat now h).1.
Proof.
  intros Hh. unfold checkHeartbeat. cbn. generalize (to_kick h now). intros l. revert h Hh.
  induction l as [|k l IH]; intros h [Ht Ha]; [done|]. apply IH. split; [done|]. intros c x. cbn.
  intros [_ Hx]%lookup_delete_Some. by eapply Ha.
Qed.

Lemma reply_keeps conn cmd q p s s' :
  reply conn cmd q p s = Some s' -> b_heartbeat s' = b_heartbeat s.
Proof.
  unfold reply. destruct p; cbn; [|done]. destruct (packCommand _ _ _ _); [|done]. by intros [= <-].
Qed.

Lemma basic_anonymous s i s' :
  anonymous (b_heartbeat s) -> basic_step i s = Some s' -> anonymous (b_heartbeat s').
Proof.
  intros Ha. destruct i as [conn cmd q m rand t1 t2|conn up t1 t2|now]; cbn [basic_step]; intros E.
  - unfold onPacket in E.
    destruct (cmd =? CmdLoginReq); [|destruct (cmd =? CmdHeartbeatReq)].
    + destruct (Deserialize_LoginReq _ _) as [ok req|]; [|done].
      destruct (auth.login _ _ _ _ _ _ _ _) as [[[[ok' sid] e]|] w]; [|done]. cbn in E.
      destruct (reply _ _ _ _ _) as [s1|] eqn:Er; [|done]. apply reply_keeps in Er. cbn in E, Er.
      assert (A1 : anonymous (b_heartbeat s1)) by by rewrite Er.
      destruct (redis_build && ok'); injection E as <-; [|done]. exact A1.
    + apply reply_keeps in E. rewrite E. by apply anonymous_heartbeat.
    + by injection E as <-.
  - injection E as <-. unfold onConnection. destruct up; [case_if; [done|]|]; by apply anonymous_connection.
  - injection E as <-. by apply anonymous_check.
Qed.

(** Whatever the clients do, a connection older than the authentication
    time-out is kicked, logged in or not. *)
Lemma basic_kicks_everyone file connect none table t0 addr q s0 ins now connId conn h s :
  main file connect none table t0 = Running addr q s0 -> basic_run ins s0 = Some s ->
  m_connections (b_heartbeat s) !! connId = Some conn ->
  m_connectionHealth (b_heartbeat s) !! connId = Some h ->
  10000 < now - createdAtMs h ->
  mkKicked connId conn (default "" (m_connToUser (b_heartbeat s) !! connId)) "auth timeout"
    ∈ to_kick (b_heartbeat s) now.
Proof.
  intros Hm Hrun Hc Hh Ht.
  assert (A0 : anonymous (b_heartbeat s0)).
  { unfold main in Hm. destruct (load file newConfig) as [[] c]; [|done]. destruct (_ <? 0); [done|].
    destruct (boot_redis connect none c) as [redis r]. injection Hm as _ _ <-.
    split; [done|]. intros k x. cbn. by rewrite lookup_empty. }
  assert (A : anonymous (b_heartbeat s)).
  { clear Hm. revert s0 Hrun A0. induction ins as [|i ins IH]; intros s0 E A; cbn in E; [by injection E as <-|].
    destruct (basic_step i s0) as [s1|] eqn:E1; [|done]. eapply IH; [exact E|]. by eapply basic_anonymous. }
  destruct A as [Ha Hn]. apply list_elem_of_omap. exists (connId, conn).
  split; [by apply elem_of_map_to_list|]. rewrite Hh. unfold kick_reason. rewrite (Hn _ _ Hh), Ha. cbn [negb andb].
  rewrite (proj2 (Z.ltb_lt (10 * 1000) (now - createdAtMs h))) by lia. done.
Qed.

End Server.

End basic_server.
