(* ===== verification/Wiring.v ===== *)
(** * Wiring: the calls main wires the services with
      (the setters of src/service/authService.cpp, heartbeatService.cpp,
       routingService.cpp, messageService.h and overloadProtectService.h, the
       order src/server_full.cpp calls them in, SignalHandler, and the end of
       main in src/server.cpp)

    Startup.v builds the services as they are once main has set them up.  Here
    are the constructors and the setters one by one, and that the calls of main
    in their order give those services. *)
From S2P Require Import Prelude Protocol MessageStore Serializer MessageService Infra Overload Heartbeat Auth.
From S2P Require Import Poller ThreadPool Server Config Startup EventLoop LoopThreads StopOrder.
Import protocol storage serializer server config startup.

Module wiring.

(** A [shared_ptr] to a Redis client: null, or a client that is connected or
    not when it is passed. *)
Definition usable {R} (isConnected : R -> bool) (client : option R) : bool :=
  match client with Some r => isConnected r | None => false end.

(** ** AuthService *)
Section AuthSetters.
Context {R : Type} (isConnected : R -> bool).

Definition auth_setRedisClient (client : option R) (s : auth.AuthService) : auth.AuthService :=
  auth.mkAuth (auth.heap s) (auth.next_ptr s) (auth.m_connToUser s) (auth.m_userToContext s) (auth.m_nodeId s)
    (auth.m_sessionExpire s) (usable isConnected client) (auth.m_hasSessionRepository s).

Definition auth_setSessionRepository (has : bool) (s : auth.AuthService) : auth.AuthService :=
  auth.mkAuth (auth.heap s) (auth.next_ptr s) (auth.m_connToUser s) (auth.m_userToContext s) (auth.m_nodeId s)
    (auth.m_sessionExpire s) (auth.m_useRedis s) has.

(** ** HeartbeatService *)
Definition heartbeat_setRedisClient (client : option R) (s : heartbeat.HeartbeatService) : heartbeat.HeartbeatService :=
  heartbeat.mkHeartbeat (heartbeat.m_timeoutSeconds s) (heartbeat.m_checkIntervalSeconds s)
    (heartbeat.m_lastHeartbeatTime s) (heartbeat.m_connections s) (heartbeat.m_connToUser s)
    (heartbeat.m_connectionHealth s) (usable isConnected client) (heartbeat.m_nodeId s)
    (heartbeat.m_nodeAliveTtlSeconds s) (heartbeat.m_authTimeoutSeconds s) (heartbeat.m_idleTimeoutSeconds s)
    (heartbeat.m_slowConsumerKickSeconds s) (heartbeat.m_running s) (heartbeat.m_kickCallback s).

Definition heartbeat_setKickCallback (s : heartbeat.HeartbeatService) : heartbeat.HeartbeatService :=
  heartbeat.mkHeartbeat (heartbeat.m_timeoutSeconds s) (heartbeat.m_checkIntervalSeconds s)
    (heartbeat.m_lastHeartbeatTime s) (heartbeat.m_connections s) (heartbeat.m_connToUser s)
    (heartbeat.m_connectionHealth s) (heartbeat.m_useRedis s) (heartbeat.m_nodeId s)
    (heartbeat.m_nodeAliveTtlSeconds s) (heartbeat.m_authTimeoutSeconds s) (heartbeat.m_idleTimeoutSeconds s)
    (heartbeat.m_slowConsumerKickSeconds s) (heartbeat.m_running s) true.

(** ** RoutingService *)
Definition newRouting : auth.RoutingService (R := R) := auth.mkRouting None "single-node" 30 ∅.
Definition routing_setRedisClient (client : option R) (s : auth.RoutingService (R := R)) : auth.RoutingService :=
  auth.mkRouting client (auth.r_nodeId s) (auth.m_routeTtlSeconds s) (auth.m_localRoutes s).
Definition routing_setNodeId (nodeId : string) (s : auth.RoutingService (R := R)) : auth.RoutingService :=
  auth.mkRouting (auth.m_redisClient s) nodeId (auth.m_routeTtlSeconds s) (auth.m_localRoutes s).

End AuthSetters.

(** ** OverloadProtectService *)
Section OverloadSetters.
Context `{infra.Double}.

Definition with_limits (c q : Z) (s : overload.OverloadProtectService) : overload.OverloadProtectService :=
  overload.mkOverload c q (overload.m_currentConnections s) (overload.m_messageCount s) (overload.m_lastResetTime s)
    (overload.m_rateLimitEnabled s) (overload.m_ipConnectRatePerSecond s) (overload.m_userSendRatePerSecond s)
    (overload.m_loginLimiter s) (overload.m_p2pLimiter s) (overload.m_broadcastLimiter s) (overload.m_ipLimiters s)
    (overload.m_userLimiters s).
Definition setMaxConnections (max : Z) (s : overload.OverloadProtectService) := with_limits max (overload.m_maxQps s) s.
Definition setMaxQps (max : Z) (s : overload.OverloadProtectService) := with_limits (overload.m_maxConnections s) max s.

(** A lower limit takes effect at the next connection: those that are open stay
    and no other is admitted until enough of them have closed. *)
Lemma lowered_limit_admits_none max s :
  max <= overload.m_currentConnections s -> overload.canAcceptConnection (setMaxConnections max s) = false.
Proof. intros Hm. unfold overload.canAcceptConnection. cbn. apply Z.ltb_ge. lia. Qed.

End OverloadSetters.

(** ** MessageService *)
Section MessageSetters.
Context {St : Type}.
Notation MessageService := (message.MessageService (St := St)).

Definition with_wiring (repo : bool) (p2p : option (P2PMsgNotify -> option string))
    (broadcast : option (BroadcastMsgNotify -> option string)) (s : MessageService) : MessageService :=
  message.mkService (message.m_messageStore s) repo (message.m_userToConn s) (message.m_retryRunning s)
    (message.m_retryIntervalMs s) (message.m_ackTimeoutMs s) (message.m_retryBackoffMs s) (message.m_maxRetryCount s)
    (message.m_retryBatchSize s) p2p broadcast.
Definition message_setSessionRepository (has : bool) (s : MessageService) : MessageService :=
  with_wiring has (message.m_p2pNotifyEncoder s) (message.m_broadcastNotifyEncoder s) s.
Definition setP2PNotifyEncoder (f : P2PMsgNotify -> option string) (s : MessageService) : MessageService :=
  with_wiring (message.m_sessionRepository s) (Some f) (message.m_broadcastNotifyEncoder s) s.
Definition setBroadcastNotifyEncoder (f : BroadcastMsgNotify -> option string) (s : MessageService) : MessageService :=
  with_wiring (message.m_sessionRepository s) (message.m_p2pNotifyEncoder s) (Some f) s.
End MessageSetters.

(** ** The calls of main *)
Section Main.
Context `{JsonLib} `{infra.Double} {St R P Fs : Type}
  `{IMessageStore St} `{auth.Redis R} `{auth.SessionRepository P}.
Variable out : Outside (St := St) (R := R) (P := P) (Fs := Fs).
Variable isConnected : R -> bool.
Hypothesis connected_client : forall f host port timeout r,
  redis out = Some f -> f host port timeout = (true, r) -> isConnected r = true.

Lemma boot_redis_connected o r : boot_redis out o = Some r -> isConnected r = true.
Proof.
  unfold boot_redis. destruct (redis out) as [f|] eqn:Ef; [|done]. destruct (redisEnabled o); [|done].
  destruct (f _ _ _) as [[] r'] eqn:Er; [|done]. intros [= <-]. by eapply connected_client.
Qed.

Definition wire_auth (o : Options) : auth.AuthService :=
  let s := auth.newAuth false false in
  let s := auth.setNodeId (o_nodeId o) s in
  let s := if (boot_sessions out o).1 then auth_setSessionRepository true s else s in
  match boot_redis out o with
  | Some r => auth.setSessionExpire (sessionExpire o) (auth_setRedisClient isConnected (Some r) s)
  | None => s
  end.

Definition wire_routing (o : Options) : auth.RoutingService (R := R) :=
  match boot_redis out o with
  | Some r => auth.setRouteTtlSeconds (routeTtlSeconds o) (routing_setNodeId (o_nodeId o) (routing_setRedisClient (Some r) newRouting))
  | None => newRouting
  end.

Definition wire_heartbeat (o : Options) : heartbeat.HeartbeatService :=
  let s := heartbeat.newHeartbeat (heartbeatTimeout o) (heartbeatInterval o) in
  let s := match boot_redis out o with Some r => heartbeat_setRedisClient isConnected (Some r) s | None => s end in
  let s := heartbeat.setNodeId (o_nodeId o) s in
  let s := heartbeat.setNodeAliveTtlSeconds (nodeAliveTtlSeconds o) s in
  let s := heartbeat.setConnectionGovernance (authTimeoutSeconds o) (idleTimeoutSeconds o) (slowConsumerKickSeconds o) s in
  let s := heartbeat_setKickCallback s in
  (heartbeat.start s).2.

Definition wire_message (o : Options) : message.MessageService (St := St) :=
  let s := message.setMessageStore (Some (boot_store out o)) message.newService in
  let s := message_setSessionRepository (boot_sessions out o).1 s in
  let s := message.setRetryConfig (reliableRetryIntervalMs o) (u64 (reliableRetryBatchSize o)) s in
  let s := message.setRetryPolicy (reliableAckTimeoutMs o) (reliableRetryBackoffMs o) (u32 (reliableMaxRetryCount o)) s in
  let s := setP2PNotifyEncoder (encodeP2PNotify (settings out o)) s in
  let s := setBroadcastNotifyEncoder (encodeBroadcastNotify (settings out o)) s in
  (message.start s).2.

(** The calls give the services the server is proved with. *)
Lemma wired_services o :
  wire_auth o = auth.auth (boot_auth out o) /\ wire_routing o = boot_routing out o
  /\ wire_heartbeat o = boot_heartbeat out o /\ wire_message o = message.svc (boot_message out o).
Proof.
  pose proof (boot_redis_connected o) as Hr. split; [|split; [|split]].
  - unfold wire_auth, boot_auth. destruct (boot_sessions out o) as [has p]. cbn [fst].
    destruct (boot_redis out o) as [r|]; [|by destruct has]. unfold auth_setRedisClient. cbn [usable].
    rewrite (Hr r eq_refl). by destruct has.
  - unfold wire_routing, boot_routing. by destruct (boot_redis out o).
  - unfold wire_heartbeat, boot_heartbeat. destruct (boot_redis out o) as [r|]; [|done].
    unfold heartbeat_setRedisClient. cbn [usable]. by rewrite (Hr r eq_refl).
  - done.
Qed.

End Main.

(** ** Signals *)
(** On thread [t]; [g_loop] is null until main has made the loop. *)
Definition SignalHandler (gettid : nat -> Z) (t : nat) (g_loop : bool) (w : loop_threads.World) : loop_threads.World :=
  if g_loop then loop_threads.quit gettid t w else w.

(** A signal on a thread that is not the loop's asks the loop to quit and wakes
    it. *)
Lemma signal_on_other_thread_wakes gettid threads me t w :
  current_thread.kernel_ids gettid threads ->
  (forall t u, t ∈ threads -> u ∈ threads -> gettid t = gettid u -> t = u) -> me ∈ threads -> t ∈ threads -> t <> me ->
  loop_threads.confined gettid threads me w ->
  let w' := SignalHandler gettid t true w in
  event_loop.m_quit (loop_threads.base w') = true /\ t ∈ loop_threads.waking w'.
Proof.
  intros Hk Hd Hme Ht Hne Hw w'. subst w'. unfold SignalHandler, loop_threads.quit.
  destruct (loop_threads.isInLoopThread_ok gettid threads me Hk Hd Hme t w Hw Ht) as (m & -> & _).
  rewrite bool_decide_eq_false_2 by done. cbn. split; [done|]. set_solver.
Qed.

(** ** The end of the basic server's main *)
(** No message service was started and there is no metrics server. *)
Definition basic_main_step (p : stop_order.Process) : option stop_order.Process :=
  match stop_order.at_ p with
  | stop_order.StopHeartbeat =>
    Some (stop_order.mkProcess stop_order.StopPool (stop_order.retry p) (stop_order.heart p) (stop_order.m_retryRunning p) false)
  | stop_order.StopPool =>
    Some (stop_order.mkProcess stop_order.Disconnect (stop_order.retry p) (stop_order.heart p)
            (stop_order.m_retryRunning p) (stop_order.m_running p))
  | stop_order.Disconnect =>
    Some (stop_order.mkProcess stop_order.Returned (stop_order.retry p) (stop_order.heart p)
            (stop_order.m_retryRunning p) (stop_order.m_running p))
  | _ => None
  end.

Definition basic_started (h : stop_order.thread) : stop_order.Process :=
  stop_order.mkProcess stop_order.StopHeartbeat stop_order.TEnd h false true.

(** Its main returns after three calls, whatever the heartbeat thread does, and
    leaves that thread behind as the full server does. *)
Lemma basic_stop_leaves_heartbeat h :
  exists p1 p2 p3, basic_main_step (basic_started h) = Some p1 /\ basic_main_step p1 = Some p2
    /\ basic_main_step p2 = Some p3 /\ stop_order.at_ p3 = stop_order.Returned /\ stop_order.heart p3 = h
    /\ stop_order.m_running p3 = false.
Proof. by do 3 eexists. Qed.

(** ** Small utilities *)
(** [usleep(ms * 1000)]: the argument in microseconds; [None]: the product of
    ints overflows, which is undefined. *)
Definition SleepMs (ms : Z) : option Z :=
  let us := ms * 1000 in
  if (- 2 ^ 31 <=? us) && (us <? 2 ^ 31) then Some (u32 us) else None.

Lemma SleepMs_spec ms :
  (0 <= ms <= 2147483 -> SleepMs ms = Some (ms * 1000)) /\ (2147483 < ms -> SleepMs ms = None).
Proof.
  unfold SleepMs. split; intros H.
  - rewrite (proj2 (Z.leb_le _ _)), (proj2 (Z.ltb_lt _ _)) by lia. cbn [andb]. unfold u32. rewrite Z.mod_small by lia. done.
  - rewrite (proj2 (Z.ltb_ge _ _)) by lia. by rewrite andb_false_r.
Qed.

(** A negative time is taken for a long one. *)
Lemma negative_sleep_is_long : SleepMs (-1) = Some 4294966296.
Proof. reflexivity. Qed.

(** The build switch HAVE_PROTOBUF, as Startup.v asks for it. *)
Definition protobufAvailable (lib : option ProtoLib) : bool := bool_decide (is_Some lib).

End wiring.
